(* ===== verification/_CoqProject ===== *)
-Q . S2P
Prelude.v
Numbers.v
Models.v
WorkerPool.v
Commands.v
Payloads.v
Entities.v
World.v
IntervalTimers.v
ScheduledTasks.v
VmSession.v
GuildHandler.v
Interactions.v
Dispatch.v
Scheduler.v
VmThread.v
Watchdog.v
ScriptStore.v
Modules.v
Vm.v
Isolate.v
VmWorker.v
Metrics.v
SimpleProto.v
Startup.v
Broker.v
Validation.v
Postgres.v
BucketStore.v
Storage.v
TimerStore.v
Tasks.v
ConfigStore.v
IntegrationTests.v
DbServer.v
ReadOnlyStore.v
Sessions.v
GuildLogger.v
StoreTraits.v
BotRpc.v
DiscordOps.v
Echo.v
StateApi.v
Jobs.v
Runtime.v
HttpClient.v
OauthClient.v
WebApi.v
Cors.v
WebSocket.v
BrokerClient.v
News.v
BlCmd.v
