(* ===== verification/Prelude.v ===== *)
(** * Botloader

    Botloader runs untrusted scripts for Discord guilds. This library models the parts of it
    that decide which code runs where and when, what scripts and users may do, and what is
    stored, and proves what keeps them correct.

    ** The program

    - The _broker_ ([cmd/discordbroker]) holds the gateway connections to Discord and forwards
      guild events to the scheduler, queueing them while none is connected.
    - The _scheduler_ ([cmd/scheduler]) starts one _guild handler_ task per guild with events.
      A handler owns a _vm session_, which claims a worker process from the _worker pool_ when
      there is something to run, dispatches events, scheduled tasks and interval timers to it,
      keeps track of what was acknowledged, and returns the worker when it has nothing pending
      or is broken. The _command manager_ collects the application commands of a guild's
      scripts and pushes them to Discord.
    - A _worker_ ([cmd/vmworker]) runs the vm of one guild at a time on a _vm thread_
      ([components/vmthread]). The _vm_ ([components/vm]) compiles, loads and evaluates the
      guild's scripts in V8 and dispatches events to them.
    - Scripts act through the _operations_ of [components/runtime]: a key-value storage with a
      quota, scheduled tasks, and Discord's API, confined to their guild. What they log and
      what goes wrong reaches the guild through the _guild logger_ ([components/guild-logger]).
    - The _stores_ ([components/stores]) keep scripts, plugins, settings, premium slots,
      timers, storage and login sessions, in Postgres or in memory.
    - The _web API_ ([cmd/webapi]) serves the front end: it logs users in over Discord's OAuth
      ([components/discordoauthwrapper]), lets them manage their guilds, plugins and sessions,
      and streams logs over websockets.
    - Broker, scheduler and workers talk over length-prefixed JSON ([components/simpleproto]);
      what users and scripts submit is checked by [components/validation]. The web API reaches
      the scheduler over gRPC ([components/botrpc]).
    - Beside these, a server for payment notifications ([cmd/dbserver]), a cleanup job
      ([cmd/jobs]), a command line client ([cmd/blcmd]), and integration tests
      ([cmd/prepare-integration-tests]).

    ** The files

    - [Prelude] (this file): panics ([outcome]), machine integers, vectors and removal by
      index, iteration order of hash maps ([HashOrder]), asynchronous code ([async]) with its
      program logic ([wp], [uses], [always], [Protocol] and [safe], [guarded], [tracked]), and
      tactics.
    - [Numbers]: numbers as texts, identifiers and casts, timestamps, image hashes.
    - [Models]: the data exchanged ([components/stores], [runtime-models], [guild-logger],
      [scheduler-worker-rpc]).
    - [Payloads], [Entities], [Interactions]: what scripts see of Discord ([runtime-models]):
      embeds, components and flags; users, members, roles, guilds, channels and messages;
      commands, components and modals; each with its conversions from and to twilight's types
      ([From], [RoundTrip], [Converts]).
    - [WorkerPool]: [cmd/scheduler/src/vmworkerpool.rs], and the system of sessions around it.
    - [Commands]: [command_manager.rs] and the conversions of [runtime-models].
    - [World]: the answers and calls of the code that runs per guild.
    - [IntervalTimers], [ScheduledTasks]: [interval_timer_manager.rs],
      [scheduled_task_manager.rs], and the interval conversion of the postgres timer store.
    - [VmSession], [GuildHandler]: [vm_session.rs], [guild_handler.rs].
    - [Dispatch]: [dispatch_conv.rs], the conversion of gateway events, in the handler.
    - [Scheduler]: [scheduler.rs], with the handler tasks and their channels.
    - [VmThread]: [components/isolatecell] and [components/vmthread].
    - [Watchdog]: the same thread in the steps between which its [runaway_checker] runs.
    - [ScriptStore], [Modules], [Vm]: [components/vm] ([lib.rs], [moduleloader.rs] and
      [error.rs]; imports; [vm.rs]).
    - [Isolate]: V8's stack of entered isolates under [components/isolatecell], the futures of
      [vm.rs] that enter one, and the heap limit.
    - [VmWorker], [Metrics]: [cmd/vmworker/src/main.rs]; [metrics_forwarder.rs], and what the
      scheduler counts of it.
    - [SimpleProto], [Broker], [Validation]: [components/simpleproto], [broker.rs],
      [components/validation].
    - [Startup]: how the workers come up and announce themselves ([worker_listener.rs],
      [scheduler/src/main.rs], [connect_scheduler]), and what is fetched from Discord first.
    - [Postgres]: what the stores rely on of the database: statements that fail, its clock,
      sequences, column types, ordered selections.
    - [BucketStore], [TimerStore], [ConfigStore], [Sessions]: the stores of
      [components/stores/src/postgres], and of [inmemory/web.rs], behind their traits.
    - [ReadOnlyStore]: [inmemory/readonly_configstore.rs], against [ConfigStore].
    - [StoreTraits]: the trait [ConfigStore] of [components/stores/src/config.rs] as a class,
      with the two stores as instances that keep its laws, and a client of it.
    - [DbServer]: [cmd/dbserver], over the config store.
    - [IntegrationTests]: [cmd/prepare-integration-tests], [integration_testing.rs], and the
      scheduler's wait for the tests.
    - [Storage], [Tasks], [DiscordOps]: the operations of scripts,
      [components/runtime/src/extensions] and [limits.rs], over those stores and Discord.
    - [Echo]: what becomes of a message that a script reads and writes back, through
      [Payloads], [Entities] and [DiscordOps].
    - [Runtime], [HttpClient]: the start of scripts, the console, and the http client with its
      streams ([components/runtime/src/lib.rs], [console.rs], [httpclient.rs]).
    - [StateApi]: the broker's state server and its client ([http_api.rs], [state_client.rs]).
    - [Jobs]: [cmd/jobs], over the stores and the state client.
    - [GuildLogger]: [components/guild-logger] with its backends, and the log stream of
      [rpc_server.rs].
    - [BotRpc]: the other calls of [rpc_server.rs] and [components/botrpc/src/client.rs], from
      the web server to the guild's handler, and the log as the client reads it.
    - [OauthClient], [WebApi], [WebSocket], [News]: [components/discordoauthwrapper] and
      [cmd/webapi].
    - [Cors]: the layers around the routes ([cors.rs], [mw_session.rs], the error handlers of
      [webapi/src/main.rs]).
    - [BrokerClient]: [broker_client.rs], and the composition with [Broker].
    - [BlCmd]: [cmd/blcmd].

    Structs are records and enums inductive types with the source's names; an operation keeps
    its name where no other component has the same one, and has a prefix of its component
    otherwise ([session_shutdown], [timers_next_action]). Setters of one field have no
    counterpart in the source. Log lines for operators and metrics are left out; log entries
    for the guild are calls.

    ** How behaviour is modelled

    Synchronous code is a function into [outcome], whose second value is a panic: a failed
    [unwrap] or index, [unreachable!], an integer overflow (the counters are modelled with
    overflow checks on). Code that awaits runs against a tape of answers of its environment
    and produces the calls it makes ([async]); a run completes, panics, or is suspended
    because the next answer is missing. Theorems quantify over the tape, so over everything
    stores, channels, clocks, worker processes and V8 can do. Loops ([iter]) are bounded by
    the length of the tape, which is enough because every round takes an answer
    ([iter_unfold] under [consuming]); [read_all] of [SimpleProto] is bounded by the length of
    its stream, of which every message takes at least four bytes, [list_pages] of
    [BucketStore] by the number of rows, and [run_task] of [GuildLogger] by [steps_left], for
    which the theorems show that it is enough; [wait_tests] of [IntegrationTests] is bounded by
    121 looks for each script expected and one more, within which it is shown to end, and
    [trim] of [BlCmd] by the length of its text. [wp] speaks about completed runs, [safe] about
    the calls made when a run is suspended or has panicked, and theorems that claim progress
    give the answers that lead to completion. Where what code may do depends on answers about
    the world (whose a session is, which guild a channel belongs to), these answers are
    events of the run, and [guarded] and [tracked] show that as long as they are true every
    call is permitted.

    The pool, the scheduler, the vm thread and its watchdog, the storage quota, the http client
    and the logger are shared by concurrent tasks: there the unit is one critical section,
    poll or stretch between two awaits, and theorems quantify over all reachable states of the
    system ([pool_run], [reachable], [storage_reachable], [log_reachable], [http_reachable],
    [system_run]) or over any number of polls ([thread_polls]). Where time matters it is a
    number in the state that a step of its own advances ([Watchdog], [HttpClient]).

    A table is a finite map from its primary key to rows, an SQL statement a function on
    tables, atomic, that fails when the database says so; integers have the width of their
    column, and instants its precision.

    Third-party code is an interface: chrono's date range and cron schedules ([Calendar]),
    serde_json ([Serde], [ContribCodec], [JsonLen], [TestJson]), the TypeScript compiler ([Compiler]),
    regular expressions and lower-casing ([Text], [StackRegex]), the cache of Discord's state
    ([GuildCache]), Postgres's collation and sizes ([Pg], [ColumnSize]), twilight's builders,
    hashes, texts and decoding ([Twilight], [Timestamps], [ImageHashes], [TwilightText],
    [MessageContent], [EventCodec], [StateJson]), urls and deno's resource table ([Urls],
    [ResourceTable]), the command line client's network and file ([Network], [Confy]), tokio's
    broadcast channel ([Broadcast]), the iteration order of hash maps ([HashOrder]), and, for
    the vm thread, the vms themselves ([VmInterface], instantiated by [Vm]). Laws that a
    theorem relies on are classes of their own ([CalendarLaws], [SerdeLaws], [BroadcastLaws],
    [ImageHashLaws], [UrlLaws], [ResourceTableLaws], [FloatLaws],
    [ConfyLaws]).

    ** What is proved

    - Pool: workers are neither lost nor duplicated, tier by tier; nobody waits while a worker
      that may serve it is idle; tiers are isolated; which worker is chosen; no panic; the
      workers started at first each get into the pool of their tier.
    - Scheduler: one handler per guild, events delivered in order and at most once across
      restarts, the queue is flushed when a handler ends, suspensions, no panic.
    - Broker and scheduler together: every guild event reaches the scheduler at least once and
      in order, over any failures of connections, except what the broker drops when no
      scheduler has been connected for a minute: exactly the events [lost_of] gives.
    - Handler and session: the worker protocol over the whole life of a handler, dispatching
      in spite of workers that fail before or while they are sent something, reloading,
      shutdown.
    - Timers and tasks: exactly the due ones run, acknowledgements reschedule or delete them;
      the tables stay well formed; a task is read back as it was scheduled, and one that is
      due is found, if the tables are as they were when its time was fetched.
    - Commands: merging and grouping lose nothing and give unique names; each is registered at
      its place unless a sub group has the name of a command beside it.
    - Vm, vm thread, worker: acknowledgements in order and what becomes of each
      acknowledged event, restarts, one vm at a time, and when a thread that is shut down ends:
      exactly if no vm is started by the commands that are ready with the shutdown.
    - Stores: the bucket store refines a map with expiring cells, all its operations included; paging is complete; guilds
      are isolated; no stored row makes the config store panic; the two session stores agree,
      up to five differences that [amended_store] spells out;
      both config stores keep the laws of their trait; a batch of payments is stored up to the
      first one refused.
    - Storage quota: how many writes pass between two checks, those that waited for one
      included, and how far the quota can be exceeded; a full storage stays closed until something is deleted.
    - Discord operations: a script reaches only its own guild; which errors are counted, and
      when a vm's count suspends the guild.
    - Logger: every backend sees every entry in order, streams are contiguous, the queue is
      drained unless a malformed report of an integration test ends the task.
    - Web API: requests and websocket connections do only what their user may do; the layers
      change neither what is asked nor what is answered, allow exactly the origins they should,
      and let a preflight reach no route; a restart reaches the guild's handler over the RPC
      if it takes commands, and the log its reader without a gap.
    - Tools: the wait for the integration tests ends, and what its success means; a login of
      the command line client keeps only a token the API accepts.
    - Discord's data: on which events the conversions panic, and that the others reach the
      scripts; which command an interaction runs; what a script writes back is what it read;
      the state client sees the broker's cache.
    - Runaway scripts and isolates: a vm that blocks its thread is stopped within two
      intervals, and only such a vm; isolates are entered and left in V8's order by programs
      with one cell per thread; the heap limit is raised once.
    - Runtime: only valid scripts start, imports between scripts, streams of the http client.
    - Jobs: which guilds are marked as left, whose buckets, tasks, timers and rows are deleted,
      and that scripts, settings and slots stay.
    - Protocol, validation: round trip, the accepted inputs.
    - Defects of the code, as theorems about it: a session's [Complete] makes its handler
      panic; its shutdown spins while a task is due; waiting for shutdown restarts handlers; a
      shutdown that comes with the start of a vm is lost; a timer that is due without a worker
      fires twice; a plugin that is added is not stored; updating a script loses its commands;
      a far-away task time panics; incrementing a JSON value loses it; some forbidden requests
      are not counted; a broken OAuth client revokes later logins; unsubscribing from a log
      keeps it and drops all others; a late pong ends the detection of runaways; an event with
      an unknown part ends its handler with its worker; an import that cannot be joined panics;
      a guild that rejoins while the job runs loses its data; one test that reports twice hides
      another, and a report that does not decode ends the log; an error of the session store
      cannot be read by the front end; a client without TLS has no valid URL; a news guild
      without channels keeps the web server from starting; a slot's owner restarts any guild's vm;
      a reload is lost while the handler stops; a worker that connects too early is never used;
      the isolate cell is unsound with two cells or a forgotten guard.

    ** What is not modelled

    Argument parsing and the construction of the parts from it, binding and accepting sockets,
    tracing and the metrics layers, the gRPC stubs, the TypeScript compiler (a call of swc), V8
    and the assembly of a runtime's options and extensions, and the delays of the rate limiters
    are third-party code or calls of it with no state of the program's own; the traits of the
    timer, bucket and session stores have their methods modelled in their implementations. The
    front end and the editor extension are not Rust. *)
From stdpp Require Import base gmap sets list strings sorting.
From Stdlib Require Import ZArith Lia.

Declare Scope bl_scope.
Delimit Scope bl_scope with bl.
Open Scope Z_scope.
Open Scope bl_scope.

(** * Outcomes of running Rust code *)

(** A synchronous call returns a value or panics. *)
Inductive outcome (A : Type) : Type :=
| Ret (a : A)
| Panic.
Arguments Ret {A} a.
Arguments Panic {A}.

Definition outcome_bind {A B} (m : outcome A) (k : A → outcome B) : outcome B :=
  match m with
  | Ret a => k a
  | Panic => Panic
  end.

(** [Option::unwrap], [Option::expect] and indexing. *)
Definition unwrap {A} (o : option A) : outcome A :=
  match o with
  | Some a => Ret a
  | None => Panic
  end.

Notation "'do!' x := m 'in' k" := (outcome_bind m (λ x, k))
  (at level 10, x pattern, m at level 100, k at level 200) : bl_scope.

(** [Result<T, E>] *)
Inductive result (E A : Type) : Type :=
| Ok (a : A)
| Err (e : E).
Arguments Ok {E A} a.
Arguments Err {E A} e.

#[global] Instance outcome_eq_dec `{EqDecision A} : EqDecision (outcome A).
Proof. solve_decision. Defined.
#[global] Instance result_eq_dec `{EqDecision E, EqDecision A} : EqDecision (result E A).
Proof. solve_decision. Defined.

(** [iter().map(Into::into).collect()] with a conversion that may panic. *)
Section map_outcome.
Context {A B : Type} (f : A → outcome B).

Fixpoint map_outcome (l : list A) : outcome (list B) :=
  match l with
  | [] => Ret []
  | x :: l => do! y := f x in do! ys := map_outcome l in Ret (y :: ys)
  end.

Lemma map_outcome_ok l :
  (∀ x, x ∈ l → ∃ y, f x = Ret y) → ∃ ys, map_outcome l = Ret ys ∧ Forall2 (λ x y, f x = Ret y) l ys.
Proof.
  intros Hf. induction l as [|x l IH]; simpl; [eauto|].
  destruct (Hf x) as [y Hy]; [by constructor|]. destruct IH as (ys & Hys & Hall); [intros; apply Hf; by constructor|].
  rewrite Hy. simpl. rewrite Hys. simpl. eauto.
Qed.
End map_outcome.

(** * Machine integers *)

Definition u64_max : Z := 2 ^ 64 - 1.
Definition u32_max : Z := 2 ^ 32 - 1.
Definition i64_max : Z := 2 ^ 63 - 1.
Definition i64_min : Z := - 2 ^ 63.

(** [v as i64] for a [u64] [v]: the same 64 bits read as two's complement. *)
Definition u64_as_i64 (v : Z) : Z := if v <=? i64_max then v else v - 2 ^ 64.

(** [x += 1] on a [u64] in a build with overflow checks. *)
Definition u64_incr (v : Z) : outcome Z := if v <? u64_max then Ret (v + 1) else Panic.

(** * Durations and instants, in nanoseconds *)

Definition nanos_per_sec : Z := 1000000000.
Definition from_secs (s : Z) : Z := s * nanos_per_sec.

(** [Instant::elapsed] saturates at zero when the clock reads earlier than [since]. *)
Definition elapsed (now since : Z) : Z := Z.max 0 (now - since).

(** * Vectors *)

Section vec.
Context {A : Type}.
Implicit Types (l : list A) (p : A → bool).

(** [v.remove(i)]: [None] is the panic on an index out of range. *)
Definition vec_remove (i : nat) (l : list A) : option (A * list A) :=
  match l !! i with
  | Some x => Some (x, take i l ++ drop (S i) l)
  | None => None
  end.

(** [v.swap_remove(i)]: the last element takes the place of the removed one. *)
Definition vec_swap_remove (i : nat) (l : list A) : option (A * list A) :=
  match l !! i, last l with
  | Some x, Some y => Some (x, take (length l - 1) (<[i := y]> l))
  | _, _ => None
  end.

(** [iter().enumerate().find(p).map(|(i, _)| i)] *)
Fixpoint find_index (p : A → bool) (l : list A) : option nat :=
  match l with
  | [] => None
  | x :: l' => if p x then Some 0%nat else S <$> find_index p l'
  end.

(** [iter().find(p)] *)
Fixpoint find_first (p : A → bool) (l : list A) : option A :=
  match l with
  | [] => None
  | x :: l' => if p x then Some x else find_first p l'
  end.

(** [iter_mut().find(p)] followed by an update through the reference. *)
Fixpoint update_first (p : A → bool) (f : A → A) (l : list A) : list A :=
  match l with
  | [] => []
  | x :: l' => if p x then f x :: l' else x :: update_first p f l'
  end.

Lemma find_index_Some p l i :
  find_index p l = Some i →
  ∃ x, l !! i = Some x ∧ p x = true ∧ ∀ j y, (j < i)%nat → l !! j = Some y → p y = false.
Proof.
  revert i; induction l as [|x l IH]; intros i; simpl; [done|].
  destruct (p x) eqn:Hp.
  - intros [= <-]. exists x. split_and!; [done..|]. lia.
  - destruct (find_index p l) as [k|] eqn:Hk; simpl; [|done]. intros [= <-].
    destruct (IH k eq_refl) as (y & Hy & Hpy & Hlt). exists y. split_and!; [done..|].
    intros [|j] z Hj Hz; simpl in Hz; [congruence|]. eapply Hlt; [|done]. lia.
Qed.

Lemma find_index_None p l : find_index p l = None ↔ Forall (λ x, p x = false) l.
Proof.
  induction l as [|x l IH]; simpl; [done|].
  rewrite Forall_cons. destruct (p x); [naive_solver|].
  rewrite <- IH. destruct (find_index p l); naive_solver.
Qed.

Lemma find_first_Some p l x : find_first p l = Some x → x ∈ l ∧ p x = true.
Proof.
  induction l as [|y l IH]; simpl; [done|].
  destruct (p y) eqn:Hp; [intros [= ->]; split; [constructor|done]|].
  intros H. destruct (IH H). split; [by constructor|done].
Qed.

Lemma find_first_None p l : find_first p l = None ↔ Forall (λ x, p x = false) l.
Proof.
  induction l as [|x l IH]; simpl; [done|].
  rewrite Forall_cons. destruct (p x); naive_solver.
Qed.

Lemma find_first_unique p l i x :
  l !! i = Some x → p x = true → (∀ j y, l !! j = Some y → p y = true → j = i) → find_first p l = Some x.
Proof.
  revert i. induction l as [|z l IH]; intros i Hx Hp Hu; simpl; [done|].
  destruct (p z) eqn:Hz.
  - specialize (Hu 0%nat z eq_refl Hz). subst i. done.
  - destruct i as [|i]; [simpl in Hx; congruence|]. apply (IH i); [done..|].
    intros j y Hy Hpy. specialize (Hu (S j) y Hy Hpy). lia.
Qed.

Lemma vec_remove_Some i l x l' :
  vec_remove i l = Some (x, l') →
  l !! i = Some x ∧ l' = take i l ++ drop (S i) l ∧ l ≡ₚ x :: l'.
Proof.
  unfold vec_remove. destruct (l !! i) as [y|] eqn:Hy; [|done]. intros [= -> <-].
  split_and!; [done..|]. rewrite <- (take_drop_middle l i x Hy) at 1.
  by rewrite Permutation_middle.
Qed.

Lemma vec_remove_in_range i l x : l !! i = Some x → is_Some (vec_remove i l).
Proof. unfold vec_remove. intros ->. eauto. Qed.

Lemma vec_swap_remove_Some i l x l' :
  vec_swap_remove i l = Some (x, l') → l !! i = Some x ∧ l ≡ₚ x :: l'.
Proof.
  unfold vec_swap_remove. destruct (l !! i) as [z|] eqn:Hx; [|done].
  destruct (last l) as [y|] eqn:Hl; [|done]. intros [= -> <-]. split; [done|].
  apply last_Some in Hl as [l0 ->].
  rewrite length_app. simpl. replace (length l0 + 1 - 1)%nat with (length l0) by lia.
  destruct (decide (i < length l0)%nat) as [Hi|Hi].
  - rewrite lookup_app_l in Hx by done. rewrite insert_app_l by done.
    rewrite take_app_length' by (by rewrite length_insert).
    rewrite (insert_take_drop l0 i y) by done.
    rewrite <- (take_drop_middle l0 i x Hx) at 1.
    solve_Permutation.
  - assert (i = length l0) as -> by (apply lookup_lt_Some in Hx; rewrite length_app in Hx; simpl in Hx; lia).
    rewrite list_lookup_middle in Hx by done. injection Hx as ->.
    rewrite insert_app_r_alt by lia. rewrite Nat.sub_diag. simpl.
    rewrite take_app_length. solve_Permutation.
Qed.

Lemma update_first_Forall (P : A → Prop) p f l :
  Forall P l → (∀ x, P x → P (f x)) → Forall P (update_first p f l).
Proof. intros HP Hf. induction HP; simpl; [done|]. destruct (p x); auto. Qed.

Lemma length_update_first p f l : length (update_first p f l) = length l.
Proof. induction l as [|x l IH]; simpl; [done|]. destruct (p x); simpl; auto. Qed.

(** An update that keeps a projection keeps the list of projections. *)
Lemma map_update_first {B} (g : A → B) p f l :
  (∀ x, g (f x) = g x) → map g (update_first p f l) = map g l.
Proof.
  intros Hg. induction l as [|x l IH]; simpl; [done|].
  destruct (p x); simpl; by rewrite ?Hg, ?IH.
Qed.

Lemma find_first_update_first p f l x :
  find_first p l = Some x → p (f x) = true → find_first p (update_first p f l) = Some (f x).
Proof.
  induction l as [|y l IH]; simpl; [done|]. destruct (p y) eqn:Hp; simpl.
  - intros [= ->] ->. done.
  - rewrite Hp. auto.
Qed.
End vec.

(** ** Removing the matching elements through their indices

    [iter().enumerate().filter_map(..)] for the indices, [reverse] so that a removal does not
    invalidate the others, and one [remove] per index. *)
Section drain.
Context {A : Type}.
Implicit Types (l : list A) (p : A → bool).

Definition enumerate l : list (nat * A) := zip (seq 0 (length l)) l.

Definition matching_indexes p l : list nat :=
  omap (λ iv : nat * A, if p iv.2 then Some iv.1 else None) (enumerate l).

(** The removed elements in the order of the removals, and what is left. *)
Fixpoint remove_each (indexes : list nat) l : outcome (list A * list A) :=
  match indexes with
  | [] => Ret ([], l)
  | i :: indexes =>
      do! (x, l) := unwrap (vec_remove i l) in
      do! (xs, l) := remove_each indexes l in
      Ret (x :: xs, l)
  end.

Lemma matching_indexes_snoc p l x :
  matching_indexes p (l ++ [x]) = matching_indexes p l ++ (if p x then [length l] else []).
Proof.
  unfold matching_indexes, enumerate. rewrite length_app, seq_app. simpl.
  rewrite zip_with_app by by rewrite length_seq. rewrite omap_app. simpl. by destruct (p x).
Qed.

Lemma remove_each_app indexes l xs rest tail :
  remove_each indexes l = Ret (xs, rest) → remove_each indexes (l ++ tail) = Ret (xs, rest ++ tail).
Proof.
  revert l xs rest. induction indexes as [|i indexes IH]; intros l xs rest; simpl; [by intros [= <- <-]|].
  unfold vec_remove. destruct (l !! i) as [x|] eqn:Hx; [|done]. simpl.
  pose proof (lookup_lt_Some _ _ _ Hx). rewrite lookup_app_l, Hx by done. simpl.
  rewrite take_app_le, drop_app_le, app_assoc by lia.
  destruct (remove_each indexes _) as [[xs' rest']|] eqn:Hr; [|done]. simpl. intros [= <- <-].
  by rewrite (IH _ _ _ Hr).
Qed.

(** The removals never go out of range, and amount to a partition by [p]. *)
Lemma remove_matching p l :
  remove_each (rev (matching_indexes p l)) l =
  Ret (rev (List.filter p l), List.filter (λ x, negb (p x)) l).
Proof.
  induction l as [|x l IH] using rev_ind; [done|].
  rewrite matching_indexes_snoc, rev_app_distr, !List.filter_app, rev_app_distr. simpl.
  destruct (p x); simpl.
  - unfold vec_remove. rewrite list_lookup_middle by done. simpl.
    rewrite take_app_length, drop_ge by (rewrite length_app; simpl; lia). rewrite !app_nil_r, IH. done.
  - by apply remove_each_app.
Qed.
End drain.

(** * Hash map iteration

    [HashMap] iterates in an unspecified order: the code that does is written against
    [HashOrder], any choice of order, and the theorems hold for all of them. *)
Class HashOrder (K : Type) `{Countable K} := {
  hiter : ∀ {V}, gmap K V → list (K * V);
  hiter_perm : ∀ {V} (m : gmap K V), hiter m ≡ₚ map_to_list m;
}.

(** The order of [map_to_list], to run the code on examples. *)
Definition list_order {K} `{Countable K} : HashOrder K :=
  {| hiter V m := map_to_list m; hiter_perm V m := reflexivity _ |}.

Lemma elem_of_hiter `{HashOrder K} {V} (m : gmap K V) k v : (k, v) ∈ hiter m ↔ m !! k = Some v.
Proof. rewrite hiter_perm. apply elem_of_map_to_list. Qed.

Lemma NoDup_hiter `{HashOrder K} {V} (m : gmap K V) : NoDup (hiter m).*1.
Proof. rewrite hiter_perm. apply NoDup_fst_map_to_list. Qed.

(** * Async code

    An [async fn] runs against the answers of its environment: a tape of [Resp] (clock
    readings, store results, received messages, outcomes of channel sends), consumed in the
    order the code asks, and it produces the sequence of [Ev] of its outgoing calls. When the
    next answer is missing, or is not an answer to what the code awaits, the code stays
    suspended. *)
Section async.
Context {Resp Ev : Type}.

Inductive run (A : Type) : Type :=
| Done (a : A) (rest : list Resp) (tr : list Ev)
| Panicked (tr : list Ev)
| Suspended (tr : list Ev).
Arguments Done {A} a rest tr.
Arguments Panicked {A} tr.
Arguments Suspended {A} tr.

Definition async (A : Type) : Type := list Resp → run A.

Definition prepend {A} (tr : list Ev) (r : run A) : run A :=
  match r with
  | Done a rest tr' => Done a rest (tr ++ tr')
  | Panicked tr' => Panicked (tr ++ tr')
  | Suspended tr' => Suspended (tr ++ tr')
  end.

Definition aret {A} (a : A) : async A := λ tape, Done a tape [].

Definition abind {A B} (m : async A) (k : A → async B) : async B := λ tape,
  match m tape with
  | Done a rest tr => prepend tr (k a rest)
  | Panicked tr => Panicked tr
  | Suspended tr => Suspended tr
  end.

Definition emit (e : Ev) : async unit := λ tape, Done tt tape [e].
Definition apanic {A} : async A := λ _, Panicked [].

(** Awaits an answer of the kind [f] recognizes. *)
Definition await {A} (f : Resp → option A) : async A := λ tape,
  match tape with
  | r :: rest => match f r with Some a => Done a rest [] | None => Suspended [] end
  | [] => Suspended []
  end.

Definition lift {A} (o : outcome A) : async A :=
  match o with
  | Ret a => aret a
  | Panic => apanic
  end.

(** [select!] between an answer that [f] recognizes and a computation that only reads: the
    answer wins when it is there first. *)
Definition race {A B} (f : Resp → option A) (m : async B) : async (A + B) := λ tape,
  let other := abind m (λ b, aret (inr b)) in
  match tape with
  | r :: rest => match f r with Some a => Done (inl a) rest [] | None => other tape end
  | [] => other tape
  end.

(** [loop { .. }]: [inl] continues with a new state, [inr] breaks. The number of rounds is
    bounded by the length of the tape, which is enough when every round that continues
    consumes an answer ([iter_unfold]). *)
Fixpoint iter_fuel {St A} (n : nat) (body : St → async (St + A)) (s : St) : async A :=
  match n with
  | O => λ _, Suspended []
  | S n' => abind (body s) (λ r, match r with inl s' => iter_fuel n' body s' | inr a => aret a end)
  end.

Definition iter {St A} (body : St → async (St + A)) (s : St) : async A :=
  λ tape, iter_fuel (S (length tape)) body s tape.

Definition consuming {St A} (body : St → async (St + A)) : Prop :=
  ∀ s tape s' rest tr, body s tape = Done (inl s') rest tr → (length rest < length tape)%nat.

Fixpoint afold {A St} (f : St → A → async St) (l : list A) (s : St) : async St :=
  match l with
  | [] => aret s
  | x :: l' => abind (f s x) (λ s', afold f l' s')
  end.

Lemma prepend_nil {A} (r : run A) : prepend [] r = r.
Proof. by destruct r. Qed.

Lemma prepend_app {A} tr tr' (r : run A) : prepend (tr ++ tr') r = prepend tr (prepend tr' r).
Proof. destruct r; simpl; by rewrite app_assoc. Qed.

Lemma abind_ret {A B} (a : A) (k : A → async B) tape : abind (aret a) k tape = k a tape.
Proof. apply prepend_nil. Qed.

Lemma abind_lift {A B} (a : A) (k : A → async B) tape : abind (lift (Ret a)) k tape = k a tape.
Proof. apply prepend_nil. Qed.

Lemma abind_emit {B} e (k : unit → async B) tape : abind (emit e) k tape = prepend [e] (k tt tape).
Proof. done. Qed.

Lemma abind_await {A B} (f : Resp → option A) (k : A → async B) r a tape :
  f r = Some a → abind (await f) k (r :: tape) = k a tape.
Proof. intros Hf. unfold abind, await. rewrite Hf. apply prepend_nil. Qed.

Lemma abind_assoc {A B C} (m : async A) (k : A → async B) (k' : B → async C) tape :
  abind (abind m k) k' tape = abind m (λ a, abind (k a) k') tape.
Proof.
  unfold abind. destruct (m tape) as [a rest tr| |]; [|done..]. simpl.
  destruct (k a rest) as [b rest' tr'| |]; simpl; [|done..]. by rewrite prepend_app.
Qed.

Lemma iter_fuel_enough {St A} (body : St → async (St + A)) s n m tape :
  consuming body → (length tape < n)%nat → (length tape < m)%nat →
  iter_fuel n body s tape = iter_fuel m body s tape.
Proof.
  intros Hc. revert s m tape. induction n as [|n IH]; intros s m tape Hn Hm; [lia|].
  destruct m as [|m]; [lia|]. simpl. unfold abind.
  destruct (body s tape) as [[s'|a] rest tr| |] eqn:Hb; try done.
  f_equal. pose proof (Hc _ _ _ _ _ Hb). apply IH; lia.
Qed.

(** The loop is its body followed by the loop: the fuel is never what stops it. *)
Lemma iter_unfold {St A} (body : St → async (St + A)) s tape :
  consuming body →
  iter body s tape =
  abind (body s) (λ r, match r with inl s' => iter body s' | inr a => aret a end) tape.
Proof.
  intros Hc. unfold iter at 1. simpl. unfold abind.
  destruct (body s tape) as [[s'|a] rest tr| |] eqn:Hb; try done.
  f_equal. unfold iter. pose proof (Hc _ _ _ _ _ Hb). by apply iter_fuel_enough; [|lia..].
Qed.

(** ** Progress: how many answers a computation that completes has taken *)

Definition uses {A} (n : nat) (m : async A) : Prop :=
  ∀ tape a rest tr, m tape = Done a rest tr → (length rest + n ≤ length tape)%nat.

Lemma uses_ret {A} (a : A) : uses 0 (aret a).
Proof. intros tape b rest tr [= _ <- _]. lia. Qed.

Lemma uses_emit e : uses 0 (emit e).
Proof. intros tape b rest tr [= _ <- _]. lia. Qed.

Lemma uses_panic {A} n : uses n (@apanic A).
Proof. by intros tape b rest tr. Qed.

Lemma uses_lift {A} (o : outcome A) : uses 0 (lift o).
Proof. destruct o; [apply uses_ret|apply uses_panic]. Qed.

Lemma uses_await {A} (f : Resp → option A) : uses 1 (await f).
Proof.
  intros [|r tape] b rest tr; unfold await; [done|]. destruct (f r); [|done]. intros [= _ <- _]. simpl. lia.
Qed.

Lemma uses_bind {A B} n k (m : async A) (f : A → async B) :
  uses n m → (∀ a, uses k (f a)) → uses (n + k) (abind m f).
Proof.
  intros Hm Hf tape b rest tr. unfold abind. destruct (m tape) as [a rest1 tr1| |] eqn:H1; [|done..].
  apply Hm in H1. destruct (f a rest1) as [b' rest2 tr2| |] eqn:H2; [|done..]. apply Hf in H2.
  intros [= _ <- _]. lia.
Qed.

Lemma uses_weaken {A} n k (m : async A) : uses n m → (k ≤ n)%nat → uses k m.
Proof. intros Hm Hk tape a rest tr H. apply Hm in H. lia. Qed.

Lemma uses_iter {St A} (body : St → async (St + A)) s : (∀ s, uses 0 (body s)) → uses 0 (iter body s).
Proof.
  intros Hb tape a rest tr. unfold iter. generalize (S (length tape)) as n. intros n. revert s tape a rest tr.
  induction n as [|n IH]; intros s tape a rest tr; simpl; [done|]. unfold abind.
  destruct (body s tape) as [[s'|a'] rest1 tr1| |] eqn:H1; try done; apply Hb in H1.
  - destruct (iter_fuel n body s' rest1) as [b rest2 tr2| |] eqn:H2; try done. apply IH in H2.
    intros [= _ <- _]. lia.
  - intros [= _ <- _]. lia.
Qed.

Lemma uses_afold {A St} (f : St → A → async St) l s : (∀ s x, uses 0 (f s x)) → uses 0 (afold f l s).
Proof.
  intros Hf. revert s. induction l as [|x l IH]; intros s; simpl; [apply uses_ret|].
  by apply (uses_bind 0 0).
Qed.

Lemma uses_consuming {St A} (body : St → async (St + A)) : (∀ s, uses 1 (body s)) → consuming body.
Proof. intros Hb s tape s' rest tr H. apply Hb in H. lia. Qed.

(** ** Weakest preconditions

    [wp p m Q]: whatever the environment answers, if [m] completes then [Q] holds of its
    result and of the calls it made; it may panic only if [p]. *)
Definition wp {A} (p : Prop) (m : async A) (Q : A → list Ev → Prop) : Prop :=
  ∀ tape, match m tape with
          | Done a _ tr => Q a tr
          | Panicked _ => p
          | Suspended _ => True
          end.

Lemma wp_ret {A} p (a : A) Q : Q a [] → wp p (aret a) Q.
Proof. intros HQ tape. done. Qed.

Lemma wp_bind {A B} p (m : async A) (k : A → async B) Q :
  wp p m (λ a tr, wp p (k a) (λ b tr', Q b (tr ++ tr'))) → wp p (abind m k) Q.
Proof.
  intros H tape. specialize (H tape). unfold abind. destruct (m tape) as [a rest tr| |]; try done.
  specialize (H rest). destruct (k a rest); done.
Qed.

Lemma wp_mono {A} (p p' : Prop) (m : async A) Q Q' :
  wp p m Q → (p → p') → (∀ a tr, Q a tr → Q' a tr) → wp p' m Q'.
Proof. intros H Hp HQ tape. specialize (H tape). destruct (m tape); auto. Qed.

Lemma wp_and {A} p (m : async A) Q Q' : wp p m Q → wp p m Q' → wp p m (λ a tr, Q a tr ∧ Q' a tr).
Proof. intros H H' tape. specialize (H tape). specialize (H' tape). destruct (m tape); auto. Qed.

Lemma wp_emit p e Q : Q tt [e] → wp p (emit e) Q.
Proof. intros HQ tape. done. Qed.

Lemma wp_panic {A} (p : Prop) Q : p → wp p (@apanic A) Q.
Proof. intros Hp tape. done. Qed.

Lemma wp_await {A} p (f : Resp → option A) Q :
  (∀ r a, f r = Some a → Q a []) → wp p (await f) Q.
Proof.
  intros HQ [|r tape]; simpl; [done|]. unfold await. destruct (f r) eqn:Hf; [|done]. eauto.
Qed.

Lemma wp_race {A B} p (f : Resp → option A) (m : async B) Q :
  (∀ r a, f r = Some a → Q (inl a) []) → wp p m (λ b tr, Q (inr b) tr) → wp p (race f m) Q.
Proof.
  intros Hf Hm tape. specialize (Hm tape). unfold race, abind.
  destruct tape as [|r rest].
  - destruct (m []); simpl; by rewrite ?app_nil_r.
  - destruct (f r) eqn:Hr; [by eapply Hf|]. destruct (m (r :: rest)); simpl; by rewrite ?app_nil_r.
Qed.

Lemma wp_lift {A} p (o : outcome A) Q :
  match o with Ret a => Q a [] | Panic => p end → wp p (lift o) Q.
Proof. destruct o; intros H; [by apply wp_ret|by apply wp_panic]. Qed.

(** Loops, by an invariant of the state and of the calls made so far. *)
Lemma wp_iter {St A} p (body : St → async (St + A)) (I : St → list Ev → Prop) Q s :
  I s [] →
  (∀ s tr, I s tr → wp p (body s) (λ r tr',
     match r with inl s' => I s' (tr ++ tr') | inr a => Q a (tr ++ tr') end)) →
  wp p (iter body s) Q.
Proof.
  intros HI Hb tape. unfold iter. generalize (S (length tape)). intros n.
  assert (∀ n s tr tape, I s tr → match prepend tr (iter_fuel n body s tape) with
    | Done a _ tr => Q a tr | Panicked _ => p | Suspended _ => True end) as Hgen.
  { clear -Hb. induction n as [|n IH]; intros s tr tape HI; simpl; [done|].
    specialize (Hb s tr HI tape). unfold abind.
    destruct (body s tape) as [[s'|a] rest tr'| |]; try done; simpl.
    - rewrite <- prepend_app. by apply IH.
    - by rewrite app_nil_r. }
  specialize (Hgen n s [] tape HI). by rewrite prepend_nil in Hgen.
Qed.

Lemma wp_afold {A St} p (f : St → A → async St) (I : list A → St → list Ev → Prop) Q l s :
  I l s [] →
  (∀ x l' s tr, I (x :: l') s tr → wp p (f s x) (λ s' tr', I l' s' (tr ++ tr'))) →
  (∀ s tr, I [] s tr → Q s tr) →
  wp p (afold f l s) Q.
Proof.
  intros HI Hf HQ. revert HI.
  assert (∀ tr s, I l s tr → wp p (afold f l s) (λ s' tr', Q s' (tr ++ tr'))) as Hgen.
  { induction l as [|x l IH]; intros tr s0 HI; simpl.
    - apply wp_ret. rewrite app_nil_r. auto.
    - apply wp_bind. eapply wp_mono; [by apply Hf|done|]. simpl. intros s' tr' HI'.
      eapply wp_mono; [by apply IH|done|]. simpl. intros s'' tr''. by rewrite app_assoc. }
  intros HI. eapply wp_mono; [by apply (Hgen [])|done|]. done.
Qed.
(** ** Calls of runs that do not complete

    [always p m]: whatever the environment answers and wherever [m] stops, every call it has
    made satisfies [p]. *)
Definition trace_of {A} (r : run A) : list Ev :=
  match r with
  | Done _ _ tr => tr
  | Panicked tr => tr
  | Suspended tr => tr
  end.

Definition always {A} (p : Ev → Prop) (m : async A) : Prop := ∀ tape, Forall p (trace_of (m tape)).

Lemma trace_prepend {A} tr (r : run A) : trace_of (prepend tr r) = tr ++ trace_of r.
Proof. by destruct r. Qed.

Lemma always_wp {A} p (m : async A) : always p m → wp True m (λ _ tr, Forall p tr).
Proof. intros H tape. specialize (H tape). by destruct (m tape). Qed.

Lemma always_ret {A} p (a : A) : always p (aret a).
Proof. intros tape. constructor. Qed.

Lemma always_panic {A} p : always p (@apanic A).
Proof. intros tape. constructor. Qed.

Lemma always_lift {A} p (o : outcome A) : always p (lift o).
Proof. destruct o; [apply always_ret|apply always_panic]. Qed.

Lemma always_emit (p : Ev → Prop) e : p e → always p (emit e).
Proof. intros He tape. by apply Forall_singleton. Qed.

Lemma always_await {A} p (f : Resp → option A) : always p (await f).
Proof. intros [|r tape]; [constructor|]. unfold await. destruct (f r); constructor. Qed.

Lemma always_bind {A B} p (m : async A) (k : A → async B) :
  always p m → (∀ a, always p (k a)) → always p (abind m k).
Proof.
  intros Hm Hk tape. specialize (Hm tape). unfold abind. destruct (m tape) as [a rest tr| |]; [|done..].
  rewrite trace_prepend. apply Forall_app. split; [exact Hm|apply Hk].
Qed.

Lemma always_race {A B} p (f : Resp → option A) (m : async B) : always p m → always p (race f m).
Proof.
  intros Hm. pose proof (always_bind p m (λ b, aret (@inr A B b)) Hm (λ _, always_ret p _)) as Hb.
  intros [|r tape]; unfold race; [apply Hb|]. destruct (f r); [constructor|apply Hb].
Qed.

Lemma always_iter {St A} p (body : St → async (St + A)) s : (∀ s, always p (body s)) → always p (iter body s).
Proof.
  intros Hb tape. unfold iter. generalize (S (length tape)) as n. intros n. revert s tape.
  induction n as [|n IH]; intros s; simpl; [constructor|].
  apply always_bind; [apply Hb|]. intros [s'|a]; [exact (IH s')|apply always_ret].
Qed.

Lemma always_afold {A St} p (f : St → A → async St) l s : (∀ s x, always p (f s x)) → always p (afold f l s).
Proof.
  intros Hf. revert s. induction l as [|x l IH]; intros s; simpl; [apply always_ret|].
  by apply always_bind.
Qed.

(** A protocol says which calls may follow which, over a state [Σ]; [safe σ m]: the calls [m]
    has made when it is suspended or panics are within the protocol from [σ]. Completed runs
    are the subject of [wp]. *)
Class Protocol (Σ : Type) := {
  legal : Σ → list Ev → Σ → Prop;
  legal_refl : ∀ σ, legal σ [] σ;
  legal_trans : ∀ σ tr σ' tr' σ'', legal σ tr σ' → legal σ' tr' σ'' → legal σ (tr ++ tr') σ'';
}.

Section safe.
Context `{Protocol Σ}.

(** The calls so far, and what comes after them. *)
Definition within (σ : Σ) {A} (r : run A) : Prop :=
  match r with
  | Done _ _ _ => True
  | Panicked tr => ∃ σ', legal σ tr σ'
  | Suspended tr => ∃ σ', legal σ tr σ'
  end.

Definition safe (σ : Σ) {A} (m : async A) : Prop := ∀ tape, within σ (m tape).

Lemma within_prepend {A} σ tr σ1 (r : run A) : legal σ tr σ1 → within σ1 r → within σ (prepend tr r).
Proof.
  intros Hl. destruct r; simpl; [done|..]; intros [σ' Hs']; exists σ'; by eapply legal_trans.
Qed.

Lemma safe_from {A} σ σ1 (m : async A) : legal σ [] σ1 → safe σ1 m → safe σ m.
Proof. intros Hl Hm tape. rewrite <- prepend_nil. eapply within_prepend; [exact Hl|apply Hm]. Qed.

Lemma safe_ret {A} σ (a : A) : safe σ (aret a).
Proof. by intros tape. Qed.

Lemma safe_emit σ e : safe σ (emit e).
Proof. by intros tape. Qed.

Lemma safe_panic {A} σ : safe σ (@apanic A).
Proof. intros tape. exists σ. apply legal_refl. Qed.

Lemma safe_lift {A} σ (o : outcome A) : safe σ (lift o).
Proof. destruct o; [apply safe_ret|apply safe_panic]. Qed.

Lemma safe_await {A} σ (f : Resp → option A) : safe σ (await f).
Proof.
  intros [|r tape]; unfold await; [exists σ; apply legal_refl|].
  destruct (f r); [done|]. exists σ. apply legal_refl.
Qed.

Lemma safe_always {A} σ p (m : async A) :
  (∀ tr, Forall p tr → legal σ tr σ) → always p m → safe σ m.
Proof. intros Hp Hm tape. specialize (Hm tape). destruct (m tape); simpl in *; eauto. Qed.

Lemma safe_bind {A B} σ (m : async A) (k : A → async B) :
  safe σ m → wp True m (λ a tr, ∃ σ1, legal σ tr σ1 ∧ safe σ1 (k a)) → safe σ (abind m k).
Proof.
  intros Hm Hk tape. specialize (Hm tape). specialize (Hk tape). unfold abind.
  destruct (m tape) as [a rest tr| |]; [|done..]. destruct Hk as (σ1 & Hl & Hk).
  by eapply within_prepend.
Qed.

(** The last operation of a function returns a value made from its result. *)
Lemma safe_map {A B} σ (m : async A) (f : A → B) : safe σ m → safe σ (abind m (λ a, aret (f a))).
Proof. intros Hm tape. specialize (Hm tape). unfold abind. by destruct (m tape). Qed.

(** Loops, by a relation [I] between the loop's state and the protocol's. *)
Lemma safe_iter {St A} (I : St → Σ → Prop) (body : St → async (St + A)) x σ :
  I x σ → (∀ x σ, I x σ → safe σ (body x)) →
  (∀ x σ, I x σ → wp True (body x) (λ r tr,
     match r with inl x' => ∃ σ', legal σ tr σ' ∧ I x' σ' | inr _ => True end)) →
  safe σ (iter body x).
Proof.
  intros HI Hs Hw tape. unfold iter. generalize (S (length tape)) as n. intros n. revert x σ HI tape.
  induction n as [|n IH]; intros x σ HI tape; simpl; [exists σ; apply legal_refl|].
  specialize (Hs x σ HI tape). specialize (Hw x σ HI tape). unfold abind.
  destruct (body x tape) as [[x'|a] rest tr| |]; [|done..]. destruct Hw as (σ' & Hl & HI').
  eapply within_prepend; [exact Hl|]. by apply IH.
Qed.

Lemma safe_afold {A St} (I : St → Σ → Prop) (f : St → A → async St) l x σ :
  I x σ → (∀ x σ a, I x σ → safe σ (f x a)) →
  (∀ x σ a, I x σ → wp True (f x a) (λ x' tr, ∃ σ', legal σ tr σ' ∧ I x' σ')) →
  safe σ (afold f l x).
Proof.
  intros HI Hs Hw. revert x σ HI. induction l as [|a l IH]; intros x σ HI; simpl; [apply safe_ret|].
  apply safe_bind; [by apply Hs|]. eapply wp_mono; [by apply Hw|done|].
  intros x' tr (σ' & Hl & HI'). exists σ'. split; [done|by apply IH].
Qed.
End safe.
(** ** Calls that depend on true answers

    [guarded h g m Q]: wherever [m] stops, if the events it has recorded satisfy [h] then they
    all satisfy [g], and so does its result [Q] if it completes. *)
Definition guarded {A} (h g : Ev → Prop) (m : async A) (Q : A → Prop) : Prop := ∀ tape,
  Forall h (trace_of (m tape)) →
  Forall g (trace_of (m tape)) ∧ match m tape with Done a _ _ => Q a | _ => True end.

Section guarded.
Context (h g : Ev → Prop).

Lemma guarded_ret {A} (a : A) (Q : A → Prop) : Q a → guarded h g (aret a) Q.
Proof. intros HQ tape _. by split; [constructor|]. Qed.

Lemma guarded_emit e (Q : unit → Prop) : (h e → g e ∧ Q tt) → guarded h g (emit e) Q.
Proof. intros He tape [H1 _]%Forall_cons. destruct (He H1). by split; [apply Forall_singleton|]. Qed.

Lemma guarded_await {A} (f : Resp → option A) : guarded h g (await f) (λ _, True).
Proof. intros [|r tape] _; unfold await; [by split; [constructor|]|]. destruct (f r); by split; [constructor|]. Qed.

Lemma guarded_lift {A} (o : outcome A) : guarded h g (lift o) (λ _, True).
Proof. destruct o; intros tape _; by split; [constructor|]. Qed.

Lemma guarded_bind {A B} (m : async A) (k : A → async B) P Q :
  guarded h g m P → (∀ a, P a → guarded h g (k a) Q) → guarded h g (abind m k) Q.
Proof.
  intros Hm Hk tape. specialize (Hm tape). unfold abind.
  destruct (m tape) as [a rest tr|tr|tr]; simpl in *; [|naive_solver..].
  rewrite trace_prepend. intros [H1 H2]%Forall_app. destruct (Hm H1) as [Hi HP]. specialize (Hk a HP rest H2) as [Hi' HQ].
  split; [by apply Forall_app|]. by destruct (k a rest).
Qed.

Lemma guarded_mono {A} (m : async A) (P Q : A → Prop) : guarded h g m P → (∀ a, P a → Q a) → guarded h g m Q.
Proof. intros Hm HPQ tape Hh. destruct (Hm tape Hh) as [Hi HP]. split; [done|]. destruct (m tape); auto. Qed.

Lemma guarded_always {A} (m : async A) (p g' : Ev → Prop) (Q : A → Prop) :
  guarded h g m Q → always p m → (∀ e, g e → p e → g' e) → guarded h g' m Q.
Proof.
  intros Hm Hp Hg tape Hh. destruct (Hm tape Hh) as [Hgs HQ]. split; [|done]. specialize (Hp tape).
  rewrite Forall_forall in *. naive_solver.
Qed.

Lemma guarded_iter {St A} (body : St → async (St + A)) (I : St → Prop) (Q : A → Prop) s :
  I s → (∀ s, I s → guarded h g (body s) (λ r, match r with inl s' => I s' | inr a => Q a end)) →
  guarded h g (iter body s) Q.
Proof.
  intros HI Hb tape. unfold iter. generalize (S (length tape)) as n. intros n. revert s HI tape.
  induction n as [|n IH]; intros s HI; [by intros tape _; split; [constructor|]|].
  apply (guarded_bind (body s) _ _ _ (Hb s HI)). intros [s'|a] Hr; [exact (IH s' Hr) | by apply guarded_ret].
Qed.
End guarded.

(** ** Calls that depend on what came before

    As [guarded], where what is assumed and shown of an event depends on a state that the events
    before it have produced. *)
Section tracked.
Context {Σ : Type} (upd : Σ → Ev → Σ) (h g : Σ → Ev → Prop).

Fixpoint along (p : Σ → Ev → Prop) (σ : Σ) (tr : list Ev) : Prop :=
  match tr with
  | [] => True
  | e :: tr => p σ e ∧ along p (upd σ e) tr
  end.

Definition after (σ : Σ) (tr : list Ev) : Σ := foldl upd σ tr.

Definition tracked {A} (σ : Σ) (m : async A) (Q : A → Σ → Prop) : Prop := ∀ tape,
  along h σ (trace_of (m tape)) →
  along g σ (trace_of (m tape)) ∧ match m tape with Done a _ tr => Q a (after σ tr) | _ => True end.

Lemma along_app p σ tr tr' : along p σ (tr ++ tr') ↔ along p σ tr ∧ along p (after σ tr) tr'.
Proof. revert σ. induction tr as [|e tr IH]; intros σ; simpl; [tauto|]. rewrite IH. tauto. Qed.

Lemma along_fixed p σ tr : Forall (λ e, upd σ e = σ) tr → (along p σ tr ↔ Forall (p σ) tr) ∧ after σ tr = σ.
Proof.
  induction 1 as [|e tr He _ [IH Ha]]; simpl; [done|]. rewrite He. split; [|done]. rewrite IH, Forall_cons. done.
Qed.

Lemma along_const (p : Ev → Prop) σ tr : along (λ _, p) σ tr ↔ Forall p tr.
Proof. revert σ. induction tr as [|e tr IH]; intros σ; simpl; [done|]. by rewrite IH, Forall_cons. Qed.

Lemma tracked_ret {A} σ (a : A) (Q : A → Σ → Prop) : Q a σ → tracked σ (aret a) Q.
Proof. by intros HQ tape _. Qed.

Lemma tracked_emit σ e (Q : unit → Σ → Prop) : (h σ e → g σ e ∧ Q tt (upd σ e)) → tracked σ (emit e) Q.
Proof. intros He tape [H1 _]. destruct (He H1). done. Qed.

Lemma tracked_await {A} σ (f : Resp → option A) (Q : A → Σ → Prop) :
  (∀ r a, f r = Some a → Q a σ) → tracked σ (await f) Q.
Proof. intros HQ [|r tape] _; unfold await; [done|]. destruct (f r) eqn:?; [|done]. split; [done | by eapply HQ]. Qed.

Lemma tracked_panic {A} σ (Q : A → Σ → Prop) : tracked σ apanic Q.
Proof. by intros tape _. Qed.

Lemma tracked_bind {A B} σ (m : async A) (k : A → async B) P Q :
  tracked σ m P → (∀ a σ', P a σ' → tracked σ' (k a) Q) → tracked σ (abind m k) Q.
Proof.
  intros Hm Hk tape. specialize (Hm tape). unfold abind. destruct (m tape) as [a rest tr|tr|tr]; simpl in *; [|naive_solver..].
  rewrite trace_prepend, !along_app. intros [H1 H2]. destruct (Hm H1) as [Hi HP]. specialize (Hk a _ HP rest H2) as [Hi' HQ].
  split; [done|]. destruct (k a rest); simpl; [|done..]. unfold after in *. by rewrite foldl_app.
Qed.

Lemma tracked_mono {A} σ (m : async A) (P Q : A → Σ → Prop) :
  tracked σ m P → (∀ a σ', P a σ' → Q a σ') → tracked σ m Q.
Proof. intros Hm HPQ tape Hh. destruct (Hm tape Hh) as [Hi HP]. split; [done|]. destruct (m tape); auto. Qed.

Lemma tracked_iter {St A} (I : St → Σ → Prop) (body : St → async (St + A)) (Q : A → Σ → Prop) s σ :
  I s σ → (∀ s σ, I s σ → tracked σ (body s) (λ r σ', match r with inl s' => I s' σ' | inr a => Q a σ' end)) →
  tracked σ (iter body s) Q.
Proof.
  intros HI Hb tape. unfold iter. generalize (S (length tape)) as n. intros n. revert s σ HI tape.
  induction n as [|n IH]; intros s σ HI; [by intros tape _|].
  apply (tracked_bind _ (body s) _ _ _ (Hb s σ HI)). intros [s'|a] σ' Hr; [exact (IH s' σ' Hr) | by apply tracked_ret].
Qed.

(** Code whose events leave the state alone. *)
Lemma tracked_guarded {A} σ (m : async A) (Q : A → Prop) :
  guarded (h σ) (g σ) m Q → always (λ e, upd σ e = σ) m → tracked σ m (λ a σ', σ' = σ ∧ Q a).
Proof.
  intros Hm Ha tape. specialize (Hm tape). destruct (along_fixed h σ _ (Ha tape)) as [Hh _].
  destruct (along_fixed g σ _ (Ha tape)) as [Hg Haft]. rewrite Hh, Hg. intros Hf. destruct (Hm Hf) as [Hgs HQ].
  split; [done|]. by destruct (m tape).
Qed.
End tracked.

(** ** Fallible code

    [m?] followed by [k]. *)
Definition abindr {E A B} (m : async (result E A)) (k : A → async (result E B)) : async (result E B) :=
  abind m (λ r, match r with Ok a => k a | Err e => aret (Err e) end).

Definition on_ok {E A} (P : A → Prop) (r : result E A) : Prop :=
  match r with
  | Ok a => P a
  | Err _ => True
  end.

Lemma guarded_bindr {E A B} h g (m : async (result E A)) (k : A → async (result E B)) P Q :
  guarded h g m (on_ok P) → (∀ a, P a → guarded h g (k a) (on_ok Q)) → guarded h g (abindr m k) (on_ok Q).
Proof. intros Hm Hk. eapply guarded_bind; [exact Hm|]. intros [a|e] HP; [by apply Hk | by apply guarded_ret]. Qed.

Lemma tracked_bindr {Σ E A B} (upd : Σ → Ev → Σ) h g σ (m : async (result E A)) (k : A → async (result E B)) P Q :
  tracked upd h g σ m P → (∀ a σ', P (Ok a) σ' → tracked upd h g σ' (k a) Q) → (∀ e σ', P (Err e) σ' → Q (Err e) σ') →
  tracked upd h g σ (abindr m k) Q.
Proof.
  intros Hm Hk He. eapply tracked_bind; [exact Hm|]. intros [a|e] σ' HP; [by apply Hk | by apply tracked_ret, He].
Qed.
End async.

Arguments Done {Resp Ev A} a rest tr.
Arguments Panicked {Resp Ev A} tr.
Arguments Suspended {Resp Ev A} tr.
Arguments run : clear implicits.
Arguments async : clear implicits.
Arguments Protocol : clear implicits.
Arguments tracked {Resp Ev Σ} upd h g {A} σ m Q.

Notation "'let!' x := m 'in' k" := (abind m (λ x, k))
  (at level 10, x pattern, m at level 100, k at level 200) : bl_scope.
Notation "'try!' x := m 'in' k" := (abindr m (λ x, k))
  (at level 10, x pattern, m at level 100, k at level 200) : bl_scope.
Notation "m ';;;' k" := (abind m (λ _, k)) (at level 100, k at level 200, right associativity) : bl_scope.

Create HintDb wpdb.
#[export] Hint Resolve wp_ret wp_emit : wpdb.

(** One symbolic execution step of an [async] program. *)
Ltac wp_step :=
  match goal with
  | |- wp _ (abind _ _) _ => apply wp_bind
  | |- wp _ (aret _) _ => apply wp_ret
  | |- wp _ (emit _) _ => apply wp_emit
  | |- wp _ (match ?x with _ => _ end) _ => destruct x eqn:?
  | |- wp _ (if ?x then _ else _) _ => destruct x eqn:?
  end.

(** Counts the answers a program takes, by its structure. *)
Ltac uses_tac :=
  repeat first
    [ apply uses_ret | apply uses_emit | apply uses_await | apply uses_lift | apply uses_panic
    | (apply (uses_weaken 1 0); [apply uses_await|lia])
    | (apply uses_iter; intros) | (apply uses_afold; intros)
    | match goal with
      | |- uses 0 (abind _ _) => apply (uses_bind 0 0); [|intros]
      | |- uses _ (match ?x with _ => _ end) => destruct x
      end ].

(** Follows the structure of a program whose calls all satisfy a predicate. *)
Ltac always_tac :=
  repeat first
    [ apply always_ret | apply always_await | apply always_lift | apply always_panic
    | apply always_emit; exact I
    | apply always_bind; [|intros]
    | apply always_race
    | apply always_iter; intros | apply always_afold; intros
    | match goal with
      | |- always _ (match ?x with _ => _ end) => destruct x
      | |- always _ (if ?x then _ else _) => destruct x
      end ].
