(* ===== verification/Numbers.v ===== *)
(** Numbers and their text, as the program writes and reads them: the standard library's
    [to_string] and [str::parse] for unsigned integers, twilight's identifiers, which are non-zero
    [u64]s, casts between integer widths and the milliseconds of a timestamp. *)
From stdpp Require Import base list strings pretty.
From Stdlib Require Import Ascii.
From S2P Require Import Prelude.

Definition u64_text (n : Z) : string := pretty (Z.to_N n).

Definition digit_value (c : Ascii.ascii) : option Z :=
  let n := Z.of_N (Ascii.N_of_ascii c) in
  if (48 <=? n) && (n <=? 57) then Some (n - 48) else None.

(** The loop of [u64::from_str]: a character that is no digit and an overflow are errors. *)
Fixpoint parse_digits (acc : Z) (s : string) : option Z :=
  match s with
  | EmptyString => Some acc
  | String c s =>
      d ← digit_value c;
      let acc := acc * 10 + d in
      if acc <=? u64_max then parse_digits acc s else None
  end.

(** [str::parse::<u64>]: one leading plus sign is allowed, the empty text is not. *)
Definition parse_u64 (s : string) : option Z :=
  match s with
  | EmptyString => None
  | String c s' => if bool_decide (c = "+"%char) then (if bool_decide (s' = "") then None else parse_digits 0 s') else parse_digits 0 s
  end.

(** [Id::new_checked] *)
Definition new_checked (n : Z) : option Z := if n =? 0 then None else Some n.

Definition parse_id (s : string) : option Z := n ← parse_u64 s; new_checked n.

(** An identifier. *)
Definition is_id (n : Z) : Prop := 0 < n ≤ u64_max.

(** * Reading back what was written *)

Lemma digit_value_char x : (x < 10)%N → digit_value (pretty_N_char x) = Some (Z.of_N x).
Proof.
  intros Hx. assert (x = 0 ∨ x = 1 ∨ x = 2 ∨ x = 3 ∨ x = 4 ∨ x = 5 ∨ x = 6 ∨ x = 7 ∨ x = 8 ∨ x = 9)%N as Hc by lia.
  repeat (destruct Hc as [->|Hc]; [reflexivity|]). subst. reflexivity.
Qed.

Lemma parse_digits_pretty x s : Z.of_N x ≤ u64_max → parse_digits 0 (pretty_N_go x s) = parse_digits (Z.of_N x) s.
Proof.
  revert s. induction (N.lt_wf_0 x) as [x _ IH]. intros s Hx. destruct (decide (x = 0)%N) as [->|Hne]; [by rewrite pretty_N_go_0|].
  rewrite pretty_N_go_step by lia. pose proof (N.div_mod x 10 ltac:(lia)) as Hdm. pose proof (N.mod_lt x 10 ltac:(lia)) as Hm.
  set (q := (x `div` 10)%N) in *. set (r := (x `mod` 10)%N) in *.
  rewrite IH; [|lia|lia]. cbn [parse_digits]. rewrite digit_value_char by done. simpl.
  replace (Z.of_N q * 10 + Z.of_N r) with (Z.of_N x) by lia. destruct (Z.leb_spec (Z.of_N x) u64_max); [done|lia].
Qed.

Lemma parse_u64_digits s n : s ≠ "" → parse_digits 0 s = Some n → parse_u64 s = Some n.
Proof.
  destruct s as [|c s]; [done|]. intros _ Hp. unfold parse_u64. case_bool_decide as Hc; [|done]. subst c. discriminate Hp.
Qed.

Lemma parse_u64_text n : 0 ≤ n ≤ u64_max → parse_u64 (u64_text n) = Some n.
Proof.
  intros Hn. destruct (decide (n = 0)) as [->|Hne]; [reflexivity|].
  assert (parse_digits 0 (u64_text n) = Some n) as Hp.
  { unfold u64_text, pretty, pretty_N. rewrite decide_False by lia. rewrite parse_digits_pretty by lia. simpl. by rewrite Z2N.id by lia. }
  apply parse_u64_digits; [|done]. intros He. rewrite He in Hp. by injection Hp as <-.
Qed.

Lemma parse_id_text n : is_id n → parse_id (u64_text n) = Some n.
Proof.
  intros [H0 H1]. unfold parse_id. rewrite parse_u64_text by lia. simpl. unfold new_checked. by destruct (Z.eqb_spec n 0); [lia|].
Qed.

(** * Casts *)

(** [v as i32], [v as u64] of an [i32], [v as u64] of an [i64]. *)
Definition as_i32 (v : Z) : Z := (v + 2 ^ 31) mod 2 ^ 32 - 2 ^ 31.
Definition as_u64 (v : Z) : Z := v mod 2 ^ 64.

Lemma as_i32_u64 v : 0 ≤ v < 2 ^ 31 → as_u64 (as_i32 v) = v.
Proof. intros Hv. unfold as_u64, as_i32. rewrite (Z.mod_small (v + _)) by lia. rewrite Z.mod_small; lia. Qed.

(** * Timestamps *)

(** [twilight_model::util::Timestamp] by its microseconds since the epoch; which of them are
    in its range is twilight's. *)
Class Timestamps := { ts_in_range : Z → bool }.

(** [NotBigU64(ts.as_micros() as u64 / 1000)] *)
Definition ts_millis (micros : Z) : Z := as_u64 micros / 1000.

Lemma ts_millis_exact ms : 0 ≤ ms → ms * 1000 ≤ i64_max → ts_millis (ms * 1000) = ms.
Proof. intros H0 H1. unfold ts_millis, as_u64, i64_max in *. rewrite Z.mod_small by lia. apply Z.div_mul. lia. Qed.

(** * Image hashes *)

(** [twilight_model::util::ImageHash]: a type with a textual form. *)
Class ImageHashes := {
  ImageHash : Type;
  hash_to_string : ImageHash → string;
  hash_from_str : string → option ImageHash;
}.

(** Documented: parsing the text of a hash gives the hash, and the text is not empty. *)
Class ImageHashLaws (I : ImageHashes) : Prop := {
  hash_roundtrip : ∀ h : ImageHash, hash_from_str (hash_to_string h) = Some h;
  hash_nonempty : ∀ h : ImageHash, hash_to_string h ≠ "";
}.
