(* ===== verification/Models.v ===== *)
(** Data shared by the components: the store's rows ([components/stores]), the metadata a
    script reports when it starts ([components/runtime-models]), Discord's application
    commands, log entries ([components/guild-logger]) and the messages exchanged between the
    scheduler and a worker process ([components/scheduler-worker-rpc]).

    Discord ids ([Id<GuildMarker>] and the like, non-zero [u64]) are integers, instants and
    dates are nanoseconds, and an [f64] is the 64-bit pattern it is stored as. *)
From stdpp Require Import base gmap list strings.
From S2P Require Import Prelude.

Notation GuildId := Z (only parsing).

Record f64 := F64 { f64_bits : Z }.
#[global] Instance f64_eq_dec : EqDecision f64.
Proof. solve_decision. Defined.

(** [serde_json::Value]; an object is the list of its members. *)
Inductive JsonNumber :=
| PosInt (n : Z)
| NegInt (n : Z)
| JFloat (x : f64).

Inductive JsonValue :=
| JNull
| JBool (b : bool)
| JNumber (n : JsonNumber)
| JString (s : string)
| JArray (l : list JsonValue)
| JObject (l : list (string * JsonValue)).

(** * components/stores/src/config.rs *)

Inductive PremiumSlotTier := Lite | Premium.
#[global] Instance PremiumSlotTier_eq_dec : EqDecision PremiumSlotTier.
Proof. solve_decision. Defined.

Definition is_higher_than (self other : PremiumSlotTier) : bool :=
  match self, other with
  | Premium, Lite => true
  | _, _ => false
  end.

Inductive PremiumSlotState := Active | Cancelling | Cancelled | PaymentFailed.

Record PremiumSlot := mkPremiumSlot {
  slot_id : Z;
  slot_title : string;
  slot_user_id : option Z;
  slot_message : string;
  slot_source : string;
  slot_source_id : string;
  slot_tier : PremiumSlotTier;
  slot_state : PremiumSlotState;
  slot_created_at : Z;
  slot_updated_at : Z;
  slot_expires_at : Z;
  slot_manage_url : string;
  slot_attached_guild_id : option Z;
}.

(** * components/stores/src/timers.rs *)

Inductive IntervalType :=
| Minutes (m : Z)
| Cron (c : string).
#[global] Instance IntervalType_eq_dec : EqDecision IntervalType.
Proof. solve_decision. Defined.

Record IntervalTimer := mkIntervalTimer {
  it_name : string;
  it_interval : IntervalType;
  it_last_run : Z;
}.

Record ScheduledTask := mkScheduledTask {
  st_id : Z;
  st_name : string;
  st_unique_key : option string;
  st_data : JsonValue;
  st_execute_at : Z;
}.

Record IntervalTimerContrib := mkIntervalTimerContrib {
  itc_name : string;
  itc_interval : IntervalType;
}.

(** * Discord application commands ([twilight_model::application::command])

    The fields are those this repository builds or reads. Localizations, autocomplete,
    choices, length bounds, permissions, version and application id are only ever set to
    their default here and copied with the whole value, and are left out. *)

Inductive TwCommandType := TwChatInput | TwUserCommand | TwMessageCommand | TwUnknownCommand (k : Z).

Inductive TwOptionType :=
| TwSubCommand | TwSubCommandGroup
| TwString | TwInteger | TwBoolean | TwUser | TwChannel | TwRole | TwMentionable | TwNumber
| TwAttachmentOption | TwUnknownOption (k : Z).
#[global] Instance TwOptionType_eq_dec : EqDecision TwOptionType.
Proof. solve_decision. Defined.

Inductive TwChannelType :=
| TwGuildText | TwGuildVoice | TwGuildCategory | TwGuildAnnouncement | TwGuildStageVoice
| TwAnnouncementThread | TwPublicThread | TwPrivateThread | TwGuildDirectory | TwGuildForum
| TwGroup | TwPrivate
| TwUnknownChannel (k : Z).

Inductive TwOptionValue :=
| TwIntegerValue (i : Z)
| TwNumberValue (x : f64).

Inductive TwCommandOption := mkTwOption {
  opt_name : string;
  opt_description : string;
  opt_kind : TwOptionType;
  opt_required : option bool;
  opt_options : option (list TwCommandOption);
  opt_channel_types : option (list TwChannelType);
  opt_min_value : option TwOptionValue;
  opt_max_value : option TwOptionValue;
}.

Record TwCommand := mkTwCommand {
  cmd_name : string;
  cmd_description : string;
  cmd_kind : TwCommandType;
  cmd_guild_id : option Z;
  cmd_options : list TwCommandOption;
}.

(** * components/stores/src/config.rs: scripts *)

Record ScriptContributes := mkContributes {
  contrib_commands : list TwCommand;
  contrib_interval_timers : list IntervalTimerContrib;
}.

Record Script := mkScript {
  script_id : Z;
  script_name : string;
  original_source : string;
  script_enabled : bool;
  script_contributes : ScriptContributes;
  script_plugin_id : option Z;
  script_plugin_auto_update : option bool;
}.

(** * components/runtime-models/src/internal/script.rs *)

Inductive CommandType := Chat | UserCommand | MessageCommand.

Inductive ChannelType :=
| ChText | ChVoice | ChCategory | ChNews | ChStore | ChStageVoice | ChNewsThread
| ChPublicThread | ChPrivateThread | ChGuildDirectory | ChForum
| ChUnknown (k : Z).

Inductive CommandOptionType :=
| CoString | CoInteger | CoBoolean | CoUser | CoChannel | CoRole | CoMentionable | CoNumber.

Record ExtraCommandOptions := mkExtra {
  ex_min_value : option f64;
  ex_max_value : option f64;
  ex_channel_types : option (list ChannelType);
}.

Record CommandOption := mkCommandOption {
  co_name : string;
  co_description : string;
  co_kind : CommandOptionType;
  co_required : bool;
  co_extra_options : ExtraCommandOptions;
}.

Record Command := mkCommand {
  c_name : string;
  c_description : string;
  c_options : list CommandOption;
  c_group : option string;
  c_sub_group : option string;
  c_kind : CommandType;
}.

Record CommandSubGroup := mkSubGroup {
  sg_name : string;
  sg_description : string;
}.

Record CommandGroup := mkGroup {
  cg_name : string;
  cg_description : string;
  cg_sub_groups : list CommandSubGroup;
}.

Record ScriptIntervalTimer := mkScriptTimer {
  sit_name : string;
  sit_interval : IntervalType;
}.

Record ScriptMeta := mkScriptMeta {
  sm_description : string;
  sm_script_id : Z;
  sm_commands : list Command;
  sm_command_groups : list CommandGroup;
  sm_interval_timers : list ScriptIntervalTimer;
  sm_task_names : list string;
}.

(** * components/guild-logger/src/entry.rs *)

Inductive LogLevel := LCritical | LError | LWarn | LInfo | LConsoleLog.

Record ScriptContext := mkScriptContext {
  sc_filename : string;
  sc_line_col : option (Z * Z);
}.

Record LogEntry := mkLogEntry {
  le_guild_id : Z;
  le_message : string;
  le_script_context : option ScriptContext;
  le_level : LogLevel;
}.

Definition log_critical (g : Z) (msg : string) : LogEntry := mkLogEntry g msg None LCritical.
Definition log_error (g : Z) (msg : string) : LogEntry := mkLogEntry g msg None LError.
Definition log_info (g : Z) (msg : string) : LogEntry := mkLogEntry g msg None LInfo.

(** * components/scheduler-worker-rpc/src/lib.rs *)

Inductive ShutdownReason := Runaway | OutOfMemory | OtherReason | TooManyInvalidRequestsReason.
#[global] Instance ShutdownReason_eq_dec : EqDecision ShutdownReason.
Proof. solve_decision. Defined.

Record CreateScriptsVmReq := mkCreateVm {
  cv_seq : Z;
  cv_premium_tier : option PremiumSlotTier;
  cv_guild_id : Z;
  cv_scripts : list Script;
}.

Record VmDispatchEvent := mkDispatch {
  de_name : string;
  de_seq : Z;
  de_value : JsonValue;
}.

Inductive SchedulerMessage :=
| Dispatch (e : VmDispatchEvent)
| CreateScriptsVm (r : CreateScriptsVmReq)
| Complete
| MsgShutdown.

Inductive GaugeEvent := GaugeSet (x : f64) | GaugeIncr (x : f64).
Inductive CounterEvent := CounterIncr (n : Z) | CounterAbsolute (n : Z).
Inductive MetricEvent := Gauge (g : GaugeEvent) | Counter (c : CounterEvent).

Inductive WorkerMessage :=
| Ack (seq : Z)
| WmShutdown (reason : ShutdownReason)
| ScriptStarted (meta : ScriptMeta)
| ScriptsInit
| NonePending
| TaskScheduled
| GuildLog (entry : LogEntry)
| Hello (id : Z)
| Metric (name : string) (m : MetricEvent) (labels : list (string * string)).
