(* ===== verification/WorkerPool.v ===== *)
(** The pool of vm worker processes ([cmd/scheduler/src/vmworkerpool.rs]).

    [PoolInner] is the state behind the pool's mutex. A [WorkerHandle] keeps the fields the
    pool reads; the child process and the two channel ends it owns are identified by
    [worker_id]. The sending half of a queued request's oneshot channel is a ticket, and
    [alive] says whether the receiving half of a ticket still exists. Clock readings are
    arguments: the scan for the least recently used worker reads the clock once per worker,
    so it takes a sequence of readings.

    [pool_step] is the system around the pool: requests, returns, connections and spawns in
    any order, with the handles currently owned by vm sessions and the tasks waiting on a
    ticket. *)
From stdpp Require Import base gmap sets list sorting.
From S2P Require Import Prelude Models.

(** * State *)

Inductive WorkerRetrieved := SameGuild | OtherGuild.
#[global] Instance WorkerRetrieved_eq_dec : EqDecision WorkerRetrieved.
Proof. solve_decision. Defined.

Definition MAX_PREMIUM_SLOT_TIER : nat := 2.

Record WorkerHandle := mkWorkerHandle {
  last_active_guild : option Z;
  returned_at : Z;
  claimed_at : Z;
  worker_id : Z;
  priority_index : nat;
}.
#[global] Instance WorkerHandle_eq_dec : EqDecision WorkerHandle.
Proof. solve_decision. Defined.

Record PendingWorkerHandle := mkPending {
  pw_worker_id : Z;
  pw_priority_index : nat;
}.

Record PoolInner := mkPool {
  worker_id_gen : Z;
  pending_starts : gmap Z PendingWorkerHandle;
  pools : list (list WorkerHandle);
  req_queues : list (list nat);
}.

Definition set_pools (st : PoolInner) (ps : list (list WorkerHandle)) : PoolInner :=
  mkPool (worker_id_gen st) (pending_starts st) ps (req_queues st).
Definition set_queues (st : PoolInner) (qs : list (list nat)) : PoolInner :=
  mkPool (worker_id_gen st) (pending_starts st) (pools st) qs.
Definition set_pending (st : PoolInner) (p : gmap Z PendingWorkerHandle) : PoolInner :=
  mkPool (worker_id_gen st) p (pools st) (req_queues st).
Definition set_gen (st : PoolInner) (g : Z) : PoolInner :=
  mkPool g (pending_starts st) (pools st) (req_queues st).

(** * Operations *)

Definition pool_new : PoolInner := mkPool 1 ∅ (replicate 3 []) (replicate 3 []).

Definition premium_tier_index (tier : option PremiumSlotTier) : nat :=
  match tier with
  | None => 0
  | Some Lite => 1
  | Some Premium => 2
  end.

Definition has_last_guild (g : Z) (w : WorkerHandle) : bool :=
  match last_active_guild w with
  | Some g' => bool_decide (g' = g)
  | None => false
  end.

(** First loop of [inner_get_worker]: a worker that last ran the same guild, in the
    requester's tier or a lower one. *)
Fixpoint scan_same_guild (g : Z) (ps : list (list WorkerHandle)) (i : nat)
    : outcome (option (WorkerHandle * list (list WorkerHandle))) :=
  do! pool := unwrap (ps !! i) in
  match find_index (has_last_guild g) pool with
  | Some k =>
      do! (w, pool') := unwrap (vec_remove k pool) in
      Ret (Some (w, <[i := pool']> ps))
  | None =>
      match i with
      | O => Ret None
      | S i' => scan_same_guild g ps i'
      end
  end.

(** The fold over one pool: [k] counts the clock readings, [cand] is the candidate's index
    with its age. *)
Fixpoint lru_loop (clk : nat → Z) (k : nat) (cand : option (nat * Z)) (l : list WorkerHandle)
    : option (nat * Z) :=
  match l with
  | [] => cand
  | w :: l' =>
      let e := elapsed (clk k) (returned_at w) in
      let cand' :=
        match cand with
        | None => Some (k, e)
        | Some (_, age) => if bool_decide (age < e) then Some (k, e) else cand
        end in
      lru_loop clk (S k) cand' l'
  end.

(** Second loop: the least recently used worker of the highest tier that has one. *)
Fixpoint scan_lru (clk : nat → Z) (ps : list (list WorkerHandle)) (i : nat)
    : outcome (option (WorkerHandle * list (list WorkerHandle))) :=
  do! pool := unwrap (ps !! i) in
  match lru_loop clk 0 None pool with
  | Some (k, _) =>
      do! (w, pool') := unwrap (vec_remove k pool) in
      Ret (Some (w, <[i := pool']> ps))
  | None =>
      match i with
      | O => Ret None
      | S i' => scan_lru clk ps i'
      end
  end.

Inductive GetWorker :=
| Got (w : WorkerHandle)
| Queued.

(** [inner_get_worker], up to its await: either a worker is available, or the sender of
    [ticket] is queued and the caller waits on its receiver. *)
Definition inner_get_worker (clk : nat → Z) (ticket : nat) (guild_id : Z)
    (premium_tier : option PremiumSlotTier) (st : PoolInner)
    : outcome (GetWorker * PoolInner) :=
  let priority_index := premium_tier_index premium_tier in
  do! same := scan_same_guild guild_id (pools st) priority_index in
  match same with
  | Some (w, ps) => Ret (Got w, set_pools st ps)
  | None =>
      do! lru := scan_lru clk (pools st) priority_index in
      match lru with
      | Some (w, ps) => Ret (Got w, set_pools st ps)
      | None =>
          do! q := unwrap (req_queues st !! priority_index) in
          Ret (Queued, set_queues st (<[priority_index := q ++ [ticket]]> (req_queues st)))
      end
  end.

Definition claim (w : WorkerHandle) (guild_id now : Z) : WorkerHandle :=
  mkWorkerHandle (Some guild_id) (returned_at w) now (worker_id w) (priority_index w).

(** The rest of [req_worker], once the worker has arrived. *)
Definition req_worker (worker : WorkerHandle) (guild_id now : Z)
    : WorkerHandle * WorkerRetrieved :=
  let wr := if has_last_guild guild_id worker then SameGuild else OtherGuild in
  (claim worker guild_id now, wr).

Inductive AddWorker :=
| HandedTo (ticket : nat)
| Pooled.

(** The hand-over loop of [add_worker_to_pool], from the highest tier down to the worker's. *)
Fixpoint hand_over (alive : nat → bool) (worker : WorkerHandle) (qs : list (list nat)) (i : nat)
    : outcome (option nat * list (list nat)) :=
  do! q := unwrap (qs !! i) in
  match q with
  | tx :: q' => if alive tx then Ret (Some tx, <[i := q']> qs) else Panic
  | [] =>
      if bool_decide (i = priority_index worker) then Ret (None, qs)
      else match i with
           | O => Panic
           | S i' => hand_over alive worker qs i'
           end
  end.

Definition add_worker_to_pool (alive : nat → bool) (worker : WorkerHandle) (st : PoolInner)
    : outcome (AddWorker * PoolInner) :=
  do! (r, qs) := hand_over alive worker (req_queues st) MAX_PREMIUM_SLOT_TIER in
  match r with
  | Some tx => Ret (HandedTo tx, set_queues st qs)
  | None =>
      do! pool := unwrap (pools st !! priority_index worker) in
      Ret (Pooled, set_pools st (<[priority_index worker := pool ++ [worker]]> (pools st)))
  end.

Definition add_pending_worker (w : PendingWorkerHandle) (st : PoolInner) : PoolInner :=
  set_pending st (<[pw_worker_id w := w]> (pending_starts st)).

Definition gen_id (st : PoolInner) : outcome (Z * PoolInner) :=
  do! id := u64_incr (worker_id_gen st) in
  Ret (id, set_gen st id).

(** The lock is taken twice, around [cmd.spawn]; here the two are one step, so no connection comes
    in between. [early_connection_is_lost] is the other case. *)
Definition spawn_worker (tier : nat) (st : PoolInner) : outcome PoolInner :=
  do! (id, st') := gen_id st in
  Ret (add_pending_worker (mkPending id tier) st').

Fixpoint spawn_n (n : nat) (tier : nat) (st : PoolInner) : outcome PoolInner :=
  match n with
  | O => Ret st
  | S n' => do! st' := spawn_worker tier st in spawn_n n' tier st'
  end.

Definition spawn_workers (tier : option PremiumSlotTier) (n : nat) (st : PoolInner)
    : outcome PoolInner :=
  spawn_n n (premium_tier_index tier) st.

(** [return_worker]: [None] when a replacement was spawned for a broken worker. *)
Definition return_worker (alive : nat → bool) (now : Z) (worker : WorkerHandle) (broken : bool)
    (st : PoolInner) : outcome (option AddWorker * WorkerHandle * PoolInner) :=
  let worker := mkWorkerHandle (last_active_guild worker) now (claimed_at worker)
                  (worker_id worker) (priority_index worker) in
  if broken then
    do! st' := spawn_worker (priority_index worker) st in Ret (None, worker, st')
  else
    do! (r, st') := add_worker_to_pool alive worker st in Ret (Some r, worker, st').

Definition init_worker_handles (pending : PendingWorkerHandle) (t1 t2 : Z) : WorkerHandle :=
  mkWorkerHandle None t1 t2 (pw_worker_id pending) (pw_priority_index pending).

(** [worker_connected]: an unknown id is ignored. *)
Definition worker_connected (alive : nat → bool) (t1 t2 : Z) (id : Z) (st : PoolInner)
    : outcome (option (AddWorker * WorkerHandle) * PoolInner) :=
  match pending_starts st !! id with
  | Some pending =>
      let st := set_pending st (delete id (pending_starts st)) in
      let full := init_worker_handles pending t1 t2 in
      do! (r, st') := add_worker_to_pool alive full st in
      Ret (Some (r, full), st')
  | None => Ret (None, st)
  end.

(** A child that connects before its entry is there is ignored, and waits as pending for good: no
    later connection has its id. *)
Lemma early_connection_is_lost alive t1 t2 tier st id st' :
  gen_id st = Ret (id, st') → pending_starts st !! id = None →
  worker_connected alive t1 t2 id st' = Ret (None, st') ∧
  pending_starts (add_pending_worker (mkPending id tier) st') !! id = Some (mkPending id tier).
Proof.
  unfold gen_id, u64_incr. destruct (_ <? _); simpl; [|done]. intros [= <- <-] Hn. split; [|apply lookup_insert_eq].
  unfold worker_connected. simpl. by rewrite Hn.
Qed.

(** * What the two scans find *)

(** [w] is the [k]-th worker of pool [j ≤ i], and [ps'] is [ps] without it. *)
Definition taken_at (ps : list (list WorkerHandle)) (i j k : nat) (w : WorkerHandle)
    (ps' : list (list WorkerHandle)) : Prop :=
  (j ≤ i)%nat ∧ ∃ pool, ps !! j = Some pool ∧ pool !! k = Some w ∧
  ps' = <[j := take k pool ++ drop (S k) pool]> ps.

Definition pool_at (ps : list (list WorkerHandle)) (j : nat) : list WorkerHandle :=
  default [] (ps !! j).

Lemma taken_at_weaken ps i j k w ps' :
  taken_at ps i j k w ps' → taken_at ps (S i) j k w ps'.
Proof. intros (?&?). split; [lia|done]. Qed.

Lemma scan_same_guild_spec g ps i :
  (i < length ps)%nat →
  match scan_same_guild g ps i with
  | Panic => False
  | Ret None => ∀ j, (j ≤ i)%nat → Forall (λ w, has_last_guild g w = false) (pool_at ps j)
  | Ret (Some (w, ps')) =>
      ∃ j k, taken_at ps i j k w ps' ∧ has_last_guild g w = true ∧
      ∀ j', (j < j' ≤ i)%nat → Forall (λ w, has_last_guild g w = false) (pool_at ps j')
  end.
Proof.
  induction i as [|i IH]; intros Hi; simpl;
    destruct (lookup_lt_is_Some_2 ps _ Hi) as [pool Hpool]; rewrite Hpool; simpl;
    destruct (find_index (has_last_guild g) pool) as [k|] eqn:Hk.
  1,3: apply find_index_Some in Hk as (w & Hw & Hp & _);
       unfold vec_remove; rewrite Hw; simpl; eexists _, k;
       (split_and!; [by split; [|eauto]|done|]); intros j' ?; lia.
  all: apply find_index_None in Hk.
  - intros j Hj. assert (j = 0)%nat as -> by lia. unfold pool_at. by rewrite Hpool.
  - assert (i < length ps)%nat as Hi' by lia. specialize (IH Hi').
    destruct (scan_same_guild g ps i) as [[[w ps']|]|]; [| |done].
    + destruct IH as (j & k & Ht & Hw & Hj). exists j, k.
      split_and!; [by apply taken_at_weaken|done|]. intros j' Hj'.
      destruct (decide (j' = S i)) as [->|]; [unfold pool_at; by rewrite Hpool|apply Hj; lia].
    + intros j Hj. destruct (decide (j = S i)) as [->|]; [unfold pool_at; by rewrite Hpool|].
      apply IH. lia.
Qed.

(** Age of the worker at position [k], as the loop reads it. *)
Definition age_read (clk : nat → Z) (k : nat) (w : WorkerHandle) : Z :=
  elapsed (clk k) (returned_at w).

(** The candidate is a maximum of the ages read so far. *)
Definition is_oldest (clk : nat → Z) (l : list WorkerHandle) (n : nat) (cand : option (nat * Z)) : Prop :=
  match cand with
  | None => n = 0%nat
  | Some (k, e) => (k < n)%nat ∧ ∃ w, l !! k = Some w ∧ e = age_read clk k w ∧
      ∀ j w', (j < n)%nat → l !! j = Some w' → age_read clk j w' ≤ e
  end.

Lemma lru_loop_oldest clk l1 l2 cand :
  is_oldest clk (l1 ++ l2) (length l1) cand →
  is_oldest clk (l1 ++ l2) (length (l1 ++ l2)) (lru_loop clk (length l1) cand l2).
Proof.
  revert l1 cand. induction l2 as [|w l2 IH]; intros l1 cand Hc; simpl.
  { by rewrite app_nil_r in *. }
  specialize (IH (l1 ++ [w])). rewrite <- !app_assoc in IH. simpl in IH.
  rewrite length_app in IH. simpl in IH. rewrite Nat.add_1_r in IH. apply IH. clear IH.
  assert ((l1 ++ w :: l2) !! length l1 = Some w) as Hw by by apply list_lookup_middle.
  assert (∀ e j w', (j < S (length l1))%nat → (l1 ++ w :: l2) !! j = Some w' →
    (∀ j w', (j < length l1)%nat → (l1 ++ w :: l2) !! j = Some w' → age_read clk j w' ≤ e) →
    age_read clk (length l1) w ≤ e → age_read clk j w' ≤ e) as Hext.
  { intros e j w' Hj Hw' Hlt He. destruct (decide (j = length l1)) as [->|]; [by simplify_eq|].
    eapply Hlt; [lia|done]. }
  destruct cand as [[k e]|]; simpl in *.
  - destruct Hc as (Hk & wk & Hwk & -> & Hmax). case_bool_decide as Hlt; simpl.
    + split; [lia|]. exists w. split_and!; [done..|]. intros j w' Hj Hw'.
      eapply Hext; [done..| |done]. intros j' w'' Hj' Hw''.
      specialize (Hmax _ _ Hj' Hw''). unfold age_read in *. lia.
    + split; [lia|]. exists wk. split_and!; [done..|]. intros j w' Hj Hw'.
      eapply Hext; [done..|]. unfold age_read in *. lia.
  - split; [lia|]. exists w. split_and!; [done..|]. intros j w' Hj Hw'.
    eapply Hext; [done..| |done]. intros j' ? Hj'. lia.
Qed.

Lemma lru_loop_spec clk pool :
  match lru_loop clk 0 None pool with
  | None => pool = []
  | Some (k, _) => ∃ w, pool !! k = Some w ∧
      ∀ j w', pool !! j = Some w' → age_read clk j w' ≤ age_read clk k w
  end.
Proof.
  pose proof (lru_loop_oldest clk [] pool None eq_refl) as H. simpl in H.
  destruct (lru_loop clk 0 None pool) as [[k e]|]; simpl in H.
  - destruct H as (_ & w & Hw & -> & Hmax). exists w. split; [done|].
    intros j w' Hj. eapply Hmax; [by eapply lookup_lt_Some|done].
  - by apply nil_length_inv.
Qed.

Lemma scan_lru_spec clk ps i :
  (i < length ps)%nat →
  match scan_lru clk ps i with
  | Panic => False
  | Ret None => ∀ j, (j ≤ i)%nat → pool_at ps j = []
  | Ret (Some (w, ps')) =>
      ∃ j k, taken_at ps i j k w ps' ∧
      (∀ k' w', pool_at ps j !! k' = Some w' → age_read clk k' w' ≤ age_read clk k w) ∧
      ∀ j', (j < j' ≤ i)%nat → pool_at ps j' = []
  end.
Proof.
  induction i as [|i IH]; intros Hi; simpl;
    destruct (lookup_lt_is_Some_2 ps _ Hi) as [pool Hpool]; rewrite Hpool; simpl;
    pose proof (lru_loop_spec clk pool) as Hl;
    destruct (lru_loop clk 0 None pool) as [[k e]|].
  1,3: destruct Hl as (w & Hw & Hmax); unfold vec_remove; rewrite Hw; simpl; eexists _, k;
       (split_and!; [by split; [|eauto]|unfold pool_at; by rewrite Hpool|]); intros j' ?; lia.
  all: subst pool.
  - intros j Hj. assert (j = 0)%nat as -> by lia. unfold pool_at. by rewrite Hpool.
  - assert (i < length ps)%nat as Hi' by lia. specialize (IH Hi').
    destruct (scan_lru clk ps i) as [[[w ps']|]|]; [| |done].
    + destruct IH as (j & k & Ht & Hw & Hj). exists j, k.
      split_and!; [by apply taken_at_weaken|done|]. intros j' Hj'.
      destruct (decide (j' = S i)) as [->|]; [unfold pool_at; by rewrite Hpool|apply Hj; lia].
    + intros j Hj. destruct (decide (j = S i)) as [->|]; [unfold pool_at; by rewrite Hpool|].
      apply IH. lia.
Qed.

(** * The system around the pool *)

Record PoolSys := mkSys {
  inner : PoolInner;
  held : list WorkerHandle;                          (* owned by vm sessions *)
  waiting : gmap nat (Z * option PremiumSlotTier);   (* tasks awaiting a ticket *)
}.

Definition alive (s : PoolSys) (t : nat) : bool := bool_decide (is_Some (waiting s !! t)).

(** A worker that was handed over reaches the task that waits on the ticket, which claims it. *)
Definition settle (r : AddWorker) (w : WorkerHandle) (now : Z) (s : PoolSys) (st : PoolInner)
    : PoolSys :=
  match r with
  | Pooled => mkSys st (held s) (waiting s)
  | HandedTo t =>
      match waiting s !! t with
      | Some (g, _) => mkSys st ((req_worker w g now).1 :: held s) (delete t (waiting s))
      | None => mkSys st (held s) (waiting s)
      end
  end.

(** One step; the label lists the tiers of the workers an operator asked for. *)
Inductive pool_step (s : PoolSys) : list nat → PoolSys → Prop :=
| step_got clk now t g tier w st :
    waiting s !! t = None →
    inner_get_worker clk t g tier (inner s) = Ret (Got w, st) →
    pool_step s [] (mkSys st ((req_worker w g now).1 :: held s) (waiting s))
| step_queued clk t g tier st :
    waiting s !! t = None →
    inner_get_worker clk t g tier (inner s) = Ret (Queued, st) →
    pool_step s [] (mkSys st (held s) (<[t := (g, tier)]> (waiting s)))
| step_returned_ok h1 w h2 now now' r w' st :
    held s = h1 ++ w :: h2 →
    return_worker (alive s) now w false (inner s) = Ret (Some r, w', st) →
    pool_step s [] (settle r w' now' (mkSys (inner s) (h1 ++ h2) (waiting s)) st)
| step_returned_broken h1 w h2 now w' st :
    held s = h1 ++ w :: h2 →
    return_worker (alive s) now w true (inner s) = Ret (None, w', st) →
    pool_step s [] (mkSys st (h1 ++ h2) (waiting s))
| step_connected t1 t2 now id r w st :
    worker_connected (alive s) t1 t2 id (inner s) = Ret (Some (r, w), st) →
    pool_step s [] (settle r w now s st)
| step_unknown_connected t1 t2 id st :
    worker_connected (alive s) t1 t2 id (inner s) = Ret (None, st) →
    pool_step s [] (mkSys st (held s) (waiting s))
| step_spawned tier n st :
    spawn_workers tier n (inner s) = Ret st →
    pool_step s (replicate n (premium_tier_index tier)) (mkSys st (held s) (waiting s)).

Inductive pool_run (s : PoolSys) : list nat → PoolSys → Prop :=
| run_nil : pool_run s [] s
| run_step l1 s1 l2 s2 : pool_run s l1 s1 → pool_step s1 l2 s2 → pool_run s (l2 ++ l1) s2.

Definition sys_new : PoolSys := mkSys pool_new [] ∅.

Definition queue_at (qs : list (list nat)) (j : nat) : list nat := default [] (qs !! j).

(** ** The invariant *)

Definition tag (w : WorkerHandle) : Z * nat := (worker_id w, priority_index w).

Definition pending_tags (m : gmap Z PendingWorkerHandle) : list (Z * nat) :=
  (λ kv, (kv.1, pw_priority_index kv.2)) <$> map_to_list m.

(** Every worker of the system, with its tier. *)
Definition roster (s : PoolSys) : list (Z * nat) :=
  (tag <$> concat (pools (inner s))) ++ (tag <$> held s) ++ pending_tags (pending_starts (inner s)).

(** A request only waits while every pool it may be served from is empty. *)
Definition exclusive (st : PoolInner) : Prop :=
  ∀ i j, queue_at (req_queues st) i ≠ [] → (j ≤ i)%nat → pool_at (pools st) j = [].

(** Ids are unique and below the generator, tiers are in range. *)
Record roster_ok (r : list (Z * nat)) (gen : Z) : Prop := {
  ok_tiers : Forall (λ p, (p.2 ≤ MAX_PREMIUM_SLOT_TIER)%nat) r;
  ok_ids : NoDup r.*1;
  ok_gen : Forall (λ p, p.1 ≤ gen) r;
}.

(** Shape of the arrays, and agreement of the queues with the waiting tasks. *)
Record shape_ok (st : PoolInner) (wt : gmap nat (Z * option PremiumSlotTier)) : Prop := {
  ok_pools_len : length (pools st) = S MAX_PREMIUM_SLOT_TIER;
  ok_queues_len : length (req_queues st) = S MAX_PREMIUM_SLOT_TIER;
  ok_pool_tier : ∀ i w, w ∈ pool_at (pools st) i → priority_index w = i;
  ok_excl : exclusive st;
  ok_queued : ∀ i t, t ∈ queue_at (req_queues st) i →
    ∃ g tier, wt !! t = Some (g, tier) ∧ premium_tier_index tier = i;
  ok_tickets : ∀ i, NoDup (queue_at (req_queues st) i);
  ok_waiting : ∀ t g tier, wt !! t = Some (g, tier) →
    t ∈ queue_at (req_queues st) (premium_tier_index tier);
  ok_pending : ∀ id p, pending_starts st !! id = Some p → pw_worker_id p = id;
}.

Record pool_inv (s : PoolSys) : Prop := {
  inv_shape : shape_ok (inner s) (waiting s);
  inv_roster : roster_ok (roster s) (worker_id_gen (inner s));
}.

#[global] Instance roster_ok_proper : Proper ((≡ₚ) ==> (=) ==> iff) roster_ok.
Proof.
  intros r1 r2 Hr ? gen ->. split; intros [H1 H2 H3].
  - split; by rewrite <- Hr.
  - split; by rewrite Hr.
Qed.

Lemma roster_ok_cons p r gen :
  roster_ok (p :: r) gen ↔
  (p.2 ≤ MAX_PREMIUM_SLOT_TIER)%nat ∧ p.1 ∉ r.*1 ∧ p.1 ≤ gen ∧ roster_ok r gen.
Proof.
  split.
  - intros [H1 H2 H3]. rewrite fmap_cons, NoDup_cons in H2. rewrite Forall_cons in H1, H3.
    split_and!; try naive_solver. split; naive_solver.
  - intros (?&?&?&[]). split; rewrite ?fmap_cons, ?Forall_cons, ?NoDup_cons; auto.
Qed.

Lemma roster_ok_mono r gen gen' : gen ≤ gen' → roster_ok r gen → roster_ok r gen'.
Proof. intros Hg []. split; auto. eapply Forall_impl; [done|]. simpl. lia. Qed.

Lemma roster_ok_fresh r gen tier :
  (tier ≤ MAX_PREMIUM_SLOT_TIER)%nat → roster_ok r gen → roster_ok ((gen + 1, tier) :: r) (gen + 1).
Proof.
  intros Ht Hr. apply roster_ok_cons. split_and!; simpl; [done| |lia|].
  - intros ([] & Heq & Hin)%list_elem_of_fmap. simpl in Heq. subst.
    destruct Hr as [_ _ Hg]. rewrite Forall_forall in Hg. apply Hg in Hin. simpl in Hin. lia.
  - eapply roster_ok_mono; [|done]. lia.
Qed.

(** ** The hand-over loop *)

Lemma hand_over_spec al w qs i :
  (i < length qs)%nat → (priority_index w ≤ i)%nat →
  (∀ j t, t ∈ queue_at qs j → al t = true) →
  match hand_over al w qs i with
  | Panic => False
  | Ret (None, qs') => qs' = qs ∧ ∀ j, (priority_index w ≤ j ≤ i)%nat → queue_at qs j = []
  | Ret (Some t, qs') => ∃ j q, (priority_index w ≤ j ≤ i)%nat ∧ qs !! j = Some (t :: q) ∧
      qs' = <[j := q]> qs ∧ ∀ j', (j < j' ≤ i)%nat → queue_at qs j' = []
  end.
Proof.
  intros Hi Hw Hal. induction i as [|i IH]; simpl;
    destruct (lookup_lt_is_Some_2 qs _ Hi) as [q Hq]; rewrite Hq; simpl;
    (destruct q as [|t q];
     [|rewrite (Hal _ t) by (unfold queue_at; rewrite Hq; set_solver); eexists _, q;
       split_and!; [| |exact Hq|reflexivity|intros]; lia]).
  - rewrite bool_decide_eq_true_2 by lia. split; [done|]. intros j Hj.
    assert (j = 0)%nat as -> by lia. unfold queue_at. by rewrite Hq.
  - case_bool_decide as Heq.
    + split; [done|]. intros j Hj. assert (j = S i) as -> by lia. unfold queue_at. by rewrite Hq.
    + assert (i < length qs)%nat as Hi' by lia. assert (priority_index w ≤ i)%nat as Hw' by lia.
      specialize (IH Hi' Hw'). destruct (hand_over al w qs i) as [[[t|] qs']|]; [| |done].
      * destruct IH as (j & q & Hj & Hjq & -> & Hemp). exists j, q.
        split_and!; [lia..|done|done|]. intros j' Hj'.
        destruct (decide (j' = S i)) as [->|]; [unfold queue_at; by rewrite Hq|apply Hemp; lia].
      * destruct IH as [-> Hemp]. split; [done|]. intros j Hj.
        destruct (decide (j = S i)) as [->|]; [unfold queue_at; by rewrite Hq|apply Hemp; lia].
Qed.

(** ** Lookup lemmas for the arrays *)

Lemma pool_at_insert ps i l j :
  (i < length ps)%nat → pool_at (<[i := l]> ps) j = if decide (i = j) then l else pool_at ps j.
Proof.
  intros Hi. unfold pool_at. case_decide as Heq; [subst; by rewrite list_lookup_insert_eq|].
  by rewrite list_lookup_insert_ne.
Qed.

Lemma queue_at_insert qs i l j :
  (i < length qs)%nat → queue_at (<[i := l]> qs) j = if decide (i = j) then l else queue_at qs j.
Proof.
  intros Hi. unfold queue_at. case_decide as Heq; [subst; by rewrite list_lookup_insert_eq|].
  by rewrite list_lookup_insert_ne.
Qed.

Lemma concat_insert_perm {A} (ls : list (list A)) i l l' x :
  ls !! i = Some l → l ≡ₚ x :: l' → concat ls ≡ₚ x :: concat (<[i := l']> ls).
Proof.
  intros Hi Hp. rewrite <- (take_drop_middle ls i l Hi) at 1.
  rewrite insert_take_drop by (by eapply lookup_lt_Some).
  rewrite !concat_app. simpl. rewrite Hp. simpl.
  by rewrite <- Permutation_middle.
Qed.

Lemma concat_insert_snoc {A} (ls : list (list A)) i l x :
  ls !! i = Some l → concat (<[i := l ++ [x]]> ls) ≡ₚ x :: concat ls.
Proof.
  intros Hi. rewrite <- (take_drop_middle ls i l Hi) at 2.
  rewrite insert_take_drop by (by eapply lookup_lt_Some).
  rewrite !concat_app. simpl. solve_Permutation.
Qed.

(** ** Every operation preserves the invariant *)

Lemma premium_tier_index_le tier : (premium_tier_index tier ≤ MAX_PREMIUM_SLOT_TIER)%nat.
Proof. destruct tier as [[]|]; unfold MAX_PREMIUM_SLOT_TIER; simpl; lia. Qed.

Lemma alive_queued s j t :
  shape_ok (inner s) (waiting s) → t ∈ queue_at (req_queues (inner s)) j → alive s t = true.
Proof.
  intros Hs Ht. destruct (ok_queued _ _ Hs _ _ Ht) as (g & tier & Hw & _).
  unfold alive. rewrite Hw. by apply bool_decide_eq_true_2.
Qed.

Lemma take_shape st wt i j k w ps' :
  shape_ok st wt → taken_at (pools st) i j k w ps' →
  shape_ok (set_pools st ps') wt ∧ concat (pools st) ≡ₚ w :: concat ps' ∧
  priority_index w = j ∧ (j ≤ i)%nat.
Proof.
  intros [Hpl Hql Hpt Hex Hq Htk Hw Hpd] (Hji & pool & Hpool & Hk & ->).
  assert (pool_at (pools st) j = pool) as Hpa by (unfold pool_at; by rewrite Hpool).
  assert (pool ≡ₚ w :: (take k pool ++ drop (S k) pool)) as Hperm.
  { by apply (vec_remove_Some k), (eq_sym (x := Some _)); unfold vec_remove; rewrite Hk. }
  assert (j < length (pools st))%nat as Hj by by eapply lookup_lt_Some.
  split_and!; [|by eapply concat_insert_perm| |done].
  - split; simpl; rewrite ?length_insert; try done.
    + intros i' w'. rewrite pool_at_insert by done. case_decide; [subst i'|by apply Hpt].
      intros Hin. apply Hpt. rewrite Hpa, Hperm. by right.
    + intros i' j' Hne Hle. simpl in *. rewrite pool_at_insert by done. case_decide; [|eauto].
      subst j'. specialize (Hex _ _ Hne Hle). rewrite Hpa in Hex. by subst pool.
  - apply Hpt. rewrite Hpa, Hperm. by left.
Qed.

Lemma get_worker_spec clk t g tier st wt :
  shape_ok st wt →
  match inner_get_worker clk t g tier st with
  | Panic => False
  | Ret (Got w, st') =>
      shape_ok st' wt ∧ concat (pools st) ≡ₚ w :: concat (pools st') ∧
      (priority_index w ≤ premium_tier_index tier)%nat ∧
      worker_id_gen st' = worker_id_gen st ∧ pending_starts st' = pending_starts st
  | Ret (Queued, st') =>
      (∀ j, (j ≤ premium_tier_index tier)%nat → pool_at (pools st) j = []) ∧
      st' = set_queues st (<[premium_tier_index tier :=
        queue_at (req_queues st) (premium_tier_index tier) ++ [t]]> (req_queues st))
  end.
Proof.
  intros Hs. pose proof (premium_tier_index_le tier) as Hti.
  assert (premium_tier_index tier < length (pools st))%nat as Hlen by (rewrite (ok_pools_len _ _ Hs); lia).
  unfold inner_get_worker.
  pose proof (scan_same_guild_spec g _ _ Hlen) as Hsame.
  destruct (scan_same_guild _ _ _) as [[[w ps']|]|]; simpl; [| |done].
  { destruct Hsame as (j & k & Ht & _). destruct (take_shape _ _ _ _ _ _ _ Hs Ht) as (?&?&?&?).
    split_and!; try done. lia. }
  pose proof (scan_lru_spec clk _ _ Hlen) as Hlru.
  destruct (scan_lru _ _ _) as [[[w ps']|]|]; simpl; [| |done].
  { destruct Hlru as (j & k & Ht & _). destruct (take_shape _ _ _ _ _ _ _ Hs Ht) as (?&?&?&?).
    split_and!; try done. lia. }
  destruct (lookup_lt_is_Some_2 (req_queues st) (premium_tier_index tier)) as [q Hq].
  { rewrite (ok_queues_len _ _ Hs). lia. }
  unfold queue_at. rewrite Hq. simpl. done.
Qed.

Lemma add_worker_spec s w :
  shape_ok (inner s) (waiting s) → (priority_index w ≤ MAX_PREMIUM_SLOT_TIER)%nat →
  match add_worker_to_pool (alive s) w (inner s) with
  | Panic => False
  | Ret (Pooled, st) =>
      st = set_pools (inner s) (<[priority_index w :=
             pool_at (pools (inner s)) (priority_index w) ++ [w]]> (pools (inner s))) ∧
      ∀ j, (priority_index w ≤ j)%nat → queue_at (req_queues (inner s)) j = []
  | Ret (HandedTo t, st) =>
      ∃ j q, (priority_index w ≤ j)%nat ∧ req_queues (inner s) !! j = Some (t :: q) ∧
      st = set_queues (inner s) (<[j := q]> (req_queues (inner s))) ∧
      ∀ j', (j < j')%nat → queue_at (req_queues (inner s)) j' = []
  end.
Proof.
  intros Hs Hw. unfold add_worker_to_pool.
  assert (∀ j, (MAX_PREMIUM_SLOT_TIER < j)%nat → queue_at (req_queues (inner s)) j = []) as Hout.
  { intros j Hj. unfold queue_at. rewrite lookup_ge_None_2; [done|].
    rewrite (ok_queues_len _ _ Hs). lia. }
  pose proof (hand_over_spec (alive s) w (req_queues (inner s)) MAX_PREMIUM_SLOT_TIER) as H.
  destruct (hand_over _ _ _ _) as [[[t|] qs]|]; simpl.
  - destruct H as (j & q & Hj & Hq & -> & Hemp);
      [rewrite (ok_queues_len _ _ Hs); lia|done|intros; by eapply alive_queued|].
    exists j, q. split_and!; [lia|done..|]. intros j' Hj'.
    destruct (decide (j' ≤ MAX_PREMIUM_SLOT_TIER)%nat); [apply Hemp; lia|apply Hout; lia].
  - destruct H as [-> Hemp];
      [rewrite (ok_queues_len _ _ Hs); lia|done|intros; by eapply alive_queued|].
    destruct (lookup_lt_is_Some_2 (pools (inner s)) (priority_index w)) as [pool Hpool].
    { rewrite (ok_pools_len _ _ Hs). lia. }
    rewrite Hpool. simpl. unfold pool_at. rewrite Hpool. split; [done|]. intros j Hj.
    destruct (decide (j ≤ MAX_PREMIUM_SLOT_TIER)%nat); [apply Hemp; lia|apply Hout; lia].
  - apply H; [rewrite (ok_queues_len _ _ Hs); lia|done|intros; by eapply alive_queued].
Qed.

Lemma enqueue_shape st wt t g tier :
  shape_ok st wt → wt !! t = None →
  (∀ j, (j ≤ premium_tier_index tier)%nat → pool_at (pools st) j = []) →
  shape_ok (set_queues st (<[premium_tier_index tier :=
    queue_at (req_queues st) (premium_tier_index tier) ++ [t]]> (req_queues st)))
    (<[t := (g, tier)]> wt).
Proof.
  intros [Hpl Hql Hpt Hex Hq Htk Hw Hpd] Hfresh Hempty.
  pose proof (premium_tier_index_le tier) as Hti.
  assert (premium_tier_index tier < length (req_queues st))%nat as Hlen by lia.
  split; simpl; rewrite ?length_insert; try done.
  - intros i j. simpl. rewrite queue_at_insert by done. case_decide; [subst; auto|apply Hex].
  - intros i t'. rewrite queue_at_insert by done.
    assert (∀ i, t' ∈ queue_at (req_queues st) i →
      ∃ g' tier', <[t:=(g, tier)]> wt !! t' = Some (g', tier') ∧ premium_tier_index tier' = i) as Hold.
    { intros i' Hin. destruct (Hq _ _ Hin) as (g' & tier' & Hl & ?). exists g', tier'.
      rewrite lookup_insert_ne by congruence. done. }
    case_decide; [subst i|by apply Hold].
    rewrite elem_of_app, list_elem_of_singleton. intros [Hin| ->]; [by apply Hold|].
    exists g, tier. by rewrite lookup_insert_eq.
  - intros i. rewrite queue_at_insert by done. case_decide; [|apply Htk].
    apply NoDup_app. split_and!; [apply Htk| |apply NoDup_singleton].
    intros t' Hin ->%list_elem_of_singleton. destruct (Hq _ _ Hin) as (?&?&?&?). congruence.
  - intros t' g' tier' Hl. rewrite queue_at_insert by done.
    destruct (decide (t = t')) as [<-|Hne].
    + rewrite lookup_insert_eq in Hl. simplify_eq. rewrite decide_True by done. set_solver.
    + rewrite lookup_insert_ne in Hl by done. apply Hw in Hl. case_decide; [|done].
      rewrite elem_of_app. left. congruence.
Qed.

Lemma dequeue_shape st wt t q j :
  shape_ok st wt → req_queues st !! j = Some (t :: q) →
  shape_ok (set_queues st (<[j := q]> (req_queues st))) (delete t wt).
Proof.
  intros [Hpl Hql Hpt Hex Hq Htk Hw Hpd] Hj.
  assert (j < length (req_queues st))%nat as Hlen by by eapply lookup_lt_Some.
  assert (queue_at (req_queues st) j = t :: q) as Hqj by (unfold queue_at; by rewrite Hj).
  pose proof (Htk j) as Hnd. rewrite Hqj, NoDup_cons in Hnd. destruct Hnd as [Hnt Hnd].
  split; simpl; rewrite ?length_insert; try done.
  - intros i i' Hne. apply Hex. simpl in Hne. rewrite queue_at_insert in Hne by done.
    case_decide; [subst; by rewrite Hqj|done].
  - intros i t' Hin.
    assert (t' ∈ queue_at (req_queues st) i ∧ t' ≠ t) as [Hin' Hne].
    { rewrite queue_at_insert in Hin by done. case_decide as Heq; [subst i; rewrite Hqj; set_solver|].
      split; [done|]. intros ->. destruct (Hq _ _ Hin) as (g1 & r1 & Hl1 & Hi1).
      destruct (Hq j t) as (g2 & r2 & Hl2 & Hi2); [rewrite Hqj; set_solver|]. congruence. }
    destruct (Hq _ _ Hin') as (g & tier & ? & ?). exists g, tier.
    by rewrite lookup_delete_ne by congruence.
  - intros i. rewrite queue_at_insert by done. case_decide; [done|apply Htk].
  - intros t' g' tier' Hl. destruct (decide (t' = t)) as [->|Hne]; [by rewrite lookup_delete_eq in Hl|].
    rewrite lookup_delete_ne in Hl by done. apply Hw in Hl.
    rewrite queue_at_insert by done. case_decide as Heq; [|done].
    rewrite <- Heq, Hqj in Hl. set_solver.
Qed.

Lemma pool_shape st wt w :
  shape_ok st wt → (priority_index w ≤ MAX_PREMIUM_SLOT_TIER)%nat →
  (∀ j, (priority_index w ≤ j)%nat → queue_at (req_queues st) j = []) →
  shape_ok (set_pools st (<[priority_index w := pool_at (pools st) (priority_index w) ++ [w]]> (pools st))) wt.
Proof.
  intros [Hpl Hql Hpt Hex Hq Htk Hw Hpd] Hi Hemp.
  assert (priority_index w < length (pools st))%nat as Hlen by lia.
  split; simpl; rewrite ?length_insert; try done.
  - intros i w'. rewrite pool_at_insert by done. case_decide; [subst i|apply Hpt].
    rewrite elem_of_app, list_elem_of_singleton. intros [Hin| ->]; [by apply Hpt|done].
  - intros i j Hne Hle. simpl in *. rewrite pool_at_insert by done.
    case_decide; [|by eapply Hex]. subst j. by rewrite Hemp in Hne.
Qed.

Lemma settle_inv s w r st now :
  shape_ok (inner s) (waiting s) → (priority_index w ≤ MAX_PREMIUM_SLOT_TIER)%nat →
  add_worker_to_pool (alive s) w (inner s) = Ret (r, st) →
  let s' := settle r w now s st in
  shape_ok (inner s') (waiting s') ∧ roster s' ≡ₚ tag w :: roster s ∧
  worker_id_gen (inner s') = worker_id_gen (inner s).
Proof.
  intros Hs Hw Hadd. pose proof (add_worker_spec s w Hs Hw) as Hspec. rewrite Hadd in Hspec.
  destruct r as [t|]; simpl.
  - destruct Hspec as (j & q & Hj & Hq & -> & _).
    destruct (ok_queued _ _ Hs j t) as (g & tier & Hwt & _).
    { unfold queue_at. rewrite Hq. set_solver. }
    rewrite Hwt. simpl. split_and!; [by apply dequeue_shape| |done].
    unfold roster. simpl. unfold tag at 2, claim. simpl. solve_Permutation.
  - destruct Hspec as [-> Hemp]. split_and!; [by apply pool_shape| |done].
    unfold roster. simpl. destruct (lookup_lt_is_Some_2 (pools (inner s)) (priority_index w)) as [pool Hpool].
    { rewrite (ok_pools_len _ _ Hs). lia. }
    unfold pool_at. rewrite Hpool. simpl. rewrite (concat_insert_snoc _ _ _ _ Hpool).
    by rewrite fmap_cons.
Qed.

Lemma pending_tags_delete m id p :
  m !! id = Some p → pending_tags m ≡ₚ (id, pw_priority_index p) :: pending_tags (delete id m).
Proof. intros Hl. unfold pending_tags. by rewrite <- (map_to_list_delete m id p Hl). Qed.

Lemma pending_tags_insert m id p :
  m !! id = None → pending_tags (<[id := p]> m) ≡ₚ (id, pw_priority_index p) :: pending_tags m.
Proof. intros Hl. unfold pending_tags. by rewrite map_to_list_insert. Qed.

Lemma pending_tags_elem m id : id ∉ (pending_tags m).*1 → m !! id = None.
Proof.
  intros Hn. destruct (m !! id) as [p|] eqn:Hl; [|done]. destruct Hn.
  apply list_elem_of_fmap. exists (id, pw_priority_index p). split; [done|].
  apply list_elem_of_fmap. exists (id, p). split; [done|]. by apply elem_of_map_to_list.
Qed.

Lemma spawn_worker_spec s tier st :
  pool_inv s → (tier ≤ MAX_PREMIUM_SLOT_TIER)%nat → spawn_worker tier (inner s) = Ret st →
  let s' := mkSys st (held s) (waiting s) in
  pool_inv s' ∧ roster s' ≡ₚ (worker_id_gen (inner s) + 1, tier) :: roster s.
Proof.
  intros [Hs Hr] Ht. unfold spawn_worker, gen_id, u64_incr.
  destruct (_ <? _); simpl; [|done]. intros [= <-].
  assert (roster_ok ((worker_id_gen (inner s) + 1, tier) :: roster s) (worker_id_gen (inner s) + 1))
    as Hok by by apply roster_ok_fresh.
  assert (roster (mkSys (add_pending_worker (mkPending (worker_id_gen (inner s) + 1) tier)
      (set_gen (inner s) (worker_id_gen (inner s) + 1))) (held s) (waiting s))
    ≡ₚ (worker_id_gen (inner s) + 1, tier) :: roster s) as Hp.
  { unfold roster. simpl. rewrite pending_tags_insert; [simpl; solve_Permutation|].
    apply pending_tags_elem. apply roster_ok_cons in Hok as (_ & Hn & _). simpl in Hn.
    unfold roster in Hn. rewrite !fmap_app, !not_elem_of_app in Hn. tauto. }
  split; [split; [|by rewrite Hp]|done]. destruct Hs. split; simpl; try done.
  intros id p. destruct (decide (worker_id_gen (inner s) + 1 = id)) as [<-|Hne].
  - rewrite lookup_insert_eq. by intros [= <-].
  - rewrite lookup_insert_ne by done. auto.
Qed.

Lemma spawn_n_spec n tier s st :
  pool_inv s → (tier ≤ MAX_PREMIUM_SLOT_TIER)%nat → spawn_n n tier (inner s) = Ret st →
  let s' := mkSys st (held s) (waiting s) in
  pool_inv s' ∧ (roster s').*2 ≡ₚ replicate n tier ++ (roster s).*2.
Proof.
  revert s. induction n as [|n IH]; intros s Hi Ht; simpl.
  { intros [= <-]. by destruct s. }
  destruct (spawn_worker tier (inner s)) as [st1|] eqn:Hsp; simpl; [|done]. intros Hn.
  destruct (spawn_worker_spec _ _ _ Hi Ht Hsp) as [Hi1 Hp1].
  destruct (IH (mkSys st1 (held s) (waiting s)) Hi1 Ht Hn) as [Hi2 Hp2].
  split; [done|]. simpl in *. rewrite Hp2, Hp1. simpl. solve_Permutation.
Qed.

(** The rest of the system when one held worker is set aside. *)
Lemma set_aside s h1 w h2 :
  held s = h1 ++ w :: h2 → pool_inv s →
  let s0 := mkSys (inner s) (h1 ++ h2) (waiting s) in
  pool_inv s0 ∧ roster s ≡ₚ tag w :: roster s0 ∧ (priority_index w ≤ MAX_PREMIUM_SLOT_TIER)%nat.
Proof.
  intros Hh [Hs Hr].
  assert (roster s ≡ₚ tag w :: roster (mkSys (inner s) (h1 ++ h2) (waiting s))) as Hp.
  { unfold roster. simpl. rewrite Hh, !fmap_app, fmap_cons. solve_Permutation. }
  rewrite Hp, roster_ok_cons in Hr. destruct Hr as (Ht & _ & _ & Hr). by split_and!.
Qed.

(** The system when one pending worker is set aside. *)
Lemma unpend s id p :
  pool_inv s → pending_starts (inner s) !! id = Some p →
  let s0 := mkSys (set_pending (inner s) (delete id (pending_starts (inner s)))) (held s) (waiting s) in
  pool_inv s0 ∧ roster s ≡ₚ (id, pw_priority_index p) :: roster s0.
Proof.
  intros [Hs Hr] Hl. set (s0 := mkSys _ _ _).
  assert (roster s ≡ₚ (id, pw_priority_index p) :: roster s0) as Hp.
  { unfold roster. simpl. rewrite (pending_tags_delete _ _ _ Hl). solve_Permutation. }
  split; [split|done].
  - destruct Hs. split; simpl; try done. intros id' p'. rewrite lookup_delete_Some. naive_solver.
  - rewrite Hp, roster_ok_cons in Hr. tauto.
Qed.

Lemma settle_pool_inv s w r st now tags :
  pool_inv s → roster_ok (tag w :: roster s) (worker_id_gen (inner s)) →
  add_worker_to_pool (alive s) w (inner s) = Ret (r, st) →
  tags ≡ₚ tag w :: roster s →
  pool_inv (settle r w now s st) ∧ (roster (settle r w now s st)).*2 ≡ₚ tags.*2.
Proof.
  intros [Hs _] Hok Hadd Htags. pose proof (proj1 (roster_ok_cons _ _ _) Hok) as (Ht & _).
  destruct (settle_inv s w r st now Hs Ht Hadd) as (Hs' & Hp & Hg).
  split; [split; [done|]; by rewrite Hp, Hg|]. by rewrite Hp, Htags.
Qed.

Lemma pool_step_inv s l s' :
  pool_inv s → pool_step s l s' → pool_inv s' ∧ (roster s').*2 ≡ₚ l ++ (roster s).*2.
Proof.
  intros Hi Hstep. pose proof Hi as [Hs Hr].
  destruct Hstep as [clk now t g tier w st Hfresh Hget | clk t g tier st Hfresh Hget
    | h1 w h2 now now' r w' st Hh Hret | h1 w h2 now w' st Hh Hret
    | t1 t2 now id r w st Hc | t1 t2 id st Hc | tier n st Hsp]; simpl.
  - pose proof (get_worker_spec clk t g tier _ _ Hs) as Hspec. rewrite Hget in Hspec.
    destruct Hspec as (Hs' & Hp & _ & Hg & Hpend).
    assert (roster (mkSys st (claim w g now :: held s) (waiting s)) ≡ₚ roster s) as Hperm.
    { unfold roster. simpl. rewrite Hpend, Hp, fmap_cons. unfold tag at 2. simpl. solve_Permutation. }
    split; [split; simpl; [done|]; by rewrite Hperm, Hg|]. by rewrite Hperm.
  - pose proof (get_worker_spec clk t g tier _ _ Hs) as Hspec. rewrite Hget in Hspec.
    destruct Hspec as [Hempty ->]. split; [split; [by apply enqueue_shape|done]|done].
  - destruct (set_aside _ _ _ _ Hh Hi) as (Hi0 & Hp & Ht).
    unfold return_worker in Hret. simpl in Hret.
    destruct (add_worker_to_pool _ _ _) as [[r' st']|] eqn:Hadd; simpl in Hret; [|done].
    simplify_eq. eapply settle_pool_inv; [done| |exact Hadd|exact Hp].
    rewrite Hp in Hr. exact Hr.
  - destruct (set_aside _ _ _ _ Hh Hi) as (Hi0 & Hp & Ht).
    unfold return_worker in Hret. simpl in Hret.
    destruct (spawn_worker _ _) as [st'|] eqn:Hsp; simpl in Hret; [|done]. simplify_eq.
    destruct (spawn_worker_spec _ _ _ Hi0 Ht Hsp) as [Hi' Hp']. split; [done|].
    simpl in Hp'. by rewrite Hp', Hp.
  - unfold worker_connected in Hc. destruct (pending_starts (inner s) !! id) as [p|] eqn:Hp; [|done].
    destruct (add_worker_to_pool _ _ _) as [[r' st']|] eqn:Hadd; simpl in Hc; [|done]. simplify_eq.
    destruct (unpend _ _ _ Hi Hp) as (Hi0 & Hp0).
    change (settle r (init_worker_handles p t1 t2) now s st) with
      (settle r (init_worker_handles p t1 t2) now
        (mkSys (set_pending (inner s) (delete id (pending_starts (inner s)))) (held s) (waiting s)) st).
    eapply settle_pool_inv; [done| |exact Hadd|].
    + rewrite Hp0 in Hr. unfold tag. simpl. by rewrite (ok_pending _ _ Hs _ _ Hp).
    + unfold tag. simpl. by rewrite (ok_pending _ _ Hs _ _ Hp).
  - unfold worker_connected in Hc. destruct (pending_starts (inner s) !! id) as [p|].
    + destruct (add_worker_to_pool _ _ _) as [[]|]; done.
    + simplify_eq. by destruct s.
  - pose proof (premium_tier_index_le tier). by apply spawn_n_spec.
Qed.

Lemma sys_new_inv : pool_inv sys_new.
Proof.
  split; [split; try done|].
  - intros [|[|[|i]]] w; unfold pool_at; simpl; set_solver.
  - intros [|[|[|i]]] j; unfold queue_at; simpl; done.
  - intros [|[|[|i]]] t; unfold queue_at; simpl; set_solver.
  - intros [|[|[|i]]]; unfold queue_at; simpl; apply NoDup_nil_2.
  - split; simpl; [constructor|apply NoDup_nil_2|constructor].
Qed.

Lemma pool_run_inv l s : pool_run sys_new l s → pool_inv s ∧ (roster s).*2 ≡ₚ l.
Proof.
  induction 1 as [|l1 s1 l2 s2 _ [Hi Hp] Hstep]; [split; [apply sys_new_inv|done]|].
  destruct (pool_step_inv _ _ _ Hi Hstep) as [Hi' Hp']. split; [done|]. by rewrite Hp', Hp.
Qed.

#[local] Ltac reach H := apply pool_run_inv in H as [[Hshape Hroster] Hcensus].

(** * Properties *)

(** C1: Worker conservation. In every state reachable from the empty pool, the workers that
    exist (idle in a pool, owned by a session, or started and not yet connected) are, tier by
    tier, exactly as many as [spawn_workers] asked for, and no worker id occurs twice: no
    sequence of requests, hand-overs, returns, connections and broken workers loses or
    duplicates a worker. *)
Theorem pool_conserves_workers l s :
  pool_run sys_new l s → (roster s).*2 ≡ₚ l ∧ NoDup (roster s).*1.
Proof. intros H. reach H. split; [done|]. by destruct Hroster. Qed.

(** C8: No request waits while a worker that could serve it is idle: as long as a task waits
    for a worker of its tier, all pools of that tier and of the tiers below are empty. *)
Theorem no_idle_worker_while_waiting l s t g tier j :
  pool_run sys_new l s → waiting s !! t = Some (g, tier) → (j ≤ premium_tier_index tier)%nat →
  pool_at (pools (inner s)) j = [].
Proof.
  intros H Hw. reach H. intros Hj. eapply (ok_excl _ _ Hshape); [|done].
  apply (ok_waiting _ _ Hshape) in Hw. intros Hnil. rewrite Hnil in Hw. set_solver.
Qed.


(** The pool never panics. In a reachable state, with the id generator below its limit,
    taking a worker, returning one (broken or not) and accepting a connection all return:
    no index is out of range, the hand-over loop does not run below tier 0, and the receiver
    of a queued request is never gone. *)
Theorem pool_never_panics l s :
  pool_run sys_new l s → worker_id_gen (inner s) < u64_max →
  (∀ clk t g tier, inner_get_worker clk t g tier (inner s) ≠ Panic) ∧
  (∀ h1 w h2 now broken, held s = h1 ++ w :: h2 →
     return_worker (alive s) now w broken (inner s) ≠ Panic) ∧
  (∀ t1 t2 id, worker_connected (alive s) t1 t2 id (inner s) ≠ Panic).
Proof.
  intros H Hgen. apply pool_run_inv in H as [Hi _]. pose proof Hi as [Hshape Hroster]. split_and!.
  - intros clk t g tier Hp. pose proof (get_worker_spec clk t g tier _ _ Hshape) as Hs.
    by rewrite Hp in Hs.
  - intros h1 w h2 now broken Hh. destruct (set_aside _ _ _ _ Hh Hi) as (_ & _ & Ht).
    unfold return_worker. simpl. destruct broken.
    + unfold spawn_worker, gen_id, u64_incr. apply Z.ltb_lt in Hgen. by rewrite Hgen.
    + set (w' := mkWorkerHandle _ _ _ _ _). pose proof (add_worker_spec s w' Hshape Ht) as Hs.
      by destruct (add_worker_to_pool _ _ _) as [[]|].
  - intros t1 t2 id. unfold worker_connected.
    destruct (pending_starts (inner s) !! id) as [p|] eqn:Hp; [|done].
    destruct (unpend _ _ _ Hi Hp) as [[Hshape0 _] Hr0].
    assert (pw_priority_index p ≤ MAX_PREMIUM_SLOT_TIER)%nat as Ht.
    { rewrite Hr0, roster_ok_cons in Hroster. simpl in Hroster. tauto. }
    pose proof (add_worker_spec _ (init_worker_handles p t1 t2) Hshape0 Ht) as Hs. simpl in Hs.
    change (alive _) with (alive s) in Hs.
    by destruct (add_worker_to_pool _ _ _) as [[]|].
Qed.

(** Which worker a request gets. If some idle worker it may use last ran the same guild,
    it gets such a worker; otherwise it gets the worker with the greatest idle time the scan
    read in the highest tier that has any (with one clock reading, the one returned first). *)
Theorem request_prefers_guild_then_lru l s clk t g tier w st :
  pool_run sys_new l s →
  inner_get_worker clk t g tier (inner s) = Ret (Got w, st) →
  has_last_guild g w = true ∨
  ((∀ j w', (j ≤ premium_tier_index tier)%nat → w' ∈ pool_at (pools (inner s)) j →
      has_last_guild g w' = false) ∧
   ∃ k, pool_at (pools (inner s)) (priority_index w) !! k = Some w ∧
     (∀ k' w', pool_at (pools (inner s)) (priority_index w) !! k' = Some w' →
        age_read clk k' w' ≤ age_read clk k w) ∧
     (∀ now, (∀ n, clk n = now) → ∀ w', w' ∈ pool_at (pools (inner s)) (priority_index w) →
        returned_at w' ≤ now → returned_at w ≤ now → returned_at w ≤ returned_at w') ∧
     ∀ j, (priority_index w < j ≤ premium_tier_index tier)%nat → pool_at (pools (inner s)) j = []).
Proof.
  intros H Hget. reach H. pose proof (premium_tier_index_le tier).
  assert (premium_tier_index tier < length (pools (inner s)))%nat as Hlen
    by (rewrite (ok_pools_len _ _ Hshape); lia).
  unfold inner_get_worker in Hget. pose proof (scan_same_guild_spec g _ _ Hlen) as Hsame.
  destruct (scan_same_guild _ _ _) as [[[w0 ps0]|]|]; simpl in Hget; [| |done].
  { left. simplify_eq. by destruct Hsame as (?&?&?&?&?). }
  right. pose proof (scan_lru_spec clk _ _ Hlen) as Hlru.
  destruct (scan_lru _ _ _) as [[[w0 ps0]|]|]; simpl in Hget; [| |done]; simplify_eq.
  2: { by destruct (req_queues _ !! _). }
  destruct Hlru as (j & k & Ht & Hmax & Hhigh).
  destruct (take_shape _ _ _ _ _ _ _ Hshape Ht) as (_ & _ & Hj & _).
  destruct Ht as (_ & pool & Hpool & Hk & _). subst j.
  assert (pool_at (pools (inner s)) (priority_index w) !! k = Some w) as Hw
    by (unfold pool_at; by rewrite Hpool).
  split. { intros j w' Hj Hin. specialize (Hsame j Hj). rewrite Forall_forall in Hsame. auto. }
  exists k. split_and!; [done|done| |done].
  intros now Hclk w' [k' Hk']%list_elem_of_lookup Hr' Hr.
  specialize (Hmax _ _ Hk'). unfold age_read, elapsed in Hmax. rewrite !Hclk in Hmax. lia.
Qed.

(** ** Witnesses *)

(** One lite worker is spawned, connects, and is claimed by guild 7. *)
Definition ex_spawned : PoolSys := mkSys (mkPool 2 {[2 := mkPending 2 1]} [[]; []; []] [[]; []; []]) [] ∅.
Definition ex_worker : WorkerHandle := mkWorkerHandle None 5 5 2 1.
Definition ex_idle : PoolSys := mkSys (mkPool 2 ∅ [[]; [ex_worker]; []] [[]; []; []]) [] ∅.
Definition ex_waiting : PoolSys :=
  mkSys (mkPool 1 ∅ [[]; []; []] [[]; [4%nat]; []]) [] {[4%nat := (7, Some Lite)]}.

Lemma ex_run_idle : pool_run sys_new [1%nat] ex_idle.
Proof.
  change [1%nat] with ([] ++ ([1%nat] ++ ([] : list nat))).
  eapply run_step; [eapply run_step; [constructor|]|].
  - exact (step_spawned sys_new (Some Lite) 1 (inner ex_spawned) eq_refl).
  - exact (step_connected ex_spawned 5 5 6 2 Pooled ex_worker (inner ex_idle) eq_refl).
Defined.

Lemma ex_run_waiting : pool_run sys_new [] ex_waiting.
Proof.
  change ([] : list nat) with (([] : list nat) ++ []). eapply run_step; [constructor|].
  exact (step_queued sys_new (λ _, 0) 4 7 (Some Lite) (inner ex_waiting) eq_refl eq_refl).
Defined.

Lemma pool_conserves_workers_witness :
  pool_run sys_new [1%nat] ex_idle ∧ ((roster ex_idle).*2 ≡ₚ [1%nat] ∧ NoDup (roster ex_idle).*1).
Proof. split; [exact ex_run_idle|]. exact (pool_conserves_workers _ _ ex_run_idle). Defined.

Lemma no_idle_worker_while_waiting_witness : pool_at (pools (inner ex_waiting)) 0 = [].
Proof.
  apply (no_idle_worker_while_waiting [] ex_waiting 4 7 (Some Lite) 0);
    [exact ex_run_waiting|reflexivity|simpl; lia].
Defined.


Lemma pool_never_panics_witness :
  worker_connected (alive ex_idle) 1 1 2 (inner ex_idle) ≠ Panic.
Proof. apply (pool_never_panics _ _ ex_run_idle). reflexivity. Defined.

Lemma request_prefers_guild_then_lru_witness :
  has_last_guild 7 ex_worker = false ∧
  (has_last_guild 7 ex_worker = true ∨
   (∃ k, pool_at (pools (inner ex_idle)) 1%nat !! k = Some ex_worker)).
Proof.
  split; [reflexivity|].
  destruct (request_prefers_guild_then_lru _ _ (λ _, 9) 1%nat 7 (Some Premium) ex_worker
    (mkPool 2 ∅ [[]; []; []] [[]; []; []]) ex_run_idle eq_refl) as [H|(_ & k & Hk & _)];
    [by left|right; by exists k].
Defined.
