(* ===== verification/Commands.v ===== *)
(** Application commands: the conversion of the commands a script declares to Discord's
    ([components/runtime-models/src/internal/script.rs]), and the command manager that groups
    them, merges the commands of a guild's scripts and pushes the result to Discord
    ([cmd/scheduler/src/command_manager.rs]).

    The manager's inputs are arguments: [clk] gives the clock reading for each queued group,
    [scripts_of] the answer of the config store, [set_ok] the answer of Discord, and
    [to_string] is the JSON serializer. Its effects are returned as a list of [CmdAction]. *)
From stdpp Require Import base gmap list strings pretty.
From S2P Require Import Prelude Models.

(** * Conversions (script.rs) *)

(** [v as i64] for an [f64] given by its bits: truncation toward zero, saturating, 0 for NaN. *)
Definition f64_as_i64 (x : f64) : Z :=
  let b := f64_bits x in
  let neg := Z.testbit b 63 in
  let e := Z.land (Z.shiftr b 52) 2047 in
  let frac := Z.land b (2 ^ 52 - 1) in
  let magnitude :=
    if e =? 2047 then (if frac =? 0 then 2 ^ 64 else 0)
    else let mant := if e =? 0 then frac else frac + 2 ^ 52 in
         let ex := (if e =? 0 then 1 else e) - 1075 in
         if 0 <=? ex then Z.shiftl mant ex else Z.shiftr mant (- ex) in
  let v := if neg then - magnitude else magnitude in
  Z.max i64_min (Z.min i64_max v).

Definition tw_channel_type (v : ChannelType) : TwChannelType :=
  match v with
  | ChText => TwGuildText
  | ChVoice => TwGuildVoice
  | ChCategory => TwGuildCategory
  | ChNews => TwGuildAnnouncement
  | ChStageVoice => TwGuildStageVoice
  | ChNewsThread => TwAnnouncementThread
  | ChPublicThread => TwPublicThread
  | ChPrivateThread => TwPrivateThread
  | ChGuildDirectory => TwGuildDirectory
  | ChForum => TwGuildForum
  | ChStore => TwGuildText
  | ChUnknown k => TwUnknownChannel k
  end.

Definition channel_type_of_tw (v : TwChannelType) : outcome ChannelType :=
  match v with
  | TwGuildText => Ret ChText
  | TwGuildVoice => Ret ChVoice
  | TwGuildCategory => Ret ChCategory
  | TwGuildAnnouncement => Ret ChNews
  | TwGuildStageVoice => Ret ChStageVoice
  | TwAnnouncementThread => Ret ChNewsThread
  | TwPublicThread => Ret ChPublicThread
  | TwPrivateThread => Ret ChPrivateThread
  | TwGroup => Panic
  | TwPrivate => Panic
  | TwGuildDirectory => Ret ChGuildDirectory
  | TwGuildForum => Ret ChForum
  | TwUnknownChannel k => Ret (ChUnknown k)
  end.

Definition tw_command_type (v : CommandType) : TwCommandType :=
  match v with
  | Chat => TwChatInput
  | UserCommand => TwUserCommand
  | MessageCommand => TwMessageCommand
  end.

Definition tw_option_type (v : CommandOptionType) : TwOptionType :=
  match v with
  | CoString => TwString
  | CoInteger => TwInteger
  | CoBoolean => TwBoolean
  | CoUser => TwUser
  | CoChannel => TwChannel
  | CoRole => TwRole
  | CoMentionable => TwMentionable
  | CoNumber => TwNumber
  end.

(** [impl From<CommandOption> for twilight's CommandOption] *)
Definition tw_option (v : CommandOption) : TwCommandOption :=
  let ex := co_extra_options v in
  match co_kind v with
  | CoString => mkTwOption (co_name v) (co_description v) TwString (Some (co_required v)) None None None None
  | CoInteger =>
      mkTwOption (co_name v) (co_description v) TwInteger (Some (co_required v)) None None
        ((λ x, TwIntegerValue (f64_as_i64 x)) <$> ex_min_value ex)
        ((λ x, TwIntegerValue (f64_as_i64 x)) <$> ex_max_value ex)
  | CoBoolean => mkTwOption (co_name v) (co_description v) TwBoolean (Some (co_required v)) None None None None
  | CoUser => mkTwOption (co_name v) (co_description v) TwUser (Some (co_required v)) None None None None
  | CoChannel =>
      mkTwOption (co_name v) (co_description v) TwChannel (Some (co_required v)) None
        (Some (tw_channel_type <$> default [] (ex_channel_types ex))) None None
  | CoRole => mkTwOption (co_name v) (co_description v) TwRole (Some (co_required v)) None None None None
  | CoMentionable =>
      mkTwOption (co_name v) (co_description v) TwMentionable (Some (co_required v)) None None None None
  | CoNumber =>
      mkTwOption (co_name v) (co_description v) TwNumber (Some (co_required v)) None None
        (TwNumberValue <$> ex_min_value ex) (TwNumberValue <$> ex_max_value ex)
  end.

(** [impl From<Command> for twilight's CommandOption]: a command as a sub command. *)
Definition tw_sub_command (cmd : Command) : TwCommandOption :=
  mkTwOption (c_name cmd) (c_description cmd) TwSubCommand None
    (match c_options cmd with [] => None | _ => Some (tw_option <$> c_options cmd) end) None None None.

(** * Grouping (command_manager.rs) *)

Definition GROUP_DESC_PLACEHOLDER : string := "no description".

Definition make_unknown_group (guild_id : Z) (name : string) : TwCommand :=
  mkTwCommand name GROUP_DESC_PLACEHOLDER TwChatInput (Some guild_id) [].

Definition group_to_twilight_command (guild_id : Z) (group : CommandGroup) : TwCommand :=
  let opts := (λ sg, mkTwOption (sg_name sg) (sg_description sg) TwSubCommandGroup
                       None None None None None) <$> cg_sub_groups group in
  mkTwCommand (cg_name group) (cg_description group) TwChatInput (Some guild_id) opts.

Definition top_level_command (cmd : Command) : TwCommand :=
  mkTwCommand (c_name cmd)
    (match c_kind cmd with Chat => c_description cmd | _ => "" end)
    (tw_command_type (c_kind cmd)) None (tw_option <$> c_options cmd).

Definition set_cmd_options (c : TwCommand) (os : list TwCommandOption) : TwCommand :=
  mkTwCommand (cmd_name c) (cmd_description c) (cmd_kind c) (cmd_guild_id c) os.
Definition set_cmd_description (c : TwCommand) (d : string) : TwCommand :=
  mkTwCommand (cmd_name c) d (cmd_kind c) (cmd_guild_id c) (cmd_options c).
Definition set_opt_options (o : TwCommandOption) (os : option (list TwCommandOption)) : TwCommandOption :=
  mkTwOption (opt_name o) (opt_description o) (opt_kind o) (opt_required o) os
    (opt_channel_types o) (opt_min_value o) (opt_max_value o).
Definition set_opt_description (o : TwCommandOption) (d : string) : TwCommandOption :=
  mkTwOption (opt_name o) d (opt_kind o) (opt_required o) (opt_options o)
    (opt_channel_types o) (opt_min_value o) (opt_max_value o).

Definition opt_named (n : string) (o : TwCommandOption) : bool := bool_decide (opt_name o = n).
Definition cmd_named (n : string) (c : TwCommand) : bool := bool_decide (cmd_name c = n).

(** Appends a command to the options of a sub group. *)
Definition push_sub_option (cmd : Command) (g : TwCommandOption) : TwCommandOption :=
  match opt_options g with
  | Some options => set_opt_options g (Some (options ++ [tw_sub_command cmd]))
  | None => set_opt_options g (Some [tw_sub_command cmd])
  end.

(** Adds a command to its group, below its sub group if it has one. *)
Definition add_to_group (cmd : Command) (group : TwCommand) : TwCommand :=
  match c_sub_group cmd with
  | Some sub =>
      match find_index (opt_named sub) (cmd_options group) with
      | Some _ =>
          set_cmd_options group (update_first (opt_named sub) (push_sub_option cmd) (cmd_options group))
      | None =>
          set_cmd_options group
            (cmd_options group ++
             [mkTwOption sub GROUP_DESC_PLACEHOLDER TwSubCommandGroup None
                (Some [tw_sub_command cmd]) None None None])
      end
  | None => set_cmd_options group (cmd_options group ++ [tw_sub_command cmd])
  end.

(** One round of the loop over the commands. *)
Definition add_grouped (guild_id : Z) (groups : list TwCommand) (cmd : Command) : list TwCommand :=
  match c_group cmd with
  | Some cmd_group =>
      match find_index (cmd_named cmd_group) groups with
      | Some _ => update_first (cmd_named cmd_group) (add_to_group cmd) groups
      | None => groups ++ [add_to_group cmd (make_unknown_group guild_id cmd_group)]
      end
  | None => groups
  end.

Definition has_no_group (cmd : Command) : bool :=
  match c_group cmd with None => true | Some _ => false end.

Definition to_twilight_commands (guild_id : Z) (commands : list Command) (groups : list CommandGroup)
    : list TwCommand :=
  let result := top_level_command <$> List.filter has_no_group commands in
  let groups := group_to_twilight_command guild_id <$> groups in
  result ++ fold_left (add_grouped guild_id) commands groups.

(** * Merging the commands of several scripts *)

Definition is_sub_kind (o : TwCommandOption) : bool :=
  match opt_kind o with
  | TwSubCommand | TwSubCommandGroup => true
  | _ => false
  end.

(** One round of the loop of [merge_subgroups]. *)
Definition merge_sub_option (src : TwCommandOption) (dst : TwCommandOption) (opt : TwCommandOption)
    : TwCommandOption :=
  match opt_options dst with
  | Some dst_options =>
      if existsb (opt_named (opt_name opt)) dst_options then dst
      else set_opt_options dst (Some (dst_options ++ [opt]))
  | None => set_opt_options dst (opt_options src)
  end.

Definition adopt_description (dst src : string) : string :=
  if bool_decide (dst = GROUP_DESC_PLACEHOLDER) && negb (bool_decide (src = GROUP_DESC_PLACEHOLDER))
  then src else dst.

Definition merge_subgroups (dst src : TwCommandOption) : TwCommandOption :=
  let dst := set_opt_description dst (adopt_description (opt_description dst) (opt_description src)) in
  fold_left (merge_sub_option src) (default [] (opt_options src)) dst.

(** The loop of [merge_command] over the source's options; it stops at the first option that
    is not a sub command. *)
Fixpoint merge_options (dst : list TwCommandOption) (src : list TwCommandOption)
    : list TwCommandOption :=
  match src with
  | [] => dst
  | opt :: src' =>
      if negb (is_sub_kind opt) then dst
      else
        match find_first (opt_named (opt_name opt)) dst with
        | Some dst_opt =>
            match opt_kind dst_opt, opt_kind opt with
            | TwSubCommandGroup, TwSubCommandGroup =>
                merge_options (update_first (opt_named (opt_name opt)) (λ d, merge_subgroups d opt) dst) src'
            | _, _ => merge_options dst src'
            end
        | None => merge_options (dst ++ [opt]) src'
        end
  end.

Definition merge_command (dst src : TwCommand) : TwCommand :=
  let dst := set_cmd_description dst (adopt_description (cmd_description dst) (cmd_description src)) in
  if forallb is_sub_kind (cmd_options dst)
  then set_cmd_options dst (merge_options (cmd_options dst) (cmd_options src))
  else dst.

(** One round of the inner loop of [merge_script_commands]. *)
Definition merge_into (result : list TwCommand) (cmd : TwCommand) : list TwCommand :=
  match find_index (cmd_named (cmd_name cmd)) result with
  | Some _ => update_first (cmd_named (cmd_name cmd)) (λ existing, merge_command existing cmd) result
  | None => result ++ [cmd]
  end.

Definition merge_script_commands (scripts : list Script) : list TwCommand :=
  fold_left (λ result script, fold_left merge_into (contrib_commands (script_contributes script)) result)
    scripts [].

(** * The manager *)

Record LoadedScript := mkLoaded {
  ls_guild_id : Z;
  ls_meta : ScriptMeta;
}.

Record PendingCheckGroup := mkCheck {
  pc_guild_id : Z;
  pc_started : Z;
  pc_items : list LoadedScript;
}.

Record CmdManager := mkCmdManager {
  pending_checks : list PendingCheckGroup;
  cached_commands : gmap Z string;
}.

Inductive CmdAction :=
| ActLog (e : LogEntry)
| ActSetGuildCommands (guild_id : Z) (cmds : list TwCommand).

Definition cmd_manager_new : CmdManager := mkCmdManager [] ∅.

Definition same_script (evt v : LoadedScript) : bool :=
  bool_decide (sm_script_id (ls_meta v) = sm_script_id (ls_meta evt)).

(** Overwrites the script's entry in the queue of its guild, or appends it. *)
Definition enqueue_item (evt : LoadedScript) (item : PendingCheckGroup) : PendingCheckGroup :=
  mkCheck (pc_guild_id item) (pc_started item)
    (match find_index (same_script evt) (pc_items item) with
     | Some _ => update_first (same_script evt) (λ _, evt) (pc_items item)
     | None => pc_items item ++ [evt]
     end).

Definition for_guild (g : Z) (e : PendingCheckGroup) : bool := bool_decide (pc_guild_id e = g).

Definition handle_evt (now : Z) (evt : LoadedScript) (m : CmdManager) : CmdManager :=
  let checks :=
    match find_index (for_guild (ls_guild_id evt)) (pending_checks m) with
    | Some _ => update_first (for_guild (ls_guild_id evt)) (enqueue_item evt) (pending_checks m)
    | None => pending_checks m ++ [mkCheck (ls_guild_id evt) now [evt]]
    end in
  mkCmdManager checks (cached_commands m).

Section manager.
Context (to_string : list TwCommand → string).
Context (scripts_of : Z → option (list Script)).
Context (set_ok : Z → bool).

(** [update_guild_commands]: [true] for [Ok(())]. *)
Definition update_guild_commands (guild_id : Z) (m : CmdManager)
    : bool * CmdManager * list CmdAction :=
  match scripts_of guild_id with
  | None => (false, m, [])
  | Some all_guild_scripts =>
      let merged := merge_script_commands all_guild_scripts in
      let serialized := to_string merged in
      let update :=
        let insert := mkCmdManager (pending_checks m) (<[guild_id := serialized]> (cached_commands m)) in
        (true, insert,
         [ActLog (log_info guild_id
            (String.append "updating guild commands, top level commands: " (pretty (length merged))));
          ActSetGuildCommands guild_id merged] ++
         (if set_ok guild_id then []
          else [ActLog (log_error guild_id "failed updating guild commands")])) in
      match cached_commands m !! guild_id with
      | Some current =>
          if bool_decide (current = serialized) then
            (true, m,
             [ActLog (log_info guild_id
                (String.append "skipped updating commands as there was no changes, top level commands: "
                   (pretty (length merged))))])
          else update
      | None => update
      end
  end.

Definition process_item (item : PendingCheckGroup) (m : CmdManager)
    : bool * CmdManager * list CmdAction :=
  update_guild_commands (pc_guild_id item) m.

Definition push_check (m : CmdManager) (item : PendingCheckGroup) : CmdManager :=
  mkCmdManager (pending_checks m ++ [item]) (cached_commands m).

(** The loop of [handle_tick] over the list it took; [k] counts the clock readings. *)
Fixpoint tick_loop (clk : nat → Z) (k : nat) (old : list PendingCheckGroup) (m : CmdManager)
    : CmdManager * list CmdAction :=
  match old with
  | [] => (m, [])
  | item :: old' =>
      if bool_decide (from_secs 10 < elapsed (clk k) (pc_started item)) then
        let '(ok, m1, acts) := process_item item m in
        let m1 := if ok then m1 else push_check m1 item in
        let '(m2, acts') := tick_loop clk (S k) old' m1 in (m2, acts ++ acts')
      else
        tick_loop clk (S k) old' (push_check m item)
  end.

Definition handle_tick (clk : nat → Z) (m : CmdManager) : CmdManager * list CmdAction :=
  tick_loop clk 0 (pending_checks m) (mkCmdManager [] (cached_commands m)).
End manager.

(** * Facts about grouping *)

(** [b] keeps what [a] has: name and kind, and at least the same nested options. *)
Definition opt_extends (a b : TwCommandOption) : Prop :=
  opt_name b = opt_name a ∧ opt_kind b = opt_kind a ∧
  default [] (opt_options a) ⊆ default [] (opt_options b).

Definition grp_extends (a b : TwCommand) : Prop :=
  cmd_name b = cmd_name a ∧
  ∀ o, o ∈ cmd_options a → ∃ o', o' ∈ cmd_options b ∧ opt_extends o o'.

Definition groups_extend (gs gs' : list TwCommand) : Prop :=
  ∀ g, g ∈ gs → ∃ g', g' ∈ gs' ∧ grp_extends g g'.

(** [cmd] is found below its group, and below its sub group if it names one. *)
Definition filed (groups : list TwCommand) (cmd : Command) : Prop :=
  ∀ g, c_group cmd = Some g →
  ∃ grp, grp ∈ groups ∧ cmd_name grp = g ∧
    match c_sub_group cmd with
    | None => ∃ o, o ∈ cmd_options grp ∧ opt_extends (tw_sub_command cmd) o
    | Some sg => ∃ o, o ∈ cmd_options grp ∧ opt_name o = sg ∧
        tw_sub_command cmd ∈ default [] (opt_options o)
    end.

#[global] Instance opt_extends_preorder : PreOrder opt_extends.
Proof.
  split; [by intros o|]. intros a b c (H1 & H2 & H3) (H4 & H5 & H6).
  split_and!; [congruence..|]. by etrans.
Qed.

#[global] Instance grp_extends_preorder : PreOrder grp_extends.
Proof.
  split; [intros g; split; [done|]; intros o Ho; by exists o|].
  intros a b c [H1 H2] [H3 H4]. split; [congruence|]. intros o Ho.
  destruct (H2 o Ho) as (o1 & Ho1 & He1). destruct (H4 o1 Ho1) as (o2 & Ho2 & He2).
  exists o2. split; [done|]. by etrans.
Qed.

#[global] Instance groups_extend_preorder : PreOrder groups_extend.
Proof.
  split; [intros gs g Hg; by exists g|]. intros a b c H1 H2 g Hg.
  destruct (H1 g Hg) as (g1 & Hg1 & He1). destruct (H2 g1 Hg1) as (g2 & Hg2 & He2).
  exists g2. split; [done|]. by etrans.
Qed.

Lemma elem_of_update_first {A} (p : A → bool) f (l : list A) x :
  x ∈ l → ∃ y, y ∈ update_first p f l ∧ (y = x ∨ y = f x).
Proof.
  induction l as [|z l IH]; [set_solver|]. simpl. intros [->|Hin]%elem_of_cons.
  - destruct (p z); [exists (f z)|exists z]; set_solver.
  - destruct (p z); [exists x; set_solver|]. destruct (IH Hin) as (y & Hy & ?). exists y. set_solver.
Qed.

(** The element that [find_index] finds is the one [update_first] updates. *)
Lemma update_first_found {A} (p : A → bool) f (l : list A) k :
  find_index p l = Some k → ∃ x, x ∈ l ∧ p x = true ∧ f x ∈ update_first p f l.
Proof.
  revert k. induction l as [|z l IH]; intros k; simpl; [done|]. destruct (p z) eqn:Hp.
  - exists z. set_solver.
  - destruct (find_index p l) as [k'|]; [|done]. intros _.
    destruct (IH k' eq_refl) as (x & ? & ? & ?). exists x. set_solver.
Qed.

Lemma push_sub_option_extends cmd o : opt_extends o (push_sub_option cmd o).
Proof. unfold push_sub_option. destruct (opt_options o) as [l|] eqn:Ho; split_and!; simpl; rewrite ?Ho; set_solver. Qed.

Lemma add_to_group_extends cmd g : grp_extends g (add_to_group cmd g).
Proof.
  unfold add_to_group. destruct (c_sub_group cmd) as [sg|].
  - destruct (find_index _ _); split; try done; simpl; intros o Ho.
    + destruct (elem_of_update_first (opt_named sg) (push_sub_option cmd) _ _ Ho) as (y & Hy & [-> | ->]);
        eexists; (split; [done|]); [done|apply push_sub_option_extends].
    + exists o. set_solver.
  - split; [done|]. simpl. intros o Ho. exists o. set_solver.
Qed.

Lemma add_to_group_filed cmd g :
  match c_sub_group cmd with
  | None => ∃ o, o ∈ cmd_options (add_to_group cmd g) ∧ opt_extends (tw_sub_command cmd) o
  | Some sg => ∃ o, o ∈ cmd_options (add_to_group cmd g) ∧ opt_name o = sg ∧
      tw_sub_command cmd ∈ default [] (opt_options o)
  end.
Proof.
  unfold add_to_group. destruct (c_sub_group cmd) as [sg|].
  - destruct (find_index _ _) as [k|] eqn:Hk; simpl.
    + destruct (update_first_found _ (push_sub_option cmd) _ _ Hk) as (x & Hx & Hp & Hf).
      apply bool_decide_eq_true_1 in Hp. eexists. split; [exact Hf|].
      unfold push_sub_option. destruct (opt_options x); simpl; set_solver.
    + eexists. rewrite elem_of_app. split; [right; by left|]. simpl. set_solver.
  - exists (tw_sub_command cmd). simpl. split; [set_solver|done].
Qed.

Lemma add_grouped_extends gid gs cmd : groups_extend gs (add_grouped gid gs cmd).
Proof.
  unfold add_grouped. destruct (c_group cmd) as [g|]; [|done].
  destruct (find_index _ _); intros grp Hg.
  - destruct (elem_of_update_first (cmd_named g) (add_to_group cmd) _ _ Hg) as (y & Hy & [-> | ->]);
      eexists; (split; [done|]); [done|apply add_to_group_extends].
  - exists grp. set_solver.
Qed.

Lemma add_grouped_filed gid gs cmd : filed (add_grouped gid gs cmd) cmd.
Proof.
  intros g Hg. unfold add_grouped. rewrite Hg. destruct (find_index _ _) as [k|] eqn:Hk.
  - destruct (update_first_found _ (add_to_group cmd) _ _ Hk) as (x & Hx & Hp & Hf).
    apply bool_decide_eq_true_1 in Hp. exists (add_to_group cmd x). split_and!; [done| |].
    + destruct (add_to_group_extends cmd x) as [-> _]. done.
    + apply add_to_group_filed.
  - exists (add_to_group cmd (make_unknown_group gid g)). split_and!; [set_solver| |].
    + destruct (add_to_group_extends cmd (make_unknown_group gid g)) as [-> _]. done.
    + apply add_to_group_filed.
Qed.

Lemma filed_extend gs gs' cmd : groups_extend gs gs' → filed gs cmd → filed gs' cmd.
Proof.
  intros He Hf g Hg. destruct (Hf g Hg) as (grp & Hin & Hn & Hs).
  destruct (He grp Hin) as (grp' & Hin' & [Hn' Ho']). exists grp'. split_and!; [done|congruence|].
  destruct (c_sub_group cmd) as [sg|]; destruct Hs as (o & Ho & Hrest);
    destruct (Ho' o Ho) as (o' & Hoin & Hext); exists o'; (split; [done|]).
  - destruct Hext as (Hname & _ & Hsub). split; [|by apply Hsub, Hrest].
    destruct Hrest. congruence.
  - by etrans.
Qed.

Lemma fold_add_grouped gid cmds gs :
  groups_extend gs (fold_left (add_grouped gid) cmds gs) ∧
  ∀ cmd, cmd ∈ cmds → filed (fold_left (add_grouped gid) cmds gs) cmd.
Proof.
  revert gs. induction cmds as [|c cmds IH]; intros gs; simpl; [split; [done|set_solver]|].
  destruct (IH (add_grouped gid gs c)) as [He Hf]. split.
  - etrans; [apply add_grouped_extends|done].
  - intros cmd [->|Hin]%elem_of_cons; [|by apply Hf].
    eapply filed_extend; [done|]. apply add_grouped_filed.
Qed.

(** ** The kinds below a group *)

(** No command that is directly in the group [g] has the name [sg]. *)
Definition no_plain (g sg : string) (cmd : Command) : Prop :=
  c_group cmd = Some g → c_sub_group cmd = None → c_name cmd ≠ sg.

(** What is called [sg] in a group is a sub group. *)
Definition only_sub_groups (sg : string) (os : list TwCommandOption) : Prop :=
  Forall (λ o, opt_name o = sg → opt_kind o = TwSubCommandGroup) os.

Lemma elem_of_update_first_inv {A} (p : A → bool) f (l : list A) y :
  y ∈ update_first p f l → y ∈ l ∨ ∃ x, x ∈ l ∧ p x = true ∧ y = f x.
Proof.
  induction l as [|z l IH]; simpl; [by left|]. destruct (p z) eqn:Hp.
  - intros [->|Hin]%elem_of_cons; [right; exists z; set_solver|left; set_solver].
  - intros [->|Hin]%elem_of_cons; [left; set_solver|]. destruct (IH Hin) as [?|(x & ? & ?)]; [left; set_solver|right; exists x; set_solver].
Qed.

Lemma add_to_group_only sg cmd grp :
  (c_sub_group cmd = None → c_name cmd ≠ sg) → only_sub_groups sg (cmd_options grp) → only_sub_groups sg (cmd_options (add_to_group cmd grp)).
Proof.
  unfold add_to_group, only_sub_groups. intros Hcmd Hall. destruct (c_sub_group cmd) as [sub|].
  - destruct (find_index _ _); simpl; [|by apply Forall_app_2; [|constructor]].
    rewrite Forall_forall in *. intros o [Ho|(x & Hx & _ & ->)]%elem_of_update_first_inv; [by apply Hall|].
    unfold push_sub_option. specialize (Hall x Hx). by destruct (opt_options x).
  - simpl. apply Forall_app_2; [done|]. constructor; [|done]. simpl. intros Hn. by destruct (Hcmd eq_refl).
Qed.

Lemma fold_add_grouped_only gid g sg cmds gs :
  Forall (no_plain g sg) cmds → Forall (λ grp, cmd_name grp = g → only_sub_groups sg (cmd_options grp)) gs →
  Forall (λ grp, cmd_name grp = g → only_sub_groups sg (cmd_options grp)) (fold_left (add_grouped gid) cmds gs).
Proof.
  intros Hcs. revert gs. induction Hcs as [|c cs Hc _ IH]; intros gs Hgs; simpl; [done|]. apply IH.
  unfold add_grouped, no_plain in *. destruct (c_group c) as [g'|]; [|done].
  assert (∀ grp, cmd_name grp = g' → (cmd_name grp = g → only_sub_groups sg (cmd_options grp)) →
    cmd_name (add_to_group c grp) = g → only_sub_groups sg (cmd_options (add_to_group c grp))) as Hadd.
  { intros grp Hn Hgrp. destruct (add_to_group_extends c grp) as [-> _]. intros Hg. apply add_to_group_only; [|by apply Hgrp].
    apply Hc. congruence. }
  destruct (find_index _ _); rewrite Forall_forall in *.
  - intros grp [Hin|(x & Hx & Hp & ->)]%elem_of_update_first_inv; [by apply Hgs|].
    apply Hadd; [by apply bool_decide_eq_true_1 in Hp|by apply Hgs].
  - intros grp [Hin|Hin]%elem_of_app; [by apply Hgs|]. apply list_elem_of_singleton in Hin as ->. apply Hadd; [done|]. constructor.
Qed.

(** [cmd] is registered where it was declared: at the top level, as a sub command of its group, or
    as one of the sub group of its group. *)
Definition registered (cmds : list TwCommand) (cmd : Command) : Prop :=
  match c_group cmd with
  | None => top_level_command cmd ∈ cmds
  | Some g =>
      ∃ grp o, grp ∈ cmds ∧ cmd_name grp = g ∧ o ∈ cmd_options grp ∧
        match c_sub_group cmd with
        | None => opt_extends (tw_sub_command cmd) o
        | Some sg => opt_name o = sg ∧ opt_kind o = TwSubCommandGroup ∧ tw_sub_command cmd ∈ default [] (opt_options o)
        end
  end.

(** The sub group of a command does not have the name of a command of the same group. *)
Definition no_clash (commands : list Command) (cmd : Command) : Prop :=
  ∀ g sg, c_group cmd = Some g → c_sub_group cmd = Some sg → Forall (no_plain g sg) commands.

Lemma commands_registered gid commands groups cmd :
  cmd ∈ commands → no_clash commands cmd → registered (to_twilight_commands gid commands groups) cmd.
Proof.
  intros Hin Hclash. unfold registered, to_twilight_commands.
  destruct (c_group cmd) as [g|] eqn:Hg.
  - destruct (fold_add_grouped gid commands (group_to_twilight_command gid <$> groups)) as [_ Hf].
    destruct (Hf cmd Hin g Hg) as (grp & Hgrp & Hn & Hs).
    destruct (c_sub_group cmd) as [sg|] eqn:Hsg; destruct Hs as (o & Ho & Hrest);
      exists grp, o; (split; [apply elem_of_app; by right|split; [done|split; [done|]]]); [|done].
    destruct Hrest as [Hname Hsub]. split_and!; [done| |done].
    pose proof (fold_add_grouped_only gid g sg commands (group_to_twilight_command gid <$> groups) (Hclash g sg Hg Hsg)) as Hall.
    ospecialize (Hall _).
    { apply Forall_fmap, Forall_true. intros cg _. unfold only_sub_groups. simpl. apply Forall_fmap. by apply Forall_true. }
    rewrite Forall_forall in Hall. specialize (Hall grp Hgrp Hn). unfold only_sub_groups in Hall. rewrite Forall_forall in Hall. by apply Hall.
  - apply elem_of_app. left. apply list_elem_of_fmap. exists cmd. split; [done|].
    apply list_elem_of_In, filter_In. split; [by apply list_elem_of_In|]. unfold has_no_group. by rewrite Hg.
Qed.

(** * Facts about merging *)

Lemma merge_command_name dst src : cmd_name (merge_command dst src) = cmd_name dst.
Proof. unfold merge_command. by destruct (forallb _ _). Qed.

Lemma merge_into_names res cmd :
  cmd_name <$> merge_into res cmd =
  (cmd_name <$> res) ++ (if bool_decide (cmd_name cmd ∈ cmd_name <$> res) then [] else [cmd_name cmd]).
Proof.
  unfold merge_into. destruct (find_index _ _) as [k|] eqn:Hk.
  - rewrite bool_decide_eq_true_2, app_nil_r.
    + change (fmap cmd_name) with (map cmd_name). apply map_update_first. intros. apply merge_command_name.
    + apply find_index_Some in Hk as (x & Hx & Hp & _). apply bool_decide_eq_true_1 in Hp.
      apply list_elem_of_fmap. exists x. split; [done|]. by eapply list_elem_of_lookup_2.
  - rewrite bool_decide_eq_false_2; [by rewrite fmap_app|].
    apply find_index_None in Hk. intros (x & Hx & Hin)%list_elem_of_fmap.
    rewrite Forall_forall in Hk. apply Hk in Hin. apply bool_decide_eq_false_1 in Hin. congruence.
Qed.

(** All commands of the scripts, in the order the nested loops visit them. *)
Definition all_commands (scripts : list Script) : list TwCommand :=
  concat ((λ s, contrib_commands (script_contributes s)) <$> scripts).

Lemma merge_script_commands_fold scripts :
  merge_script_commands scripts = fold_left merge_into (all_commands scripts) [].
Proof.
  unfold merge_script_commands, all_commands. generalize ([] : list TwCommand).
  induction scripts as [|s scripts IH]; intros res; simpl; [done|].
  by rewrite fold_left_app, IH.
Qed.

Lemma fold_merge_into_names cmds res :
  NoDup (cmd_name <$> res) →
  NoDup (cmd_name <$> fold_left merge_into cmds res) ∧
  ∀ n, n ∈ cmd_name <$> fold_left merge_into cmds res ↔ n ∈ cmd_name <$> res ∨ n ∈ cmd_name <$> cmds.
Proof.
  revert res. induction cmds as [|c cmds IH]; intros res Hnd; simpl; [set_solver|].
  destruct (IH (merge_into res c)) as [Hnd' Hin].
  { rewrite merge_into_names. case_bool_decide as Hc; [by rewrite app_nil_r|].
    apply NoDup_app. split_and!; [done| |apply NoDup_singleton].
    intros n Hn ->%list_elem_of_singleton. done. }
  split; [done|]. intros n. rewrite Hin, merge_into_names, elem_of_app, elem_of_cons.
  case_bool_decide as Hc; rewrite ?list_elem_of_singleton, ?elem_of_nil; [|tauto].
  split; [tauto|]. intros [|[->|]]; tauto.
Qed.

Lemma merge_sub_option_extends src dst o : opt_extends dst (merge_sub_option src dst o).
Proof.
  unfold merge_sub_option. destruct (opt_options dst) as [l|] eqn:Hd; simpl.
  - destruct (existsb _ _); [done|]. split_and!; simpl; rewrite ?Hd; set_solver.
  - split_and!; simpl; rewrite ?Hd; set_solver.
Qed.

Lemma merge_subgroups_extends dst src : opt_extends dst (merge_subgroups dst src).
Proof.
  unfold merge_subgroups. set (d := set_opt_description _ _).
  assert (opt_extends dst d) as Hd by done.
  revert Hd. generalize d. clear d. induction (default [] (opt_options src)) as [|o os IH]; intros d Hd; simpl; [done|].
  apply IH. etrans; [exact Hd|apply merge_sub_option_extends].
Qed.

(** What a merge of option lists may do to the destination. *)
Definition opts_extend (a b : list TwCommandOption) : Prop :=
  ∀ o, o ∈ a → ∃ o', o' ∈ b ∧ opt_extends o o'.

#[global] Instance opts_extend_preorder : PreOrder opts_extend.
Proof.
  split; [intros a o Ho; by exists o|]. intros a b c H1 H2 o Ho.
  destruct (H1 o Ho) as (o1 & Ho1 & ?). destruct (H2 o1 Ho1) as (o2 & ? & ?).
  exists o2. split; [done|]. by etrans.
Qed.

Lemma update_first_opts_extend p f l :
  (∀ o, opt_extends o (f o)) → opts_extend l (update_first p f l).
Proof.
  intros Hf o Ho. destruct (elem_of_update_first p f l o Ho) as (y & Hy & [-> | ->]); eauto.
  by exists o.
Qed.

Lemma merge_options_spec src dst :
  let res := merge_options dst src in
  opts_extend dst res ∧
  (NoDup (opt_name <$> dst) → NoDup (opt_name <$> res)) ∧
  (∀ n, n ∈ opt_name <$> res → n ∈ opt_name <$> dst ∨ n ∈ opt_name <$> src) ∧
  (∀ n, n ∈ opt_name <$> dst → n ∈ opt_name <$> res) ∧
  (forallb is_sub_kind src = true → ∀ n, n ∈ opt_name <$> src → n ∈ opt_name <$> res).
Proof.
  revert dst. induction src as [|o src IH]; intros dst; simpl; [split_and!; [done|set_solver..]|].
  destruct (is_sub_kind o) eqn:Hk; simpl; [|split_and!; [done|set_solver..|done]].
  destruct (find_first (opt_named (opt_name o)) dst) as [d|] eqn:Hf.
  - apply find_first_Some in Hf as [Hd Hdn]. apply bool_decide_eq_true_1 in Hdn.
    assert (opt_name o ∈ opt_name <$> dst) as Hin by (rewrite <- Hdn; by apply list_elem_of_fmap_2).
    assert (∀ dst', opts_extend dst dst' → opt_name <$> dst' = opt_name <$> dst →
      let res := merge_options dst' src in
      opts_extend dst res ∧
      (NoDup (opt_name <$> dst) → NoDup (opt_name <$> res)) ∧
      (∀ n, n ∈ opt_name <$> res → n ∈ opt_name <$> dst ∨ n ∈ opt_name o :: (opt_name <$> src)) ∧
      (∀ n, n ∈ opt_name <$> dst → n ∈ opt_name <$> res) ∧
      (forallb is_sub_kind src = true → ∀ n, n ∈ opt_name o :: (opt_name <$> src) → n ∈ opt_name <$> res))
      as Hstep.
    { intros dst' He Hn. destruct (IH dst') as (H1 & H2 & H3 & H4 & H5). rewrite Hn in *.
      split_and!; [by etrans|done| |done|].
      - intros n Hr. destruct (H3 n Hr); [by left|right; by right].
      - intros Hall n [->|Hs]%elem_of_cons; auto. }
    destruct (opt_kind d), (opt_kind o); try (apply Hstep; done).
    apply Hstep; [apply update_first_opts_extend; intros; apply merge_subgroups_extends|].
    change (fmap opt_name) with (map opt_name). apply map_update_first. intros x.
    by destruct (merge_subgroups_extends x o).
  - assert (opt_name o ∉ opt_name <$> dst) as Hnew.
    { apply find_first_None in Hf. rewrite Forall_forall in Hf.
      intros (x & Hx & Hin)%list_elem_of_fmap. apply Hf, bool_decide_eq_false_1 in Hin. congruence. }
    destruct (IH (dst ++ [o])) as (H1 & H2 & H3 & H4 & H5). rewrite fmap_app in *. simpl in *.
    split_and!.
    + etrans; [|exact H1]. intros x Hx. exists x. rewrite elem_of_app. by split; [left|].
    + intros Hnd. apply H2, NoDup_app. split_and!; [done| |apply NoDup_singleton].
      intros n Hn ->%list_elem_of_singleton. done.
    + intros n Hr. destruct (H3 n Hr) as [[Hn|Hn]%elem_of_app|Hn]; [by left| |right; by right].
      apply list_elem_of_singleton in Hn as ->. right. by left.
    + intros n Hn. apply H4, elem_of_app. by left.
    + intros Hall n [->|Hs]%elem_of_cons; [|auto]. apply H4, elem_of_app. right. by left.
Qed.

(** * Facts about the manager *)

Definition check_ok (c : PendingCheckGroup) : Prop :=
  NoDup ((λ v, sm_script_id (ls_meta v)) <$> pc_items c) ∧
  Forall (λ v, ls_guild_id v = pc_guild_id c) (pc_items c).

(** One queue per guild, at most one entry per script in it. *)
Definition manager_ok (m : CmdManager) : Prop :=
  NoDup (pc_guild_id <$> pending_checks m) ∧ Forall check_ok (pending_checks m).

Lemma update_first_same_key {A B} `{EqDecision B} (key : A → B) (x : A) (l : list A) :
  key <$> update_first (λ v, bool_decide (key v = key x)) (λ _, x) l = key <$> l.
Proof.
  induction l as [|y l IH]; [done|]. cbn [update_first].
  case_bool_decide as Hy; rewrite !fmap_cons; congruence.
Qed.

Lemma NoDup_snoc_new {A B} (key : A → B) (l : list A) (x : A) :
  NoDup (key <$> l) → (∀ y, y ∈ l → key y ≠ key x) → NoDup (key <$> l ++ [x]).
Proof.
  intros Hnd Hne. rewrite fmap_app. apply NoDup_app. split_and!; [done| |apply NoDup_singleton].
  intros k (y & -> & Hy)%list_elem_of_fmap Hk. apply (Hne y Hy). set_solver.
Qed.

Lemma Forall_update_first_at {A} (P : A → Prop) p f (l : list A) :
  Forall P l → (∀ x, x ∈ l → p x = true → P x → P (f x)) → Forall P (update_first p f l).
Proof.
  intros HP. induction HP as [|x l Hx HP IH]; intros Hf; simpl; [done|].
  destruct (p x) eqn:Hp; constructor; auto; [apply Hf; set_solver|]. apply IH. set_solver.
Qed.

Lemma enqueue_item_ok evt c :
  check_ok c → ls_guild_id evt = pc_guild_id c → check_ok (enqueue_item evt c).
Proof.
  intros [Hnd Hall] Hg. unfold enqueue_item, check_ok. simpl.
  destruct (find_index _ _) as [k|] eqn:Hk.
  - split.
    + unfold same_script. by rewrite (update_first_same_key (λ v, sm_script_id (ls_meta v))).
    + by apply update_first_Forall.
  - apply find_index_None in Hk. rewrite Forall_forall in Hk. split.
    + apply NoDup_snoc_new; [done|]. intros y Hy. by apply Hk, bool_decide_eq_false_1 in Hy.
    + apply Forall_app. by split; [|constructor].
Qed.

Lemma handle_evt_ok now evt m : manager_ok m → manager_ok (handle_evt now evt m).
Proof.
  intros [Hnd Hall]. unfold handle_evt, manager_ok. simpl.
  destruct (find_index _ _) as [k|] eqn:Hk.
  - split.
    + change (fmap pc_guild_id) with (map pc_guild_id). by rewrite map_update_first.
    + apply Forall_update_first_at; [done|]. intros c _ Hc Hok.
      apply bool_decide_eq_true_1 in Hc. by apply enqueue_item_ok.
  - apply find_index_None in Hk. rewrite Forall_forall in Hk. split.
    + apply NoDup_snoc_new; [done|]. intros y Hy. by apply Hk, bool_decide_eq_false_1 in Hy.
    + apply Forall_app. split; [done|]. constructor; [|done].
      split; simpl; [apply NoDup_singleton|by constructor].
Qed.

Section tick.
Context (to_string : list TwCommand → string).
Context (scripts_of : Z → option (list Script)).
Context (set_ok : Z → bool).

(** A queued group stays queued when it is young or its scripts could not be read. *)
Definition keeps (clk : nat → Z) (ki : nat * PendingCheckGroup) : bool :=
  negb (bool_decide (from_secs 10 < elapsed (clk ki.1) (pc_started ki.2)))
  || negb (bool_decide (is_Some (scripts_of (pc_guild_id ki.2)))).

Lemma update_guild_commands_pending g m :
  pending_checks (update_guild_commands to_string scripts_of set_ok g m).1.2 = pending_checks m.
Proof.
  unfold update_guild_commands. destruct (scripts_of g); [|done].
  destruct (cached_commands m !! g); [|done]. by case_bool_decide.
Qed.

Lemma update_guild_commands_ok g m :
  (update_guild_commands to_string scripts_of set_ok g m).1.1 = bool_decide (is_Some (scripts_of g)).
Proof.
  unfold update_guild_commands. destruct (scripts_of g); simpl; [|done].
  destruct (cached_commands m !! g); [|done]. by case_bool_decide.
Qed.

Lemma tick_loop_pending clk k old m :
  pending_checks (tick_loop to_string scripts_of set_ok clk k old m).1 =
  pending_checks m ++ (List.filter (keeps clk) (zip (seq k (length old)) old)).*2.
Proof.
  revert k m. induction old as [|c old IH]; intros k m; simpl; [by rewrite app_nil_r|].
  unfold keeps at 1. simpl. case_bool_decide as Hage; simpl.
  - unfold process_item. pose proof (update_guild_commands_pending (pc_guild_id c) m) as Hp.
    pose proof (update_guild_commands_ok (pc_guild_id c) m) as Hok.
    destruct (update_guild_commands _ _ _ _ _) as [[ok m1] acts]. simpl in *. subst ok.
    destruct (tick_loop _ _ _ _ _ _ _) as [m2 acts'] eqn:Ht. simpl.
    assert (m2 = (tick_loop to_string scripts_of set_ok clk (S k) old
      (if bool_decide (is_Some (scripts_of (pc_guild_id c))) then m1 else push_check m1 c)).1) as ->
      by by rewrite Ht.
    rewrite IH. case_bool_decide; simpl; rewrite Hp; [done|]. by rewrite <- app_assoc.
  - rewrite IH. simpl. by rewrite <- app_assoc.
Qed.
End tick.

Lemma fmap_sublist {A B} (f : A → B) (l k : list A) :
  l `sublist_of` k → f <$> l `sublist_of` f <$> k.
Proof. induction 1; simpl; by constructor. Qed.

Lemma manager_ok_sublist m m' :
  pending_checks m' `sublist_of` pending_checks m → manager_ok m → manager_ok m'.
Proof.
  intros Hs [Hnd Hall]. split.
  - eapply sublist_NoDup; [done|by apply fmap_sublist].
  - rewrite Forall_forall in *. intros c Hc. apply Hall. by eapply elem_of_sublist.
Qed.

Lemma filter_sublist {A} (p : A → bool) (l : list A) : List.filter p l `sublist_of` l.
Proof. induction l as [|x l IH]; simpl; [constructor|]. destruct (p x); by constructor. Qed.

(** * Properties *)

(** No declared command is lost when commands are grouped: a command without a group is a
    top-level command of the result, and a command with a group is found below the result's
    command of that name (below its sub group if it names one), whether the group was
    declared or has to be made up. *)
Theorem commands_all_filed guild_id commands groups cmd :
  cmd ∈ commands →
  (c_group cmd = None → top_level_command cmd ∈ to_twilight_commands guild_id commands groups) ∧
  filed (to_twilight_commands guild_id commands groups) cmd.
Proof.
  intros Hin. unfold to_twilight_commands. split.
  - intros Hg. apply elem_of_app. left. apply list_elem_of_fmap. exists cmd. split; [done|].
    apply list_elem_of_In, filter_In. split; [by apply list_elem_of_In|].
    unfold has_no_group. by rewrite Hg.
  - eapply filed_extend; [|by apply (fold_add_grouped guild_id)].
    intros g Hg. exists g. split; [apply elem_of_app; by right|done].
Qed.

(** The merged command list of a guild has no two commands of the same name (Discord
    rejects duplicates), and it has a command for every name some script contributes, and no
    other. *)
Theorem merged_names_unique_complete scripts :
  NoDup (cmd_name <$> merge_script_commands scripts) ∧
  ∀ n, n ∈ cmd_name <$> merge_script_commands scripts ↔
    ∃ s c, s ∈ scripts ∧ c ∈ contrib_commands (script_contributes s) ∧ cmd_name c = n.
Proof.
  rewrite merge_script_commands_fold.
  destruct (fold_merge_into_names (all_commands scripts) []) as [Hnd Hin]; [apply NoDup_nil_2|].
  split; [done|]. intros n. rewrite Hin. simpl. rewrite elem_of_nil, list_elem_of_fmap.
  unfold all_commands. setoid_rewrite list_elem_of_In. setoid_rewrite in_concat.
  setoid_rewrite <- list_elem_of_In. split.
  - intros [[]|(c & -> & l & (s & -> & Hs)%list_elem_of_fmap & Hc)]. by exists s, c.
  - intros (s & c & Hs & Hc & <-). right. exists c. split; [done|]. eexists. split; [|exact Hc].
    by apply (list_elem_of_fmap_2 (λ s, contrib_commands (script_contributes s))).
Qed.

(** Merging two commands made of sub commands keeps all of them: the merged command has
    exactly the option names of both, none twice, and every option of the destination is
    still there with at least its nested sub commands. *)
Theorem merge_command_union dst src :
  forallb is_sub_kind (cmd_options dst) = true → forallb is_sub_kind (cmd_options src) = true →
  NoDup (opt_name <$> cmd_options dst) →
  let res := merge_command dst src in
  cmd_name res = cmd_name dst ∧ NoDup (opt_name <$> cmd_options res) ∧
  (∀ n, n ∈ opt_name <$> cmd_options res ↔
     n ∈ opt_name <$> cmd_options dst ∨ n ∈ opt_name <$> cmd_options src) ∧
  opts_extend (cmd_options dst) (cmd_options res).
Proof.
  intros Hd Hs Hnd. simpl. rewrite merge_command_name. unfold merge_command. simpl. rewrite Hd. simpl.
  destruct (merge_options_spec (cmd_options src) (cmd_options dst)) as (H1 & H2 & H3 & H4 & H5).
  split_and!; auto. intros n. split; [apply H3|]. intros [?|?]; auto.
Qed.

(** The queue of pending checks always has one group per guild and one entry per script,
    each in the group of its guild: both the arrival of a started script and a tick preserve
    this. *)
Theorem command_queue_invariant m :
  manager_ok m →
  (∀ now evt, manager_ok (handle_evt now evt m)) ∧
  (∀ to_string scripts_of set_ok clk,
     manager_ok (handle_tick to_string scripts_of set_ok clk m).1).
Proof.
  intros Hm. split; [intros; by apply handle_evt_ok|]. intros to_string scripts_of set_ok clk.
  eapply manager_ok_sublist; [|exact Hm]. unfold handle_tick. rewrite tick_loop_pending. simpl.
  etrans; [apply fmap_sublist, filter_sublist|]. by rewrite snd_zip by (by rewrite length_seq).
Qed.

(** A tick processes exactly the groups queued for more than ten seconds and drops those
    whose scripts could be read; the others stay queued, in order, and are retried. *)
Theorem tick_retries_failed to_string scripts_of set_ok clk m :
  pending_checks (handle_tick to_string scripts_of set_ok clk m).1 =
  (List.filter (keeps scripts_of clk)
     (zip (seq 0 (length (pending_checks m))) (pending_checks m))).*2.
Proof. unfold handle_tick. by rewrite tick_loop_pending. Qed.

(** Commands that did not change are not sent to Discord again: after an update that
    read the scripts, a second update with the same scripts succeeds, changes nothing and
    calls Discord not at all (also when Discord had rejected the first one). *)
Theorem unchanged_commands_not_resent to_string scripts_of set_ok set_ok' g m :
  is_Some (scripts_of g) →
  let m1 := (update_guild_commands to_string scripts_of set_ok g m).1.2 in
  let '(ok, m2, acts) := update_guild_commands to_string scripts_of set_ok' g m1 in
  ok = true ∧ m2 = m1 ∧ (∀ cmds, ActSetGuildCommands g cmds ∉ acts).
Proof.
  intros [scripts Hs]. simpl.
  assert (cached_commands (update_guild_commands to_string scripts_of set_ok g m).1.2 !! g =
    Some (to_string (merge_script_commands scripts))) as Hc.
  { unfold update_guild_commands. rewrite Hs.
    destruct (cached_commands m !! g) as [c|] eqn:Hc; [case_bool_decide; [by subst|]|];
      simpl; by rewrite lookup_insert_eq. }
  revert Hc. generalize (update_guild_commands to_string scripts_of set_ok g m).1.2. intros m1 Hc.
  unfold update_guild_commands. rewrite Hs, Hc. rewrite bool_decide_eq_true_2 by done.
  split_and!; [done..|]. intros cmds. rewrite list_elem_of_singleton. done.
Qed.

(** ** Witnesses *)

Definition ex_cmd : Command := mkCommand "ban" "bans" [] (Some "mod") (Some "user") Chat.
Definition ex_opt (n : string) : TwCommandOption := mkTwOption n "" TwSubCommand None None None None None.
Definition ex_tw (n : string) (os : list TwCommandOption) : TwCommand := mkTwCommand n "d" TwChatInput None os.
Definition ex_script : Script := mkScript 1 "s" "" true (mkContributes [ex_tw "mod" []] []) None None.

Lemma commands_all_filed_witness : filed (to_twilight_commands 3 [ex_cmd] []) ex_cmd.
Proof. apply (commands_all_filed 3 [ex_cmd] [] ex_cmd). by left. Defined.

Lemma merge_command_union_witness :
  opt_name <$> cmd_options (merge_command (ex_tw "a" [ex_opt "x"]) (ex_tw "a" [ex_opt "y"])) = ["x"; "y"] ∧
  NoDup (opt_name <$> cmd_options (merge_command (ex_tw "a" [ex_opt "x"]) (ex_tw "a" [ex_opt "y"]))).
Proof.
  split; [reflexivity|].
  apply (merge_command_union (ex_tw "a" [ex_opt "x"]) (ex_tw "a" [ex_opt "y"]));
    [reflexivity|reflexivity|apply NoDup_singleton].
Defined.

Lemma command_queue_invariant_witness :
  manager_ok (handle_evt 5 (mkLoaded 3 (mkScriptMeta "" 1 [] [] [] [])) cmd_manager_new).
Proof. apply (command_queue_invariant cmd_manager_new). split; constructor. Defined.

Lemma unchanged_commands_not_resent_witness :
  let scripts := λ _ : Z, Some [ex_script] in
  let m1 := (update_guild_commands (λ _, "json") scripts (λ _, false) 3 cmd_manager_new).1.2 in
  m1 ≠ cmd_manager_new ∧
  let '(ok, m2, acts) := update_guild_commands (λ _, "json") scripts (λ _, true) 3 m1 in
  ok = true ∧ m2 = m1 ∧ (∀ cmds, ActSetGuildCommands 3 cmds ∉ acts).
Proof.
  split; [intros [=]|].
  apply (unchanged_commands_not_resent (λ _, "json") (λ _, Some [ex_script]) (λ _, false) (λ _, true)).
  by exists [ex_script].
Defined.

(** ** A sub group that has the name of a sub command

    The search for a command's sub group only compares names, so a plain sub command of that
    name is taken for the sub group and receives the command as a nested option. *)
Lemma sub_group_collides_with_sub_command :
  to_twilight_commands 3
    [mkCommand "user" "info" [] (Some "mod") None Chat; ex_cmd] [] =
  [mkTwCommand "mod" GROUP_DESC_PLACEHOLDER TwChatInput (Some 3)
    [mkTwOption "user" "info" TwSubCommand None
       (Some [mkTwOption "ban" "bans" TwSubCommand None None None None None]) None None None]].
Proof. reflexivity. Qed.
