(* ===== verification/Payloads.v ===== *)
(** Embeds, components and the other parts of messages, as scripts and as Discord see them
    ([components/runtime-models/src/discord]: [embed.rs], [component.rs], [message.rs]).

    Rust's [From] is the class [From], into [outcome] as some conversions give up with [todo!()] on
    values they do not know. Of twilight's enums the values the source names are constructors, and
    a last one stands for all others. A script reads a message Discord sent and may send its parts
    back: [RoundTrip] says for which values it then sends what it has read. *)
From stdpp Require Import base list strings.
From S2P Require Import Prelude Numbers Models Commands.

Class From (A B : Type) := from : A → outcome B.
Arguments from : simpl never.

(** The equation of the conversion [c] of the whole value; those of its parts stay. *)
Tactic Notation "conv" reference(c) := unfold from at 1, c; simpl.

#[global] Instance from_option `{From A B} : From (option A) (option B) := λ o,
  match o with
  | None => Ret None
  | Some a => do! b := from a in Ret (Some b)
  end.
#[global] Instance from_list `{From A B} : From (list A) (list B) := map_outcome from.

(** ** Values that come back *)

(** The conversion of [a] and the one back. *)
Definition comes_back {A B} `{From A B, From B A} (a : A) : Prop := ∃ b : B, from a = Ret b ∧ from b = Ret a.

Class RoundTrip (A B : Type) `{From A B, From B A} (P : A → Prop) : Prop := round_trip : ∀ a, P a → comes_back (B := B) a.

Definition on_some {A} (P : A → Prop) (o : option A) : Prop := ∀ a, o = Some a → P a.

Lemma on_some_true {A} (o : option A) : on_some (λ _, True) o.
Proof. by intros a _. Qed.

#[global] Instance round_trip_option `{RoundTrip A B P} : RoundTrip (option A) (option B) (on_some P).
Proof.
  intros [a|] Ha; [|by exists None]. destruct (round_trip a (Ha a eq_refl)) as (b & Hb & Hb'). exists (Some b).
  unfold from, from_option. by rewrite Hb, Hb'.
Qed.

(** With the conversions as functions, so that a [Fixpoint] over nested lists can use it. *)
Lemma map_outcome_back {A B} (f : A → outcome B) (g : B → outcome A) l :
  (∀ a, a ∈ l → ∃ b, f a = Ret b ∧ g b = Ret a) → ∃ bs, map_outcome f l = Ret bs ∧ map_outcome g bs = Ret l.
Proof.
  induction l as [|a l IH]; intros Hl; [by exists []|]. destruct (Hl a) as (b & Hb & Hb'); [by left|].
  destruct IH as (bs & Hbs & Hbs'); [intros; apply Hl; by right|]. exists (b :: bs). simpl. by rewrite Hb, Hbs, Hb', Hbs'.
Qed.

#[global] Instance round_trip_list `{RoundTrip A B P} : RoundTrip (list A) (list B) (Forall P).
Proof. intros l Hl. apply map_outcome_back. intros a Ha. rewrite Forall_forall in Hl. by apply round_trip, Hl. Qed.

(** ** Values that can be converted *)

Definition is_ret {A} (o : outcome A) : bool :=
  match o with
  | Ret _ => true
  | Panic => false
  end.

(** The values whose conversion gives a result, the others panic. *)
Class Converts (A B : Type) `{From A B} (knows : A → bool) : Prop := converts : ∀ a, is_ret (from (B := B) a) = knows a.

Definition opt_all {A} (p : A → bool) (o : option A) : bool :=
  match o with
  | Some a => p a
  | None => true
  end.

Lemma is_ret_bind {A B} (m : outcome A) (k : A → outcome B) b1 b2 :
  is_ret m = b1 → (∀ a, is_ret (k a) = b2) → is_ret (do! x := m in k x) = b1 && b2.
Proof. intros <- Hk. destruct m; simpl; [apply Hk|done]. Qed.

Lemma is_ret_map {A B} (f : A → outcome B) p l : (∀ a, a ∈ l → is_ret (f a) = p a) → is_ret (map_outcome f l) = forallb p l.
Proof.
  induction l as [|a l IH]; intros Hl; [done|]. simpl. apply is_ret_bind; [apply Hl; by left|]. intros b.
  rewrite <- (andb_true_r (forallb p l)). apply is_ret_bind; [|done]. apply IH. intros. apply Hl. by right.
Qed.

#[global] Instance converts_option `{Converts A B p} : Converts (option A) (option B) (opt_all p).
Proof.
  intros [a|]; [|done]. change (is_ret (do! b := from a in Ret (Some b)) = p a).
  rewrite <- (andb_true_r (p a)). by apply is_ret_bind; [apply converts|].
Qed.
#[global] Instance converts_list `{Converts A B p} : Converts (list A) (list B) (forallb p).
Proof. intros l. apply is_ret_map. intros a _. apply converts. Qed.

Lemma opt_all_true {A} (o : option A) : opt_all (λ _, true) o = true.
Proof. by destruct o. Qed.
Lemma forallb_true {A} (l : list A) : forallb (λ _, true) l = true.
Proof. by induction l. Qed.

Lemma opt_all_trivial {A} (p : A → bool) o : (∀ a, p a = true) → opt_all p o = true.
Proof. intros Hp. destruct o; [apply Hp|done]. Qed.

(** A conversion that converts parts one after the other, then gives a result. *)
Ltac parts_step :=
  lazymatch goal with
  | |- is_ret (outcome_bind _ _) = _ => eapply is_ret_bind; [first [eassumption|apply converts|parts_step]|intros; parts_step]
  | |- _ => exact (eq_refl true)
  end.
Ltac parts := etrans; [parts_step|]; rewrite ?opt_all_true, ?forallb_true, ?andb_true_r.

(** * embed.rs *)

Record TwEmbedAuthor := mkTwEmbedAuthor { tea_icon_url : option string; tea_name : string; tea_proxy_icon_url : option string; tea_url : option string }.
Record EmbedAuthor := mkEmbedAuthor { ea_name : string; ea_icon_url : option string; ea_proxy_icon_url : option string; ea_url : option string }.

#[global] Instance embed_author_to_tw : From EmbedAuthor TwEmbedAuthor := λ v,
  Ret (mkTwEmbedAuthor (ea_icon_url v) (ea_name v) (ea_proxy_icon_url v) (ea_url v)).
#[global] Instance embed_author_of_tw : From TwEmbedAuthor EmbedAuthor := λ v,
  Ret (mkEmbedAuthor (tea_name v) (tea_icon_url v) (tea_proxy_icon_url v) (tea_url v)).

Record TwEmbedField := mkTwEmbedField { tef_inline : bool; tef_name : string; tef_value : string }.
Record EmbedField := mkEmbedField { ef_inline : option bool; ef_name : string; ef_value : string }.

#[global] Instance embed_field_to_tw : From EmbedField TwEmbedField := λ v,
  Ret (mkTwEmbedField (default false (ef_inline v)) (ef_name v) (ef_value v)).
#[global] Instance embed_field_of_tw : From TwEmbedField EmbedField := λ v,
  Ret (mkEmbedField (Some (tef_inline v)) (tef_name v) (tef_value v)).

Record TwEmbedFooter := mkTwEmbedFooter { teo_icon_url : option string; teo_proxy_icon_url : option string; teo_text : string }.
Record EmbedFooter := mkEmbedFooter { eo_text : string; eo_icon_url : option string; eo_proxy_icon_url : option string }.

#[global] Instance embed_footer_to_tw : From EmbedFooter TwEmbedFooter := λ v,
  Ret (mkTwEmbedFooter (eo_icon_url v) (eo_proxy_icon_url v) (eo_text v)).
#[global] Instance embed_footer_of_tw : From TwEmbedFooter EmbedFooter := λ v,
  Ret (mkEmbedFooter (teo_text v) (teo_icon_url v) (teo_proxy_icon_url v)).

(** Sizes are [u64] at Discord and [i32] in scripts. *)
Record TwEmbedImage := mkTwEmbedImage { tei_height : option Z; tei_proxy_url : option string; tei_url : string; tei_width : option Z }.
Record EmbedImage := mkEmbedImage { ei_url : string; ei_height : option Z; ei_proxy_url : option string; ei_width : option Z }.

#[global] Instance embed_image_to_tw : From EmbedImage TwEmbedImage := λ v,
  Ret (mkTwEmbedImage (as_u64 <$> ei_height v) (ei_proxy_url v) (ei_url v) (as_u64 <$> ei_width v)).
#[global] Instance embed_image_of_tw : From TwEmbedImage EmbedImage := λ v,
  Ret (mkEmbedImage (tei_url v) (as_i32 <$> tei_height v) (tei_proxy_url v) (as_i32 <$> tei_width v)).

Record TwEmbedProvider := mkTwEmbedProvider { tep_name : option string; tep_url : option string }.
Record EmbedProvider := mkEmbedProvider { ep_name : option string; ep_url : option string }.

#[global] Instance embed_provider_to_tw : From EmbedProvider TwEmbedProvider := λ v, Ret (mkTwEmbedProvider (ep_name v) (ep_url v)).
#[global] Instance embed_provider_of_tw : From TwEmbedProvider EmbedProvider := λ v, Ret (mkEmbedProvider (tep_name v) (tep_url v)).

Record TwEmbedThumbnail := mkTwEmbedThumbnail { tet_height : option Z; tet_proxy_url : option string; tet_url : string; tet_width : option Z }.
Record EmbedThumbnail := mkEmbedThumbnail { et_url : string; et_height : option Z; et_proxy_url : option string; et_width : option Z }.

#[global] Instance embed_thumbnail_to_tw : From EmbedThumbnail TwEmbedThumbnail := λ v,
  Ret (mkTwEmbedThumbnail (as_u64 <$> et_height v) (et_proxy_url v) (et_url v) (as_u64 <$> et_width v)).
#[global] Instance embed_thumbnail_of_tw : From TwEmbedThumbnail EmbedThumbnail := λ v,
  Ret (mkEmbedThumbnail (tet_url v) (as_i32 <$> tet_height v) (tet_proxy_url v) (as_i32 <$> tet_width v)).

Record TwEmbedVideo := mkTwEmbedVideo { tev_height : option Z; tev_proxy_url : option string; tev_url : option string; tev_width : option Z }.
Record EmbedVideo := mkEmbedVideo { ev_url : option string; ev_height : option Z; ev_proxy_url : option string; ev_width : option Z }.

#[global] Instance embed_video_to_tw : From EmbedVideo TwEmbedVideo := λ v,
  Ret (mkTwEmbedVideo (as_u64 <$> ev_height v) (ev_proxy_url v) (ev_url v) (as_u64 <$> ev_width v)).
#[global] Instance embed_video_of_tw : From TwEmbedVideo EmbedVideo := λ v,
  Ret (mkEmbedVideo (tev_url v) (as_i32 <$> tev_height v) (tev_proxy_url v) (as_i32 <$> tev_width v)).

Record TwEmbed := mkTwEmbed {
  te_author : option TwEmbedAuthor;
  te_color : option Z;
  te_description : option string;
  te_fields : list TwEmbedField;
  te_footer : option TwEmbedFooter;
  te_image : option TwEmbedImage;
  te_kind : string;
  te_provider : option TwEmbedProvider;
  te_thumbnail : option TwEmbedThumbnail;
  te_timestamp : option Z;
  te_title : option string;
  te_url : option string;
  te_video : option TwEmbedVideo;
}.

Record Embed := mkEmbed {
  e_author : option EmbedAuthor;
  e_color : option Z;
  e_description : option string;
  e_fields : option (list EmbedField);
  e_footer : option EmbedFooter;
  e_image : option EmbedImage;
  e_kind : option string;
  e_provider : option EmbedProvider;
  e_thumbnail : option EmbedThumbnail;
  e_timestamp : option Z;
  e_title : option string;
  e_url : option string;
  e_video : option EmbedVideo;
}.

Section embed.
Context `{!Timestamps}.

(** [Timestamp::from_micros(v.0 as i64 * 1000).ok()] *)
Definition timestamp_of_millis (v : Z) : outcome (option Z) :=
  let micros := u64_as_i64 v * 1000 in
  if (i64_min <=? micros) && (micros <=? i64_max) then Ret (if ts_in_range micros then Some micros else None) else Panic.

#[global] Instance embed_to_tw : From Embed TwEmbed := λ v,
  do! author := from (e_author v) in
  do! fields := from (default [] (e_fields v)) in
  do! footer := from (e_footer v) in
  do! image := from (e_image v) in
  do! provider := from (e_provider v) in
  do! thumbnail := from (e_thumbnail v) in
  do! timestamp := match e_timestamp v with Some t => timestamp_of_millis t | None => Ret None end in
  do! video := from (e_video v) in
  Ret (mkTwEmbed author (e_color v) (e_description v) fields footer image (default "rich" (e_kind v)) provider thumbnail
         timestamp (e_title v) (e_url v) video).

#[global] Instance embed_of_tw : From TwEmbed Embed := λ v,
  do! author := from (te_author v) in
  do! fields := match te_fields v with [] => Ret None | l => do! l := from l in Ret (Some l) end in
  do! footer := from (te_footer v) in
  do! image := from (te_image v) in
  do! provider := from (te_provider v) in
  do! thumbnail := from (te_thumbnail v) in
  do! video := from (te_video v) in
  Ret (mkEmbed author (te_color v) (te_description v) fields footer image
         (if bool_decide (te_kind v = "") then None else Some (te_kind v)) provider thumbnail (ts_millis <$> te_timestamp v)
         (te_title v) (te_url v) video).

(** ** Embeds that come back *)

Definition size_ok (o : option Z) : Prop := on_some (λ n, 0 ≤ n < 2 ^ 31) o.

Lemma size_back o : size_ok o → as_u64 <$> (as_i32 <$> o) = o.
Proof. destruct o as [n|]; [|done]. intros Hn. simpl. by rewrite as_i32_u64 by by apply Hn. Qed.

#[global] Instance author_round_trip : RoundTrip TwEmbedAuthor EmbedAuthor (λ _, True).
Proof. intros [] _. by eexists. Qed.
#[global] Instance field_round_trip : RoundTrip TwEmbedField EmbedField (λ _, True).
Proof. intros [] _. by eexists. Qed.
#[global] Instance footer_round_trip : RoundTrip TwEmbedFooter EmbedFooter (λ _, True).
Proof. intros [] _. by eexists. Qed.
#[global] Instance provider_round_trip : RoundTrip TwEmbedProvider EmbedProvider (λ _, True).
Proof. intros [] _. by eexists. Qed.
#[global] Instance image_round_trip : RoundTrip TwEmbedImage EmbedImage (λ v, size_ok (tei_height v) ∧ size_ok (tei_width v)).
Proof. intros [h p u w] [Hh Hw]. eexists. split; [done|]. unfold from, embed_image_to_tw. simpl in *. by rewrite !size_back. Qed.
#[global] Instance thumbnail_round_trip : RoundTrip TwEmbedThumbnail EmbedThumbnail (λ v, size_ok (tet_height v) ∧ size_ok (tet_width v)).
Proof. intros [h p u w] [Hh Hw]. eexists. split; [done|]. unfold from, embed_thumbnail_to_tw. simpl in *. by rewrite !size_back. Qed.
#[global] Instance video_round_trip : RoundTrip TwEmbedVideo EmbedVideo (λ v, size_ok (tev_height v) ∧ size_ok (tev_width v)).
Proof. intros [h p u w] [Hh Hw]. eexists. split; [done|]. unfold from, embed_video_to_tw. simpl in *. by rewrite !size_back. Qed.

(** What is lost on the way: the kind of an embed without one, sizes past 31 bits, and what a
    timestamp has below a millisecond or before 1970. *)
Record embed_ok (v : TwEmbed) : Prop := {
  eok_kind : te_kind v ≠ "";
  eok_image : on_some (λ i, size_ok (tei_height i) ∧ size_ok (tei_width i)) (te_image v);
  eok_thumbnail : on_some (λ i, size_ok (tet_height i) ∧ size_ok (tet_width i)) (te_thumbnail v);
  eok_video : on_some (λ i, size_ok (tev_height i) ∧ size_ok (tev_width i)) (te_video v);
  eok_timestamp : on_some (λ t, 0 ≤ t ≤ i64_max ∧ t mod 1000 = 0 ∧ ts_in_range t = true) (te_timestamp v);
}.

Lemma timestamp_back t : 0 ≤ t ≤ i64_max → t mod 1000 = 0 → ts_in_range t = true → timestamp_of_millis (ts_millis t) = Ret (Some t).
Proof.
  intros Ht Hm Hr. assert (t = t / 1000 * 1000) as Heq by (pose proof (Z.div_mod t 1000); lia).
  assert (0 ≤ t / 1000) as H0 by (apply Z.div_pos; lia). rewrite Heq at 1. rewrite ts_millis_exact by lia.
  unfold timestamp_of_millis, u64_as_i64. rewrite (proj2 (Z.leb_le (t / 1000) i64_max)) by (unfold i64_max in *; lia).
  rewrite <- Heq, Hr. rewrite (proj2 (Z.leb_le i64_min t)), (proj2 (Z.leb_le t i64_max)) by (unfold i64_min, i64_max in *; lia). done.
Qed.

#[global] Instance embed_round_trip : RoundTrip TwEmbed Embed embed_ok.
Proof.
  intros [author color desc fields footer image kind provider thumb ts title url video] [Hk Hi Ht Hv Hts]. simpl in *.
  destruct (round_trip (B := option EmbedAuthor) author (on_some_true _)) as (b1 & E1 & E1').
  destruct (round_trip (B := list EmbedField) fields (proj2 (Forall_forall _ _) (λ _ _, I))) as (b2 & E2 & E2').
  destruct (round_trip (B := option EmbedFooter) footer (on_some_true _)) as (b3 & E3 & E3').
  destruct (round_trip (B := option EmbedImage) image Hi) as (b4 & E4 & E4').
  destruct (round_trip (B := option EmbedProvider) provider (on_some_true _)) as (b5 & E5 & E5').
  destruct (round_trip (B := option EmbedThumbnail) thumb Ht) as (b6 & E6 & E6').
  destruct (round_trip (B := option EmbedVideo) video Hv) as (b7 & E7 & E7').
  exists (mkEmbed b1 color desc (match fields with [] => None | _ => Some b2 end) b3 b4 (Some kind) b5 b6 (ts_millis <$> ts) title url b7).
  split.
  - unfold from, embed_of_tw. cbn [te_author te_color te_description te_fields te_footer te_image te_kind te_provider te_thumbnail
      te_timestamp te_title te_url te_video]. rewrite E1, E3, E4, E5, E6, E7. rewrite bool_decide_false by done.
    destruct fields; simpl in *; [done|]. by rewrite E2.
  - unfold from, embed_to_tw. cbn [e_author e_color e_description e_fields e_footer e_image e_kind e_provider e_thumbnail
      e_timestamp e_title e_url e_video]. rewrite E1', E3', E4', E5', E6', E7'.
    assert (from (default [] (match fields with [] => None | _ :: _ => Some b2 end)) = Ret fields) as -> by (by destruct fields).
    simpl. destruct ts as [t|]; simpl; [|done]. destruct (Hts t eq_refl) as (H1 & H2 & H3). by rewrite timestamp_back.
Qed.

(** ** Embeds that can be converted *)

#[global] Instance author_converts : Converts TwEmbedAuthor EmbedAuthor (λ _, true).
Proof. by intros []. Qed.
#[global] Instance field_converts : Converts TwEmbedField EmbedField (λ _, true).
Proof. by intros []. Qed.
#[global] Instance footer_converts : Converts TwEmbedFooter EmbedFooter (λ _, true).
Proof. by intros []. Qed.
#[global] Instance image_converts : Converts TwEmbedImage EmbedImage (λ _, true).
Proof. by intros []. Qed.
#[global] Instance provider_converts : Converts TwEmbedProvider EmbedProvider (λ _, true).
Proof. by intros []. Qed.
#[global] Instance thumbnail_converts : Converts TwEmbedThumbnail EmbedThumbnail (λ _, true).
Proof. by intros []. Qed.
#[global] Instance video_converts : Converts TwEmbedVideo EmbedVideo (λ _, true).
Proof. by intros []. Qed.

#[global] Instance embed_converts : Converts TwEmbed Embed (λ _, true).
Proof. intros [? ? ? fields]. conv embed_of_tw. destruct fields; by parts. Qed.
End embed.

(** * message.rs: emojis *)

Inductive TwReactionType :=
| TwrCustom (animated : bool) (id : Z) (name : option string)
| TwrUnicode (name : string).
Inductive ReactionType :=
| RtCustom (animated : bool) (id : string) (name : option string)
| RtUnicode (unicode : string).

#[global] Instance reaction_type_of_tw : From TwReactionType ReactionType := λ v,
  match v with
  | TwrCustom animated id name => Ret (RtCustom animated (u64_text id) name)
  | TwrUnicode name => Ret (RtUnicode name)
  end.

(** [Id::from_str(&id).unwrap_or_else(|_| Id::new(1))] *)
Definition emoji_id (id : string) : Z := default 1 (parse_id id).

#[global] Instance reaction_type_to_tw : From ReactionType TwReactionType := λ v,
  match v with
  | RtCustom animated id name => Ret (TwrCustom animated (emoji_id id) name)
  | RtUnicode unicode => Ret (TwrUnicode unicode)
  end.

Inductive SendEmoji := SeCustom (id : string) (name : option string) | SeUnicode (unicode : string).
Inductive RequestReactionType := RrCustom (id : Z) (name : option string) | RrUnicode (name : string).

Definition send_emoji_request (v : SendEmoji) : RequestReactionType :=
  match v with
  | SeCustom id name => RrCustom (emoji_id id) name
  | SeUnicode unicode => RrUnicode unicode
  end.

Definition emoji_ok (v : TwReactionType) : bool :=
  match v with
  | TwrCustom _ id _ => (0 <? id) && (id <=? u64_max)
  | TwrUnicode _ => true
  end.

#[global] Instance reaction_round_trip : RoundTrip TwReactionType ReactionType emoji_ok.
Proof.
  intros [animated id name|name] Hv; eexists; (split; [done|]); [|done]. simpl in Hv.
  unfold from, reaction_type_to_tw, emoji_id. rewrite parse_id_text; [done|]. apply Is_true_true in Hv. unfold is_id. lia.
Qed.
#[global] Instance reaction_converts : Converts TwReactionType ReactionType (λ _, true).
Proof. by intros []. Qed.

(** * component.rs *)

(** Of twilight's enums, a value the source does not name is [...Unknown k]. *)
Inductive TwComponentType := TctActionRow | TctButton | TctSelectMenu | TctTextInput | TctUnknown (k : Z).
Inductive ComponentType := CtActionRow | CtButton | CtSelectMenu | CtTextInput.

#[global] Instance component_type_of_tw : From TwComponentType ComponentType := λ v,
  match v with
  | TctActionRow => Ret CtActionRow
  | TctButton => Ret CtButton
  | TctSelectMenu => Ret CtSelectMenu
  | TctTextInput => Ret CtTextInput
  | TctUnknown _ => Panic
  end.

Inductive TwButtonStyle := TbsPrimary | TbsSecondary | TbsSuccess | TbsDanger | TbsLink | TbsUnknown (k : Z).
Inductive ButtonStyle := BsPrimary | BsSecondary | BsSuccess | BsDanger | BsLink.

#[global] Instance button_style_of_tw : From TwButtonStyle ButtonStyle := λ v,
  match v with
  | TbsPrimary => Ret BsPrimary
  | TbsSecondary => Ret BsSecondary
  | TbsSuccess => Ret BsSuccess
  | TbsDanger => Ret BsDanger
  | TbsLink => Ret BsLink
  | TbsUnknown _ => Panic
  end.
#[global] Instance button_style_to_tw : From ButtonStyle TwButtonStyle := λ v,
  match v with
  | BsPrimary => Ret TbsPrimary
  | BsSecondary => Ret TbsSecondary
  | BsSuccess => Ret TbsSuccess
  | BsDanger => Ret TbsDanger
  | BsLink => Ret TbsLink
  end.

Inductive TwTextInputStyle := TtsShort | TtsParagraph | TtsUnknown (k : Z).
Inductive TextInputStyle := TsShort | TsParagraph.

#[global] Instance text_input_style_of_tw : From TwTextInputStyle TextInputStyle := λ v,
  match v with
  | TtsShort => Ret TsShort
  | TtsParagraph => Ret TsParagraph
  | TtsUnknown _ => Panic
  end.
#[global] Instance text_input_style_to_tw : From TextInputStyle TwTextInputStyle := λ v,
  match v with
  | TsShort => Ret TtsShort
  | TsParagraph => Ret TtsParagraph
  end.

Record TwButton := mkTwButton {
  tb_custom_id : option string;
  tb_disabled : bool;
  tb_emoji : option TwReactionType;
  tb_label : option string;
  tb_style : TwButtonStyle;
  tb_url : option string;
}.
Record Button := mkButton {
  b_custom_id : option string;
  b_style : ButtonStyle;
  b_disabled : option bool;
  b_url : option string;
  b_label : option string;
  b_emoji : option ReactionType;
}.

#[global] Instance button_of_tw : From TwButton Button := λ v,
  do! style := from (tb_style v) in
  do! emoji := from (tb_emoji v) in
  Ret (mkButton (tb_custom_id v) style (Some (tb_disabled v)) (tb_url v) (tb_label v) emoji).
#[global] Instance button_to_tw : From Button TwButton := λ v,
  do! style := from (b_style v) in
  do! emoji := from (b_emoji v) in
  Ret (mkTwButton (b_custom_id v) (default false (b_disabled v)) emoji (b_label v) style (b_url v)).

Record TwSelectMenuOption := mkTwSelectMenuOption {
  tso_default : bool;
  tso_description : option string;
  tso_emoji : option TwReactionType;
  tso_label : string;
  tso_value : string;
}.
Record SelectMenuOption := mkSelectMenuOption {
  so_default : bool;
  so_description : option string;
  so_emoji : option ReactionType;
  so_label : string;
  so_value : string;
}.

#[global] Instance select_menu_option_of_tw : From TwSelectMenuOption SelectMenuOption := λ v,
  do! emoji := from (tso_emoji v) in
  Ret (mkSelectMenuOption (tso_default v) (tso_description v) emoji (tso_label v) (tso_value v)).
#[global] Instance select_menu_option_to_tw : From SelectMenuOption TwSelectMenuOption := λ v,
  do! emoji := from (so_emoji v) in
  Ret (mkTwSelectMenuOption (so_default v) (so_description v) emoji (so_label v) (so_value v)).

Record TwSelectMenu := mkTwSelectMenu {
  ts_custom_id : string;
  ts_disabled : bool;
  ts_max_values : option Z;
  ts_min_values : option Z;
  ts_options : list TwSelectMenuOption;
  ts_placeholder : option string;
}.
Record SelectMenu := mkSelectMenu {
  s_custom_id : string;
  s_disabled : bool;
  s_min_values : option Z;
  s_max_values : option Z;
  s_options : list SelectMenuOption;
  s_placeholder : option string;
}.

#[global] Instance select_menu_of_tw : From TwSelectMenu SelectMenu := λ v,
  do! options := from (ts_options v) in
  Ret (mkSelectMenu (ts_custom_id v) (ts_disabled v) (ts_min_values v) (ts_max_values v) options (ts_placeholder v)).
#[global] Instance select_menu_to_tw : From SelectMenu TwSelectMenu := λ v,
  do! options := from (s_options v) in
  Ret (mkTwSelectMenu (s_custom_id v) (s_disabled v) (s_max_values v) (s_min_values v) options (s_placeholder v)).

Record TwTextInput := mkTwTextInput {
  tti_custom_id : string;
  tti_label : string;
  tti_max_length : option Z;
  tti_min_length : option Z;
  tti_placeholder : option string;
  tti_required : option bool;
  tti_style : TwTextInputStyle;
  tti_value : option string;
}.
Record TextInput := mkTextInput {
  ti_custom_id : string;
  ti_label : string;
  ti_max_length : option Z;
  ti_min_length : option Z;
  ti_placeholder : option string;
  ti_required : option bool;
  ti_style : TextInputStyle;
  ti_value : option string;
}.

#[global] Instance text_input_of_tw : From TwTextInput TextInput := λ v,
  do! style := from (tti_style v) in
  Ret (mkTextInput (tti_custom_id v) (tti_label v) (tti_max_length v) (tti_min_length v) (tti_placeholder v) (tti_required v)
         style (tti_value v)).
#[global] Instance text_input_to_tw : From TextInput TwTextInput := λ v,
  do! style := from (ti_style v) in
  Ret (mkTwTextInput (ti_custom_id v) (ti_label v) (ti_max_length v) (ti_min_length v) (ti_placeholder v) (ti_required v)
         style (ti_value v)).

(** An action row holds components again; [ActionRow] is its list. *)
Inductive TwComponent :=
| TwcActionRow (components : list TwComponent)
| TwcButton (b : TwButton)
| TwcSelectMenu (s : TwSelectMenu)
| TwcTextInput (t : TwTextInput)
| TwcUnknown (k : Z).
Inductive Component :=
| CActionRow (components : list Component)
| CButton (b : Button)
| CSelectMenu (s : SelectMenu)
| CTextInput (t : TextInput)
| CUnknown (component_kind : Z).

Fixpoint component_of_tw_fix (v : TwComponent) : outcome Component :=
  match v with
  | TwcActionRow inner => do! components := map_outcome component_of_tw_fix inner in Ret (CActionRow components)
  | TwcButton inner => do! b := from inner in Ret (CButton b)
  | TwcSelectMenu inner => do! s := from inner in Ret (CSelectMenu s)
  | TwcTextInput inner => do! t := from inner in Ret (CTextInput t)
  | TwcUnknown t => Ret (CUnknown t)
  end.
#[global] Instance component_of_tw : From TwComponent Component := component_of_tw_fix.

Fixpoint component_to_tw_fix (v : Component) : outcome TwComponent :=
  match v with
  | CActionRow inner => do! components := map_outcome component_to_tw_fix inner in Ret (TwcActionRow components)
  | CButton inner => do! b := from inner in Ret (TwcButton b)
  | CSelectMenu inner => do! s := from inner in Ret (TwcSelectMenu s)
  | CTextInput inner => do! t := from inner in Ret (TwcTextInput t)
  | CUnknown c => Ret (TwcUnknown c)
  end.
#[global] Instance component_to_tw : From Component TwComponent := component_to_tw_fix.

(** ** Components that come back, and those that can be read at all *)

Section component_ind.
Context (P : TwComponent → Prop).
Context (Hrow : ∀ l, (∀ c, c ∈ l → P c) → P (TwcActionRow l)) (Hb : ∀ b, P (TwcButton b)) (Hs : ∀ s, P (TwcSelectMenu s)).
Context (Ht : ∀ t, P (TwcTextInput t)) (Hu : ∀ k, P (TwcUnknown k)).

Fixpoint component_ind (c : TwComponent) : P c.
Proof.
  destruct c as [l|b|s|t|k]; [|apply Hb|apply Hs|apply Ht|apply Hu]. apply Hrow.
  induction l as [|c l IH]; intros c' Hc'; [destruct (not_elem_of_nil c' Hc')|].
  apply elem_of_cons in Hc' as [->|Hc']; [apply component_ind|by apply IH].
Defined.
End component_ind.

Definition style_known (v : TwButtonStyle) : bool := match v with TbsUnknown _ => false | _ => true end.
Definition input_style_known (v : TwTextInputStyle) : bool := match v with TtsUnknown _ => false | _ => true end.

Fixpoint component_known (v : TwComponent) : bool :=
  match v with
  | TwcActionRow l => forallb component_known l
  | TwcButton b => style_known (tb_style b)
  | TwcTextInput t => input_style_known (tti_style t)
  | TwcSelectMenu _ | TwcUnknown _ => true
  end.

(** Every identifier of an emoji is one. *)
Fixpoint component_ids (v : TwComponent) : bool :=
  match v with
  | TwcActionRow l => forallb component_ids l
  | TwcButton b => opt_all emoji_ok (tb_emoji b)
  | TwcSelectMenu s => forallb (λ o, opt_all emoji_ok (tso_emoji o)) (ts_options s)
  | TwcTextInput _ | TwcUnknown _ => true
  end.

Lemma opt_all_on_some {A} (p : A → bool) o : opt_all p o ↔ on_some p o.
Proof. destruct o as [x|]; (split; [intros H a Ha; by simplify_eq|intros H]); [by apply H|done]. Qed.

#[global] Instance style_round_trip : RoundTrip TwButtonStyle ButtonStyle style_known.
Proof. intros [] Hv; first [done|by eexists]. Qed.
#[global] Instance input_style_round_trip : RoundTrip TwTextInputStyle TextInputStyle input_style_known.
Proof. intros [] Hv; first [done|by eexists]. Qed.
#[global] Instance button_round_trip : RoundTrip TwButton Button (λ b, style_known (tb_style b) ∧ opt_all emoji_ok (tb_emoji b)).
Proof.
  intros [id dis emoji label style url] [Hs He%opt_all_on_some]. simpl in *.
  destruct (round_trip style Hs) as (bs & E1 & E1'). destruct (round_trip emoji He) as (be & E2 & E2').
  eexists. split; [conv button_of_tw; by rewrite E1, E2|conv button_to_tw; by rewrite E1', E2'].
Qed.
#[global] Instance select_option_round_trip : RoundTrip TwSelectMenuOption SelectMenuOption (λ o, opt_all emoji_ok (tso_emoji o)).
Proof.
  intros [d desc emoji label value] He%opt_all_on_some. simpl in *. destruct (round_trip emoji He) as (be & E & E').
  eexists. split; [conv select_menu_option_of_tw; by rewrite E|conv select_menu_option_to_tw; by rewrite E'].
Qed.
#[global] Instance select_round_trip : RoundTrip TwSelectMenu SelectMenu (λ s, Forall (λ o, opt_all emoji_ok (tso_emoji o)) (ts_options s)).
Proof.
  intros [id dis mx mn os ph] Ho. simpl in *. destruct (round_trip os Ho) as (bo & E & E').
  eexists. split; [conv select_menu_of_tw; by rewrite E|conv select_menu_to_tw; by rewrite E'].
Qed.
#[global] Instance text_input_round_trip : RoundTrip TwTextInput TextInput (λ t, input_style_known (tti_style t)).
Proof.
  intros [id label mx mn ph req style value] Hs. simpl in *. destruct (round_trip style Hs) as (bs & E & E').
  eexists. split; [conv text_input_of_tw; by rewrite E|conv text_input_to_tw; by rewrite E'].
Qed.

Lemma forallb_Forall {A} (p : A → bool) l : forallb p l ↔ Forall p l.
Proof. induction l as [|a l IH]; simpl; [split; constructor|]. rewrite Forall_cons, <- IH. apply andb_True. Qed.

#[global] Instance component_round_trip : RoundTrip TwComponent Component (λ c, component_known c ∧ component_ids c).
Proof.
  intros c. induction c as [l IH|b|s|t|k] using component_ind; simpl; intros [Hk Hi].
  - apply forallb_Forall in Hk, Hi. rewrite Forall_forall in Hk, Hi.
    destruct (map_outcome_back component_of_tw_fix component_to_tw_fix l) as (bs & E & E'); [by intros c Hc; apply IH; auto|].
    exists (CActionRow bs). split; [conv component_of_tw; by rewrite E|conv component_to_tw; by rewrite E'].
  - destruct (round_trip b (conj Hk Hi)) as (x & E & E'). exists (CButton x). split; [conv component_of_tw; by rewrite E|conv component_to_tw; by rewrite E'].
  - apply forallb_Forall in Hi. destruct (round_trip s Hi) as (x & E & E'). exists (CSelectMenu x).
    split; [conv component_of_tw; by rewrite E|conv component_to_tw; by rewrite E'].
  - destruct (round_trip t Hk) as (x & E & E'). exists (CTextInput x). split; [conv component_of_tw; by rewrite E|conv component_to_tw; by rewrite E'].
  - by exists (CUnknown k).
Qed.

#[global] Instance style_converts : Converts TwButtonStyle ButtonStyle style_known.
Proof. by intros []. Qed.
#[global] Instance input_style_converts : Converts TwTextInputStyle TextInputStyle input_style_known.
Proof. by intros []. Qed.

#[global] Instance button_converts : Converts TwButton Button (λ b, style_known (tb_style b)).
Proof. intros b. conv button_of_tw. by parts. Qed.
#[global] Instance select_option_converts : Converts TwSelectMenuOption SelectMenuOption (λ _, true).
Proof. intros o. conv select_menu_option_of_tw. by parts. Qed.
#[global] Instance select_converts : Converts TwSelectMenu SelectMenu (λ _, true).
Proof. intros o. conv select_menu_of_tw. by parts. Qed.
#[global] Instance text_input_converts : Converts TwTextInput TextInput (λ t, input_style_known (tti_style t)).
Proof. intros t. conv text_input_of_tw. by parts. Qed.

#[global] Instance component_converts : Converts TwComponent Component component_known.
Proof.
  intros c. induction c as [l IH|b|s|t|k] using component_ind; conv component_of_tw; [|by parts..].
  rewrite <- (andb_true_r (forallb _ _)). by apply is_ret_bind; [apply is_ret_map|].
Qed.

(** * message.rs: the other parts of messages *)

Inductive TwMessageActivityType := TmaJoin | TmaSpectate | TmaListen | TmaJoinRequest | TmaUnknown (k : Z).
Inductive MessageActivityType := MaJoin | MaSpectate | MaListen | MaJoinRequest.

#[global] Instance activity_type_of_tw : From TwMessageActivityType MessageActivityType := λ v,
  match v with
  | TmaJoin => Ret MaJoin
  | TmaSpectate => Ret MaSpectate
  | TmaListen => Ret MaListen
  | TmaJoinRequest => Ret MaJoinRequest
  | TmaUnknown _ => Panic
  end.

Record TwMessageActivity := mkTwMessageActivity { tma_kind : TwMessageActivityType; tma_party_id : option string }.
Record MessageActivity := mkMessageActivity { ma_kind : MessageActivityType; ma_party_id : option string }.

#[global] Instance activity_of_tw : From TwMessageActivity MessageActivity := λ v,
  do! kind := from (tma_kind v) in Ret (mkMessageActivity kind (tma_party_id v)).

Record TwMessageApplication `{ImageHashes} := mkTwMessageApplication {
  tmp_cover_image : option ImageHash;
  tmp_description : string;
  tmp_icon : option ImageHash;
  tmp_id : Z;
  tmp_name : string;
}.
Record MessageApplication := mkMessageApplication {
  mp_cover_image : option string;
  mp_description : string;
  mp_icon : option string;
  mp_id : string;
  mp_name : string;
}.

#[global] Instance application_of_tw `{ImageHashes} : From TwMessageApplication MessageApplication := λ v,
  Ret (mkMessageApplication (hash_to_string <$> tmp_cover_image v) (tmp_description v) (hash_to_string <$> tmp_icon v)
         (u64_text (tmp_id v)) (tmp_name v)).

Record TwAttachment := mkTwAttachment {
  tat_content_type : option string;
  tat_filename : string;
  tat_height : option Z;
  tat_id : Z;
  tat_proxy_url : string;
  tat_size : Z;
  tat_url : string;
  tat_width : option Z;
}.
Record Attachment := mkAttachment {
  at_content_type : option string;
  at_filename : string;
  at_height : option Z;
  at_id : string;
  at_proxy_url : string;
  at_size : Z;
  at_url : string;
  at_width : option Z;
}.

#[global] Instance attachment_of_tw : From TwAttachment Attachment := λ v,
  Ret (mkAttachment (tat_content_type v) (tat_filename v) (as_i32 <$> tat_height v) (u64_text (tat_id v)) (tat_proxy_url v)
         (tat_size v) (tat_url v) (as_i32 <$> tat_width v)).

Inductive TwMessageType :=
| TmtRegular | TmtRecipientAdd | TmtRecipientRemove | TmtCall | TmtChannelNameChange | TmtChannelIconChange
| TmtChannelMessagePinned | TmtUserJoin | TmtGuildBoost | TmtGuildBoostTier1 | TmtGuildBoostTier2 | TmtGuildBoostTier3
| TmtChannelFollowAdd | TmtGuildDiscoveryDisqualified | TmtGuildDiscoveryRequalified
| TmtGuildDiscoveryGracePeriodInitialWarning | TmtGuildDiscoveryGracePeriodFinalWarning | TmtReply | TmtGuildInviteReminder
| TmtThreadCreated | TmtThreadStarterMessage | TmtContextMenuCommand | TmtChatInputCommand | TmtAutoModerationAction
| TmtRoleSubscriptionPurchase | TmtInteractionPremiumUpsell | TmtGuildApplicationPremiumSubscription
| TmtUnknown (k : Z).
Inductive MessageType :=
| MtRegular | MtRecipientAdd | MtRecipientRemove | MtCall | MtChannelNameChange | MtChannelIconChange
| MtChannelMessagePinned | MtGuildMemberJoin | MtUserPremiumSub | MtUserPremiumSubTier1 | MtUserPremiumSubTier2
| MtUserPremiumSubTier3 | MtChannelFollowAdd | MtGuildDiscoveryDisqualified | MtGuildDiscoveryRequalified
| MtGuildDiscoveryGracePeriodInitialWarning | MtGuildDiscoveryGracePeriodFinalWarning | MtReply | MtGuildInviteReminder
| MtChatInputCommand | MtThreadCreated | MtThreadStarterMessage | MtContextMenuCommand | MtAutoModerationAction
| MtRoleSubscriptionPurchase | MtInteractionPremiumUpsell | MtGuildApplicationPremiumSubscription.

#[global] Instance message_type_of_tw : From TwMessageType MessageType := λ v,
  match v with
  | TmtRegular => Ret MtRegular
  | TmtRecipientAdd => Ret MtRecipientAdd
  | TmtRecipientRemove => Ret MtRecipientRemove
  | TmtCall => Ret MtCall
  | TmtChannelNameChange => Ret MtChannelNameChange
  | TmtChannelIconChange => Ret MtChannelIconChange
  | TmtChannelMessagePinned => Ret MtChannelMessagePinned
  | TmtUserJoin => Ret MtGuildMemberJoin
  | TmtGuildBoost => Ret MtUserPremiumSub
  | TmtGuildBoostTier1 => Ret MtUserPremiumSubTier1
  | TmtGuildBoostTier2 => Ret MtUserPremiumSubTier2
  | TmtGuildBoostTier3 => Ret MtUserPremiumSubTier3
  | TmtChannelFollowAdd => Ret MtChannelFollowAdd
  | TmtGuildDiscoveryDisqualified => Ret MtGuildDiscoveryDisqualified
  | TmtGuildDiscoveryRequalified => Ret MtGuildDiscoveryRequalified
  | TmtGuildDiscoveryGracePeriodInitialWarning => Ret MtGuildDiscoveryGracePeriodInitialWarning
  | TmtGuildDiscoveryGracePeriodFinalWarning => Ret MtGuildDiscoveryGracePeriodFinalWarning
  | TmtReply => Ret MtReply
  | TmtGuildInviteReminder => Ret MtGuildInviteReminder
  | TmtThreadCreated => Ret MtThreadCreated
  | TmtThreadStarterMessage => Ret MtThreadStarterMessage
  | TmtContextMenuCommand => Ret MtContextMenuCommand
  | TmtChatInputCommand => Ret MtChatInputCommand
  | TmtAutoModerationAction => Ret MtAutoModerationAction
  | TmtRoleSubscriptionPurchase => Ret MtRoleSubscriptionPurchase
  | TmtInteractionPremiumUpsell => Ret MtInteractionPremiumUpsell
  | TmtGuildApplicationPremiumSubscription => Ret MtGuildApplicationPremiumSubscription
  | TmtUnknown _ => Panic
  end.

#[global] Instance channel_type_from : From TwChannelType ChannelType := channel_type_of_tw.
#[global] Instance channel_type_into : From ChannelType TwChannelType := λ v, Ret (tw_channel_type v).

Record TwChannelMention := mkTwChannelMention { tcm_guild_id : Z; tcm_id : Z; tcm_kind : TwChannelType; tcm_name : string }.
Record ChannelMention := mkChannelMention { cm_guild_id : string; cm_id : string; cm_kind : ChannelType; cm_name : string }.

#[global] Instance channel_mention_of_tw : From TwChannelMention ChannelMention := λ v,
  do! kind := from (tcm_kind v) in
  Ret (mkChannelMention (u64_text (tcm_guild_id v)) (u64_text (tcm_id v)) kind (tcm_name v)).

Record TwReaction := mkTwReaction { tre_count : Z; tre_emoji : TwReactionType; tre_me : bool }.
Record MessageReaction := mkMessageReaction { re_count : Z; re_emoji : ReactionType; re_me : bool }.

#[global] Instance reaction_of_tw : From TwReaction MessageReaction := λ v,
  do! emoji := from (tre_emoji v) in Ret (mkMessageReaction (tre_count v) emoji (tre_me v)).

Record TwMessageReference := mkTwMessageReference {
  tmr_channel_id : option Z;
  tmr_guild_id : option Z;
  tmr_message_id : option Z;
  tmr_fail_if_not_exists : option bool;
}.
Record MessageReference := mkMessageReference {
  mr_channel_id : option string;
  mr_guild_id : option string;
  mr_message_id : option string;
  mr_fail_if_not_exists : option bool;
}.

#[global] Instance reference_of_tw : From TwMessageReference MessageReference := λ v,
  Ret (mkMessageReference (u64_text <$> tmr_channel_id v) (u64_text <$> tmr_guild_id v) (u64_text <$> tmr_message_id v)
         (tmr_fail_if_not_exists v)).

Record MessageFlags := mkMessageFlags {
  crossposted : option bool;
  is_crosspost : option bool;
  suppress_embeds : option bool;
  source_message_deleted : option bool;
  urgent : option bool;
  has_thread : option bool;
  ephemeral : option bool;
  loading : option bool;
  failed_to_mention_some_roles_in_thread : option bool;
}.

(** [twilight_model::channel::message::MessageFlags] by its bits. *)
Definition message_flags_of_tw (v : Z) : MessageFlags :=
  mkMessageFlags (Some (Z.testbit v 0)) (Some (Z.testbit v 1)) (Some (Z.testbit v 2)) (Some (Z.testbit v 3)) (Some (Z.testbit v 4))
    (Some (Z.testbit v 5)) (Some (Z.testbit v 6)) (Some (Z.testbit v 7)) (Some (Z.testbit v 8)).

(** [if matches!(f, Some(true)) { out |= 1 << i }] *)
Definition set_flag (f : option bool) (i : Z) (out : Z) : Z :=
  match f with
  | Some true => Z.lor out (Z.shiftl 1 i)
  | _ => out
  end.

Definition message_flags_to_tw (v : MessageFlags) : Z :=
  let out := 0 in
  let out := set_flag (crossposted v) 0 out in
  let out := set_flag (is_crosspost v) 1 out in
  let out := set_flag (suppress_embeds v) 2 out in
  let out := set_flag (source_message_deleted v) 3 out in
  let out := set_flag (urgent v) 4 out in
  let out := set_flag (has_thread v) 5 out in
  let out := set_flag (ephemeral v) 6 out in
  let out := set_flag (loading v) 7 out in
  let out := set_flag (failed_to_mention_some_roles_in_thread v) 8 out in
  out.

(** ** Flags that come back *)

#[local] Arguments Z.testbit : simpl never.

Lemma testbit_set_flag f i out n : 0 ≤ i → 0 ≤ n →
  Z.testbit (set_flag f i out) n = Z.testbit out n || (bool_decide (f = Some true) && (n =? i)).
Proof.
  intros Hi Hn. destruct f as [[]|]; simpl; try by rewrite orb_false_r. rewrite Z.lor_spec. f_equal.
  destruct (Z.eqb_spec n i) as [->|Hne]; simpl; [by rewrite Z.shiftl_spec, Z.sub_diag by done|].
  rewrite Z.shiftl_spec by done. destruct (decide (n < i)); [by rewrite Z.testbit_neg_r by lia|].
  change 1 with (2 ^ 0). apply Z.pow2_bits_false. lia.
Qed.

(** A bit of what a script sends is the flag at its position. *)
Lemma testbit_flags f n : 0 ≤ n →
  Z.testbit (message_flags_to_tw f) n =
  match [crossposted f; is_crosspost f; suppress_embeds f; source_message_deleted f; urgent f; has_thread f; ephemeral f; loading f;
         failed_to_mention_some_roles_in_thread f] !! Z.to_nat n with
  | Some b => bool_decide (b = Some true)
  | None => false
  end.
Proof.
  intros Hn. unfold message_flags_to_tw. rewrite !testbit_set_flag by lia. rewrite Z.bits_0. simpl.
  destruct (decide (n < 9)) as [Hlt|Hge].
  - assert (n = 0 ∨ n = 1 ∨ n = 2 ∨ n = 3 ∨ n = 4 ∨ n = 5 ∨ n = 6 ∨ n = 7 ∨ n = 8) as Hc by lia.
    repeat (destruct Hc as [->|Hc]; [simpl; by rewrite ?andb_false_r, ?andb_true_r, ?orb_false_r|]). subst.
    simpl. by rewrite ?andb_false_r, ?andb_true_r, ?orb_false_r.
  - rewrite lookup_ge_None_2 by (simpl; lia). rewrite !(proj2 (Z.eqb_neq n _)) by lia. by rewrite !andb_false_r.
Qed.

Lemma message_flags_back v : message_flags_to_tw (message_flags_of_tw v) = Z.land v (Z.ones 9).
Proof.
  apply Z.bits_inj'. intros n Hn. rewrite testbit_flags, Z.land_spec by done. destruct (decide (n < 9)) as [Hlt|Hge].
  - rewrite Z.ones_spec_low, andb_true_r by lia.
    assert (n = 0 ∨ n = 1 ∨ n = 2 ∨ n = 3 ∨ n = 4 ∨ n = 5 ∨ n = 6 ∨ n = 7 ∨ n = 8) as Hc by lia.
    repeat (destruct Hc as [->|Hc]; [simpl; by destruct (Z.testbit v _)|]). subst n. simpl. by destruct (Z.testbit v _).
  - rewrite Z.ones_spec_high, andb_false_r by lia. by rewrite lookup_ge_None_2 by (simpl; lia).
Qed.

(** Flags a script leaves out are not set. *)
Lemma message_flags_forth f :
  message_flags_of_tw (message_flags_to_tw f) =
  let b x := Some (bool_decide (x = Some true)) in
  mkMessageFlags (b (crossposted f)) (b (is_crosspost f)) (b (suppress_embeds f)) (b (source_message_deleted f)) (b (urgent f))
    (b (has_thread f)) (b (ephemeral f)) (b (loading f)) (b (failed_to_mention_some_roles_in_thread f)).
Proof. unfold message_flags_of_tw. by rewrite !testbit_flags by lia. Qed.

(** ** Parts that can be converted *)

Definition activity_type_known (v : TwMessageActivityType) : bool := match v with TmaUnknown _ => false | _ => true end.
Definition message_type_known (v : TwMessageType) : bool := match v with TmtUnknown _ => false | _ => true end.
Definition component_type_known (v : TwComponentType) : bool := match v with TctUnknown _ => false | _ => true end.
(** Channels that are not of a guild have no type in scripts. *)
Definition channel_type_known (v : TwChannelType) : bool := match v with TwGroup | TwPrivate => false | _ => true end.

#[global] Instance activity_type_converts : Converts TwMessageActivityType MessageActivityType activity_type_known.
Proof. by intros []. Qed.
#[global] Instance activity_converts : Converts TwMessageActivity MessageActivity (λ v, activity_type_known (tma_kind v)).
Proof. intros v. conv activity_of_tw. by parts. Qed.
#[global] Instance application_converts `{ImageHashes} : Converts TwMessageApplication MessageApplication (λ _, true).
Proof. by intros []. Qed.
#[global] Instance attachment_converts : Converts TwAttachment Attachment (λ _, true).
Proof. by intros []. Qed.
#[global] Instance message_type_converts : Converts TwMessageType MessageType message_type_known.
Proof. by intros []. Qed.
#[global] Instance component_type_converts : Converts TwComponentType ComponentType component_type_known.
Proof. by intros []. Qed.
#[global] Instance channel_type_converts : Converts TwChannelType ChannelType channel_type_known.
Proof. by intros []. Qed.
#[global] Instance channel_mention_converts : Converts TwChannelMention ChannelMention (λ v, channel_type_known (tcm_kind v)).
Proof. intros v. conv channel_mention_of_tw. by parts. Qed.
#[global] Instance message_reaction_converts : Converts TwReaction MessageReaction (λ _, true).
Proof. intros v. conv reaction_of_tw. by parts. Qed.
#[global] Instance reference_converts : Converts TwMessageReference MessageReference (λ _, true).
Proof. by intros []. Qed.

(** * channel.rs: video quality and permission overwrites *)

Inductive TwVideoQualityMode := TvqAuto | TvqFull | TvqUnknown (k : Z).
Inductive VideoQualityMode := VqAuto | VqFull.

#[global] Instance video_quality_of_tw : From TwVideoQualityMode VideoQualityMode := λ v,
  match v with
  | TvqAuto => Ret VqAuto
  | TvqFull => Ret VqFull
  | TvqUnknown _ => Panic
  end.
Definition tw_video_quality_mode (v : VideoQualityMode) : TwVideoQualityMode :=
  match v with
  | VqAuto => TvqAuto
  | VqFull => TvqFull
  end.

Inductive TwOverwriteKind := TwOwMember | TwOwRole | TwOwUnknown (k : Z).
Inductive OverwriteKind := OwMember | OwRole.

#[global] Instance overwrite_kind_of_tw : From TwOverwriteKind OverwriteKind := λ v,
  match v with
  | TwOwMember => Ret OwMember
  | TwOwRole => Ret OwRole
  | TwOwUnknown _ => Panic
  end.
Definition tw_overwrite_kind (v : OverwriteKind) : TwOverwriteKind :=
  match v with
  | OwMember => TwOwMember
  | OwRole => TwOwRole
  end.

Record PermissionOverwrite := mkOverwrite {
  po_allow_raw : string;
  po_deny_raw : string;
  po_kind : OverwriteKind;
  po_id : string;
}.

Record TwOverwrite := mkTwOverwrite {
  ow_allow : Z;
  ow_deny : Z;
  ow_kind : TwOverwriteKind;
  ow_id : Z;
}.

#[global] Instance overwrite_of_tw : From TwOverwrite PermissionOverwrite := λ v,
  do! kind := from (ow_kind v) in
  Ret (mkOverwrite (u64_text (ow_allow v)) (u64_text (ow_deny v)) kind (u64_text (ow_id v))).

Definition overwrite_kind_known (v : TwOverwriteKind) : bool := match v with TwOwUnknown _ => false | _ => true end.
Definition video_quality_known (v : TwVideoQualityMode) : bool := match v with TvqUnknown _ => false | _ => true end.

#[global] Instance video_quality_converts : Converts TwVideoQualityMode VideoQualityMode video_quality_known.
Proof. by intros []. Qed.
#[global] Instance overwrite_kind_converts : Converts TwOverwriteKind OverwriteKind overwrite_kind_known.
Proof. by intros []. Qed.
#[global] Instance overwrite_converts : Converts TwOverwrite PermissionOverwrite (λ v, overwrite_kind_known (ow_kind v)).
Proof. intros v. conv overwrite_of_tw. by parts. Qed.

(** * internal/messages.rs: what a script sends *)

Inductive MentionParse := MpEveryone | MpRoles | MpUsers.

Record AllowedMentions := mkMentions {
  am_parse : list MentionParse;
  am_users : list string;
  am_roles : list string;
  am_replied_user : bool;
}.

Record TwMentions := mkTwMentions {
  tm_parse : list MentionParse;
  tm_users : list Z;
  tm_roles : list Z;
  tm_replied_user : bool;
}.

Definition tw_mentions (v : AllowedMentions) : TwMentions :=
  mkTwMentions (am_parse v) (omap parse_id (am_users v)) (omap parse_id (am_roles v)) (am_replied_user v).

Record MessageFields := mkMessageFields {
  mf_content : option string;
  mf_embeds : option (list Embed);
  mf_allowed_mentions : option AllowedMentions;
  mf_components : option (list Component);
}.

(** What a script can send: a component always, an embed unless its timestamp is past what the
    conversion to microseconds can hold. *)
Definition embed_sendable (v : Embed) : bool :=
  match e_timestamp v with
  | Some t => (i64_min <=? u64_as_i64 t * 1000) && (u64_as_i64 t * 1000 <=? i64_max)
  | None => true
  end.

#[global] Instance author_sends : Converts EmbedAuthor TwEmbedAuthor (λ _, true).
Proof. by intros []. Qed.
#[global] Instance field_sends : Converts EmbedField TwEmbedField (λ _, true).
Proof. by intros []. Qed.
#[global] Instance footer_sends : Converts EmbedFooter TwEmbedFooter (λ _, true).
Proof. by intros []. Qed.
#[global] Instance image_sends : Converts EmbedImage TwEmbedImage (λ _, true).
Proof. by intros []. Qed.
#[global] Instance provider_sends : Converts EmbedProvider TwEmbedProvider (λ _, true).
Proof. by intros []. Qed.
#[global] Instance thumbnail_sends : Converts EmbedThumbnail TwEmbedThumbnail (λ _, true).
Proof. by intros []. Qed.
#[global] Instance video_sends : Converts EmbedVideo TwEmbedVideo (λ _, true).
Proof. by intros []. Qed.

#[global] Instance embed_sends `{Timestamps} : Converts Embed TwEmbed embed_sendable.
Proof.
  intros v. conv embed_to_tw. assert (is_ret (match e_timestamp v with Some t => timestamp_of_millis t | None => Ret None end) =
    embed_sendable v) as Ht.
  { unfold embed_sendable, timestamp_of_millis. destruct (e_timestamp v); [|done]. by destruct (_ && _). }
  parts. done.
Qed.

Section component_sends_ind.
Context (P : Component → Prop).
Context (Hrow : ∀ l, (∀ c, c ∈ l → P c) → P (CActionRow l)) (Hb : ∀ b, P (CButton b)) (Hs : ∀ s, P (CSelectMenu s)).
Context (Ht : ∀ t, P (CTextInput t)) (Hu : ∀ k, P (CUnknown k)).

Fixpoint script_component_ind (c : Component) : P c.
Proof.
  destruct c as [l|b|s|t|k]; [|apply Hb|apply Hs|apply Ht|apply Hu]. apply Hrow.
  induction l as [|c l IH]; intros c' Hc'; [destruct (not_elem_of_nil c' Hc')|].
  apply elem_of_cons in Hc' as [->|Hc']; [apply script_component_ind|by apply IH].
Defined.
End component_sends_ind.

#[global] Instance reaction_sends : Converts ReactionType TwReactionType (λ _, true).
Proof. by intros []. Qed.
#[global] Instance style_sends : Converts ButtonStyle TwButtonStyle (λ _, true).
Proof. by intros []. Qed.
#[global] Instance input_style_sends : Converts TextInputStyle TwTextInputStyle (λ _, true).
Proof. by intros []. Qed.
#[global] Instance button_sends : Converts Button TwButton (λ _, true).
Proof. intros b. conv button_to_tw. by parts. Qed.
#[global] Instance select_option_sends : Converts SelectMenuOption TwSelectMenuOption (λ _, true).
Proof. intros o. conv select_menu_option_to_tw. by parts. Qed.
#[global] Instance select_sends : Converts SelectMenu TwSelectMenu (λ _, true).
Proof. intros o. conv select_menu_to_tw. by parts. Qed.
#[global] Instance text_input_sends : Converts TextInput TwTextInput (λ _, true).
Proof. intros t. conv text_input_to_tw. by parts. Qed.

#[global] Instance component_sends : Converts Component TwComponent (λ _, true).
Proof.
  intros c. induction c as [l IH|b|s|t|k] using script_component_ind; conv component_to_tw; [|by parts..].
  apply (is_ret_bind _ _ true true); [|done]. etrans; [apply (is_ret_map _ (λ _, true)), IH|apply forallb_true].
Qed.
