(* ===== verification/Entities.v ===== *)
(** Users, members, roles, guilds, channels, messages and the events about them, as Discord sends
    them and as scripts see them ([components/runtime-models/src]: [internal/user.rs],
    [internal/member.rs], [internal/channel.rs], [internal/messages.rs], [internal/events.rs],
    [discord/member.rs], [discord/role.rs], [discord/guild.rs], [discord/channel.rs],
    [discord/events.rs]; the broker's guild is [components/dbrokerapi/src/models/guild.rs]).

    The records [Tw...] have the fields of twilight's types that the conversions read. *)
From stdpp Require Import base list strings.
From S2P Require Import Prelude Numbers Models Commands Payloads.

(** How twilight prints a user's discriminator and the name of a guild feature. *)
Class TwilightText := {
  discriminator_text : Z → string;
  GuildFeature : Type;
  feature_text : GuildFeature → string;
}.

Section users.
Context `{!ImageHashes, !TwilightText, !Timestamps}.

(** * internal/user.rs *)

Inductive TwPremiumType := TptNone | TptNitroClassic | TptNitro | TptNitroBasic | TptUnknown (k : Z).
Inductive PremiumType := PtNone | PtNitroClassic | PtNitro | PtNitroBasic.

#[global] Instance premium_type_of_tw : From TwPremiumType PremiumType := λ v,
  match v with
  | TptNitro => Ret PtNitro
  | TptNitroClassic => Ret PtNitroClassic
  | TptNone => Ret PtNone
  | TptNitroBasic => Ret PtNitroBasic
  | TptUnknown _ => Panic
  end.

Record UserFlags := mkUserFlags {
  staff : bool;
  partner : bool;
  hypesquad : bool;
  bug_hunter_level_1 : bool;
  hypesquad_online_house_1 : bool;
  hypesquad_online_house_2 : bool;
  hypesquad_online_house_3 : bool;
  premium_early_supporter : bool;
  team_pseudo_user : bool;
  bug_hunter_level_2 : bool;
  verified_bot : bool;
  verified_developer : bool;
  certified_moderator : bool;
  bot_http_interactions : bool;
}.

(** [twilight_model::user::UserFlags] by its bits. *)
Definition user_flags_of_tw (uf : Z) : UserFlags :=
  mkUserFlags (Z.testbit uf 0) (Z.testbit uf 1) (Z.testbit uf 2) (Z.testbit uf 3) (Z.testbit uf 6) (Z.testbit uf 7) (Z.testbit uf 8)
    (Z.testbit uf 9) (Z.testbit uf 10) (Z.testbit uf 14) (Z.testbit uf 16) (Z.testbit uf 17) (Z.testbit uf 18) (Z.testbit uf 19).

Record TwUser := mkTwUser {
  tu_avatar : option ImageHash;
  tu_bot : bool;
  tu_discriminator : Z;
  tu_id : Z;
  tu_locale : option string;
  tu_name : string;
  tu_premium_type : option TwPremiumType;
  tu_public_flags : option Z;
  tu_system : option bool;
}.
Record User := mkUser {
  u_avatar : option string;
  u_bot : bool;
  u_discriminator : string;
  u_id : string;
  u_locale : option string;
  u_username : string;
  u_premium_type : option PremiumType;
  u_public_flags : option UserFlags;
  u_system : option bool;
}.

#[global] Instance user_of_tw : From TwUser User := λ v,
  do! premium_type := from (tu_premium_type v) in
  Ret (mkUser (hash_to_string <$> tu_avatar v) (tu_bot v) (discriminator_text (tu_discriminator v)) (u64_text (tu_id v))
         (tu_locale v) (tu_name v) premium_type (user_flags_of_tw <$> tu_public_flags v) (tu_system v)).

(** The bot's own user: [twilight_model::user::CurrentUser]. *)
Record TwCurrentUser := mkTwCurrentUser {
  tcu_avatar : option ImageHash;
  tcu_bot : bool;
  tcu_discriminator : Z;
  tcu_id : Z;
  tcu_locale : option string;
  tcu_name : string;
  tcu_premium_type : option TwPremiumType;
  tcu_public_flags : option Z;
}.

#[global] Instance user_of_current : From TwCurrentUser User := λ v,
  do! premium_type := from (tcu_premium_type v) in
  Ret (mkUser (hash_to_string <$> tcu_avatar v) (tcu_bot v) (discriminator_text (tcu_discriminator v)) (u64_text (tcu_id v))
         (tcu_locale v) (tcu_name v) premium_type (user_flags_of_tw <$> tcu_public_flags v) (Some false)).

(** * discord/member.rs, internal/member.rs *)

Record TwPartialMember := mkTwPartialMember {
  tpm_deaf : bool;
  tpm_joined_at : Z;
  tpm_mute : bool;
  tpm_nick : option string;
  tpm_premium_since : option Z;
  tpm_roles : list Z;
  tpm_communication_disabled_until : option Z;
  tpm_user : option TwUser;
}.
Record PartialMember := mkPartialMember {
  pm_deaf : bool;
  pm_joined_at : Z;
  pm_mute : bool;
  pm_nick : option string;
  pm_premium_since : option Z;
  pm_roles : list string;
  pm_communication_disabled_until : option Z;
}.

#[global] Instance partial_member_of_tw : From TwPartialMember PartialMember := λ v,
  Ret (mkPartialMember (tpm_deaf v) (ts_millis (tpm_joined_at v)) (tpm_mute v) (tpm_nick v) (ts_millis <$> tpm_premium_since v)
         (u64_text <$> tpm_roles v) (ts_millis <$> tpm_communication_disabled_until v)).

Record TwMember := mkTwMember {
  tme_guild_id : Z;
  tme_deaf : bool;
  tme_joined_at : Z;
  tme_mute : bool;
  tme_nick : option string;
  tme_pending : bool;
  tme_premium_since : option Z;
  tme_roles : list Z;
  tme_communication_disabled_until : option Z;
  tme_user : TwUser;
}.
Record Member := mkMember {
  me_deaf : bool;
  me_joined_at : Z;
  me_mute : bool;
  me_nick : option string;
  me_pending : bool;
  me_premium_since : option Z;
  me_roles : list string;
  me_communication_disabled_until : option Z;
  me_user : User;
}.

#[global] Instance member_of_tw : From TwMember Member := λ v,
  do! user := from (tme_user v) in
  Ret (mkMember (tme_deaf v) (ts_millis (tme_joined_at v)) (tme_mute v) (tme_nick v) (tme_pending v) (ts_millis <$> tme_premium_since v)
         (u64_text <$> tme_roles v) (ts_millis <$> tme_communication_disabled_until v) user).

(** [twilight_cache_inmemory::model::CachedMember] *)
Record TwCachedMember := mkTwCachedMember {
  tcd_deaf : option bool;
  tcd_joined_at : Z;
  tcd_mute : option bool;
  tcd_nick : option string;
  tcd_premium_since : option Z;
  tcd_roles : list Z;
  tcd_communication_disabled_until : option Z;
}.

(** [Member::from_cache] *)
Definition member_from_cache (user : User) (member : TwCachedMember) : Member :=
  mkMember (default false (tcd_deaf member)) (ts_millis (tcd_joined_at member)) (default false (tcd_mute member)) (tcd_nick member)
    false (ts_millis <$> tcd_premium_since member) (u64_text <$> tcd_roles member)
    (ts_millis <$> tcd_communication_disabled_until member) user.

(** [Member::from_partial] *)
Definition member_from_partial (partial : TwPartialMember) : outcome Member :=
  do! user := unwrap (tpm_user partial) in
  do! user := from user in
  Ret (mkMember (tpm_deaf partial) (ts_millis (tpm_joined_at partial)) (tpm_mute partial) (tpm_nick partial) false
         (ts_millis <$> tpm_premium_since partial) (u64_text <$> tpm_roles partial)
         (ts_millis <$> tpm_communication_disabled_until partial) user).

(** [twilight_model::gateway::payload::incoming::MemberUpdate] *)
Record TwMemberUpdate := mkTwMemberUpdate {
  tmu_guild_id : Z;
  tmu_deaf : option bool;
  tmu_joined_at : Z;
  tmu_mute : option bool;
  tmu_nick : option string;
  tmu_pending : bool;
  tmu_premium_since : option Z;
  tmu_roles : list Z;
  tmu_communication_disabled_until : option Z;
  tmu_user : TwUser;
}.

#[global] Instance member_of_update : From TwMemberUpdate Member := λ v,
  do! user := from (tmu_user v) in
  Ret (mkMember (default false (tmu_deaf v)) (ts_millis (tmu_joined_at v)) (default false (tmu_mute v)) (tmu_nick v) (tmu_pending v)
         (ts_millis <$> tmu_premium_since v) (u64_text <$> tmu_roles v) (ts_millis <$> tmu_communication_disabled_until v) user).

Record TwBan := mkTwBan { tba_reason : option string; tba_user : TwUser }.
Record Ban := mkBan { ba_reason : option string; ba_user : User }.

#[global] Instance ban_of_tw : From TwBan Ban := λ v,
  do! user := from (tba_user v) in Ret (mkBan (tba_reason v) user).

(** * discord/role.rs *)

Record TwRoleTags := mkTwRoleTags { trt_bot_id : option Z; trt_integration_id : option Z; trt_premium_subscriber : bool }.
Record RoleTags := mkRoleTags { rt_bot_id : option string; rt_integration_id : option string; rt_premium_subscriber : bool }.

#[global] Instance role_tags_of_tw : From TwRoleTags RoleTags := λ v,
  Ret (mkRoleTags (u64_text <$> trt_bot_id v) (u64_text <$> trt_integration_id v) (trt_premium_subscriber v)).

Record TwRole := mkTwRole {
  tro_color : Z;
  tro_hoist : bool;
  tro_icon : option ImageHash;
  tro_id : Z;
  tro_managed : bool;
  tro_mentionable : bool;
  tro_name : string;
  tro_permissions : Z;
  tro_position : Z;
  tro_tags : option TwRoleTags;
  tro_unicode_emoji : option string;
}.
Record Role := mkRole {
  ro_color : Z;
  ro_hoist : bool;
  ro_icon : option string;
  ro_id : string;
  ro_managed : bool;
  ro_mentionable : bool;
  ro_name : string;
  ro_permissions_raw : string;
  ro_position : Z;
  ro_tags : option RoleTags;
  ro_unicode_emoji : option string;
}.

(** Of a role and of a reference to one. *)
#[global] Instance role_of_tw : From TwRole Role := λ v,
  do! tags := from (tro_tags v) in
  Ret (mkRole (tro_color v) (tro_hoist v) (hash_to_string <$> tro_icon v) (u64_text (tro_id v)) (tro_managed v) (tro_mentionable v)
         (tro_name v) (u64_text (tro_permissions v)) (tro_position v) tags (tro_unicode_emoji v)).

(** * discord/guild.rs *)

Inductive TwDefaultMessageNotificationLevel := TdnAll | TdnMentions | TdnUnknown (k : Z).
Inductive DefaultMessageNotificationLevel := DnAll | DnMentions.
#[global] Instance notification_level_of_tw : From TwDefaultMessageNotificationLevel DefaultMessageNotificationLevel := λ v,
  match v with
  | TdnAll => Ret DnAll
  | TdnMentions => Ret DnMentions
  | TdnUnknown _ => Panic
  end.

Inductive TwExplicitContentFilter := TecNone | TecMembersWithoutRole | TecAllMembers | TecUnknown (k : Z).
Inductive ExplicitContentFilter := EcNone | EcMembersWithoutRole | EcAllMembers.
#[global] Instance content_filter_of_tw : From TwExplicitContentFilter ExplicitContentFilter := λ v,
  match v with
  | TecNone => Ret EcNone
  | TecMembersWithoutRole => Ret EcMembersWithoutRole
  | TecAllMembers => Ret EcAllMembers
  | TecUnknown _ => Panic
  end.

Inductive TwMfaLevel := TmfNone | TmfElevated | TmfUnknown (k : Z).
Inductive MfaLevel := MfNone | MfElevated.
#[global] Instance mfa_level_of_tw : From TwMfaLevel MfaLevel := λ v,
  match v with
  | TmfNone => Ret MfNone
  | TmfElevated => Ret MfElevated
  | TmfUnknown _ => Panic
  end.

Inductive TwNSFWLevel := TnsDefault | TnsExplicit | TnsSafe | TnsAgeRestricted | TnsUnknown (k : Z).
Inductive NsfwLevel := NsDefault | NsExplicit | NsSafe | NsAgeRestricted.
#[global] Instance nsfw_level_of_tw : From TwNSFWLevel NsfwLevel := λ v,
  match v with
  | TnsDefault => Ret NsDefault
  | TnsExplicit => Ret NsExplicit
  | TnsSafe => Ret NsSafe
  | TnsAgeRestricted => Ret NsAgeRestricted
  | TnsUnknown _ => Panic
  end.

Inductive TwPremiumTier := TgpNone | TgpTier1 | TgpTier2 | TgpTier3 | TgpUnknown (k : Z).
Inductive PremiumTier := GpNone | GpTier1 | GpTier2 | GpTier3.
#[global] Instance premium_tier_of_tw : From TwPremiumTier PremiumTier := λ v,
  match v with
  | TgpNone => Ret GpNone
  | TgpTier1 => Ret GpTier1
  | TgpTier2 => Ret GpTier2
  | TgpTier3 => Ret GpTier3
  | TgpUnknown _ => Panic
  end.

Inductive TwVerificationLevel := TvlNone | TvlLow | TvlMedium | TvlHigh | TvlVeryHigh | TvlUnknown (k : Z).
Inductive VerificationLevel := VlNone | VlLow | VlMedium | VlHigh | VlVeryHigh.
#[global] Instance verification_level_of_tw : From TwVerificationLevel VerificationLevel := λ v,
  match v with
  | TvlNone => Ret VlNone
  | TvlLow => Ret VlLow
  | TvlMedium => Ret VlMedium
  | TvlHigh => Ret VlHigh
  | TvlVeryHigh => Ret VlVeryHigh
  | TvlUnknown _ => Panic
  end.

Record SystemChannelFlags := mkSystemChannelFlags {
  suppress_join_notifications : bool;
  suppress_premium_subscriptions : bool;
  suppress_guild_reminder_notifications : bool;
  suppress_join_notification_replies : bool;
}.
Definition system_channel_flags_of_tw (v : Z) : SystemChannelFlags :=
  mkSystemChannelFlags (Z.testbit v 0) (Z.testbit v 1) (Z.testbit v 2) (Z.testbit v 3).

End users.

(** The fields of [BrokerGuild] and of [twilight_cache_inmemory::model::CachedGuild], which differ
    in the types of hashes and features. *)
Set Implicit Arguments.
Record GuildData (Hash Feature : Type) := mkGuildData {
  gd_afk_channel_id : option Z;
  gd_afk_timeout : Z;
  gd_application_id : option Z;
  gd_banner : option Hash;
  gd_default_message_notifications : TwDefaultMessageNotificationLevel;
  gd_description : option string;
  gd_discovery_splash : option Hash;
  gd_explicit_content_filter : TwExplicitContentFilter;
  gd_features : list Feature;
  gd_icon : option Hash;
  gd_id : Z;
  gd_joined_at : option Z;
  gd_max_members : option Z;
  gd_max_presences : option Z;
  gd_member_count : option Z;
  gd_mfa_level : TwMfaLevel;
  gd_name : string;
  gd_nsfw_level : TwNSFWLevel;
  gd_owner_id : Z;
  gd_preferred_locale : string;
  gd_premium_subscription_count : option Z;
  gd_premium_tier : TwPremiumTier;
  gd_rules_channel_id : option Z;
  gd_splash : option Hash;
  gd_system_channel_id : option Z;
  gd_system_channel_flags : Z;
  gd_vanity_url_code : option string;
  gd_verification_level : TwVerificationLevel;
  gd_widget_channel_id : option Z;
  gd_widget_enabled : option bool;
}.
Unset Implicit Arguments.

Section entities.
Context `{!ImageHashes, !TwilightText, !Timestamps}.

Definition CachedGuild : Type := GuildData ImageHash GuildFeature.
Definition BrokerGuild : Type := GuildData string string.

Record Guild := mkGuild {
  g_id : string;
  g_name : string;
  g_icon : option string;
  g_afk_channel_id : option string;
  g_afk_timeout : Z;
  g_application_id : option string;
  g_banner : option string;
  g_default_message_notifications : DefaultMessageNotificationLevel;
  g_description : option string;
  g_discovery_splash : option string;
  g_explicit_content_filter : ExplicitContentFilter;
  g_features : list string;
  g_joined_at : Z;
  g_max_members : option Z;
  g_max_presences : option Z;
  g_member_count : Z;
  g_mfa_level : MfaLevel;
  g_nsfw_level : NsfwLevel;
  g_owner_id : string;
  g_preferred_locale : string;
  g_premium_subscription_count : Z;
  g_premium_tier : PremiumTier;
  g_rules_channel_id : option string;
  g_splash : option string;
  g_system_channel_id : option string;
  g_system_channel_flags : SystemChannelFlags;
  g_vanity_url_code : option string;
  g_verification_level : VerificationLevel;
  g_widget_channel_id : option string;
  g_widget_enabled : option bool;
}.


#[global] Instance guild_of_cached : From CachedGuild Guild := λ v,
  do! default_message_notifications := from (gd_default_message_notifications v) in
  do! explicit_content_filter := from (gd_explicit_content_filter v) in
  do! mfa_level := from (gd_mfa_level v) in
  do! nsfw_level := from (gd_nsfw_level v) in
  do! premium_tier := from (gd_premium_tier v) in
  do! verification_level := from (gd_verification_level v) in
  Ret {|
    g_id := u64_text (gd_id v);
    g_name := gd_name v;
    g_icon := hash_to_string <$> gd_icon v;
    g_afk_channel_id := u64_text <$> gd_afk_channel_id v;
    g_afk_timeout := gd_afk_timeout v;
    g_application_id := u64_text <$> gd_application_id v;
    g_banner := hash_to_string <$> gd_banner v;
    g_default_message_notifications := default_message_notifications;
    g_description := gd_description v;
    g_discovery_splash := hash_to_string <$> gd_discovery_splash v;
    g_explicit_content_filter := explicit_content_filter;
    g_features := feature_text <$> gd_features v;
    g_joined_at := default 0 (ts_millis <$> gd_joined_at v);
    g_max_members := gd_max_members v;
    g_max_presences := gd_max_presences v;
    g_member_count := default 0 (gd_member_count v);
    g_mfa_level := mfa_level;
    g_nsfw_level := nsfw_level;
    g_owner_id := u64_text (gd_owner_id v);
    g_preferred_locale := gd_preferred_locale v;
    g_premium_subscription_count := default 0 (gd_premium_subscription_count v);
    g_premium_tier := premium_tier;
    g_rules_channel_id := u64_text <$> gd_rules_channel_id v;
    g_splash := hash_to_string <$> gd_splash v;
    g_system_channel_id := u64_text <$> gd_system_channel_id v;
    g_system_channel_flags := system_channel_flags_of_tw (gd_system_channel_flags v);
    g_vanity_url_code := gd_vanity_url_code v;
    g_verification_level := verification_level;
    g_widget_channel_id := u64_text <$> gd_widget_channel_id v;
    g_widget_enabled := gd_widget_enabled v;
  |}.

#[global] Instance guild_of_broker : From BrokerGuild Guild := λ v,
  do! default_message_notifications := from (gd_default_message_notifications v) in
  do! explicit_content_filter := from (gd_explicit_content_filter v) in
  do! mfa_level := from (gd_mfa_level v) in
  do! nsfw_level := from (gd_nsfw_level v) in
  do! premium_tier := from (gd_premium_tier v) in
  do! verification_level := from (gd_verification_level v) in
  Ret {|
    g_id := u64_text (gd_id v);
    g_name := gd_name v;
    g_icon := gd_icon v;
    g_afk_channel_id := u64_text <$> gd_afk_channel_id v;
    g_afk_timeout := gd_afk_timeout v;
    g_application_id := u64_text <$> gd_application_id v;
    g_banner := gd_banner v;
    g_default_message_notifications := default_message_notifications;
    g_description := gd_description v;
    g_discovery_splash := gd_discovery_splash v;
    g_explicit_content_filter := explicit_content_filter;
    g_features := gd_features v;
    g_joined_at := default 0 (ts_millis <$> gd_joined_at v);
    g_max_members := gd_max_members v;
    g_max_presences := gd_max_presences v;
    g_member_count := default 0 (gd_member_count v);
    g_mfa_level := mfa_level;
    g_nsfw_level := nsfw_level;
    g_owner_id := u64_text (gd_owner_id v);
    g_preferred_locale := gd_preferred_locale v;
    g_premium_subscription_count := default 0 (gd_premium_subscription_count v);
    g_premium_tier := premium_tier;
    g_rules_channel_id := u64_text <$> gd_rules_channel_id v;
    g_splash := gd_splash v;
    g_system_channel_id := u64_text <$> gd_system_channel_id v;
    g_system_channel_flags := system_channel_flags_of_tw (gd_system_channel_flags v);
    g_vanity_url_code := gd_vanity_url_code v;
    g_verification_level := verification_level;
    g_widget_channel_id := u64_text <$> gd_widget_channel_id v;
    g_widget_enabled := gd_widget_enabled v;
  |}.

(** * discord/channel.rs: threads *)

(** The archive duration by its number of minutes. *)
Record TwThreadMetadata := mkTwThreadMetadata {
  ttm_archived : bool;
  ttm_auto_archive_duration : Z;
  ttm_archive_timestamp : Z;
  ttm_invitable : option bool;
  ttm_locked : bool;
}.
Record ThreadMetadata := mkThreadMetadata {
  tm_archived : bool;
  tm_auto_archive_duration_minutes : Z;
  tm_archive_timestamp : Z;
  tm_invitable : option bool;
  tm_locked : bool;
}.

#[global] Instance thread_metadata_of_tw : From TwThreadMetadata ThreadMetadata := λ v,
  Ret (mkThreadMetadata (ttm_archived v) (ttm_auto_archive_duration v) (ts_millis (ttm_archive_timestamp v)) (ttm_invitable v)
         (ttm_locked v)).

(** * internal/channel.rs *)

Record TwThreadMember := mkTwThreadMember {
  tth_id : option Z;
  tth_join_timestamp : Z;
  tth_member : option TwMember;
  tth_user_id : option Z;
}.
Record ThreadMember := mkThreadMember {
  th_id : option string;
  th_join_timestamp : Z;
  th_member : option Member;
  th_user_id : option string;
}.
Record SelfThreadMember := mkSelfThreadMember { st_join_timestamp : Z }.

#[global] Instance thread_member_of_tw : From TwThreadMember ThreadMember := λ v,
  do! member := from (tth_member v) in
  Ret (mkThreadMember (u64_text <$> tth_id v) (ts_millis (tth_join_timestamp v)) member (u64_text <$> tth_user_id v)).
#[global] Instance self_thread_member_of_tw : From TwThreadMember SelfThreadMember := λ v,
  Ret (mkSelfThreadMember (ts_millis (tth_join_timestamp v))).

Record TwChannelData := mkTwChannelData {
  tc_bitrate : option Z;
  tc_default_auto_archive_duration : option Z;
  tc_guild_id : option Z;
  tc_id : Z;
  tc_invitable : option bool;
  tc_kind : TwChannelType;
  tc_last_pin_timestamp : option Z;
  tc_member : option TwThreadMember;
  tc_member_count : option Z;
  tc_message_count : option Z;
  tc_name : option string;
  tc_nsfw : option bool;
  tc_owner_id : option Z;
  tc_parent_id : option Z;
  tc_permission_overwrites : option (list TwOverwrite);
  tc_position : option Z;
  tc_rate_limit_per_user : option Z;
  tc_rtc_region : option string;
  tc_thread_metadata : option TwThreadMetadata;
  tc_topic : option string;
  tc_user_limit : option Z;
  tc_video_quality_mode : option TwVideoQualityMode;
}.

Record UnknownChannel := mkUnknownChannel { uc_id : string; uc_kind : ChannelType; uc_unknown_kind_id : Z }.

Record VoiceChannel := mkVoiceChannel {
  vc_bitrate : Z;
  vc_id : string;
  vc_kind : ChannelType;
  vc_name : string;
  vc_parent_id : option string;
  vc_permission_overwrites : list PermissionOverwrite;
  vc_position : Z;
  vc_rtc_region : option string;
  vc_user_limit : option Z;
  vc_video_quality_mode : option VideoQualityMode;
}.

#[global] Instance voice_channel_of_tw : From TwChannelData VoiceChannel := λ v,
  do! kind := from (tc_kind v) in
  do! permission_overwrites := from (default [] (tc_permission_overwrites v)) in
  do! video_quality_mode := from (tc_video_quality_mode v) in
  Ret (mkVoiceChannel (default 0 (tc_bitrate v)) (u64_text (tc_id v)) kind (default "" (tc_name v)) (u64_text <$> tc_parent_id v)
         permission_overwrites (default 0 (tc_position v)) (tc_rtc_region v) (tc_user_limit v) video_quality_mode).

Record TextChannel := mkTextChannel {
  xc_id : string;
  xc_kind : ChannelType;
  xc_last_pin_timestamp : option Z;
  xc_name : string;
  xc_nsfw : bool;
  xc_parent_id : option string;
  xc_permission_overwrites : list PermissionOverwrite;
  xc_position : Z;
  xc_rate_limit_per_user : option Z;
  xc_topic : option string;
}.

#[global] Instance text_channel_of_tw : From TwChannelData TextChannel := λ v,
  do! kind := from (tc_kind v) in
  do! permission_overwrites := from (default [] (tc_permission_overwrites v)) in
  Ret (mkTextChannel (u64_text (tc_id v)) kind (ts_millis <$> tc_last_pin_timestamp v) (default "" (tc_name v))
         (default false (tc_nsfw v)) (u64_text <$> tc_parent_id v) permission_overwrites (default 0 (tc_position v))
         (tc_rate_limit_per_user v) (tc_topic v)).

Definition empty_thread_meta : TwThreadMetadata := mkTwThreadMetadata false 60 0 None false.

(** [PublicThread] and [NewsThread] have the same fields. *)
Record PublicThread := mkPublicThread {
  pt_default_auto_archive_duration_minutes : option Z;
  pt_id : string;
  pt_kind : ChannelType;
  pt_member : option SelfThreadMember;
  pt_member_count : Z;
  pt_message_count : Z;
  pt_name : string;
  pt_owner_id : option string;
  pt_parent_id : option string;
  pt_rate_limit_per_user : option Z;
  pt_thread_metadata : ThreadMetadata;
}.
Record NewsThread := mkNewsThread { news_thread : PublicThread }.

#[global] Instance public_thread_of_tw : From TwChannelData PublicThread := λ v,
  do! kind := from (tc_kind v) in
  do! member := from (tc_member v) in
  do! thread_metadata := from (default empty_thread_meta (tc_thread_metadata v)) in
  Ret (mkPublicThread (tc_default_auto_archive_duration v) (u64_text (tc_id v)) kind member (default 0 (tc_member_count v))
         (default 0 (tc_message_count v)) (default "" (tc_name v)) (u64_text <$> tc_owner_id v) (u64_text <$> tc_parent_id v)
         (tc_rate_limit_per_user v) thread_metadata).
#[global] Instance news_thread_of_tw : From TwChannelData NewsThread := λ v,
  do! kind := from (tc_kind v) in
  do! member := from (tc_member v) in
  do! thread_metadata := from (default empty_thread_meta (tc_thread_metadata v)) in
  Ret (mkNewsThread (mkPublicThread (tc_default_auto_archive_duration v) (u64_text (tc_id v)) kind member
         (default 0 (tc_member_count v)) (default 0 (tc_message_count v)) (default "" (tc_name v)) (u64_text <$> tc_owner_id v)
         (u64_text <$> tc_parent_id v) (tc_rate_limit_per_user v) thread_metadata)).

Record PrivateThread := mkPrivateThread {
  vt_default_auto_archive_duration_minutes : option Z;
  vt_id : string;
  vt_invitable : option bool;
  vt_kind : ChannelType;
  vt_member : option SelfThreadMember;
  vt_member_count : Z;
  vt_message_count : Z;
  vt_name : string;
  vt_owner_id : option string;
  vt_parent_id : option string;
  vt_permission_overwrites : list PermissionOverwrite;
  vt_rate_limit_per_user : option Z;
  vt_thread_metadata : ThreadMetadata;
}.

#[global] Instance private_thread_of_tw : From TwChannelData PrivateThread := λ v,
  do! kind := from (tc_kind v) in
  do! member := from (tc_member v) in
  do! thread_metadata := from (default empty_thread_meta (tc_thread_metadata v)) in
  do! permission_overwrites := from (default [] (tc_permission_overwrites v)) in
  Ret (mkPrivateThread (tc_default_auto_archive_duration v) (u64_text (tc_id v)) (tc_invitable v) kind member
         (default 0 (tc_member_count v)) (default 0 (tc_message_count v)) (default "" (tc_name v)) (u64_text <$> tc_owner_id v)
         (u64_text <$> tc_parent_id v) permission_overwrites (tc_rate_limit_per_user v) thread_metadata).

Record CategoryChannel := mkCategoryChannel {
  gc_id : string;
  gc_kind : ChannelType;
  gc_name : string;
  gc_permission_overwrites : list PermissionOverwrite;
  gc_position : Z;
}.

#[global] Instance category_channel_of_tw : From TwChannelData CategoryChannel := λ v,
  do! kind := from (tc_kind v) in
  do! permission_overwrites := from (default [] (tc_permission_overwrites v)) in
  Ret (mkCategoryChannel (u64_text (tc_id v)) kind (default "" (tc_name v)) permission_overwrites (default 0 (tc_position v))).

Inductive GuildChannel :=
| GcCategory (c : CategoryChannel)
| GcNewsThread (t : NewsThread)
| GcPrivateThread (t : PrivateThread)
| GcPublicThread (t : PublicThread)
| GcText (c : TextChannel)
| GcVoice (c : VoiceChannel)
| GcStage (c : VoiceChannel)
| GcGuildDirectory (c : TextChannel)
| GcForum (c : TextChannel)
| GcUnknown (c : UnknownChannel).

#[global] Instance guild_channel_of_tw : From TwChannelData GuildChannel := λ v,
  match tc_kind v with
  | TwGuildCategory => do! c := from v in Ret (GcCategory c)
  | TwAnnouncementThread => do! t := from v in Ret (GcNewsThread t)
  | TwPrivateThread => do! t := from v in Ret (GcPrivateThread t)
  | TwPublicThread => do! t := from v in Ret (GcPublicThread t)
  | TwGuildText | TwGuildAnnouncement => do! c := from v in Ret (GcText c)
  | TwGuildVoice => do! c := from v in Ret (GcVoice c)
  | TwGuildStageVoice => do! c := from v in Ret (GcStage c)
  | TwPrivate => Panic
  | TwGroup => Panic
  | TwGuildDirectory => do! c := from v in Ret (GcGuildDirectory c)
  | TwGuildForum => do! c := from v in Ret (GcForum c)
  | TwUnknownChannel k => do! kind := from (tc_kind v) in Ret (GcUnknown (mkUnknownChannel (u64_text (tc_id v)) kind k))
  end.

(** * internal/messages.rs *)

(** [twilight_model::channel::message::Mention] *)
Record TwMention := mkTwMention {
  tmn_avatar : option ImageHash;
  tmn_bot : bool;
  tmn_discriminator : Z;
  tmn_id : Z;
  tmn_member : option TwPartialMember;
  tmn_name : string;
  tmn_public_flags : Z;
}.
Record UserMention := mkUserMention { um_user : User; um_member : option PartialMember }.

#[global] Instance user_mention_of_tw : From TwMention UserMention := λ v,
  do! member := from (tmn_member v) in
  Ret (mkUserMention
         (mkUser (hash_to_string <$> tmn_avatar v) (tmn_bot v) (discriminator_text (tmn_discriminator v)) (u64_text (tmn_id v)) None
            (tmn_name v) None (Some (user_flags_of_tw (tmn_public_flags v))) None)
         member).

(** A message may hold the message it refers to. *)
Inductive TwMessage := mkTwMessage {
  tg_activity : option TwMessageActivity;
  tg_application : option TwMessageApplication;
  tg_attachments : list TwAttachment;
  tg_author : TwUser;
  tg_channel_id : Z;
  tg_content : string;
  tg_components : list TwComponent;
  tg_edited_timestamp : option Z;
  tg_embeds : list TwEmbed;
  tg_flags : option Z;
  tg_guild_id : option Z;
  tg_id : Z;
  tg_kind : TwMessageType;
  tg_member : option TwPartialMember;
  tg_mention_channels : list TwChannelMention;
  tg_mention_everyone : bool;
  tg_mention_roles : list Z;
  tg_mentions : list TwMention;
  tg_pinned : bool;
  tg_reactions : list TwReaction;
  tg_reference : option TwMessageReference;
  tg_referenced_message : option TwMessage;
  tg_timestamp : Z;
  tg_tts : bool;
  tg_webhook_id : option Z;
}.
Inductive Message := mkMessage {
  m_activity : option MessageActivity;
  m_application : option MessageApplication;
  m_attachments : list Attachment;
  m_author : User;
  m_channel_id : string;
  m_content : string;
  m_components : list Component;
  m_edited_timestamp : option Z;
  m_embeds : list Embed;
  m_flags : option MessageFlags;
  m_guild_id : option string;
  m_id : string;
  m_kind : MessageType;
  m_member : option PartialMember;
  m_mention_channels : list ChannelMention;
  m_mention_everyone : bool;
  m_mention_roles : list string;
  m_mentions : list UserMention;
  m_pinned : bool;
  m_reactions : list MessageReaction;
  m_reference : option MessageReference;
  m_referenced_message : option Message;
  m_timestamp : Z;
  m_tts : bool;
  m_webhook_id : option string;
}.

Fixpoint message_of_tw_fix (v : TwMessage) : outcome Message :=
  do! activity := from (tg_activity v) in
  do! application := from (tg_application v) in
  do! attachments := from (tg_attachments v) in
  do! author := from (tg_author v) in
  do! components := from (tg_components v) in
  do! embeds := from (tg_embeds v) in
  do! kind := from (tg_kind v) in
  do! member := from (tg_member v) in
  do! mention_channels := from (tg_mention_channels v) in
  do! mentions := from (tg_mentions v) in
  do! reactions := from (tg_reactions v) in
  do! reference := from (tg_reference v) in
  do! referenced_message :=
    match tg_referenced_message v with
    | Some e => do! m := message_of_tw_fix e in Ret (Some m)
    | None => Ret None
    end in
  Ret {|
    m_activity := activity;
    m_application := application;
    m_attachments := attachments;
    m_author := author;
    m_channel_id := u64_text (tg_channel_id v);
    m_content := tg_content v;
    m_components := components;
    m_edited_timestamp := ts_millis <$> tg_edited_timestamp v;
    m_embeds := embeds;
    m_flags := message_flags_of_tw <$> tg_flags v;
    m_guild_id := u64_text <$> tg_guild_id v;
    m_id := u64_text (tg_id v);
    m_kind := kind;
    m_member := member;
    m_mention_channels := mention_channels;
    m_mention_everyone := tg_mention_everyone v;
    m_mention_roles := u64_text <$> tg_mention_roles v;
    m_mentions := mentions;
    m_pinned := tg_pinned v;
    m_reactions := reactions;
    m_reference := reference;
    m_referenced_message := referenced_message;
    m_timestamp := ts_millis (tg_timestamp v);
    m_tts := tg_tts v;
    m_webhook_id := u64_text <$> tg_webhook_id v;
  |}.
#[global] Instance message_of_tw : From TwMessage Message := message_of_tw_fix.

(** * internal/events.rs, discord/events.rs *)

Record TwMemberRemove := mkTwMemberRemove { tmv_guild_id : Z; tmv_user : TwUser }.
Record EventMemberRemove := mkEventMemberRemove { emv_guild_id : string; emv_user : User }.

#[global] Instance member_remove_of_tw : From TwMemberRemove EventMemberRemove := λ v,
  do! user := from (tmv_user v) in Ret (mkEventMemberRemove (u64_text (tmv_guild_id v)) user).

(** [GatewayReaction], of [ReactionAdd] and [ReactionRemove] *)
Record TwGatewayReaction := mkTwGatewayReaction {
  tgr_channel_id : Z;
  tgr_emoji : TwReactionType;
  tgr_guild_id : option Z;
  tgr_member : option TwMember;
  tgr_message_id : Z;
  tgr_user_id : Z;
}.
Record EventMessageReactionAdd := mkEventReactionAdd {
  era_channel_id : string;
  era_message_id : string;
  era_emoji : ReactionType;
  era_member : Member;
  era_user_id : string;
}.

Definition reaction_add_of_tw (v : TwGatewayReaction) : outcome EventMessageReactionAdd :=
  do! emoji := from (tgr_emoji v) in
  do! member := unwrap (tgr_member v) in
  do! member := from member in
  Ret (mkEventReactionAdd (u64_text (tgr_channel_id v)) (u64_text (tgr_message_id v)) emoji member (u64_text (tgr_user_id v))).

Record EventMessageReactionRemove := mkEventReactionRemove {
  err_channel_id : string;
  err_message_id : string;
  err_emoji : ReactionType;
  err_user_id : string;
}.

Definition reaction_remove_of_tw (v : TwGatewayReaction) : outcome EventMessageReactionRemove :=
  do! emoji := from (tgr_emoji v) in
  Ret (mkEventReactionRemove (u64_text (tgr_channel_id v)) (u64_text (tgr_message_id v)) emoji (u64_text (tgr_user_id v))).

Record TwReactionRemoveAll := mkTwReactionRemoveAll { tra_channel_id : Z; tra_guild_id : option Z; tra_message_id : Z }.
Record EventMessageReactionRemoveAll := mkEventReactionRemoveAll { eraa_channel_id : string; eraa_message_id : string }.

#[global] Instance reaction_remove_all_of_tw : From TwReactionRemoveAll EventMessageReactionRemoveAll := λ v,
  Ret (mkEventReactionRemoveAll (u64_text (tra_channel_id v)) (u64_text (tra_message_id v))).

Record TwReactionRemoveEmoji := mkTwReactionRemoveEmoji { trm_channel_id : Z; trm_emoji : TwReactionType; trm_guild_id : Z; trm_message_id : Z }.
Record EventMessageReactionRemoveAllEmoji := mkEventReactionRemoveEmoji { ere_channel_id : string; ere_message_id : string; ere_emoji : ReactionType }.

#[global] Instance reaction_remove_emoji_of_tw : From TwReactionRemoveEmoji EventMessageReactionRemoveAllEmoji := λ v,
  do! emoji := from (trm_emoji v) in
  Ret (mkEventReactionRemoveEmoji (u64_text (trm_channel_id v)) (u64_text (trm_message_id v)) emoji).

Record TwMessageDelete := mkTwMessageDelete { tmd_channel_id : Z; tmd_guild_id : option Z; tmd_id : Z }.
Record EventMessageDelete := mkEventMessageDelete { emd_channel_id : string; emd_id : string }.

#[global] Instance message_delete_of_tw : From TwMessageDelete EventMessageDelete := λ v,
  Ret (mkEventMessageDelete (u64_text (tmd_channel_id v)) (u64_text (tmd_id v))).

Record TwThreadDelete := mkTwThreadDelete { ttd_guild_id : Z; ttd_id : Z; ttd_kind : TwChannelType; ttd_parent_id : Z }.
Record EventThreadDelete := mkEventThreadDelete { etd_guild_id : string; etd_id : string; etd_kind : ChannelType; etd_parent_id : string }.

#[global] Instance thread_delete_of_tw : From TwThreadDelete EventThreadDelete := λ td,
  do! kind := from (ttd_kind td) in
  Ret (mkEventThreadDelete (u64_text (ttd_guild_id td)) (u64_text (ttd_id td)) kind (u64_text (ttd_parent_id td))).

Record TwMessageUpdate := mkTwMessageUpdate {
  tmg_attachments : option (list TwAttachment);
  tmg_author : option TwUser;
  tmg_channel_id : Z;
  tmg_content : option string;
  tmg_edited_timestamp : option Z;
  tmg_embeds : option (list TwEmbed);
  tmg_guild_id : option Z;
  tmg_id : Z;
  tmg_kind : option TwMessageType;
  tmg_mention_everyone : option bool;
  tmg_mention_roles : option (list Z);
  tmg_mentions : option (list TwMention);
  tmg_pinned : option bool;
  tmg_timestamp : option Z;
  tmg_tts : option bool;
}.
Record EventMessageUpdate := mkEventMessageUpdate {
  emu_attachments : option (list Attachment);
  emu_author : option User;
  emu_channel_id : string;
  emu_content : option string;
  emu_edited_timestamp : option Z;
  emu_embeds : option (list Embed);
  emu_guild_id : option string;
  emu_id : string;
  emu_kind : option MessageType;
  emu_mention_everyone : option bool;
  emu_mention_roles : option (list string);
  emu_mentions : option (list UserMention);
  emu_pinned : option bool;
  emu_timestamp : option Z;
  emu_tts : option bool;
}.

#[global] Instance message_update_of_tw : From TwMessageUpdate EventMessageUpdate := λ v,
  do! attachments := from (tmg_attachments v) in
  do! author := from (tmg_author v) in
  do! embeds := from (tmg_embeds v) in
  do! kind := from (tmg_kind v) in
  do! mentions := from (tmg_mentions v) in
  Ret (mkEventMessageUpdate attachments author (u64_text (tmg_channel_id v)) (tmg_content v) (ts_millis <$> tmg_edited_timestamp v)
         embeds (u64_text <$> tmg_guild_id v) (u64_text (tmg_id v)) kind (tmg_mention_everyone v) (map u64_text <$> tmg_mention_roles v)
         mentions (tmg_pinned v) (ts_millis <$> tmg_timestamp v) (tmg_tts v)).

(** * What can be converted *)

Definition premium_type_known (v : TwPremiumType) : bool := match v with TptUnknown _ => false | _ => true end.
Definition user_known (v : TwUser) : bool := opt_all premium_type_known (tu_premium_type v).

#[global] Instance premium_type_converts : Converts TwPremiumType PremiumType premium_type_known.
Proof. by intros []. Qed.
#[global] Instance user_converts : Converts TwUser User user_known.
Proof. intros v. conv user_of_tw. by parts. Qed.
#[global] Instance current_user_converts : Converts TwCurrentUser User (λ v, opt_all premium_type_known (tcu_premium_type v)).
Proof. intros v. conv user_of_current. by parts. Qed.
#[global] Instance partial_member_converts : Converts TwPartialMember PartialMember (λ _, true).
Proof. by intros []. Qed.
#[global] Instance member_converts : Converts TwMember Member (λ v, user_known (tme_user v)).
Proof. intros v. conv member_of_tw. by parts. Qed.
#[global] Instance member_update_converts : Converts TwMemberUpdate Member (λ v, user_known (tmu_user v)).
Proof. intros v. conv member_of_update. by parts. Qed.
#[global] Instance role_tags_converts : Converts TwRoleTags RoleTags (λ _, true).
Proof. by intros []. Qed.
#[global] Instance role_converts : Converts TwRole Role (λ _, true).
Proof. intros v. conv role_of_tw. by parts. Qed.

(** A member of an interaction or event must come with its user. *)
Definition partial_known (v : TwPartialMember) : bool :=
  match tpm_user v with
  | Some u => user_known u
  | None => false
  end.
Lemma from_partial_converts v : is_ret (member_from_partial v) = partial_known v.
Proof. unfold member_from_partial, partial_known. destruct (tpm_user v); simpl; [by parts|done]. Qed.

(** ** Channels *)

Definition overwrites_known (v : TwChannelData) : bool :=
  forallb (λ o, overwrite_kind_known (ow_kind o)) (default [] (tc_permission_overwrites v)).
Definition guild_channel_known (v : TwChannelData) : bool :=
  match tc_kind v with
  | TwPrivate | TwGroup => false
  | TwGuildVoice | TwGuildStageVoice => overwrites_known v && opt_all video_quality_known (tc_video_quality_mode v)
  | TwAnnouncementThread | TwPublicThread | TwUnknownChannel _ => true
  | _ => overwrites_known v
  end.

#[global] Instance thread_metadata_converts : Converts TwThreadMetadata ThreadMetadata (λ _, true).
Proof. by intros []. Qed.
#[global] Instance self_thread_member_converts : Converts TwThreadMember SelfThreadMember (λ _, true).
Proof. by intros []. Qed.
#[global] Instance voice_channel_converts : Converts TwChannelData VoiceChannel
  (λ v, channel_type_known (tc_kind v) && (overwrites_known v && opt_all video_quality_known (tc_video_quality_mode v))).
Proof. intros v. conv voice_channel_of_tw. by parts. Qed.
#[global] Instance text_channel_converts : Converts TwChannelData TextChannel (λ v, channel_type_known (tc_kind v) && overwrites_known v).
Proof. intros v. conv text_channel_of_tw. by parts. Qed.
#[global] Instance category_channel_converts : Converts TwChannelData CategoryChannel
  (λ v, channel_type_known (tc_kind v) && overwrites_known v).
Proof. intros v. conv category_channel_of_tw. by parts. Qed.
#[global] Instance public_thread_converts : Converts TwChannelData PublicThread (λ v, channel_type_known (tc_kind v)).
Proof. intros v. conv public_thread_of_tw. by parts. Qed.
#[global] Instance news_thread_converts : Converts TwChannelData NewsThread (λ v, channel_type_known (tc_kind v)).
Proof. intros v. conv news_thread_of_tw. by parts. Qed.
#[global] Instance private_thread_converts : Converts TwChannelData PrivateThread
  (λ v, channel_type_known (tc_kind v) && overwrites_known v).
Proof. intros v. conv private_thread_of_tw. by parts. Qed.

#[global] Instance guild_channel_converts : Converts TwChannelData GuildChannel guild_channel_known.
Proof. intros v. conv guild_channel_of_tw. unfold guild_channel_known. destruct (tc_kind v) eqn:Hk; try done; parts; by rewrite ?Hk. Qed.

(** ** Messages and events *)

#[global] Instance user_mention_converts : Converts TwMention UserMention (λ _, true).
Proof. intros v. conv user_mention_of_tw. by parts. Qed.

Fixpoint message_known (v : TwMessage) : bool :=
  opt_all (λ a, activity_type_known (tma_kind a)) (tg_activity v) && user_known (tg_author v) &&
  forallb component_known (tg_components v) && message_type_known (tg_kind v) &&
  forallb (λ c, channel_type_known (tcm_kind c)) (tg_mention_channels v) &&
  match tg_referenced_message v with
  | Some m => message_known m
  | None => true
  end.

Section message_ind.
Context (P : TwMessage → Prop) (Hstep : ∀ v, (∀ m, tg_referenced_message v = Some m → P m) → P v).
Fixpoint message_ind (v : TwMessage) : P v.
Proof.
  apply Hstep. destruct v as [? ? ? ? ? ? ? ? ? ? ? ? ? ? ? ? ? ? ? ? ? [m|] ? ? ?]; simpl; intros m' Hm'; [|discriminate Hm'].
  injection Hm' as <-. apply message_ind.
Defined.
End message_ind.

Lemma message_of_tw_eq v : from v = message_of_tw_fix v.
Proof. done. Qed.

#[global] Instance message_converts : Converts TwMessage Message message_known.
Proof.
  intros v. induction v as [v IH] using message_ind. rewrite message_of_tw_eq.
  destruct v as [? ? ? ? ? ? ? ? ? ? ? ? ? ? ? ? ? ? ? ? ? [m|] ? ? ?]; cbn -[from]; simpl in IH.
  - specialize (IH m eq_refl). rewrite message_of_tw_eq in IH. etrans; [parts_step|]. simpl.
    rewrite ?opt_all_true, ?forallb_true, ?andb_true_r. by rewrite <- !andb_assoc.
  - parts. simpl. by rewrite <- !andb_assoc, ?andb_true_r.
Qed.

#[global] Instance member_remove_converts : Converts TwMemberRemove EventMemberRemove (λ v, user_known (tmv_user v)).
Proof. intros v. conv member_remove_of_tw. by parts. Qed.
#[global] Instance reaction_remove_all_converts : Converts TwReactionRemoveAll EventMessageReactionRemoveAll (λ _, true).
Proof. by intros []. Qed.
#[global] Instance reaction_remove_emoji_converts : Converts TwReactionRemoveEmoji EventMessageReactionRemoveAllEmoji (λ _, true).
Proof. intros v. conv reaction_remove_emoji_of_tw. by parts. Qed.
#[global] Instance message_delete_converts : Converts TwMessageDelete EventMessageDelete (λ _, true).
Proof. by intros []. Qed.
#[global] Instance thread_delete_converts : Converts TwThreadDelete EventThreadDelete (λ v, channel_type_known (ttd_kind v)).
Proof. intros v. conv thread_delete_of_tw. by parts. Qed.

Definition message_update_known (v : TwMessageUpdate) : bool :=
  opt_all user_known (tmg_author v) && opt_all message_type_known (tmg_kind v).
#[global] Instance message_update_converts : Converts TwMessageUpdate EventMessageUpdate message_update_known.
Proof. intros v. conv message_update_of_tw. parts. by rewrite !(opt_all_trivial _ _ forallb_true), andb_true_r. Qed.

(** * Guilds by way of the broker *)

(** The broker sends a cached guild as JSON, in which hashes and features are their texts, and
    the state client reads it as a [BrokerGuild]. *)
Definition broker_of_cached (v : CachedGuild) : BrokerGuild := {|
  gd_afk_channel_id := gd_afk_channel_id v;
  gd_afk_timeout := gd_afk_timeout v;
  gd_application_id := gd_application_id v;
  gd_banner := hash_to_string <$> gd_banner v;
  gd_default_message_notifications := gd_default_message_notifications v;
  gd_description := gd_description v;
  gd_discovery_splash := hash_to_string <$> gd_discovery_splash v;
  gd_explicit_content_filter := gd_explicit_content_filter v;
  gd_features := feature_text <$> gd_features v;
  gd_icon := hash_to_string <$> gd_icon v;
  gd_id := gd_id v;
  gd_joined_at := gd_joined_at v;
  gd_max_members := gd_max_members v;
  gd_max_presences := gd_max_presences v;
  gd_member_count := gd_member_count v;
  gd_mfa_level := gd_mfa_level v;
  gd_name := gd_name v;
  gd_nsfw_level := gd_nsfw_level v;
  gd_owner_id := gd_owner_id v;
  gd_preferred_locale := gd_preferred_locale v;
  gd_premium_subscription_count := gd_premium_subscription_count v;
  gd_premium_tier := gd_premium_tier v;
  gd_rules_channel_id := gd_rules_channel_id v;
  gd_splash := hash_to_string <$> gd_splash v;
  gd_system_channel_id := gd_system_channel_id v;
  gd_system_channel_flags := gd_system_channel_flags v;
  gd_vanity_url_code := gd_vanity_url_code v;
  gd_verification_level := gd_verification_level v;
  gd_widget_channel_id := gd_widget_channel_id v;
  gd_widget_enabled := gd_widget_enabled v;
|}.

(** The guild a script sees is the same from the cache and by way of the broker. *)
Theorem guild_by_broker_or_cache v : from (broker_of_cached v) = (from v : outcome Guild).
Proof. by destruct v. Qed.

(** * What a message keeps *)

(** The messages a message refers to, from the nearest. *)
Fixpoint tw_chain (v : TwMessage) : list TwMessage :=
  v :: match tg_referenced_message v with Some m => tw_chain m | None => [] end.
Fixpoint chain (v : Message) : list Message :=
  v :: match m_referenced_message v with Some m => chain m | None => [] end.

(** The identifiers a script reads are those of the message, and it can pass them on: they parse
    to what they were. *)
Record same_ids (v : TwMessage) (m : Message) : Prop := {
  si_id : parse_id (m_id m) = Some (tg_id v);
  si_channel : parse_id (m_channel_id m) = Some (tg_channel_id v);
  si_guild : m_guild_id m ≫= parse_id = tg_guild_id v;
  si_author : parse_id (u_id (m_author m)) = Some (tu_id (tg_author v));
  si_roles : omap parse_id (m_mention_roles m) = tg_mention_roles v;
}.

Record ids_ok (v : TwMessage) : Prop := {
  io_id : is_id (tg_id v);
  io_channel : is_id (tg_channel_id v);
  io_guild : on_some is_id (tg_guild_id v);
  io_author : is_id (tu_id (tg_author v));
  io_roles : Forall is_id (tg_mention_roles v);
}.

Lemma parse_ids l : Forall is_id l → omap parse_id (u64_text <$> l) = l.
Proof. induction 1 as [|n l Hn _ IH]; [done|]. csimpl. rewrite parse_id_text by done. csimpl. by rewrite IH. Qed.

Lemma user_id_text v u : from v = Ret u → u_id u = u64_text (tu_id v).
Proof. unfold from, user_of_tw. destruct (from (tu_premium_type v)); simpl; [|done]. by intros [= <-]. Qed.

(** The converted message has the fields that need no conversion, and its parts are converted. *)
Lemma message_of_tw_inv v m : message_of_tw_fix v = Ret m →
  from (tg_author v) = Ret (m_author m) ∧ m_id m = u64_text (tg_id v) ∧ m_channel_id m = u64_text (tg_channel_id v) ∧
  m_guild_id m = u64_text <$> tg_guild_id v ∧ m_mention_roles m = u64_text <$> tg_mention_roles v ∧ m_content m = tg_content v ∧
  from (tg_components v) = Ret (m_components m) ∧ from (tg_embeds v) = Ret (m_embeds m) ∧
  match tg_referenced_message v with
  | Some r => ∃ r', message_of_tw_fix r = Ret r' ∧ m_referenced_message m = Some r'
  | None => m_referenced_message m = None
  end.
Proof.
  destruct v as [? ? ? ? ? ? ? ? ? ? ? ? ? ? ? ? ? ? ? ? ? r ? ? ?]; cbn -[from]. intros Hm.
  repeat match type of Hm with
  | (do! _ := ?o in _) = Ret _ => let x := fresh "x" in let E := fresh "E" in destruct o as [x|] eqn:E; cbn -[from] in Hm; [|discriminate Hm]
  end.
  injection Hm as <-. cbn -[from]. repeat split; try done. destruct r as [r|]; [|by simplify_eq].
  destruct (message_of_tw_fix r) as [r'|]; simpl in *; [|done]. simplify_eq. eauto.
Qed.

Lemma same_ids_of v m : ids_ok v → message_of_tw_fix v = Ret m → same_ids v m.
Proof.
  intros [Hid Hch Hg Ha Hr] (Hau & E1 & E2 & E3 & E4 & _)%message_of_tw_inv. split.
  - by rewrite E1, parse_id_text.
  - by rewrite E2, parse_id_text.
  - rewrite E3. destruct (tg_guild_id v) as [g|] eqn:Eg; [|done]. simpl. apply parse_id_text. by apply Hg.
  - by rewrite (user_id_text _ _ Hau), parse_id_text.
  - by rewrite E4, parse_ids.
Qed.

(** A script reads of a message and of every message it refers to, however far, the identifiers
    Discord sent; each parses to the identifier it was written from, so that a script which hands
    it to an operation names the same message, channel, guild, user or role. *)
Theorem message_ids_kept v m : Forall ids_ok (tw_chain v) → from v = Ret m → Forall2 same_ids (tw_chain v) (chain m).
Proof.
  revert m. induction v as [v IH] using message_ind. intros m Hok Hm. rewrite message_of_tw_eq in Hm.
  assert (tw_chain v = v :: match tg_referenced_message v with Some r => tw_chain r | None => [] end) as Ev by by destruct v.
  assert (chain m = m :: match m_referenced_message m with Some r => chain r | None => [] end) as Em by by destruct m.
  rewrite Ev in *. rewrite Em. apply Forall_cons in Hok as [Hv Hrest]. constructor; [by apply same_ids_of|].
  apply message_of_tw_inv in Hm as (_ & _ & _ & _ & _ & _ & _ & _ & Hr). destruct (tg_referenced_message v) as [r|].
  - destruct Hr as (r' & Hr' & ->). by apply (IH r).
  - by rewrite Hr.
Qed.
End entities.

(** ** Example *)

Definition ex_hashes : ImageHashes := {| ImageHash := string; hash_to_string h := h; hash_from_str s := Some s |}.
Definition ex_text : TwilightText := {| discriminator_text := u64_text; GuildFeature := string; feature_text f := f |}.
Definition ex_timestamps : Timestamps := {| ts_in_range _ := true |}.
#[local] Existing Instances ex_hashes ex_text ex_timestamps.

Definition ex_user : TwUser := mkTwUser None false 1 5 None "ann" None None None.
Definition ex_tw_message (kind : TwMessageType) (reply_to : option TwMessage) : TwMessage :=
  mkTwMessage None None [] ex_user 8 "hello" [] None [] None (Some 7) 9 kind None [] false [30] [] false [] None reply_to 0 false None.

Lemma message_ids_kept_witness :
  ∃ m, from (ex_tw_message TmtReply (Some (ex_tw_message TmtRegular None))) = Ret m ∧
    Forall2 same_ids (tw_chain (ex_tw_message TmtReply (Some (ex_tw_message TmtRegular None)))) (chain m) ∧ length (chain m) = 2%nat.
Proof.
  destruct (from (ex_tw_message TmtReply (Some (ex_tw_message TmtRegular None)))) as [m|] eqn:Hm; [|discriminate Hm]. exists m.
  split; [reflexivity|]. split; [|vm_compute in Hm; injection Hm as <-; reflexivity].
  apply (message_ids_kept (ex_tw_message TmtReply (Some (ex_tw_message TmtRegular None))) m); [|exact Hm].
  assert (∀ k r, ids_ok (ex_tw_message k r)) as Hok.
  { intros k r. split; simpl; [by vm_compute..|intros g [= <-]; by vm_compute|by vm_compute|by repeat constructor]. }
  apply Forall_cons. split; [apply Hok|]. apply Forall_cons. split; [apply Hok|constructor].
Defined.
