(* ===== verification/World.v ===== *)
(** The environment of the code that runs per guild (timer managers, vm session, guild
    handler): the answers it can get ([Resp]) and the calls it makes ([Ev]).

    The stores are the trait objects [ConfigStore] and [TimerStore]
    ([components/stores/src/config.rs], [timers.rs]); an error result is [None]. The worker's
    channels, the worker pool, the logger and the command manager are reached through the
    calls below. Chrono's date range and the cron parser are interfaces ([Calendar]). *)
From stdpp Require Import base gmap list strings.
From S2P Require Import Prelude Models WorkerPool Commands.

(** * Third-party calendars

    [chrono::DateTime<Utc>] covers [dt_min .. dt_max] and panics outside; [cron::Schedule] is
    parsed from a string and enumerates the times after a given one. *)
Class Calendar := {
  dt_min : Z;
  dt_max : Z;
  Schedule : Type;
  cron_parse : string → option Schedule;
  cron_next : Schedule → Z → option Z;
}.

(** Documented behaviour of [Schedule::after]: strictly later times. *)
Class CalendarLaws (C : Calendar) : Prop := {
  cron_next_later : ∀ (s : Schedule) t t', cron_next s t = Some t' → t < t';
}.

(** [DateTime + Duration] *)
Definition dt_add `{Calendar} (t d : Z) : outcome Z :=
  if (dt_min <=? t + d) && (t + d <=? dt_max) then Ret (t + d) else Panic.

Definition nanos_per_minute : Z := 60 * nanos_per_sec.
Definition nanos_per_hour : Z := 3600 * nanos_per_sec.

(** [chrono::Duration::minutes]: durations are limited to [i64::MAX] milliseconds. *)
Definition duration_minutes (n : Z) : outcome Z :=
  if Z.abs (n * 60000) <=? i64_max then Ret (n * nanos_per_minute) else Panic.

(** * Answers and calls *)

Inductive NextAction :=
| AWorkerMessage (m : option WorkerMessage)
| ACheckScheduledTasks
| ACheckIntervalTimers.

Inductive GuildEventKind := GuildCreate | GuildDelete | OtherDispatch.

(** [GuildEvent]: what the dispatched event converts to is computed by
    [discord_event_to_dispatch] when the event is handled, and the conversion may panic; the
    event carries that outcome ([Dispatch] computes it). *)
Record GuildEvent := mkGuildEvent {
  ge_guild_id : Z;
  ge_t : string;
  ge_kind : GuildEventKind;
  ge_dispatch : outcome (option (string * JsonValue));
}.

Inductive GuildCommand :=
| BrokerEvent (e : GuildEvent)
| ReloadScripts
| PurgeCache
| GcShutdown.

Inductive Resp :=
| RNow (t : Z)
| RListScripts (r : option (list Script))
| RPremiumSlots (r : option (list PremiumSlot))
| RAllTimers (r : option (list IntervalTimer))
| RTimerUpdated (r : option IntervalTimer)
| RNextTaskTime (r : option (option Z))
| RTriggeredTasks (r : option (list ScheduledTask))
| RTaskDeleted (ok : bool)
| RContribsUpdated (ok : bool)
| RSent (ok : bool)
| RWorker (w : WorkerHandle) (wr : WorkerRetrieved)
| RTryRecv (m : option WorkerMessage)
| RAction (a : NextAction)
| RGuildCommand (c : option GuildCommand).

Inductive Ev :=
| EListScripts
| EPremiumSlots
| EAllTimers
| EUpdateTimer (t : IntervalTimer)
| ENextTaskTime (ignore : list Z) (names : list string)
| ETriggeredTasks (t : Z) (ignore : list Z) (names : list string)
| EDeleteTask (id : Z)
| EUpdateContribs (script_id : Z) (c : ScriptContributes)
| ESend (worker : Z) (m : SchedulerMessage)
| EReqWorker (tier : option PremiumSlotTier)
| EGotWorker (w : WorkerHandle)
| EReturnWorker (w : WorkerHandle) (broken : bool)
| ELog (e : LogEntry)
| ELoadedScript (s : LoadedScript)
| EAckResponse (tx : nat)
| EMetric (name : string) (m : MetricEvent) (labels : list (string * string))
| ESleep (nanos : Z)
| ESchedulerEvent (too_many_invalid_requests : bool).

Notation io := (async Resp Ev).

Definition ask_now : io Z := await (λ r, match r with RNow t => Some t | _ => None end).

Definition list_scripts : io (option (list Script)) :=
  emit EListScripts ;;; await (λ r, match r with RListScripts x => Some x | _ => None end).
Definition get_guild_premium_slots : io (option (list PremiumSlot)) :=
  emit EPremiumSlots ;;; await (λ r, match r with RPremiumSlots x => Some x | _ => None end).
Definition get_all_interval_timers : io (option (list IntervalTimer)) :=
  emit EAllTimers ;;; await (λ r, match r with RAllTimers x => Some x | _ => None end).
Definition update_interval_timer (t : IntervalTimer) : io (option IntervalTimer) :=
  emit (EUpdateTimer t) ;;; await (λ r, match r with RTimerUpdated x => Some x | _ => None end).
Definition get_next_task_time (ignore : list Z) (names : list string) : io (option (option Z)) :=
  emit (ENextTaskTime ignore names) ;;;
  await (λ r, match r with RNextTaskTime x => Some x | _ => None end).
Definition get_triggered_tasks (t : Z) (ignore : list Z) (names : list string)
    : io (option (list ScheduledTask)) :=
  emit (ETriggeredTasks t ignore names) ;;;
  await (λ r, match r with RTriggeredTasks x => Some x | _ => None end).
Definition del_task_by_id (id : Z) : io bool :=
  emit (EDeleteTask id) ;;; await (λ r, match r with RTaskDeleted x => Some x | _ => None end).
Definition update_script_contributes (id : Z) (c : ScriptContributes) : io bool :=
  emit (EUpdateContribs id c) ;;;
  await (λ r, match r with RContribsUpdated x => Some x | _ => None end).

(** [worker.tx.send(m)]: [false] when the worker's receiving side is gone. *)
Definition send_worker (w : WorkerHandle) (m : SchedulerMessage) : io bool :=
  emit (ESend (worker_id w) m) ;;; await (λ r, match r with RSent b => Some b | _ => None end).
(** The request, and the worker's arrival, which transfers it to the session. *)
Definition pool_req_worker (tier : option PremiumSlotTier) : io (WorkerHandle * WorkerRetrieved) :=
  let! _ := emit (EReqWorker tier) in
  let! (w, wr) := await (λ r, match r with RWorker w wr => Some (w, wr) | _ => None end) in
  let! _ := emit (EGotWorker w) in
  aret (w, wr).
Definition pool_return_worker (w : WorkerHandle) (broken : bool) : io unit :=
  emit (EReturnWorker w broken).
(** [worker.rx.try_recv()]: [None] when nothing more is queued. *)
Definition try_recv : io (option WorkerMessage) :=
  await (λ r, match r with RTryRecv m => Some m | _ => None end).
Definition sleep (nanos : Z) : io unit := emit (ESleep nanos).
