(* ===== verification/IntervalTimers.v ===== *)
(** Interval timers of a guild ([cmd/scheduler/src/interval_timer_manager.rs]).

    [Timers] is the state of [Manager]: the timers of the loaded scripts by name, and the
    names of the timers that were dispatched and not acknowledged yet. *)
From stdpp Require Import base gmap list strings sets.
From S2P Require Import Prelude Models WorkerPool Commands World.

(** [guild_handler::NextTimerAction] *)
Inductive NextTimerAction :=
| TNone
| TWait (until : Z)
| TRun.

Section timers.
Context `{Calendar} `{!HashOrder string}.

Inductive ParsedIntervalType :=
| PMinutes (m : Z)
| PCron (src : string) (s : Schedule).

Record WrappedIntervalTimer := mkWrapped {
  wt_inner : IntervalTimer;
  wt_parsed_type : ParsedIntervalType;
  wt_next_run : Z;
}.

Record Timers := mkTimers {
  loaded_intervals : gmap string WrappedIntervalTimer;
  t_pending : list string;
}.

Definition timers_new : Timers := mkTimers ∅ [].

Definition next_run_time (p : ParsedIntervalType) (t : Z) : outcome (option Z) :=
  match p with
  | PCron _ c => Ret (cron_next c t)
  | PMinutes minutes =>
      do! d := duration_minutes (u64_as_i64 minutes) in
      do! next := dt_add t d in
      Ret (Some next)
  end.

Inductive TimerError := CronError | NoNextTime.

Definition parse_interval (i : IntervalType) : result TimerError ParsedIntervalType :=
  match i with
  | Minutes mins => Ok (PMinutes mins)
  | Cron c =>
      match cron_parse (String.append "0 " c) with
      | Some parsed => Ok (PCron c parsed)
      | None => Err CronError
      end
  end.

Definition wrap_timer (timer : IntervalTimer) : outcome (result TimerError WrappedIntervalTimer) :=
  match parse_interval (it_interval timer) with
  | Err e => Ret (Err e)
  | Ok interval_type =>
      do! next := next_run_time interval_type (it_last_run timer) in
      match next with
      | Some next => Ret (Ok (mkWrapped timer interval_type next))
      | None => Ret (Err NoNextTime)
      end
  end.

Definition is_triggered (w : WrappedIntervalTimer) (t : Z) : bool := bool_decide (wt_next_run w < t).

Definition not_pending (m : Timers) (kv : string * WrappedIntervalTimer) : bool :=
  negb (bool_decide (kv.1 ∈ t_pending m)).

(** [min_by] on [next_run]: the first minimum. *)
Fixpoint min_next_run (l : list (string * WrappedIntervalTimer)) : option Z :=
  match l with
  | [] => None
  | (_, w) :: l' =>
      match min_next_run l' with
      | None => Some (wt_next_run w)
      | Some n => Some (if bool_decide (n < wt_next_run w) then n else wt_next_run w)
      end
  end.

Definition next_event_time (m : Timers) : option Z :=
  min_next_run (List.filter (not_pending m) (hiter (loaded_intervals m))).

Definition timers_next_action (now : Z) (m : Timers) : NextTimerAction :=
  match next_event_time m with
  | None => TNone
  | Some next_time => if bool_decide (next_time < now) then TRun else TWait next_time
  end.

Definition get_triggered_timers (m : Timers) (now : Z) : list WrappedIntervalTimer :=
  (List.filter (λ kv, is_triggered kv.2 now)
     (List.filter (not_pending m) (hiter (loaded_intervals m)))).*2.

(** The part of [trigger_timers] after the clock was read. *)
Definition trigger_at (now : Z) (m : Timers) : Timers * list IntervalTimer :=
  match next_event_time m with
  | None => (m, [])
  | Some next_time =>
      if bool_decide (next_time < now) then
        let triggered := get_triggered_timers m now in
        (mkTimers (loaded_intervals m) (t_pending m ++ ((λ w, it_name (wt_inner w)) <$> triggered)),
         wt_inner <$> triggered)
      else (m, [])
  end.

Definition trigger_timers (m : Timers) : io (Timers * list IntervalTimer) :=
  match next_event_time m with
  | None => aret (m, [])
  | Some _ => let! now := ask_now in aret (trigger_at now m)
  end.

Definition set_last_run (w : WrappedIntervalTimer) (t next : Z) : WrappedIntervalTimer :=
  mkWrapped (mkIntervalTimer (it_name (wt_inner w)) (it_interval (wt_inner w)) t)
    (wt_parsed_type w) next.

Definition update_next_run (t : Z) (name : string) (m : Timers) : io Timers :=
  match loaded_intervals m !! name with
  | None => aret m
  | Some timer =>
      let! next := lift (next_run_time (wt_parsed_type timer) t) in
      let! next_run :=
        match next with
        | Some next => aret next
        | None => lift (dt_add t (1000 * nanos_per_hour))
        end in
      let timer := set_last_run timer t next_run in
      let m := mkTimers (<[name := timer]> (loaded_intervals m)) (t_pending m) in
      let! _ := update_interval_timer (wt_inner timer) in
      aret m
  end.

Definition timer_ack (timer : string) (m : Timers) : io Timers :=
  match find_index (λ v, bool_decide (v = timer)) (t_pending m) with
  | Some index =>
      let! (_, pending) := lift (unwrap (vec_swap_remove index (t_pending m))) in
      let! now := ask_now in
      update_next_run now timer (mkTimers (loaded_intervals m) pending)
  | None => aret m
  end.

(** [init_timer]: [false] is the error that [script_started] unwraps. *)
Definition init_timer (script_timer : IntervalTimerContrib) (db_timer : option IntervalTimer)
    (m : Timers) : io (bool * Timers) :=
  let! last_run := match db_timer with
                   | Some v => aret (it_last_run v)
                   | None => ask_now
                   end in
  let! r := update_interval_timer
              (mkIntervalTimer (itc_name script_timer) (itc_interval script_timer) last_run) in
  match r with
  | None => aret (false, m)
  | Some timer =>
      let! w := lift (wrap_timer timer) in
      match w with
      | Ok wrapped =>
          aret (true, mkTimers (<[it_name (wt_inner wrapped) := wrapped]> (loaded_intervals m)) (t_pending m))
      | Err _ => aret (true, m)
      end
  end.

Definition timers_script_started (timers : list IntervalTimerContrib) (m : Timers) : io Timers :=
  match timers with
  | [] => aret m
  | _ =>
      let! r := get_all_interval_timers in
      let! all_guild_timers := lift (unwrap r) in
      afold (λ m script_timer,
        let db_timer := find_first (λ v, bool_decide (it_name v = itc_name script_timer)) all_guild_timers in
        let! (ok, m) := init_timer script_timer db_timer m in
        if ok then aret m else apanic) timers m
  end.

Definition clear_loaded_timers (m : Timers) : Timers := mkTimers ∅ (t_pending m).
Definition clear_pending_acks (m : Timers) : Timers := mkTimers (loaded_intervals m) [].

(** * Facts *)

(** A timer that may run: loaded, and not waiting for an acknowledgement. *)
Definition idle_timer (m : Timers) (name : string) (w : WrappedIntervalTimer) : Prop :=
  loaded_intervals m !! name = Some w ∧ name ∉ t_pending m.

(** Timers are stored under their name; each pending name is loaded and pending once. *)
Record timers_ok (m : Timers) : Prop := {
  tok_names : ∀ n w, loaded_intervals m !! n = Some w → it_name (wt_inner w) = n;
  tok_nodup : NoDup (t_pending m);
  tok_loaded : ∀ n, n ∈ t_pending m → is_Some (loaded_intervals m !! n);
}.

Lemma elem_of_idle m name w :
  (name, w) ∈ List.filter (not_pending m) (hiter (loaded_intervals m)) ↔ idle_timer m name w.
Proof.
  rewrite list_elem_of_In, filter_In, <- list_elem_of_In, elem_of_hiter.
  unfold not_pending, idle_timer. simpl. rewrite negb_true_iff, bool_decide_eq_false. done.
Qed.

Lemma min_next_run_spec l :
  match min_next_run l with
  | None => l = []
  | Some n => (∃ k w, (k, w) ∈ l ∧ wt_next_run w = n) ∧ ∀ k w, (k, w) ∈ l → n ≤ wt_next_run w
  end.
Proof.
  induction l as [|[k w] l IH]; simpl; [done|]. destruct (min_next_run l) as [n|].
  - destruct IH as [(k' & w' & Hin & <-) Hmin]. case_bool_decide as Hlt; split.
    + exists k', w'. by split; [right|].
    + intros k0 w0 [Heq|Hin0]%elem_of_cons; [simplify_eq; lia|eauto].
    + exists k, w. by split; [left|].
    + intros k0 w0 [Heq|Hin0]%elem_of_cons; [simplify_eq; lia|]. specialize (Hmin _ _ Hin0). lia.
  - subst l. split; [exists k, w; by split; [left|]|].
    intros k0 w0 [Heq|Hin0]%elem_of_cons; [simplify_eq; lia|]. by apply elem_of_nil in Hin0.
Qed.

Lemma next_event_time_spec m :
  match next_event_time m with
  | None => ∀ name w, ¬ idle_timer m name w
  | Some n => (∃ name w, idle_timer m name w ∧ wt_next_run w = n) ∧
      ∀ name w, idle_timer m name w → n ≤ wt_next_run w
  end.
Proof.
  unfold next_event_time.
  pose proof (min_next_run_spec (List.filter (not_pending m) (hiter (loaded_intervals m)))) as Hs.
  destruct (min_next_run _) as [n|].
  - setoid_rewrite elem_of_idle in Hs. exact Hs.
  - intros name w Hi%elem_of_idle. rewrite Hs in Hi. by apply elem_of_nil in Hi.
Qed.

Lemma next_event_time_empty m : loaded_intervals m = ∅ → next_event_time m = None.
Proof.
  intros Hm. unfold next_event_time. rewrite Hm. pose proof (hiter_perm (∅ : gmap string WrappedIntervalTimer)) as Hp.
  rewrite map_to_list_empty in Hp. by apply Permutation_nil_r in Hp as ->.
Qed.

Lemma elem_of_triggered m now w :
  w ∈ get_triggered_timers m now ↔ ∃ name, idle_timer m name w ∧ wt_next_run w < now.
Proof.
  unfold get_triggered_timers. rewrite list_elem_of_fmap. split.
  - intros ([name w'] & -> & Hin). exists name.
    rewrite list_elem_of_In, filter_In, <- list_elem_of_In, elem_of_idle in Hin.
    destruct Hin as [? Ht]. unfold is_triggered in Ht. simpl in Ht. apply bool_decide_eq_true_1 in Ht. done.
  - intros (name & Hi & Ht). exists (name, w). split; [done|].
    rewrite list_elem_of_In, filter_In, <- list_elem_of_In, elem_of_idle. split; [done|].
    unfold is_triggered. simpl. by apply bool_decide_eq_true_2.
Qed.

Lemma NoDup_filter_fst {A B} (p : A * B → bool) (l : list (A * B)) :
  NoDup l.*1 → NoDup (List.filter p l).*1.
Proof.
  induction l as [|x l IH]; simpl; [done|]. rewrite NoDup_cons. intros [Hn Hnd].
  destruct (p x); [|auto]. rewrite fmap_cons, NoDup_cons. split; [|auto].
  intros Hin. apply Hn. apply list_elem_of_fmap in Hin as (y & -> & Hy).
  apply list_elem_of_In, filter_In in Hy as [Hy _]. apply list_elem_of_fmap.
  exists y. split; [done|]. by apply list_elem_of_In.
Qed.

Lemma triggered_names m now :
  timers_ok m → NoDup ((λ w, it_name (wt_inner w)) <$> get_triggered_timers m now).
Proof.
  intros Hok. unfold get_triggered_timers.
  set (l := List.filter (λ kv, is_triggered kv.2 now) (List.filter (not_pending m) (hiter (loaded_intervals m)))).
  assert ((λ w, it_name (wt_inner w)) <$> l.*2 = l.*1) as ->.
  { rewrite <- list_fmap_compose. apply list_fmap_ext. intros i [n w] Hi. simpl.
    assert ((n, w) ∈ l) as Hin by by eapply list_elem_of_lookup_2. unfold l in Hin.
    rewrite list_elem_of_In, filter_In, <- list_elem_of_In, elem_of_idle in Hin.
    destruct Hin as [[Hl _] _]. by apply (tok_names _ Hok). }
  by apply NoDup_filter_fst, NoDup_filter_fst, NoDup_hiter.
Qed.

Lemma trigger_at_ok now m : timers_ok m → timers_ok (trigger_at now m).1.
Proof.
  intros Hok. unfold trigger_at. destruct (next_event_time m) as [n|]; [|done].
  case_bool_decide; [|done]. simpl. split; simpl; [apply Hok| |].
  - apply NoDup_app. split_and!; [apply Hok| |by apply triggered_names].
    intros x Hx (w & -> & (name & [Hl Hn] & _)%elem_of_triggered)%list_elem_of_fmap.
    apply (tok_names _ Hok) in Hl as Hname. by rewrite Hname in Hx.
  - intros x [Hx|(w & -> & (name & [Hl Hn] & _)%elem_of_triggered)%list_elem_of_fmap]%elem_of_app;
      [by apply Hok|]. rewrite (tok_names _ Hok _ _ Hl). by exists w.
Qed.

(** The triggered timers, whatever the order the map iterates in. *)
Lemma trigger_timers_ok m : timers_ok m → wp True (trigger_timers m) (λ r _, timers_ok r.1).
Proof.
  intros Hm. unfold trigger_timers. destruct (next_event_time m); [|by apply wp_ret].
  apply wp_bind, wp_await. intros _ now _. by apply wp_ret, trigger_at_ok.
Qed.

Lemma trigger_at_spec now m t :
  t ∈ (trigger_at now m).2 ↔ ∃ name w, idle_timer m name w ∧ wt_next_run w < now ∧ t = wt_inner w.
Proof.
  pose proof (next_event_time_spec m) as Hn. unfold trigger_at.
  destruct (next_event_time m) as [n|].
  - destruct Hn as [_ Hmin]. case_bool_decide as Hlt; simpl.
    + rewrite list_elem_of_fmap. setoid_rewrite elem_of_triggered. naive_solver.
    + rewrite elem_of_nil. split; [done|]. intros (name & w & Hi & Ht & _).
      specialize (Hmin _ _ Hi). lia.
  - simpl. rewrite elem_of_nil. split; [done|]. intros (name & w & Hi & _). by eapply Hn.
Qed.

Lemma swap_remove_pending m i x pending :
  vec_swap_remove i (t_pending m) = Some (x, pending) → timers_ok m →
  timers_ok (mkTimers (loaded_intervals m) pending) ∧ x ∉ pending ∧ t_pending m ≡ₚ x :: pending.
Proof.
  intros [_ Hp]%vec_swap_remove_Some [Hn Hnd Hl].
  rewrite Hp, NoDup_cons in Hnd. destruct Hnd. split_and!; [|done..].
  split; simpl; [done|done|]. intros n Hin. apply Hl. rewrite Hp. by right.
Qed.

Lemma set_timer_ok m name w w' :
  timers_ok m → loaded_intervals m !! name = Some w → it_name (wt_inner w') = name →
  timers_ok (mkTimers (<[name := w']> (loaded_intervals m)) (t_pending m)).
Proof.
  intros [Hn Hnd Hl] Hw Hname. split; simpl; [|done|].
  - intros n v. rewrite lookup_insert. case_decide; naive_solver.
  - intros n Hin. rewrite lookup_insert. case_decide; eauto.
Qed.

Lemma update_next_run_spec t name m :
  timers_ok m →
  wp True (update_next_run t name m) (λ m' _, timers_ok m' ∧ t_pending m' = t_pending m ∧
    ∀ w, loaded_intervals m !! name = Some w →
      ∃ w', loaded_intervals m' !! name = Some w' ∧ it_last_run (wt_inner w') = t ∧
        wt_parsed_type w' = wt_parsed_type w ∧
        (next_run_time (wt_parsed_type w) t = Ret (Some (wt_next_run w')) ∨
         next_run_time (wt_parsed_type w) t = Ret None ∧ wt_next_run w' = t + 1000 * nanos_per_hour)).
Proof.
  intros Hok. unfold update_next_run. destruct (loaded_intervals m !! name) as [w|] eqn:Hw.
  2: { apply wp_ret. split_and!; [done..|]. by rewrite Hw. }
  apply wp_bind, wp_lift. destruct (next_run_time _ t) as [next|] eqn:Hnext; [|done].
  assert (∀ next_run, (next = Some next_run ∨ next = None ∧ next_run = t + 1000 * nanos_per_hour) →
    wp True (let! _ := update_interval_timer (wt_inner (set_last_run w t next_run)) in
             aret (mkTimers (<[name := set_last_run w t next_run]> (loaded_intervals m)) (t_pending m)))
      (λ m' _, timers_ok m' ∧ t_pending m' = t_pending m ∧
        ∀ w0, Some w = Some w0 →
        ∃ w', loaded_intervals m' !! name = Some w' ∧ it_last_run (wt_inner w') = t ∧
        wt_parsed_type w' = wt_parsed_type w0 ∧
        (next_run_time (wt_parsed_type w0) t = Ret (Some (wt_next_run w')) ∨
         next_run_time (wt_parsed_type w0) t = Ret None ∧ wt_next_run w' = t + 1000 * nanos_per_hour))) as Hrest.
  { intros next_run Hcase. apply wp_bind. unfold update_interval_timer.
    apply wp_bind, wp_emit, wp_await. intros _ _ _. apply wp_ret.
    split_and!; [|done|].
    - eapply set_timer_ok; [done..|]. simpl. by apply (tok_names _ Hok).
    - intros w0 [= <-]. exists (set_last_run w t next_run). simpl. rewrite lookup_insert_eq.
      split_and!; [done..|]. rewrite Hnext. destruct Hcase as [->|[-> ->]]; auto. }
  destruct next as [n|]; apply wp_bind.
  - apply wp_ret. eapply wp_mono; [apply (Hrest n); by left|done|by intros].
  - apply wp_lift. destruct (dt_add _ _) as [n|] eqn:Hadd; [|done].
    assert (n = t + 1000 * nanos_per_hour) as ->.
    { unfold dt_add in Hadd. destruct (_ && _); by simplify_eq. }
    eapply wp_mono; [apply (Hrest _); by right|done|by intros].
Qed.

Lemma timer_ack_ok name m :
  timers_ok m → wp True (timer_ack name m) (λ m' _, timers_ok m').
Proof.
  intros Hok. unfold timer_ack. destruct (find_index _ _) as [i|] eqn:Hi; [|by apply wp_ret].
  apply wp_bind, wp_lift. destruct (vec_swap_remove i (t_pending m)) as [[x pending]|] eqn:Hv; [|done].
  destruct (swap_remove_pending _ _ _ _ Hv Hok) as (Hok' & _).
  apply wp_bind, wp_await. intros r t _.
  eapply wp_mono; [by apply update_next_run_spec|done|]. by intros m' tr (? & _).
Qed.

Lemma wrap_timer_inner timer w : wrap_timer timer = Ret (Ok w) → wt_inner w = timer.
Proof.
  unfold wrap_timer. destruct (parse_interval _); [|done].
  destruct (next_run_time _ _) as [[]|]; simpl; intros; by simplify_eq.
Qed.

Lemma init_timer_ok c db m :
  timers_ok m → wp True (init_timer c db m) (λ r _, timers_ok r.2).
Proof.
  intros Hok. unfold init_timer. apply wp_bind.
  assert (∀ Q, (∀ t, Q t []) → wp True
    (match db with Some v => aret (it_last_run v) | None => ask_now end) Q) as Hlast.
  { intros Q HQ. destruct db; [by apply wp_ret|]. apply wp_await. intros; apply HQ. }
  apply Hlast. intros t. apply wp_bind. unfold update_interval_timer.
  apply wp_bind, wp_emit, wp_await. intros _ [timer|] _; [|by apply wp_ret].
  apply wp_bind, wp_lift. destruct (wrap_timer timer) as [[w|e]|]; [| |done]; apply wp_ret; [|done].
  destruct Hok as [Hn Hnd Hl]. split; simpl; [|done|].
  - intros n v. rewrite lookup_insert. case_decide; naive_solver.
  - intros n Hin. rewrite lookup_insert. case_decide; eauto.
Qed.

Lemma timers_script_started_ok ts m :
  timers_ok m → wp True (timers_script_started ts m) (λ m' _, timers_ok m').
Proof.
  intros Hok. unfold timers_script_started. destruct ts as [|t ts]; [by apply wp_ret|].
  apply wp_bind. unfold get_all_interval_timers. apply wp_bind, wp_emit, wp_await.
  intros _ r _. apply wp_bind, wp_lift. destruct r as [all|]; [|done].
  eapply (wp_afold _ _ (λ _ m _, timers_ok m)); [done| |by intros].
  intros c l' s tr Hs. apply wp_bind. eapply wp_mono; [by apply init_timer_ok|done|].
  intros [[] m'] tr' Hm'; [by apply wp_ret|by apply wp_panic].
Qed.

(** * Properties *)

(** A trigger returns exactly the loaded timers whose next run has passed and that are
    not waiting for an acknowledgement, each once, and marks them pending; it touches nothing
    else and keeps the manager's invariant. *)
Theorem trigger_timers_exact m now tape :
  timers_ok m →
  ∃ m' ts tape', trigger_timers m (RNow now :: tape) = Done (m', ts) tape' [] ∧
    (∀ t, t ∈ ts ↔ ∃ name w, idle_timer m name w ∧ wt_next_run w < now ∧ t = wt_inner w) ∧
    NoDup (it_name <$> ts) ∧
    t_pending m' = t_pending m ++ (it_name <$> ts) ∧ loaded_intervals m' = loaded_intervals m ∧
    timers_ok m'.
Proof.
  intros Hok.
  assert (∃ tape', trigger_timers m (RNow now :: tape) = Done (trigger_at now m) tape' []) as [tape' Hrun].
  { unfold trigger_timers, trigger_at. destruct (next_event_time m); by eexists. }
  exists (trigger_at now m).1, (trigger_at now m).2, tape'. split_and!.
  - rewrite Hrun. by destruct (trigger_at now m).
  - apply trigger_at_spec.
  - unfold trigger_at. destruct (next_event_time m); [|apply NoDup_nil_2].
    case_bool_decide; [|apply NoDup_nil_2]. simpl. rewrite <- list_fmap_compose. by apply triggered_names.
  - unfold trigger_at. destruct (next_event_time m); [case_bool_decide|]; simpl; rewrite ?app_nil_r; try done.
    by rewrite <- list_fmap_compose.
  - unfold trigger_at. destruct (next_event_time m); [by case_bool_decide|done].
  - by apply trigger_at_ok.
Qed.

(** The manager asks to run exactly when some timer is due, a trigger at that or a later
    time then returns at least one timer, and otherwise it sleeps until the earliest next
    run: no due timer is missed and no wake-up is in vain. *)
Theorem next_action_iff_due m now :
  (timers_next_action now m = TRun ↔ ∃ name w, idle_timer m name w ∧ wt_next_run w < now) ∧
  (timers_next_action now m = TRun → ∀ now', now ≤ now' → (trigger_at now' m).2 ≠ []) ∧
  (∀ t, timers_next_action now m = TWait t → now ≤ t ∧
     (∃ name w, idle_timer m name w ∧ wt_next_run w = t) ∧
     ∀ name w, idle_timer m name w → t ≤ wt_next_run w).
Proof.
  pose proof (next_event_time_spec m) as Hs.
  assert (timers_next_action now m = TRun ↔ ∃ name w, idle_timer m name w ∧ wt_next_run w < now) as Hrun.
  { unfold timers_next_action. destruct (next_event_time m) as [n|].
    - destruct Hs as [(name & w & Hi & Hw) Hmin]. case_bool_decide as Hlt.
      + split; [|done]. intros _. exists name, w. split; [done|lia].
      + split; [done|]. intros (name' & w' & Hi' & Hlt'). specialize (Hmin _ _ Hi'). lia.
    - split; [done|]. intros (name & w & Hi & _). by destruct (Hs name w). }
  split_and!; [done| |].
  - intros (name & w & Hi & Hlt)%Hrun now' Hle Hnil.
    assert (wt_inner w ∈ (trigger_at now' m).2) as Hin.
    { apply trigger_at_spec. exists name, w. split_and!; [done|lia|done]. }
    rewrite Hnil in Hin. by apply elem_of_nil in Hin.
  - intros t. unfold timers_next_action. destruct (next_event_time m) as [n|]; [|done].
    case_bool_decide; [done|]. intros [= <-]. destruct Hs. split_and!; [lia|done..].
Qed.

(** An acknowledged timer is rescheduled. When the acknowledgement of a pending timer is
    handled at [t], and its next run can be computed, the call completes whatever the store
    answers; the timer is no longer pending, its last run is [t] and its next run is the
    computed one; the new values are what is written to the store. *)
Theorem timer_ack_reschedules m name w t next r tape :
  timers_ok m → loaded_intervals m !! name = Some w → name ∈ t_pending m →
  next_run_time (wt_parsed_type w) t = Ret (Some next) →
  ∃ m', timer_ack name m (RNow t :: RTimerUpdated r :: tape) =
      Done m' tape [EUpdateTimer (mkIntervalTimer name (it_interval (wt_inner w)) t)] ∧
    timers_ok m' ∧ t_pending m ≡ₚ name :: t_pending m' ∧ idle_timer m' name (set_last_run w t next).
Proof.
  intros Hok Hw Hp Hnext. unfold timer_ack.
  destruct (find_index (λ v, bool_decide (v = name)) (t_pending m)) as [i|] eqn:Hi.
  2: { apply find_index_None in Hi. rewrite Forall_forall in Hi.
       apply Hi, bool_decide_eq_false_1 in Hp. done. }
  apply find_index_Some in Hi as (x & Hx & Hxn & _). apply bool_decide_eq_true_1 in Hxn as ->.
  assert (∃ pending, vec_swap_remove i (t_pending m) = Some (name, pending)) as [pending Hv].
  { unfold vec_swap_remove. rewrite Hx. destruct (last (t_pending m)) eqn:Hl; [eauto|].
    apply last_None in Hl. by rewrite Hl in Hx. }
  destruct (swap_remove_pending _ _ _ _ Hv Hok) as (Hok' & Hnot & Hperm).
  rewrite Hv. cbn [unwrap]. rewrite abind_lift. cbn beta iota. unfold ask_now.
  rewrite (abind_await _ _ _ t) by done.
  unfold update_next_run. cbn [loaded_intervals t_pending]. rewrite Hw, Hnext, abind_lift, abind_ret.
  unfold update_interval_timer. rewrite abind_assoc, abind_emit, (abind_await _ _ _ r) by done.
  simpl. rewrite (tok_names _ Hok _ _ Hw). eexists. split; [reflexivity|]. split_and!.
  - apply (set_timer_ok (mkTimers (loaded_intervals m) pending) name w); [done..|].
    simpl. by apply (tok_names _ Hok).
  - done.
  - split; simpl; [by rewrite lookup_insert_eq|done].
Qed.
End timers.

(** * Intervals in the store ([components/stores/src/postgres/timers.rs])

    The column [interval_minutes] is a 32-bit integer: [update_interval_timer] writes
    [m as i32] and reading a row gives [mins as u64]. *)

Definition u64_as_i32 (v : Z) : Z :=
  let w := v mod 2 ^ 32 in if w <? 2 ^ 31 then w else w - 2 ^ 32.
Definition i32_as_u64 (v : Z) : Z := v mod 2 ^ 64.

(** [NoMinutesOrCronInterval] *)
Inductive DbTimerError := NoMinutesOrCronInterval.

Definition to_db_interval (i : IntervalType) : option Z * option string :=
  match i with
  | Minutes m => (Some (u64_as_i32 m), None)
  | Cron c => (None, Some c)
  end.

Definition of_db_interval (row : option Z * option string) : result DbTimerError IntervalType :=
  match row with
  | (Some mins, _) => Ok (Minutes (i32_as_u64 mins))
  | (None, Some cron_text) => Ok (Cron cron_text)
  | (None, None) => Err NoMinutesOrCronInterval
  end.

Lemma u64_as_i32_range v : - 2 ^ 31 ≤ u64_as_i32 v < 2 ^ 31.
Proof.
  unfold u64_as_i32. pose proof (Z.mod_pos_bound v (2 ^ 32) ltac:(lia)).
  destruct (Z.ltb_spec (v mod 2 ^ 32) (2 ^ 31)); lia.
Qed.

Lemma i32_as_u64_as_i64 v : - 2 ^ 31 ≤ v < 2 ^ 31 → u64_as_i64 (i32_as_u64 v) = v.
Proof.
  intros Hv. unfold i32_as_u64, u64_as_i64, i64_max. destruct (decide (0 ≤ v)).
  - rewrite Z.mod_small by lia. destruct (Z.leb_spec v (2 ^ 63 - 1)); lia.
  - rewrite <- (Z.mod_add v 1 (2 ^ 64)) by lia. rewrite Z.mod_small by lia.
    destruct (Z.leb_spec (v + 1 * 2 ^ 64) (2 ^ 63 - 1)); lia.
Qed.

(** Intervals through the store. Cron intervals come back unchanged. An interval of [m]
    minutes comes back as the [u64] whose next run is [m as i32] minutes after the last run
    (as far as dates reach): exactly [m] minutes below [2^31], and never an arithmetic panic
    of the duration. *)
Theorem stored_interval_next_run `{Calendar} i t :
  match i with
  | Cron c => of_db_interval (to_db_interval i) = Ok (Cron c)
  | Minutes m => 0 ≤ m ≤ u64_max →
      ∃ m', of_db_interval (to_db_interval i) = Ok (Minutes m') ∧ 0 ≤ m' ≤ u64_max ∧
        next_run_time (PMinutes m') t =
          (do! n := dt_add t (u64_as_i32 m * nanos_per_minute) in Ret (Some n)) ∧
        (m < 2 ^ 31 → u64_as_i32 m = m ∧ m' = m)
  end.
Proof.
  destruct i as [m|c]; [|done]. intros Hm. simpl. pose proof (u64_as_i32_range m) as Hr.
  eexists. split; [reflexivity|]. unfold u64_max in *. split_and!.
  - unfold i32_as_u64. apply Z.mod_pos_bound. lia.
  - unfold i32_as_u64. pose proof (Z.mod_pos_bound (u64_as_i32 m) (2 ^ 64)). lia.
  - unfold duration_minutes. rewrite i32_as_u64_as_i64 by done. unfold i64_max.
    destruct (Z.leb_spec (Z.abs (u64_as_i32 m * 60000)) (2 ^ 63 - 1)); [done|lia].
  - intros Hlt. assert (u64_as_i32 m = m) as Heq.
    { unfold u64_as_i32. rewrite Z.mod_small by lia. destruct (Z.ltb_spec m (2 ^ 31)); lia. }
    split; [done|]. rewrite Heq. unfold i32_as_u64. apply Z.mod_small. lia.
Qed.

(** An interval of [2^31] to [2^32 - 1] minutes is stored as a negative number: the next run
    is computed to lie before the last one, so the timer is due again as soon as it is
    acknowledged. *)
Lemma long_interval_always_due `{Calendar} m t m' n :
  2 ^ 31 ≤ m < 2 ^ 32 →
  of_db_interval (to_db_interval (Minutes m)) = Ok (Minutes m') →
  next_run_time (PMinutes m') t = Ret (Some n) → n < t.
Proof.
  intros Hm [= <-]. pose proof (u64_as_i32_range m) as Hr. simpl.
  unfold duration_minutes, dt_add. rewrite i32_as_u64_as_i64 by done.
  destruct (_ <=? _); simpl; [|done]. destruct (_ && _); simpl; [|done]. intros [= <-].
  assert (u64_as_i32 m < 0); [|unfold nanos_per_minute, nanos_per_sec in *; lia].
  unfold u64_as_i32. rewrite Z.mod_small by lia. destruct (Z.ltb_spec m (2 ^ 31)); lia.
Qed.

(** ** Witnesses *)

(** A calendar whose only schedule fires every minute. *)
Definition ex_calendar : Calendar :=
  {| dt_min := - 2 ^ 63; dt_max := 2 ^ 63; Schedule := unit; cron_parse _ := Some tt;
     cron_next _ t := Some (t + nanos_per_minute) |}.

Definition ex_timer : WrappedIntervalTimer (H := ex_calendar) :=
  mkWrapped (H := ex_calendar) (mkIntervalTimer "tick" (Minutes 5) 0)
    (PMinutes (H := ex_calendar) 5) (5 * nanos_per_minute).
Definition ex_timers (pending : list string) : Timers (H := ex_calendar) :=
  mkTimers (H := ex_calendar) {["tick" := ex_timer]} pending.

Lemma ex_timers_ok pending :
  NoDup pending → (∀ n, n ∈ pending → n = "tick") → timers_ok (H := ex_calendar) (ex_timers pending).
Proof.
  intros Hnd Hp. split; simpl; [|done|].
  - intros n w. rewrite lookup_singleton. case_decide; naive_solver.
  - intros n ->%Hp. rewrite lookup_singleton_eq. eauto.
Qed.

Lemma trigger_timers_exact_witness :
  timers_ok (H := ex_calendar) (ex_timers []) ∧
  ∃ m' ts tape', trigger_timers (H := ex_calendar) (HashOrder0 := list_order) (ex_timers [])
      [RNow (6 * nanos_per_minute)] = Done (m', ts) tape' [] ∧ t_pending m' = ["tick"].
Proof.
  assert (timers_ok (H := ex_calendar) (ex_timers [])) as Hok
    by (apply ex_timers_ok; [apply NoDup_nil_2|set_solver]).
  split; [done|].
  destruct (trigger_timers_exact (H := ex_calendar) (HashOrder0 := list_order) (ex_timers [])
    (6 * nanos_per_minute) [] Hok) as (m' & ts & tape' & Hrun & _ & _ & Hp & _).
  exists m', ts, tape'. split; [done|]. rewrite Hp. vm_compute in Hrun. by simplify_eq.
Defined.

Lemma timer_ack_reschedules_witness :
  ∃ m', timer_ack (H := ex_calendar) "tick" (ex_timers ["tick"])
      [RNow 7; RTimerUpdated None] =
    Done m' [] [EUpdateTimer (mkIntervalTimer "tick" (Minutes 5) 7)] ∧ t_pending m' = [].
Proof.
  destruct (timer_ack_reschedules (H := ex_calendar) (ex_timers ["tick"]) "tick" ex_timer 7
    (7 + 5 * nanos_per_minute) None []) as (m' & Hrun & _ & Hp & _).
  - apply ex_timers_ok; [apply NoDup_singleton|set_solver].
  - reflexivity.
  - by left.
  - reflexivity.
  - exists m'. split; [done|]. simpl in Hp. symmetry in Hp. apply Permutation_singleton_r in Hp. by simplify_eq.
Defined.

Lemma stored_interval_next_run_witness :
  ∃ m', of_db_interval (to_db_interval (Minutes 5)) = Ok (Minutes m') ∧ m' = 5.
Proof.
  destruct (stored_interval_next_run (H := ex_calendar) (Minutes 5) 0) as (m' & Hm & _ & _ & H5).
  - unfold u64_max. lia.
  - exists m'. split; [done|]. apply H5. lia.
Defined.
