(* ===== verification/ScheduledTasks.v ===== *)
(** Scheduled tasks of a guild ([cmd/scheduler/src/scheduled_task_manager.rs]).

    [Tasks] is the state of [Manager]: the time of the next task if it was fetched, the ids of
    the tasks that were dispatched and not acknowledged yet, and the task names the loaded
    scripts listen to. *)
From stdpp Require Import base gmap list strings sets.
From S2P Require Import Prelude Models WorkerPool Commands World IntervalTimers.

Record Tasks := mkTasks {
  next_task_time : option (option Z);
  k_pending : list Z;
  task_names : list string;
}.

Definition tasks_new : Tasks := mkTasks None [] [].

Definition init_next_task_time `{Calendar} (m : Tasks) : io Tasks :=
  match next_task_time m with
  | Some _ => aret m
  | None =>
      let! r := get_next_task_time (k_pending m) (task_names m) in
      match r with
      | Some v => aret (mkTasks (Some v) (k_pending m) (task_names m))
      | None =>
          let! now := ask_now in
          let! t := lift (dt_add now (from_secs 10)) in
          aret (mkTasks (Some (Some t)) (k_pending m) (task_names m))
      end
  end.

(** [next_action]: the clock is read only when a time is known. *)
Definition tasks_next_action (now : Z) (m : Tasks) : NextTimerAction :=
  match next_task_time m with
  | None => TNone
  | Some None => TNone
  | Some (Some t) => if bool_decide (t < now) then TRun else TWait t
  end.

Definition clear_pending (m : Tasks) : Tasks := mkTasks (next_task_time m) [] (task_names m).
Definition clear_next (m : Tasks) : Tasks := mkTasks None (k_pending m) (task_names m).
Definition clear_task_names (m : Tasks) : Tasks := mkTasks (next_task_time m) (k_pending m) [].

Definition start_triggered_tasks (m : Tasks) : io (Tasks * list ScheduledTask) :=
  let! now := ask_now in
  let! r := get_triggered_tasks now (k_pending m) (task_names m) in
  match r with
  | Some v =>
      aret (clear_next (mkTasks (next_task_time m) (k_pending m ++ (st_id <$> v)) (task_names m)), v)
  | None => aret (m, [])
  end.

(** The retry loop of [ack_triggered_task]. *)
Definition delete_until_ok (id : Z) : io unit :=
  iter (λ _ : unit,
    let! ok := del_task_by_id id in
    if ok then aret (inr tt) else sleep (from_secs 5) ;;; aret (inl tt)) tt.

Definition ack_triggered_task (id : Z) (m : Tasks) : io Tasks :=
  let! pending :=
    match find_index (λ v, bool_decide (v = id)) (k_pending m) with
    | Some index => let! (_, pending) := lift (unwrap (vec_swap_remove index (k_pending m))) in aret pending
    | None => aret (k_pending m)
    end in
  delete_until_ok id ;;; aret (mkTasks (next_task_time m) pending (task_names m)).

Definition add_task_name (names : list string) (name : string) : list string :=
  if bool_decide (name ∈ names) then names else names ++ [name].

Definition tasks_script_started (meta : ScriptMeta) (m : Tasks) : Tasks :=
  clear_next (mkTasks (next_task_time m) (k_pending m)
    (fold_left add_task_name (sm_task_names meta) (task_names m))).

(** * Facts *)

Lemma delete_until_ok_consuming id :
  consuming (λ _ : unit,
    let! ok := del_task_by_id id in
    if ok then aret (A := unit + unit) (inr tt) else sleep (from_secs 5) ;;; aret (inl tt)).
Proof.
  intros [] tape s' rest tr. unfold del_task_by_id. rewrite abind_assoc, abind_emit.
  destruct tape as [|r tape]; [done|].
  destruct r; try done. destruct ok; [done|]. cbn. intros [= <- <- <-]. simpl. lia.
Qed.

Lemma delete_until_ok_run id n tape :
  delete_until_ok id (replicate n (RTaskDeleted false) ++ RTaskDeleted true :: tape) =
  Done tt tape (concat (replicate n [EDeleteTask id; ESleep (from_secs 5)]) ++ [EDeleteTask id]).
Proof.
  induction n as [|n IH]; unfold delete_until_ok;
    rewrite iter_unfold by apply delete_until_ok_consuming; [done|].
  rewrite abind_assoc. unfold del_task_by_id. rewrite abind_assoc, abind_emit. simpl.
  rewrite (abind_await _ _ _ false) by done. rewrite abind_assoc. unfold sleep.
  rewrite abind_emit, abind_ret. unfold delete_until_ok, del_task_by_id, sleep in IH. rewrite IH. done.
Qed.

Lemma elem_of_add_task_names names l n :
  n ∈ fold_left add_task_name l names ↔ n ∈ names ∨ n ∈ l.
Proof.
  revert names. induction l as [|x l IH]; intros names; simpl; [set_solver|].
  rewrite IH. unfold add_task_name. case_bool_decide; set_solver.
Qed.

Lemma NoDup_add_task_names names l : NoDup names → NoDup (fold_left add_task_name l names).
Proof.
  revert names. induction l as [|x l IH]; intros names Hnd; simpl; [done|]. apply IH.
  unfold add_task_name. case_bool_decide; [done|].
  apply NoDup_app. split_and!; [done| |apply NoDup_singleton]. intros y Hy ->%list_elem_of_singleton. done.
Qed.

(** The removal in [ack_triggered_task], which cannot go out of range. *)
Lemma remove_pending_run id m tape :
  ∃ pending,
    (match find_index (λ v, bool_decide (v = id)) (k_pending m) with
     | Some index => let! (_, pending) := lift (unwrap (vec_swap_remove index (k_pending m))) in aret pending
     | None => aret (k_pending m)
     end : io (list Z)) tape = Done pending tape [] ∧
    (id ∈ k_pending m → k_pending m ≡ₚ id :: pending) ∧ (id ∉ k_pending m → pending = k_pending m).
Proof.
  destruct (find_index _ _) as [i|] eqn:Hi.
  - apply find_index_Some in Hi as (x & Hx & Hxid & _). apply bool_decide_eq_true_1 in Hxid as ->.
    unfold vec_swap_remove. rewrite Hx. destruct (last (k_pending m)) as [y|] eqn:Hl.
    + eexists. split; [reflexivity|]. split.
      * intros _. apply (vec_swap_remove_Some i). unfold vec_swap_remove. by rewrite Hx, Hl.
      * intros []. by eapply list_elem_of_lookup_2.
    + apply last_None in Hl. by rewrite Hl in Hx.
  - exists (k_pending m). split_and!; [done| |done]. intros Hin.
    apply find_index_None in Hi. rewrite Forall_forall in Hi.
    apply Hi, bool_decide_eq_false_1 in Hin. done.
Qed.

(** * Properties *)

(** An acknowledged task is deleted for good: however often the store fails, once it
    succeeds the call completes, having asked for the deletion after every failure five
    seconds apart, and the task is no longer pending (other pending tasks stay). *)
Theorem ack_deletes_task id m n tape :
  ∃ m', ack_triggered_task id m (replicate n (RTaskDeleted false) ++ RTaskDeleted true :: tape) =
      Done m' tape (concat (replicate n [EDeleteTask id; ESleep (from_secs 5)]) ++ [EDeleteTask id]) ∧
    (id ∈ k_pending m → k_pending m ≡ₚ id :: k_pending m') ∧
    (id ∉ k_pending m → k_pending m' = k_pending m) ∧
    next_task_time m' = next_task_time m ∧ task_names m' = task_names m.
Proof.
  unfold ack_triggered_task.
  destruct (remove_pending_run id m (replicate n (RTaskDeleted false) ++ RTaskDeleted true :: tape))
    as (pending & Hrun & Hin & Hnin).
  exists (mkTasks (next_task_time m) pending (task_names m)).
  split; [|simpl; split_and!; [exact Hin|exact Hnin|done..]].
  unfold abind at 1. rewrite Hrun, prepend_nil.
  unfold abind. rewrite delete_until_ok_run. simpl. by rewrite app_nil_r.
Qed.

(** A dispatched task is not dispatched again while it is pending. Starting the triggered
    tasks asks the store for the tasks due now, leaving out the pending ones, and makes the
    ones it returns pending; the next fetch of the next task time leaves them out too. If the
    store's answer honours the filter and has no duplicates, no id is pending twice. *)
Theorem triggered_tasks_become_pending `{Calendar} m now v r tape :
  ∃ m', start_triggered_tasks m (RNow now :: RTriggeredTasks (Some v) :: RNextTaskTime (Some r) :: tape) =
      Done (m', v) (RNextTaskTime (Some r) :: tape) [ETriggeredTasks now (k_pending m) (task_names m)] ∧
    k_pending m' = k_pending m ++ (st_id <$> v) ∧
    init_next_task_time m' (RNextTaskTime (Some r) :: tape) =
      Done (mkTasks (Some r) (k_pending m ++ (st_id <$> v)) (task_names m)) tape
        [ENextTaskTime (k_pending m ++ (st_id <$> v)) (task_names m)] ∧
    (NoDup (k_pending m) → NoDup (st_id <$> v) → (∀ t, t ∈ v → st_id t ∉ k_pending m) →
     NoDup (k_pending m')).
Proof.
  eexists. split; [reflexivity|]. simpl. split_and!; [done..|].
  intros H1 H2 H3. apply NoDup_app. split_and!; [done| |done].
  intros x Hx (t & -> & Ht)%list_elem_of_fmap. by apply (H3 t).
Qed.

(** When scripts start, the names listened to are the union of what was listened to and
    what the script declares, without duplicates, and the next task time is fetched anew. *)
Theorem script_start_extends_names meta m :
  NoDup (task_names m) →
  let m' := tasks_script_started meta m in
  (∀ n, n ∈ task_names m' ↔ n ∈ task_names m ∨ n ∈ sm_task_names meta) ∧
  NoDup (task_names m') ∧ next_task_time m' = None ∧ k_pending m' = k_pending m.
Proof.
  intros Hnd. simpl. split_and!; [intros; apply elem_of_add_task_names|by apply NoDup_add_task_names|done..].
Qed.

Lemma script_start_extends_names_witness :
  NoDup (task_names (tasks_script_started (mkScriptMeta "" 1 [] [] [] ["a"; "b"; "a"]) (mkTasks None [] ["b"]))).
Proof.
  apply (script_start_extends_names (mkScriptMeta "" 1 [] [] [] ["a"; "b"; "a"]) (mkTasks None [] ["b"])).
  apply NoDup_singleton.
Defined.
