(* ===== verification/VmSession.v ===== *)
(** The vm session of a guild ([cmd/scheduler/src/vm_session.rs]): it claims a worker from the
    pool when there is work, dispatches events to it, tracks which are acknowledged, returns
    the worker when the vm has nothing pending, and replaces it when it breaks.

    [Session] is the state of [VmSession]. The premium tier is the value behind the shared
    lock, which only the guild handler writes. Sending to a worker, receiving from it,
    requesting and returning workers are calls of [World]. *)
From stdpp Require Import base gmap list strings sets pretty sorting.
From S2P Require Import Prelude Models WorkerPool Commands World IntervalTimers ScheduledTasks.

(** * State *)

(** [guild_handler::PremiumTierState] *)
Inductive PremiumTierState :=
| Fetched (t : option PremiumSlotTier)
| Unknown.

Definition tier_option (s : PremiumTierState) : option PremiumSlotTier :=
  match s with
  | Fetched inner => inner
  | Unknown => None
  end.

Inductive PendingAck :=
| PaDispatch (resp : option nat)
| PaScheduledTask (id : Z)
| PaIntervalTimer (name : string).

Inductive VmSessionEvent := TooManyInvalidRequests | ForciblyShutdown.

Section session.
Context `{Calendar} `{!HashOrder string}.

Record Session := mkSession {
  s_guild_id : Z;
  s_premium_tier : PremiumTierState;
  s_timers : Timers;
  s_tasks : Tasks;
  s_pending_acks : gmap Z PendingAck;
  s_current_worker : option WorkerHandle;
  s_force_load_scripts_next : bool;
  s_scripts : list Script;
  s_id_gen : Z;
}.

Definition set_timers (s : Session) (t : Timers) : Session :=
  mkSession (s_guild_id s) (s_premium_tier s) t (s_tasks s) (s_pending_acks s)
    (s_current_worker s) (s_force_load_scripts_next s) (s_scripts s) (s_id_gen s).
Definition set_tasks (s : Session) (t : Tasks) : Session :=
  mkSession (s_guild_id s) (s_premium_tier s) (s_timers s) t (s_pending_acks s)
    (s_current_worker s) (s_force_load_scripts_next s) (s_scripts s) (s_id_gen s).
Definition set_acks (s : Session) (a : gmap Z PendingAck) : Session :=
  mkSession (s_guild_id s) (s_premium_tier s) (s_timers s) (s_tasks s) a
    (s_current_worker s) (s_force_load_scripts_next s) (s_scripts s) (s_id_gen s).
Definition set_worker (s : Session) (w : option WorkerHandle) : Session :=
  mkSession (s_guild_id s) (s_premium_tier s) (s_timers s) (s_tasks s) (s_pending_acks s)
    w (s_force_load_scripts_next s) (s_scripts s) (s_id_gen s).
Definition set_force (s : Session) (b : bool) : Session :=
  mkSession (s_guild_id s) (s_premium_tier s) (s_timers s) (s_tasks s) (s_pending_acks s)
    (s_current_worker s) b (s_scripts s) (s_id_gen s).
Definition set_scripts (s : Session) (l : list Script) : Session :=
  mkSession (s_guild_id s) (s_premium_tier s) (s_timers s) (s_tasks s) (s_pending_acks s)
    (s_current_worker s) (s_force_load_scripts_next s) l (s_id_gen s).
Definition set_id_gen (s : Session) (n : Z) : Session :=
  mkSession (s_guild_id s) (s_premium_tier s) (s_timers s) (s_tasks s) (s_pending_acks s)
    (s_current_worker s) (s_force_load_scripts_next s) (s_scripts s) n.

Definition session_new (guild_id : Z) (premium_tier : PremiumTierState) : Session :=
  mkSession guild_id premium_tier timers_new tasks_new ∅ None false [] 1.

(** * Small helpers *)

Definition set_guild_scripts (s : Session) (scripts : list Script) : Session :=
  set_force (set_scripts s scripts) true.

Definition session_gen_id (s : Session) : io (Z * Session) :=
  let! id := lift (u64_incr (s_id_gen s)) in aret (id, set_id_gen s id).

Definition reset_contribs (s : Session) : Session :=
  let s := set_timers s (clear_pending_acks (clear_loaded_timers (s_timers s))) in
  set_tasks s (clear_next (clear_task_names (clear_pending (s_tasks s)))).

Definition should_send_scripts (s : Session) (wr : WorkerRetrieved) : bool :=
  if negb (s_force_load_scripts_next s) && bool_decide (wr = SameGuild) then false else true.

Definition create_vm_req (s : Session) (seq : Z) : SchedulerMessage :=
  CreateScriptsVm (mkCreateVm seq (tier_option (s_premium_tier s)) (s_guild_id s) (s_scripts s)).

(** [labels.push(Label::new("guild_id", ..))] and the recorder call. *)
Definition handle_metric (s : Session) (name : string) (m : MetricEvent) (labels : list (string * string))
    : io unit :=
  emit (EMetric name m (labels ++ [("guild_id", pretty (s_guild_id s))])).

(** * Script contributions *)

Definition interval_contribs (evt : ScriptMeta) : list IntervalTimerContrib :=
  (λ v, mkIntervalTimerContrib (sit_name v)
     (match sit_interval v with Cron c => Cron c | Minutes m => Minutes m end)) <$> sm_interval_timers evt.

Definition update_db_contribs (s : Session) (evt : ScriptMeta) (contribs : list IntervalTimerContrib)
    : io unit :=
  let twilight_commands := to_twilight_commands (s_guild_id s) (sm_commands evt) (sm_command_groups evt) in
  let! _ := update_script_contributes (sm_script_id evt) (mkContributes twilight_commands contribs) in
  aret tt.

Definition script_loaded (s : Session) (evt : ScriptMeta) : io Session :=
  let contribs := interval_contribs evt in
  let! _ := update_db_contribs s evt contribs in
  let! timers := timers_script_started contribs (s_timers s) in
  let s := set_timers s timers in
  let s := set_tasks s (tasks_script_started evt (s_tasks s)) in
  let! _ := emit (ELoadedScript (mkLoaded (s_guild_id s) evt)) in
  aret s.

(** * Messages from the worker *)

(** [handle_worker_msg]; the three messages that must not reach it panic. *)
Definition handle_worker_msg (s : Session) (msg : WorkerMessage) : io Session :=
  match msg with
  | Ack id =>
      match s_pending_acks s !! id with
      | Some item =>
          let s := set_acks s (delete id (s_pending_acks s)) in
          match item with
          | PaDispatch (Some resp) => let! _ := emit (EAckResponse resp) in aret s
          | PaDispatch None => aret s
          | PaScheduledTask t_id =>
              let! tasks := ack_triggered_task t_id (s_tasks s) in aret (set_tasks s tasks)
          | PaIntervalTimer name =>
              let! timers := timer_ack name (s_timers s) in aret (set_timers s timers)
          end
      | None => aret s
      end
  | ScriptStarted start => script_loaded s start
  | ScriptsInit => apanic
  | NonePending =>
      if bool_decide (s_pending_acks s = ∅) then
        match s_current_worker s with
        | Some current => let! _ := pool_return_worker current false in aret (set_worker s None)
        | None => aret s
        end
      else aret s
  | TaskScheduled => aret (set_tasks s (clear_next (s_tasks s)))
  | GuildLog entry => let! _ := emit (ELog entry) in aret s
  | Hello _ => apanic
  | WmShutdown _ => apanic
  | Metric name m labels => let! _ := handle_metric s name m labels in aret s
  end.

(** [while let Ok(msg) = worker.rx.try_recv()] *)
Definition drain_worker (s : Session) : io Session :=
  iter (λ s, let! m := try_recv in
             match m with
             | Some msg => let! s := handle_worker_msg s msg in aret (inl s)
             | None => aret (inr s)
             end) s.

Definition broken_worker (s : Session) : io Session :=
  match s_current_worker s with
  | Some worker =>
      let! s := drain_worker (set_worker s None) in
      let! _ := pool_return_worker worker true in
      aret (set_acks (reset_contribs s) ∅)
  | None => aret s
  end.

(** * Claiming a worker and dispatching *)

(** The body of the loop of [ensure_claim_worker]. *)
Definition claim_round (s : Session) : io (Session + Session) :=
  let! (worker, wr) := pool_req_worker (tier_option (s_premium_tier s)) in
  let claimed s := aret (inr (set_worker (set_force s false) (Some worker))) in
  if should_send_scripts s wr then
    let s := reset_contribs (set_acks s ∅) in
    let! (seq, s) := session_gen_id s in
    let! ok := send_worker worker (create_vm_req s seq) in
    if ok then claimed s
    else let! _ := pool_return_worker worker true in aret (inl s)
  else claimed s.

Definition ensure_claim_worker (s : Session) : io Session :=
  match s_current_worker s with
  | Some _ => aret s
  | None => iter claim_round s
  end.

(** One round of the loop of [dispatch_worker_evt]. *)
Definition dispatch_round (t : string) (data : JsonValue) (ack : PendingAck) (s : Session)
    : io (Session + Session) :=
  let! s := ensure_claim_worker s in
  let! (evt_id, s) := session_gen_id s in
  match s_current_worker s with
  | Some worker =>
      let! ok := send_worker worker (Dispatch (mkDispatch t evt_id data)) in
      if ok then aret (inr (set_acks s (<[evt_id := ack]> (s_pending_acks s))))
      else
        let! s := broken_worker s in
        let! _ := sleep (from_secs 1) in
        aret (inl s)
  | None => aret (inl s)
  end.

Definition dispatch_worker_evt (t : string) (data : JsonValue) (ack : PendingAck) (s : Session)
    : io Session :=
  match s_scripts s with
  | [] => aret s
  | _ => iter (dispatch_round t data ack) s
  end.

(** [runtime_models::internal::tasks::ScheduledTask::from], serialized. *)
Definition scheduled_task_json (t : ScheduledTask) : JsonValue :=
  JObject ([("id", JNumber (PosInt (st_id t))); ("namespace", JString (st_name t))] ++
    (match st_unique_key t with Some k => [("key", JString k)] | None => [] end) ++
    [("executeAt", JNumber (PosInt ((st_execute_at t / 1000000) mod 2 ^ 64))); ("data", st_data t)]).

Definition dispatch_scheduled_task (s : Session) (task : ScheduledTask) : io Session :=
  dispatch_worker_evt "BOTLOADER_SCHEDULED_TASK_FIRED" (scheduled_task_json task)
    (PaScheduledTask (st_id task)) s.

Definition dispatch_interval_timer (s : Session) (timer : IntervalTimer) : io Session :=
  dispatch_worker_evt "BOTLOADER_INTERVAL_TIMER_FIRED" (JObject [("name", JString (it_name timer))])
    (PaIntervalTimer (it_name timer)) s.

Definition send_discord_guild_event (s : Session) (evt : GuildEvent) : io Session :=
  let! d := lift (ge_dispatch evt) in
  match d with
  | Some (name, data) => dispatch_worker_evt name data (PaDispatch None) s
  | None => aret s
  end.

(** * Loading scripts *)

Definition try_retry_load_guild_scripts (s : Session) : io Session :=
  iter (λ s : Session,
    let! r := list_scripts in
    match r with
    | Some scripts => aret (inr (set_scripts s (List.filter script_enabled scripts)))
    | None => let! _ := sleep (from_secs 10) in aret (inl s)
    end) s.

Definition load_contribs (s : Session) : io Session :=
  let! (evt_id, s) := session_gen_id s in
  match s_current_worker s with
  | Some worker =>
      let! ok := send_worker worker (create_vm_req s evt_id) in
      if ok then aret s else broken_worker s
  | None =>
      let s := reset_contribs s in
      match s_scripts s with
      | [] => aret s
      | _ => ensure_claim_worker (set_force s true)
      end
  end.

Definition reload_guild_scripts (s : Session) : io Session :=
  let! s := try_retry_load_guild_scripts s in load_contribs s.

Definition session_start (s : Session) : io Session :=
  let! s := try_retry_load_guild_scripts s in load_contribs s.

(** * What to do next *)

(** [(until - now).to_std().unwrap_or(1ms)] *)
Definition sleep_dur (until now : Z) : Z := if until - now <? 0 then 1000000 else until - now.

(** Sets up the sleep for a timer; [true] when it is due and the caller returns at once. *)
Definition arm_timer (a : NextTimerAction) : io bool :=
  match a with
  | TNone => let! _ := sleep (from_secs 3600) in aret false
  | TWait until =>
      let! now := ask_now in
      let! _ := sleep (sleep_dur until now) in aret false
  | TRun => aret true
  end.

Definition read_tasks_action (m : Tasks) : io NextTimerAction :=
  match next_task_time m with
  | Some (Some _) => let! now := ask_now in aret (tasks_next_action now m)
  | _ => aret TNone
  end.

Definition read_timers_action (m : Timers) : io NextTimerAction :=
  match next_event_time m with
  | Some _ => let! now := ask_now in aret (timers_next_action now m)
  | None => aret TNone
  end.

(** The select: a message can only arrive from a claimed worker. *)
Definition select_action (s : Session) : io NextAction :=
  await (λ r, match r with
              | RAction (AWorkerMessage m) =>
                  if s_current_worker s then Some (AWorkerMessage m) else None
              | RAction a => Some a
              | _ => None
              end).

Definition session_next_action (s : Session) : io NextAction :=
  let! a := read_tasks_action (s_tasks s) in
  let! run := arm_timer a in
  if run then aret ACheckScheduledTasks
  else
    let! a := read_timers_action (s_timers s) in
    let! run := arm_timer a in
    if run then aret ACheckIntervalTimers
    else select_action s.

Definition init_timers (s : Session) : io Session :=
  let! tasks := init_next_task_time (s_tasks s) in aret (set_tasks s tasks).

(** * Actions *)

Definition debug_reason (r : ShutdownReason) : string :=
  match r with
  | Runaway => "Runaway"
  | OutOfMemory => "OutOfMemory"
  | OtherReason => "Other"
  | TooManyInvalidRequestsReason => "TooManyInvalidRequests"
  end.

Definition handle_action (s : Session) (a : NextAction) : io (Session * option VmSessionEvent) :=
  match a with
  | AWorkerMessage (Some (WmShutdown reason)) =>
      let! _ := emit (ELog (log_critical (s_guild_id s)
                  (String.append "vm was forcibly shut down, reason: " (debug_reason reason)))) in
      let s := set_acks (reset_contribs s) ∅ in
      aret (s, Some (match reason with
                     | TooManyInvalidRequestsReason => TooManyInvalidRequests
                     | _ => ForciblyShutdown
                     end))
  | AWorkerMessage (Some msg) => let! s := handle_worker_msg s msg in aret (s, None)
  | AWorkerMessage None => let! s := broken_worker s in aret (s, None)
  | ACheckScheduledTasks =>
      let! (tasks, triggered) := start_triggered_tasks (s_tasks s) in
      let! s := afold dispatch_scheduled_task triggered (set_tasks s tasks) in
      aret (s, None)
  | ACheckIntervalTimers =>
      let! (timers, triggered) := trigger_timers (s_timers s) in
      let! s := afold dispatch_interval_timer triggered (set_timers s timers) in
      aret (s, None)
  end.

(** The loop of [shutdown]. *)
Definition shutdown_round (s : Session) : io (Session + Session) :=
  match s_current_worker s with
  | None => aret (inr s)
  | Some _ =>
      let! a := session_next_action s in
      match a with
      | AWorkerMessage (Some msg) => let! s := handle_worker_msg s msg in aret (inl s)
      | AWorkerMessage None => let! s := broken_worker s in aret (inr s)
      | ACheckScheduledTasks => aret (inl s)
      | ACheckIntervalTimers => aret (inl s)
      end
  end.

Definition session_shutdown (s : Session) : io Session :=
  let! s :=
    match s_current_worker s with
    | Some worker =>
        let! ok := send_worker worker Complete in
        if ok then aret s else broken_worker s
    | None => aret s
    end in
  iter shutdown_round s.

(** * The protocol a session follows

    Read off the sequence of its calls, whatever the environment answers. *)

(** Which worker the session holds: it claims one only when it holds none, sends only to the
    one it holds, and gives back the one it holds. [None] is a violation. *)
Definition own_step (held : option WorkerHandle) (e : Ev) : option (option WorkerHandle) :=
  match e with
  | EGotWorker w => match held with None => Some (Some w) | Some _ => None end
  | ESend id _ =>
      match held with
      | Some w => if worker_id w =? id then Some held else None
      | None => None
      end
  | EReturnWorker w _ => if bool_decide (held = Some w) then Some None else None
  | _ => Some held
  end.

Fixpoint own_run (held : option WorkerHandle) (tr : list Ev) : option (option WorkerHandle) :=
  match tr with
  | [] => Some held
  | e :: tr =>
      match own_step held e with
      | Some held => own_run held tr
      | None => None
      end
  end.

(** The sequence numbers the session put on its messages. *)
Definition ev_seq (e : Ev) : list Z :=
  match e with
  | ESend _ (CreateScriptsVm r) => [cv_seq r]
  | ESend _ (Dispatch d) => [de_seq d]
  | _ => []
  end.
Definition sent_seqs (tr : list Ev) : list Z := tr ≫= ev_seq.

(** Calls that involve no worker. *)
Definition quiet (e : Ev) : Prop :=
  match e with
  | EGotWorker _ | ESend _ _ | EReturnWorker _ _ => False
  | _ => True
  end.

Definition increasing_in (lo : Z) (l : list Z) (hi : Z) : Prop :=
  StronglySorted Z.lt l ∧ Forall (λ x, lo < x ≤ hi) l ∧ lo ≤ hi.

(** What holds of a session between operations. *)
Record core_ok (s : Session) : Prop := {
  so_timers : timers_ok (s_timers s);
  so_acks : map_Forall (λ id _, id ≤ s_id_gen s) (s_pending_acks s);
}.

Record session_ok (s : Session) : Prop := {
  so_core : core_ok s;
  so_idle : s_current_worker s = None → s_pending_acks s = ∅;
}.

(** [advance s tr s']: the session went from [s] to [s'] making the calls [tr]. *)
Record advance (s : Session) (tr : list Ev) (s' : Session) : Prop := {
  adv_own : own_run (s_current_worker s) tr = Some (s_current_worker s');
  adv_seqs : increasing_in (s_id_gen s) (sent_seqs tr) (s_id_gen s');
  adv_guild : s_guild_id s' = s_guild_id s ∧ s_premium_tier s' = s_premium_tier s;
}.

Lemma own_run_app h tr tr' h' :
  own_run h tr = Some h' → own_run h (tr ++ tr') = own_run h' tr'.
Proof.
  revert h. induction tr as [|e tr IH]; intros h; simpl; [by intros [= ->]|].
  destruct (own_step h e); [|done]. apply IH.
Qed.

Lemma increasing_in_app lo l mi l' hi :
  increasing_in lo l mi → increasing_in mi l' hi → increasing_in lo (l ++ l') hi.
Proof.
  intros (Hs & Hf & Hle) (Hs' & Hf' & Hle'). split_and!; [|apply Forall_app; split|lia].
  - apply StronglySorted_app. split_and!; [|done|done].
    intros x y Hx Hy. rewrite Forall_forall in Hf, Hf'. specialize (Hf x Hx). specialize (Hf' y Hy). lia.
  - eapply Forall_impl; [exact Hf|]. simpl. lia.
  - eapply Forall_impl; [exact Hf'|]. simpl. lia.
Qed.

Lemma increasing_in_nil lo hi : lo ≤ hi → increasing_in lo [] hi.
Proof. intros. split_and!; [constructor|constructor|done]. Qed.

Lemma advance_refl s : advance s [] s.
Proof. split; [done|by apply increasing_in_nil|done]. Qed.

Lemma advance_trans s tr s' tr' s'' : advance s tr s' → advance s' tr' s'' → advance s (tr ++ tr') s''.
Proof.
  intros [Ho Hq Hg] [Ho' Hq' Hg']. split.
  - by rewrite (own_run_app _ _ _ _ Ho).
  - unfold sent_seqs. rewrite bind_app. by eapply increasing_in_app.
  - destruct Hg, Hg'. split; congruence.
Qed.

Lemma quiet_own h tr : Forall quiet tr → own_run h tr = Some h.
Proof. induction 1 as [|e tr Hq _ IH]; simpl; [done|]. destruct e; done. Qed.

Lemma quiet_seqs tr : Forall quiet tr → sent_seqs tr = [].
Proof. induction 1 as [|e tr Hq _ IH]; [done|]. destruct e; try done; exact IH. Qed.

(** Quiet calls that change neither the worker nor the counter. *)
Lemma advance_quiet s tr s' :
  Forall quiet tr → s_current_worker s' = s_current_worker s → s_id_gen s ≤ s_id_gen s' →
  s_guild_id s' = s_guild_id s → s_premium_tier s' = s_premium_tier s → advance s tr s'.
Proof.
  intros Hq Hw Hid Hg Hp. split; [|rewrite quiet_seqs by done; by apply increasing_in_nil|done].
  rewrite quiet_own by done. by rewrite Hw.
Qed.

(** ** Operations that involve no worker *)

Notation quiet_io := (always quiet).

Lemma quiet_timer_ack n m : quiet_io (timer_ack n m).
Proof. unfold timer_ack, update_next_run, update_interval_timer, ask_now. always_tac. Qed.

Lemma quiet_timers_script_started l m : quiet_io (timers_script_started l m).
Proof.
  unfold timers_script_started, init_timer, update_interval_timer, get_all_interval_timers, ask_now.
  always_tac.
Qed.

Lemma quiet_trigger_timers m : quiet_io (trigger_timers m).
Proof. unfold trigger_timers, ask_now. always_tac. Qed.

Lemma quiet_ack_triggered_task id m : quiet_io (ack_triggered_task id m).
Proof. unfold ack_triggered_task, delete_until_ok, del_task_by_id, sleep. always_tac. Qed.

Lemma quiet_start_triggered_tasks m : quiet_io (start_triggered_tasks m).
Proof. unfold start_triggered_tasks, get_triggered_tasks, ask_now. always_tac. Qed.

Lemma quiet_init_next_task_time m : quiet_io (init_next_task_time m).
Proof. unfold init_next_task_time, get_next_task_time, ask_now. always_tac. Qed.

Lemma quiet_session_next_action s : quiet_io (session_next_action s).
Proof.
  unfold session_next_action, read_tasks_action, read_timers_action, arm_timer, select_action,
    sleep, ask_now. always_tac.
Qed.

(** ** The invariant under the setters *)

Lemma core_ok_reset s : core_ok s → core_ok (reset_contribs s).
Proof.
  intros [Ht Ha]. split; [|done]. split; simpl; [done|constructor|]. intros n Hn. by apply not_elem_of_nil in Hn.
Qed.

Lemma core_ok_timers s m : core_ok s → timers_ok m → core_ok (set_timers s m).
Proof. intros [_ Ha] Hm. by split. Qed.

Lemma core_ok_acks s a :
  core_ok s → map_Forall (λ id _, id ≤ s_id_gen s) a → core_ok (set_acks s a).
Proof. intros [Ht _] Ha. by split. Qed.

Lemma core_ok_clear s : core_ok s → core_ok (set_acks s ∅).
Proof. intros Hs. apply core_ok_acks; [done|]. apply map_Forall_empty. Qed.

(** ** Messages *)

(** Everything but the timers, tasks and acks is as before. *)
Definition same_frame (s s' : Session) : Prop :=
  s_current_worker s' = s_current_worker s ∧ s_id_gen s' = s_id_gen s ∧
  s_guild_id s' = s_guild_id s ∧ s_premium_tier s' = s_premium_tier s ∧
  s_scripts s' = s_scripts s ∧ s_force_load_scripts_next s' = s_force_load_scripts_next s.

Lemma same_frame_advance s tr s' : same_frame s s' → Forall quiet tr → advance s tr s'.
Proof. intros (Hw & Hi & Hg & Hp & _) Hq. apply advance_quiet; [done..|lia|done|done]. Qed.

Lemma script_loaded_spec s evt :
  core_ok s → wp True (script_loaded s evt) (λ s' tr,
    Forall quiet tr ∧ core_ok s' ∧ same_frame s s' ∧ s_pending_acks s' = s_pending_acks s).
Proof.
  intros Hs. unfold script_loaded, update_db_contribs, update_script_contributes.
  repeat apply wp_bind. apply wp_emit, wp_await. intros _ ok _. apply wp_ret. apply wp_bind.
  eapply wp_mono; [apply wp_and; [apply timers_script_started_ok, Hs|apply always_wp, quiet_timers_script_started]|done|].
  simpl. intros m tr [Hm Hq]. apply wp_bind, wp_emit, wp_ret. split_and!; [|by destruct Hs|done|done].
  rewrite app_nil_r. constructor; [done|]. apply Forall_app. split; [done|]. by repeat constructor.
Qed.

(** Without a worker a message changes nothing about workers; with one, only [NonePending]
    does, and gives it back. *)
Lemma handle_worker_msg_spec s msg :
  core_ok s → wp True (handle_worker_msg s msg) (λ s' tr,
    core_ok s' ∧
    (same_frame s s' ∧ Forall quiet tr ∧
       (s_pending_acks s' = s_pending_acks s ∨ ∃ id, s_pending_acks s' = delete id (s_pending_acks s)) ∨
     ∃ w, s_current_worker s = Some w ∧ msg = NonePending ∧ s_pending_acks s = ∅ ∧
       s' = set_worker s None ∧ tr = [EReturnWorker w false])).
Proof.
  intros Hs.
  assert (∀ id, core_ok (set_acks s (delete id (s_pending_acks s)))) as Hdel.
  { intros id. apply core_ok_acks; [done|]. apply map_Forall_delete, Hs. }
  destruct msg as [id|meta| | | |entry| | |]; simpl; try (by apply wp_panic).
  - destruct (s_pending_acks s !! id) as [[[resp|]|tid|name]|] eqn:Hid.
    + apply wp_bind, wp_emit, wp_ret. split; [done|]. left. split_and!; [done| |eauto]. by repeat constructor.
    + apply wp_ret. split; [done|]. left. split_and!; [done|constructor|eauto].
    + apply wp_bind. eapply wp_mono; [apply always_wp, quiet_ack_triggered_task|done|]. simpl. intros m tr Hq.
      apply wp_ret. rewrite app_nil_r. split; [by destruct (Hdel id)|]. left. split_and!; [done|done|eauto].
    + apply wp_bind. eapply wp_mono; [apply wp_and; [apply timer_ack_ok, Hs|apply always_wp, quiet_timer_ack]|done|].
      simpl. intros m tr [Hm Hq]. apply wp_ret. rewrite app_nil_r.
      split; [by apply core_ok_timers|]. left. split_and!; [done|done|eauto].
    + apply wp_ret. split; [done|]. left. split_and!; [done|constructor|eauto].
  - eapply wp_mono; [by apply script_loaded_spec|done|]. simpl. intros s' tr (Hq & Hok & Hf & Ha).
    split; [done|]. left. split_and!; [done|done|eauto].
  - case_bool_decide as Ha.
    + destruct (s_current_worker s) as [w|] eqn:Hw.
      * apply wp_bind, wp_emit, wp_ret. split; [by destruct Hs|]. right. by exists w.
      * apply wp_ret. split; [done|]. left. split_and!; [done|constructor|eauto].
    + apply wp_ret. split; [done|]. left. split_and!; [done|constructor|eauto].
  - apply wp_ret. split; [by destruct Hs|]. left. split_and!; [done|constructor|eauto].
  - apply wp_bind, wp_emit, wp_ret. split; [done|]. left. split_and!; [done| |eauto]. by repeat constructor.
  - apply wp_bind, wp_emit, wp_ret. split; [done|]. left. split_and!; [done| |eauto]. by repeat constructor.
Qed.

Lemma handle_worker_msg_advance s msg :
  session_ok s → wp True (handle_worker_msg s msg) (λ s' tr, advance s tr s' ∧ session_ok s').
Proof.
  intros [Hc Hi]. eapply wp_mono; [by apply handle_worker_msg_spec|done|]. simpl.
  intros s' tr [Hc' [(Hf & Hq & Ha)|(w & Hw & _ & Ha & -> & ->)]].
  - split; [by apply same_frame_advance|]. split; [done|]. destruct Hf as [Hw _]. rewrite Hw.
    intros Hn. specialize (Hi Hn). destruct Ha as [-> | [id ->]]; [done|]. rewrite Hi. apply delete_empty.
  - split; [|by split]. split; simpl; [|by apply increasing_in_nil|done].
    rewrite Hw, bool_decide_true by done. done.
Qed.

Lemma drain_worker_spec s :
  core_ok s → s_current_worker s = None →
  wp True (drain_worker s) (λ s' tr, Forall quiet tr ∧ core_ok s' ∧ same_frame s s').
Proof.
  intros Hs Hw. unfold drain_worker.
  apply (wp_iter _ _ (λ s' tr, Forall quiet tr ∧ core_ok s' ∧ same_frame s s')); [done|].
  intros s1 tr (Hq & Hs1 & Hf). apply wp_bind, wp_await. intros _ [msg|] _; [|apply wp_ret; by rewrite app_nil_r].
  apply wp_bind. eapply wp_mono; [by apply handle_worker_msg_spec|done|]. simpl.
  intros s2 tr' [Hs2 [(Hf' & Hq' & _)|(w & Hw' & _)]].
  - apply wp_ret. rewrite app_nil_r. split_and!; [by apply Forall_app|done|].
    unfold same_frame in *. destruct_and!. split_and!; congruence.
  - destruct Hf as [Hf _]. congruence.
Qed.

(** Afterwards no worker is held and nothing is waited for or scheduled. *)
Lemma broken_worker_spec s :
  session_ok s → wp True (broken_worker s) (λ s' tr,
    advance s tr s' ∧ session_ok s' ∧ s_current_worker s' = None ∧ s_pending_acks s' = ∅ ∧
    s_scripts s' = s_scripts s).
Proof.
  intros [Hc Hi]. unfold broken_worker. destruct (s_current_worker s) as [w|] eqn:Hw.
  - apply wp_bind. eapply wp_mono; [apply drain_worker_spec; [by destruct Hc|done]|done|]. simpl.
    intros s1 tr (Hq & Hc1 & Hf). apply wp_bind, wp_emit, wp_ret. rewrite app_nil_r.
    destruct Hf as (Hw1 & Hid & Hg & Hp & Hsc & Hfo). simpl in *. split_and!; try done.
    + split; [|simpl; rewrite Hid|done].
      * rewrite Hw. erewrite own_run_app; [|by apply quiet_own]. simpl. rewrite bool_decide_true by done. by rewrite Hw1.
      * unfold sent_seqs. rewrite bind_app. fold (sent_seqs tr). rewrite quiet_seqs by done. by apply increasing_in_nil.
    + split; [|done]. apply core_ok_clear. by apply core_ok_reset.
  - apply wp_ret. split_and!; [apply advance_refl|split; [done|intros; by apply Hi]|done|by apply Hi|done].
Qed.

(** ** Claiming and dispatching *)

(** The session holds [w] from the pool, which its record does not show yet. *)
Lemma advance_claimed s tr s' w :
  s_current_worker s = None →
  own_run None tr = Some (Some w) → increasing_in (s_id_gen s) (sent_seqs tr) (s_id_gen s') →
  s_current_worker s' = Some w → s_guild_id s' = s_guild_id s → s_premium_tier s' = s_premium_tier s →
  advance s tr s'.
Proof. intros Hw Ho Hs Hw' Hg Hp. split; [by rewrite Hw, Hw'|done|done]. Qed.

Lemma u64_incr_spec v : match u64_incr v with Ret x => x = v + 1 | Panic => True end.
Proof. unfold u64_incr. by destruct (_ <? _). Qed.

Lemma session_gen_id_spec s :
  wp True (session_gen_id s) (λ r tr,
    tr = [] ∧ r.1 = s_id_gen s + 1 ∧ r.2 = set_id_gen s (s_id_gen s + 1)).
Proof.
  unfold session_gen_id. apply wp_bind, wp_lift. pose proof (u64_incr_spec (s_id_gen s)).
  destruct (u64_incr _) as [id|]; [|done]. subst id. by apply wp_ret.
Qed.

Lemma core_ok_gen s : core_ok s → core_ok (set_id_gen s (s_id_gen s + 1)).
Proof.
  intros [Ht Ha]. split; [done|]. simpl. intros id a Hid. specialize (Ha id a Hid). simpl in *. lia.
Qed.

Lemma increasing_in_one lo x hi : lo < x ≤ hi → increasing_in lo [x] hi.
Proof. intros. split_and!; [repeat constructor|by apply Forall_singleton|lia]. Qed.

Lemma claim_round_spec s :
  session_ok s → s_current_worker s = None → wp True (claim_round s) (λ r tr,
    match r with
    | inl s' => advance s tr s' ∧ session_ok s' ∧ s_current_worker s' = None ∧ s_scripts s' = s_scripts s
    | inr s' => advance s tr s' ∧ session_ok s' ∧ is_Some (s_current_worker s') ∧ s_scripts s' = s_scripts s
    end).
Proof.
  intros [Hc Hi] Hn. unfold claim_round, pool_req_worker. repeat apply wp_bind. apply wp_emit, wp_bind, wp_await.
  intros _ [w wr] _. apply wp_bind, wp_emit, wp_ret. simpl.
  destruct (should_send_scripts s wr).
  - apply wp_bind. eapply wp_mono; [apply session_gen_id_spec|done|].
    intros [seq s2] tr' (-> & Hseq & Hs2). cbn [fst snd] in Hseq, Hs2. subst seq.
    apply wp_bind. unfold send_worker. apply wp_bind, wp_emit, wp_await. intros _ ok _. simpl.
    assert (core_ok s2) as Hc2 by (subst s2; by apply core_ok_gen, core_ok_reset, core_ok_clear).
    assert (own_run None [EReqWorker (tier_option (s_premium_tier s)); EGotWorker w;
        ESend (worker_id w) (create_vm_req s2 (s_id_gen s + 1))] = Some (Some w)) as Hown.
    { simpl. by rewrite Z.eqb_refl. }
    assert (increasing_in (s_id_gen s) [s_id_gen s + 1] (s_id_gen s2)) as Hinc.
    { subst s2. apply increasing_in_one. simpl. lia. }
    destruct ok.
    + apply wp_ret. simpl. split_and!; [|split; [by destruct Hc2|done]|eauto|by subst s2].
      subst s2. by eapply advance_claimed.
    + apply wp_bind, wp_emit, wp_ret. simpl.
      assert (s_current_worker s2 = None) as Hn2 by by subst s2.
      split_and!; [|split; [done|by subst s2]|done|by subst s2].
      split; [|done|by subst s2].
      rewrite Hn, Hn2. simpl. rewrite Z.eqb_refl. by rewrite bool_decide_true.
  - apply wp_ret. simpl. split_and!; [|split; [by destruct Hc|done]|eauto|done].
    eapply advance_claimed; [done|done| |done..]. by apply increasing_in_nil.
Qed.

Lemma ensure_claim_worker_spec s :
  session_ok s → wp True (ensure_claim_worker s) (λ s' tr,
    advance s tr s' ∧ session_ok s' ∧ is_Some (s_current_worker s') ∧ s_scripts s' = s_scripts s).
Proof.
  intros Hs. unfold ensure_claim_worker. destruct (s_current_worker s) as [w|] eqn:Hw.
  { apply wp_ret. split_and!; [apply advance_refl|done|rewrite Hw; eauto|done]. }
  apply (wp_iter _ _ (λ s' tr, advance s tr s' ∧ session_ok s' ∧ s_current_worker s' = None ∧
    s_scripts s' = s_scripts s)); [split_and!; [apply advance_refl|done..]|].
  intros s1 tr (Ha & Hs1 & Hn & Hsc). eapply wp_mono; [by apply claim_round_spec|done|].
  intros [s2|s2] tr2 (Ha2 & Hs2 & Hw2 & Hsc2); (split_and!; [by eapply advance_trans|done|done|congruence]).
Qed.

(** One round either has the event pending at the worker, or starts over. *)
Lemma dispatch_round_spec t data ack s :
  session_ok s → wp True (dispatch_round t data ack s) (λ r tr,
    match r with
    | inl s' => advance s tr s' ∧ session_ok s' ∧ s_scripts s' = s_scripts s
    | inr s' => advance s tr s' ∧ session_ok s' ∧ s_scripts s' = s_scripts s ∧
        is_Some (s_current_worker s') ∧ s_pending_acks s' !! s_id_gen s' = Some ack ∧
        ∃ w tr0, s_current_worker s' = Some w ∧
          tr = tr0 ++ [ESend (worker_id w) (Dispatch (mkDispatch t (s_id_gen s') data))]
    end).
Proof.
  intros Hs. unfold dispatch_round. apply wp_bind.
  eapply wp_mono; [by apply ensure_claim_worker_spec|done|]. simpl.
  intros s1 tr1 (Ha1 & [Hc1 Hi1] & [w Hw] & Hsc1). apply wp_bind.
  eapply wp_mono; [apply session_gen_id_spec|done|]. intros [id s2] tr2 (-> & Hseq & Hs2). cbn [fst snd] in Hseq, Hs2. subst id.
  assert (s_current_worker s2 = Some w) as -> by by subst s2.
  apply wp_bind. unfold send_worker. apply wp_bind, wp_emit, wp_await. intros _ ok _. simpl.
  assert (core_ok s2) as Hc2 by (subst s2; by apply core_ok_gen).
  assert (advance s1 [ESend (worker_id w) (Dispatch (mkDispatch t (s_id_gen s1 + 1) data))] s2) as Ha2.
  { subst s2. split; [|apply increasing_in_one; simpl; lia|done]. simpl. rewrite Hw. simpl. by rewrite Z.eqb_refl. }
  destruct ok.
  - apply wp_ret. simpl. split_and!.
    + eapply advance_trans; [exact Ha1|]. destruct Ha2. by split.
    + split; [|subst s2; simpl; congruence]. apply core_ok_acks; [done|].
      apply map_Forall_insert_2; [subst s2; simpl; lia|apply Hc2].
    + by subst s2.
    + subst s2. simpl. eauto.
    + subst s2. simpl. apply lookup_insert_eq.
    + subst s2. simpl. eauto.
  - apply wp_bind. eapply wp_mono; [apply broken_worker_spec; split; [done|subst s2; simpl; congruence]|done|].
    simpl. intros s3 tr3 (Ha3 & Hs3 & _ & _ & Hsc3). apply wp_bind, wp_emit, wp_ret.
    split_and!; [|done|subst s2; simpl in *; congruence].
    eapply advance_trans; [exact Ha1|]. simpl.
    change (?x :: tr3 ++ ?y) with ([x] ++ (tr3 ++ y)). eapply advance_trans; [exact Ha2|].
    eapply advance_trans; [exact Ha3|]. apply same_frame_advance; [done|]. by repeat constructor.
Qed.

Lemma dispatch_worker_evt_spec t data ack s :
  session_ok s → wp True (dispatch_worker_evt t data ack s) (λ s' tr,
    advance s tr s' ∧ session_ok s' ∧ s_scripts s' = s_scripts s ∧
    (s_scripts s = [] ∧ s' = s ∧ tr = [] ∨
     s_scripts s ≠ [] ∧ s_pending_acks s' !! s_id_gen s' = Some ack ∧
     ∃ w tr0, s_current_worker s' = Some w ∧
       tr = tr0 ++ [ESend (worker_id w) (Dispatch (mkDispatch t (s_id_gen s') data))])).
Proof.
  intros Hs. unfold dispatch_worker_evt. destruct (s_scripts s) as [|sc scs] eqn:Hsc.
  { apply wp_ret. split_and!; [apply advance_refl|done|done|by left]. }
  apply (wp_iter _ _ (λ s' tr, advance s tr s' ∧ session_ok s' ∧ s_scripts s' = s_scripts s));
    [split_and!; [apply advance_refl|done..]|].
  intros s1 tr (Ha & Hs1 & Hsc1). eapply wp_mono; [by apply dispatch_round_spec|done|].
  intros [s2|s2] tr2; simpl.
  - intros (Ha2 & Hs2 & Hsc2). split_and!; [by eapply advance_trans|done|congruence].
  - intros (Ha2 & Hs2 & Hsc2 & _ & Hack & w & tr0 & Hw & ->).
    split_and!; [by eapply advance_trans|done|congruence|]. right. split_and!; [done|done|].
    exists w, (tr ++ tr0). split; [done|]. by rewrite app_assoc.
Qed.

(** ** The remaining operations *)

Lemma try_retry_load_spec s :
  wp True (try_retry_load_guild_scripts s) (λ s' tr,
    Forall quiet tr ∧ ∃ l, s' = set_scripts s (List.filter script_enabled l)).
Proof.
  unfold try_retry_load_guild_scripts.
  apply (wp_iter _ _ (λ s' tr, Forall quiet tr ∧ s' = s)); [done|].
  intros s1 tr [Hq ->]. apply wp_bind. unfold list_scripts. apply wp_bind, wp_emit, wp_await.
  intros _ [l|] _.
  - apply wp_ret. split; [|eauto]. apply Forall_app. split; [done|]. by repeat constructor.
  - apply wp_bind, wp_emit, wp_ret. split; [|done]. apply Forall_app. split; [done|]. by repeat constructor.
Qed.

Lemma load_contribs_spec s :
  session_ok s → wp True (load_contribs s) (λ s' tr,
    advance s tr s' ∧ session_ok s' ∧ s_scripts s' = s_scripts s).
Proof.
  intros [Hc Hi]. unfold load_contribs. apply wp_bind.
  eapply wp_mono; [apply session_gen_id_spec|done|]. intros [id s1] tr (-> & Hid & Hs1).
  cbn [fst snd] in Hid, Hs1. subst id.
  assert (session_ok s1) as Hok1 by (subst s1; split; [by apply core_ok_gen|done]).
  assert (s_current_worker s1 = s_current_worker s) as Hw1 by by subst s1.
  assert (advance s [] s1) as Ha1 by (subst s1; apply advance_quiet; simpl; [constructor|done|lia|done|done]).
  destruct (s_current_worker s1) as [w|] eqn:Hw.
  - apply wp_bind. unfold send_worker. apply wp_bind, wp_emit, wp_await. intros _ ok _.
    assert (advance s [ESend (worker_id w) (create_vm_req s1 (s_id_gen s + 1))] s1) as Ha.
    { subst s1. split; [|apply increasing_in_one; simpl; lia|done]. simpl. rewrite <- Hw1. simpl. by rewrite Z.eqb_refl. }
    destruct ok; [apply wp_ret; split_and!; [done|done|by subst s1]|].
    eapply wp_mono; [by apply broken_worker_spec|done|]. intros s2 tr2 (Ha2 & Hs2 & _ & _ & Hsc).
    split_and!; [exact (advance_trans _ _ _ _ _ Ha Ha2)|done|subst s1; simpl in *; congruence].
  - assert (session_ok (reset_contribs s1)) as Hr.
    { destruct Hok1. split; [by apply core_ok_reset|done]. }
    assert (advance s [] (reset_contribs s1)) as Har.
    { apply (advance_trans s [] s1 []); [done|]. by apply same_frame_advance. }
    assert (s_scripts s1 = s_scripts s) as Hsc1 by by subst s1.
    change (s_scripts (reset_contribs s1)) with (s_scripts s1). rewrite Hsc1.
    destruct (s_scripts s) as [|x l] eqn:Hsc.
    { apply wp_ret. split_and!; [done|done|]. done. }
    eapply wp_mono; [apply (ensure_claim_worker_spec (set_force (reset_contribs s1) true))|done|].
    { destruct Hr as [[] ?]. by split. }
    intros s2 tr2 (Ha2 & Hs2 & _ & Hsc2). split_and!; [|done|simpl in Hsc2; congruence].
    apply (advance_trans s [] (set_force (reset_contribs s1) true)); [|done].
    apply (advance_trans s [] (reset_contribs s1) []); [done|]. by apply advance_quiet.
Qed.

Lemma reload_guild_scripts_spec s :
  session_ok s → wp True (reload_guild_scripts s) (λ s' tr,
    advance s tr s' ∧ session_ok s' ∧ Forall (λ sc, script_enabled sc = true) (s_scripts s')).
Proof.
  intros [Hc Hi]. unfold reload_guild_scripts. apply wp_bind.
  eapply wp_mono; [apply try_retry_load_spec|done|]. simpl. intros s1 tr1 (Hq & l & ->).
  eapply wp_mono; [apply load_contribs_spec; split; [by destruct Hc|done]|done|].
  simpl. intros s2 tr2 (Ha & Hs & Hsc). split_and!; [|done|].
  - eapply advance_trans; [|exact Ha]. by apply advance_quiet.
  - rewrite Hsc. apply Forall_forall. intros x Hx. apply list_elem_of_In, filter_In in Hx. by destruct Hx.
Qed.

Lemma dispatch_all_spec {A} (f : Session → A → io Session) (l : list A) s :
  (∀ s x, session_ok s → wp True (f s x) (λ s' tr, advance s tr s' ∧ session_ok s')) →
  session_ok s → wp True (afold f l s) (λ s' tr, advance s tr s' ∧ session_ok s').
Proof.
  intros Hf Hs.
  apply (wp_afold _ _ (λ _ s' tr, advance s tr s' ∧ session_ok s')); [by split; [apply advance_refl|]| |done].
  intros x l' s1 tr [Ha Hs1]. eapply wp_mono; [by apply Hf|done|]. intros s2 tr2 [Ha2 Hs2].
  split; [by eapply advance_trans|done].
Qed.

Lemma dispatch_advance t data ack s :
  session_ok s → wp True (dispatch_worker_evt t data ack s) (λ s' tr, advance s tr s' ∧ session_ok s').
Proof.
  intros Hs. eapply wp_mono; [by apply dispatch_worker_evt_spec|done|]. by intros s' tr (? & ? & _).
Qed.

(** A quiet read followed by an operation. *)
Lemma advance_after_quiet s tr s1 tr' s' :
  Forall quiet tr → same_frame s s1 → advance s1 tr' s' → advance s (tr ++ tr') s'.
Proof. intros Hq Hf Ha. eapply advance_trans; [by apply same_frame_advance|done]. Qed.

Lemma handle_action_spec s a :
  session_ok s → wp True (handle_action s a) (λ r tr, advance s tr r.1 ∧ session_ok r.1).
Proof.
  intros Hs. pose proof Hs as [Hc Hi].
  assert (∀ (m : io Session), wp True m (λ s' tr, advance s tr s' ∧ session_ok s') →
    wp True (let! s' := m in aret (s', None : option VmSessionEvent)) (λ r tr, advance s tr r.1 ∧ session_ok r.1)) as Hret.
  { intros m Hm. apply wp_bind. eapply wp_mono; [exact Hm|done|]. intros s' tr H'. apply wp_ret. by rewrite app_nil_r. }
  destruct a as [[msg|]| |]; simpl.
  - destruct msg; try (by apply Hret, handle_worker_msg_advance).
    apply wp_bind, wp_emit, wp_ret. simpl. split.
    + apply same_frame_advance; [done|]. by repeat constructor.
    + split; [|done]. by apply core_ok_clear, core_ok_reset.
  - apply Hret. eapply wp_mono; [by apply broken_worker_spec|done|]. by intros s' tr (? & ? & _).
  - apply wp_bind. eapply wp_mono; [apply always_wp, quiet_start_triggered_tasks|done|]. simpl. intros [m l] tr Hq.
    apply wp_bind. eapply wp_mono; [apply (dispatch_all_spec dispatch_scheduled_task l (set_tasks s m))|done|].
    + intros. by apply dispatch_advance.
    + split; [by destruct Hc|done].
    + simpl. intros s' tr' [Ha Hs']. apply wp_ret. rewrite app_nil_r. split; [|done].
      eapply advance_after_quiet; [exact Hq| |exact Ha]. done.
  - apply wp_bind. eapply wp_mono; [apply wp_and; [apply (trigger_timers_ok (s_timers s)), Hc|apply always_wp, quiet_trigger_timers]|done|].
    simpl. intros [m l] tr [Hm Hq].
    apply wp_bind. eapply wp_mono; [apply (dispatch_all_spec dispatch_interval_timer l (set_timers s m))|done|].
    + intros. by apply dispatch_advance.
    + split; [by apply core_ok_timers|done].
    + simpl. intros s' tr' [Ha Hs']. apply wp_ret. rewrite app_nil_r. split; [|done].
      eapply advance_after_quiet; [exact Hq| |exact Ha]. done.
Qed.

Lemma shutdown_round_spec s :
  session_ok s → wp True (shutdown_round s) (λ r tr,
    match r with
    | inl s' => advance s tr s' ∧ session_ok s'
    | inr s' => advance s tr s' ∧ session_ok s' ∧ s_current_worker s' = None
    end).
Proof.
  intros Hs. unfold shutdown_round. destruct (s_current_worker s) as [w|] eqn:Hw;
    [|apply wp_ret; split_and!; [apply advance_refl|done|done]].
  apply wp_bind. eapply wp_mono; [apply always_wp, quiet_session_next_action|done|]. simpl. intros a tr Hq.
  assert (advance s tr s) as Ha by by apply same_frame_advance.
  destruct a as [[msg|]| |].
  - apply wp_bind. eapply wp_mono; [by apply handle_worker_msg_advance|done|]. simpl. intros s' tr' [Ha' Hs'].
    apply wp_ret. rewrite app_nil_r. split; [by eapply advance_trans|done].
  - apply wp_bind. eapply wp_mono; [by apply broken_worker_spec|done|]. simpl. intros s' tr' (Ha' & Hs' & Hw' & _).
    apply wp_ret. rewrite app_nil_r. split_and!; [by eapply advance_trans|done|done].
  - apply wp_ret. by rewrite app_nil_r.
  - apply wp_ret. by rewrite app_nil_r.
Qed.

Lemma shutdown_begin_spec s :
  session_ok s → wp True (match s_current_worker s with
                          | Some worker => let! ok := send_worker worker Complete in if ok then aret s else broken_worker s
                          | None => aret s
                          end) (λ s' tr, advance s tr s' ∧ session_ok s').
Proof.
  intros Hs. destruct (s_current_worker s) as [w|] eqn:Hw; [|by apply wp_ret; split; [apply advance_refl|]].
  apply wp_bind. unfold send_worker. apply wp_bind, wp_emit, wp_await. intros _ ok _.
  assert (advance s [ESend (worker_id w) Complete] s) as Ha.
  { split; [|by apply increasing_in_nil|done]. rewrite Hw. simpl. by rewrite Z.eqb_refl. }
  destruct ok; [by apply wp_ret|]. eapply wp_mono; [by apply broken_worker_spec|done|].
  intros s' tr (Ha' & Hs' & _). split; [exact (advance_trans _ _ _ _ _ Ha Ha')|done].
Qed.

Lemma session_shutdown_spec s :
  session_ok s → wp True (session_shutdown s) (λ s' tr,
    advance s tr s' ∧ session_ok s' ∧ s_current_worker s' = None).
Proof.
  intros Hs. unfold session_shutdown. apply wp_bind. eapply wp_mono; [by apply shutdown_begin_spec|done|].
  simpl. intros s1 tr1 [Ha1 Hs1].
  apply (wp_iter _ _ (λ s' tr, advance s (tr1 ++ tr) s' ∧ session_ok s')); [by rewrite app_nil_r|].
  intros s2 tr2 [Ha2 Hs2]. eapply wp_mono; [by apply shutdown_round_spec|done|].
  intros [s3|s3] tr3; rewrite app_assoc.
  - intros [Ha3 Hs3]. split; [by eapply advance_trans|done].
  - intros (Ha3 & Hs3 & Hw3). split_and!; [by eapply advance_trans|done|done].
Qed.

(** ** Runs that do not complete

    The protocol's state is the worker held and the last sequence number; a session is at the
    one its record shows between operations. *)
#[global] Instance worker_protocol : Protocol Ev (option WorkerHandle * Z).
Proof.
  refine {| legal σ tr σ' := own_run σ.1 tr = Some σ'.1 ∧ increasing_in σ.2 (sent_seqs tr) σ'.2 |}.
  - intros [h id]. split; [done|]. by apply increasing_in_nil.
  - intros [h id] tr [h' id'] tr' [h'' id''] [Ho Hs] [Ho' Hs']; simpl in *. split; [by rewrite (own_run_app _ _ _ _ Ho)|].
    unfold sent_seqs. rewrite bind_app. by eapply increasing_in_app.
Defined.

Definition stand (s : Session) : option WorkerHandle * Z := (s_current_worker s, s_id_gen s).

Lemma legal_advance s tr s' : advance s tr s' → legal (stand s) tr (stand s').
Proof. by intros [Ho Hs _]. Qed.

Lemma legal_quiet (σ : option WorkerHandle * Z) tr : Forall quiet tr → legal σ tr σ.
Proof. intros Hq. split; [by apply quiet_own|]. rewrite quiet_seqs by done. by apply increasing_in_nil. Qed.

Lemma safe_quiet {A} (σ : option WorkerHandle * Z) (m : io A) : quiet_io m → safe σ m.
Proof. apply safe_always, legal_quiet. Qed.

(** An operation of the session, and what follows it. *)
Lemma safe_step {A B} s (m : io A) (k : A → io B) (next : A → Session) (P : A → Prop) :
  safe (stand s) m → wp True m (λ a tr, advance s tr (next a) ∧ P a) →
  (∀ a, P a → safe (stand (next a)) (k a)) → safe (stand s) (abind m k).
Proof.
  intros Hm Hw Hk. apply safe_bind; [done|]. eapply wp_mono; [exact Hw|done|]. intros a tr [Ha HP].
  exists (stand (next a)). split; [by apply legal_advance|by apply Hk].
Qed.

Lemma safe_quiet_bind {A B} (σ : option WorkerHandle * Z) (m : io A) (k : A → io B) :
  quiet_io m → (∀ a, safe σ (k a)) → safe σ (abind m k).
Proof.
  intros Hm Hk. apply safe_bind; [by apply safe_quiet|]. eapply wp_mono; [by apply always_wp|done|].
  intros a tr Hq. exists σ. split; [by apply legal_quiet|done].
Qed.

Lemma send_worker_spec w m : wp True (send_worker w m) (λ _ tr, tr = [ESend (worker_id w) m]).
Proof. unfold send_worker. apply wp_bind, wp_emit, wp_await. by intros _ ok _. Qed.

Lemma legal_send w id m id' :
  increasing_in id (ev_seq (ESend (worker_id w) m)) id' →
  legal (Some w, id) [ESend (worker_id w) m] (Some w, id').
Proof. intros Hi. split; [simpl; by rewrite Z.eqb_refl|]. unfold sent_seqs. cbn [mbind list_bind]. by rewrite app_nil_r. Qed.

(** A message to the worker that is held, and what is done about its outcome. *)
Lemma safe_send {B} w id m id' (k : bool → io B) :
  increasing_in id (ev_seq (ESend (worker_id w) m)) id' →
  (∀ ok, safe (Some w, id') (k ok)) → safe (Some w, id) (abind (send_worker w m) k).
Proof.
  intros Hi Hk. pose proof (legal_send w id m id' Hi) as Hl. apply safe_bind.
  - unfold send_worker. apply safe_bind; [apply safe_emit|]. apply wp_emit. exists (Some w, id').
    split; [done|apply safe_await].
  - eapply wp_mono; [apply send_worker_spec|done|]. intros ok tr ->. eauto.
Qed.

Lemma quiet_script_loaded s evt : quiet_io (script_loaded s evt).
Proof.
  unfold script_loaded, update_db_contribs, update_script_contributes.
  repeat (apply always_bind; [|intros]); [always_tac..| |always_tac|always_tac]. apply quiet_timers_script_started.
Qed.

Lemma quiet_session_gen_id s : quiet_io (session_gen_id s).
Proof. unfold session_gen_id. always_tac. Qed.

(** All messages but the one that returns the worker. *)
Lemma handle_worker_msg_quiet s msg :
  s_current_worker s = None ∨ msg ≠ NonePending → quiet_io (handle_worker_msg s msg).
Proof.
  intros Hn. destruct msg; simpl; try by always_tac.
  - destruct (s_pending_acks s !! _) as [[[]|tid|name]|]; try by always_tac.
    apply always_bind; [apply quiet_timer_ack|intros; apply always_ret].
  - apply quiet_script_loaded.
  - case_bool_decide; [|apply always_ret]. destruct Hn as [-> |]; [apply always_ret|done].
Qed.

Lemma handle_worker_msg_safe s msg σ : safe σ (handle_worker_msg s msg).
Proof.
  destruct msg; try (apply safe_quiet, handle_worker_msg_quiet; by right).
  simpl. case_bool_decide; [|apply safe_ret]. destruct (s_current_worker s); [apply safe_map, safe_emit|apply safe_ret].
Qed.

(** While the queue of a worker that broke is drained the worker is still held, which the
    session's record no longer shows. *)
Lemma drain_worker_safe σ s : core_ok s → s_current_worker s = None → safe σ (drain_worker s).
Proof.
  intros Hs Hw. unfold drain_worker.
  apply (safe_iter (λ s' σ', core_ok s' ∧ s_current_worker s' = None ∧ σ' = σ)); [done|..].
  - intros s1 σ1 _. apply safe_quiet_bind; [apply always_await|].
    intros [msg|]; [apply safe_map, handle_worker_msg_safe|apply safe_ret].
  - intros s1 σ1 (Hs1 & Hw1 & ->). apply wp_bind, wp_await. intros _ [msg|] _; [|by apply wp_ret].
    apply wp_bind. eapply wp_mono; [by apply handle_worker_msg_spec|done|]. simpl.
    intros s2 tr [Hs2 [(Hf & Hq & _)|(w & Hw' & _)]]; [|congruence]. apply wp_ret. rewrite app_nil_r.
    exists σ. split; [by apply legal_quiet|]. destruct Hf as [Hf _]. split_and!; [done|congruence|done].
Qed.

Lemma broken_worker_safe s : session_ok s → safe (stand s) (broken_worker s).
Proof.
  intros [Hc Hi]. unfold broken_worker. destruct (s_current_worker s) as [w|] eqn:Hw; [|apply safe_ret].
  assert (core_ok (set_worker s None)) as Hc' by by destruct Hc.
  apply safe_bind; [by apply drain_worker_safe|]. eapply wp_mono; [by apply drain_worker_spec|done|].
  intros s1 tr (Hq & _). exists (stand s). split; [by apply legal_quiet|]. apply safe_map, safe_emit.
Qed.

Lemma pool_req_worker_spec tier :
  wp True (pool_req_worker tier) (λ r tr, tr = [EReqWorker tier; EGotWorker r.1]).
Proof.
  unfold pool_req_worker. apply wp_bind, wp_emit, wp_bind, wp_await. intros _ [w wr] _.
  by apply wp_bind, wp_emit, wp_ret.
Qed.

Lemma pool_req_worker_safe σ tier : safe σ (pool_req_worker tier).
Proof.
  unfold pool_req_worker. apply safe_quiet_bind; [by apply always_emit|]. intros _.
  apply safe_quiet_bind; [apply always_await|]. intros [w wr]. apply safe_map, safe_emit.
Qed.

Lemma claim_round_safe s : s_current_worker s = None → safe (stand s) (claim_round s).
Proof.
  intros Hw. unfold claim_round. apply safe_bind; [apply pool_req_worker_safe|].
  eapply wp_mono; [apply pool_req_worker_spec|done|]. simpl. intros [w wr] tr ->. exists (Some w, s_id_gen s).
  split; [unfold stand; rewrite Hw; split; [done|by apply increasing_in_nil]|].
  destruct (should_send_scripts s wr); [|apply safe_ret].
  apply safe_bind; [apply safe_quiet, quiet_session_gen_id|].
  eapply wp_mono; [apply session_gen_id_spec|done|]. intros [seq s1] tr (-> & Hseq & Hs1). simpl in Hseq, Hs1.
  exists (Some w, s_id_gen s). split; [apply legal_refl|].
  apply (safe_send _ _ _ seq); [apply increasing_in_one; simpl; lia|].
  intros []; [apply safe_ret|apply safe_map, safe_emit].
Qed.

Lemma ensure_claim_worker_safe s : session_ok s → safe (stand s) (ensure_claim_worker s).
Proof.
  intros Hs. unfold ensure_claim_worker. destruct (s_current_worker s) eqn:Hw; [apply safe_ret|].
  apply (safe_iter (λ s' σ, session_ok s' ∧ s_current_worker s' = None ∧ σ = stand s')); [done|..].
  - intros s1 σ (_ & Hw1 & ->). by apply claim_round_safe.
  - intros s1 σ (Hs1 & Hw1 & ->). eapply wp_mono; [by apply claim_round_spec|done|].
    intros [s2|s2] tr; [|done]. intros (Ha & Hs2 & Hw2 & _). exists (stand s2). by split; [apply legal_advance|].
Qed.

Lemma safe_gen {B} σ s (k : Z * Session → io B) :
  safe σ (k (s_id_gen s + 1, set_id_gen s (s_id_gen s + 1))) → safe σ (abind (session_gen_id s) k).
Proof.
  intros Hk. apply safe_bind; [apply safe_quiet, quiet_session_gen_id|].
  eapply wp_mono; [apply session_gen_id_spec|done|]. intros [n s1] tr (-> & Hn & Hs1). simpl in Hn, Hs1. subst.
  exists σ. split; [apply legal_refl|done].
Qed.

(** A message under a fresh number [n] to the worker that the session [s'] holds. *)
Lemma safe_send_next {B} s s' w m (k : bool → io B) :
  s_current_worker s = Some w → s' = set_id_gen s (s_id_gen s + 1) →
  ev_seq (ESend (worker_id w) m) = [s_id_gen s + 1] →
  (∀ ok, safe (stand s') (k ok)) → safe (stand s) (abind (send_worker w m) k).
Proof.
  intros Hw -> Hm Hk. unfold stand in *. rewrite Hw. apply (safe_send _ _ _ (s_id_gen s + 1)).
  - rewrite Hm. apply increasing_in_one. lia.
  - simpl in Hk. by rewrite Hw in Hk.
Qed.

Lemma session_ok_gen s : session_ok s → session_ok (set_id_gen s (s_id_gen s + 1)).
Proof. intros [Hc Hi]. split; [by apply core_ok_gen|done]. Qed.

Lemma dispatch_round_safe t data ack s : session_ok s → safe (stand s) (dispatch_round t data ack s).
Proof.
  intros Hs. unfold dispatch_round.
  apply (safe_step _ _ _ (λ s', s') (λ s', session_ok s' ∧ is_Some (s_current_worker s'))).
  - by apply ensure_claim_worker_safe.
  - eapply wp_mono; [by apply ensure_claim_worker_spec|done|]. by intros s1 tr (? & ? & ? & _).
  - intros s1 [Hs1 [w Hw]]. apply safe_gen. cbn [s_current_worker set_id_gen]. rewrite Hw.
    eapply (safe_send_next _ _ w); [done|reflexivity|done|]. intros []; [apply safe_ret|].
    apply (safe_step _ _ _ (λ s', s') (λ _, True)); [by apply broken_worker_safe, session_ok_gen| |].
    + eapply wp_mono; [by apply broken_worker_spec, session_ok_gen|done|]. by intros s2 tr (? & _).
    + intros s2 _. apply safe_map, safe_emit.
Qed.

Lemma dispatch_worker_evt_safe t data ack s : session_ok s → safe (stand s) (dispatch_worker_evt t data ack s).
Proof.
  intros Hs. unfold dispatch_worker_evt. destruct (s_scripts s); [apply safe_ret|].
  apply (safe_iter (λ s' σ, session_ok s' ∧ σ = stand s')); [done|..].
  - intros s1 σ [Hs1 ->]. by apply dispatch_round_safe.
  - intros s1 σ [Hs1 ->]. eapply wp_mono; [by apply dispatch_round_spec|done|].
    intros [s2|s2] tr; [|done]. intros (Ha & Hs2 & _). exists (stand s2). by split; [apply legal_advance|].
Qed.

Lemma load_contribs_safe s : session_ok s → safe (stand s) (load_contribs s).
Proof.
  intros Hs. unfold load_contribs. apply safe_gen. cbn [s_current_worker set_id_gen].
  destruct (s_current_worker s) as [w|] eqn:Hw.
  - eapply (safe_send_next _ _ w); [done|reflexivity|done|].
    intros []; [apply safe_ret|by apply broken_worker_safe, session_ok_gen].
  - set (s1 := reset_contribs _). destruct (s_scripts s1); [apply safe_ret|].
    assert (session_ok (set_force s1 true)) as Hs1.
    { destruct Hs as [Hc Hi]. destruct (core_ok_reset _ (core_ok_gen _ Hc)). by split. }
    eapply safe_from; [|by apply ensure_claim_worker_safe]. split; [done|]. apply increasing_in_nil. simpl. lia.
Qed.

Lemma try_retry_load_quiet s : quiet_io (try_retry_load_guild_scripts s).
Proof. unfold try_retry_load_guild_scripts, list_scripts, sleep. always_tac. Qed.

Lemma set_scripts_ok s l : session_ok s → session_ok (set_scripts s l).
Proof. intros [[] Hi]. by split; [split|]. Qed.

Lemma reload_guild_scripts_safe s : session_ok s → safe (stand s) (reload_guild_scripts s).
Proof.
  intros Hs. unfold reload_guild_scripts. apply safe_bind; [apply safe_quiet, try_retry_load_quiet|].
  eapply wp_mono; [apply try_retry_load_spec|done|]. intros s1 tr (Hq & l & ->). exists (stand s).
  split; [by apply legal_quiet|]. exact (load_contribs_safe _ (set_scripts_ok s _ Hs)).
Qed.

Lemma dispatch_all_safe {A} (f : Session → A → io Session) (l : list A) s :
  (∀ s x, ∃ t data ack, f s x = dispatch_worker_evt t data ack s) →
  session_ok s → safe (stand s) (afold f l s).
Proof.
  intros Hf Hs. apply (safe_afold (λ s' σ, session_ok s' ∧ σ = stand s')); [done|..];
    intros s1 σ x [Hs1 ->]; destruct (Hf s1 x) as (t & data & ack & ->).
  - by apply dispatch_worker_evt_safe.
  - eapply wp_mono; [by apply dispatch_advance|done|]. intros s2 tr [Ha Hs2]. exists (stand s2).
    by split; [apply legal_advance|].
Qed.

Lemma handle_action_safe s a : session_ok s → safe (stand s) (handle_action s a).
Proof.
  intros Hs. pose proof Hs as [Hc Hi]. destruct a as [[msg|]| |]; simpl.
  - destruct msg; try apply safe_map, handle_worker_msg_safe. apply safe_map, safe_emit.
  - by apply safe_map, broken_worker_safe.
  - apply safe_quiet_bind; [apply quiet_start_triggered_tasks|]. intros [m l]. apply safe_map.
    apply (dispatch_all_safe _ l (set_tasks s m)); [unfold dispatch_scheduled_task; eauto|]. split; [by destruct Hc|done].
  - apply safe_bind; [apply safe_quiet, quiet_trigger_timers|].
    eapply wp_mono; [apply wp_and; [apply (trigger_timers_ok (s_timers s)), Hc|apply always_wp, quiet_trigger_timers]|done|].
    intros [m l] tr [Hm Hq]. simpl in Hm. exists (stand s). split; [by apply legal_quiet|]. apply safe_map.
    apply (dispatch_all_safe _ l (set_timers s m)); [unfold dispatch_interval_timer; eauto|].
    split; [by apply core_ok_timers|done].
Qed.

Lemma shutdown_round_safe s : session_ok s → safe (stand s) (shutdown_round s).
Proof.
  intros Hs. unfold shutdown_round. destruct (s_current_worker s); [|apply safe_ret].
  apply safe_quiet_bind; [apply quiet_session_next_action|].
  intros [[msg|]| |]; [apply safe_map, handle_worker_msg_safe|by apply safe_map, broken_worker_safe|apply safe_ret..].
Qed.

Lemma session_shutdown_safe s : session_ok s → safe (stand s) (session_shutdown s).
Proof.
  intros Hs. unfold session_shutdown. apply (safe_step _ _ _ (λ s', s') session_ok).
  - destruct (s_current_worker s) as [w|] eqn:Hw; [|apply safe_ret].
    unfold stand at 1. rewrite Hw. apply (safe_send _ _ _ (s_id_gen s)); [by apply increasing_in_nil|].
    rewrite <- Hw. intros []; [apply safe_ret|by apply broken_worker_safe].
  - by apply shutdown_begin_spec.
  - intros s1 Hs1. apply (safe_iter (λ s' σ, session_ok s' ∧ σ = stand s')); [done|..].
    + intros s2 σ [Hs2 ->]. by apply shutdown_round_safe.
    + intros s2 σ [Hs2 ->]. eapply wp_mono; [by apply shutdown_round_spec|done|].
      intros [s3|s3] tr; [|done]. intros (Ha & Hs3). exists (stand s3). by split; [apply legal_advance|].
Qed.

(** ** Loops that end *)

Lemma claim_round_uses s : uses 1 (claim_round s).
Proof.
  unfold claim_round, pool_req_worker, session_gen_id, send_worker, pool_return_worker.
  apply (uses_bind 1 0).
  - apply (uses_bind 0 1); [apply uses_emit|intros _]. apply (uses_bind 1 0); [apply uses_await|intros [w wr]]. uses_tac.
  - intros [w wr]. uses_tac.
Qed.

Lemma claim_round_consuming : consuming claim_round.
Proof. apply uses_consuming, claim_round_uses. Qed.

Lemma ensure_claim_unfold s tape :
  s_current_worker s = None →
  ensure_claim_worker s tape = abind (claim_round s) (λ r, match r with inl s' => iter claim_round s' | inr a => aret a end) tape.
Proof.
  intros Hw. unfold ensure_claim_worker. rewrite Hw. apply iter_unfold, claim_round_consuming.
Qed.

(** The session as a vm creation request to a fresh worker leaves it. *)
Definition creating (s : Session) : Session :=
  set_id_gen (reset_contribs (set_acks s ∅)) (s_id_gen s + 1).

Lemma u64_incr_Ret v : v < u64_max → u64_incr v = Ret (v + 1).
Proof. intros Hv. unfold u64_incr. by rewrite (proj2 (Z.ltb_lt _ _) Hv). Qed.

Lemma claim_round_run s w wr ok tape :
  should_send_scripts s wr = true → s_id_gen s < u64_max →
  claim_round s (RWorker w wr :: RSent ok :: tape) =
  let calls := [EReqWorker (tier_option (s_premium_tier s)); EGotWorker w;
                ESend (worker_id w) (create_vm_req (creating s) (s_id_gen s + 1))] in
  if ok then Done (inr (set_worker (set_force (creating s) false) (Some w))) tape calls
  else Done (inl (creating s)) tape (calls ++ [EReturnWorker w true]).
Proof.
  intros Hsend Hid. unfold claim_round, pool_req_worker, send_worker, pool_return_worker.
  unfold abind, emit, await, prepend, aret. cbn [app]. rewrite Hsend.
  unfold session_gen_id. cbn [s_id_gen reset_contribs set_acks set_timers set_tasks].
  rewrite u64_incr_Ret by done. destruct ok; reflexivity.
Qed.

Definition returned_broken (tr : list Ev) : list WorkerHandle :=
  tr ≫= (λ e, match e with EReturnWorker w true => [w] | _ => [] end).

(** *** Workers that fail

    A worker may be gone when it is asked to run the guild's vm, or when it is sent the event. *)
Inductive Failure := AtRequest | AtDispatch.

(** The session that has claimed a worker, and the calls for it. *)
Definition claimed (s : Session) (w : WorkerHandle) (wr : WorkerRetrieved) : Session :=
  set_worker (set_force (if should_send_scripts s wr then creating s else s) false) (Some w).
Definition claim_calls (s : Session) (w : WorkerHandle) (wr : WorkerRetrieved) : list Ev :=
  [EReqWorker (tier_option (s_premium_tier s)); EGotWorker w] ++
  if should_send_scripts s wr then [ESend (worker_id w) (create_vm_req (creating s) (s_id_gen s + 1))] else [].
Definition claim_answers (s : Session) (w : WorkerHandle) (wr : WorkerRetrieved) : list Resp :=
  RWorker w wr :: if should_send_scripts s wr then [RSent true] else [].

(** The session whose worker did not take the event, and had sent nothing more. *)
Definition worker_lost (s : Session) : Session := set_acks (reset_contribs (set_worker (set_id_gen s (s_id_gen s + 1)) None)) ∅.

Section dispatching.
Context (t : string) (data : JsonValue) (ack : PendingAck).
Notation attempt := (dispatch_round t data ack).

Definition sent_event (s : Session) (w : WorkerHandle) : Ev := ESend (worker_id w) (Dispatch (mkDispatch t (s_id_gen s + 1) data)).

Lemma dispatch_round_run s w tape :
  s_current_worker s = Some w → s_id_gen s < u64_max →
  attempt s (RSent true :: tape) =
  Done (inr (set_acks (set_id_gen s (s_id_gen s + 1)) (<[s_id_gen s + 1 := ack]> (s_pending_acks s)))) tape [sent_event s w].
Proof.
  intros Hw Hid. unfold dispatch_round, ensure_claim_worker. rewrite Hw, abind_ret.
  unfold session_gen_id. rewrite u64_incr_Ret by done. rewrite abind_assoc, abind_lift, abind_ret.
  cbn [s_current_worker set_id_gen]. rewrite Hw. reflexivity.
Qed.

Lemma dispatch_round_fails s w tape :
  s_current_worker s = Some w → s_id_gen s < u64_max →
  attempt s (RSent false :: RTryRecv None :: tape) =
  Done (inl (worker_lost s)) tape [sent_event s w; EReturnWorker w true; ESleep (from_secs 1)].
Proof.
  intros Hw Hid. unfold dispatch_round, ensure_claim_worker. rewrite Hw, abind_ret.
  unfold session_gen_id. rewrite u64_incr_Ret by done. rewrite abind_assoc, abind_lift, abind_ret.
  cbn [s_current_worker set_id_gen]. rewrite Hw. unfold send_worker. rewrite abind_assoc, abind_emit.
  rewrite (abind_await _ _ _ false) by done. unfold broken_worker. cbn [s_current_worker set_id_gen]. rewrite Hw. reflexivity.
Qed.

Lemma claim_round_claims s w wr tape :
  s_id_gen s < u64_max → claim_round s (claim_answers s w wr ++ tape) = Done (inr (claimed s w wr)) tape (claim_calls s w wr).
Proof.
  intros Hid. unfold claim_answers, claimed, claim_calls. destruct (should_send_scripts s wr) eqn:Hsend.
  - cbn [app]. by rewrite claim_round_run.
  - unfold claim_round, pool_req_worker, abind, emit, await, prepend, aret. cbn [app]. by rewrite Hsend.
Qed.

(** Claiming a worker is the first part of a round. *)
Lemma dispatch_round_claims s w wr tape :
  s_current_worker s = None → s_id_gen s < u64_max →
  attempt s (claim_answers s w wr ++ tape) = prepend (claim_calls s w wr) (attempt (claimed s w wr) tape).
Proof.
  intros Hw Hid. unfold dispatch_round. unfold abind at 1. rewrite ensure_claim_unfold by done. unfold abind at 1.
  rewrite claim_round_claims by done. change (ensure_claim_worker (claimed s w wr)) with (aret (Resp := Resp) (Ev := Ev) (claimed s w wr)).
  rewrite abind_ret. cbn [prepend aret]. by rewrite app_nil_r.
Qed.

Lemma dispatch_round_refused s w wr tape :
  s_current_worker s = None → s_id_gen s < u64_max → should_send_scripts s wr = true →
  attempt s (RWorker w wr :: RSent false :: tape) =
  prepend (claim_calls s w wr ++ [EReturnWorker w true]) (attempt (creating s) tape).
Proof.
  intros Hw Hid Hsend. unfold dispatch_round. unfold abind at 1. rewrite ensure_claim_unfold by done. unfold abind at 1.
  rewrite claim_round_run by done. assert (ensure_claim_worker (creating s) = iter claim_round (creating s)) as Hc.
  { unfold ensure_claim_worker. assert (s_current_worker (creating s) = None) as -> by exact Hw. done. }
  rewrite Hc. unfold claim_calls. rewrite Hsend. cbn [app].
  match goal with |- _ = prepend _ (abind _ ?K _) => set (k := K) end. unfold abind.
  destruct (iter claim_round (creating s) tape) as [s1 rest tr|tr|tr]; [|done..]. cbn [prepend]. by rewrite <- prepend_app.
Qed.

Lemma uses_handle_worker_msg s m : uses 0 (handle_worker_msg s m).
Proof.
  unfold handle_worker_msg, script_loaded, update_db_contribs, update_script_contributes, handle_metric, pool_return_worker,
    timers_script_started, ack_triggered_task, timer_ack, delete_until_ok, del_task_by_id, update_next_run, update_interval_timer,
    get_all_interval_timers, init_timer, sleep, ask_now, update_interval_timer. uses_tac.
Qed.

Lemma dispatch_round_consuming : consuming attempt.
Proof.
  apply uses_consuming. intros s.
  assert (∀ s, uses 0 (broken_worker s)) as Hb.
  { intros s0. unfold broken_worker, drain_worker, pool_return_worker, try_recv. destruct (s_current_worker s0); [|apply uses_ret].
    apply (uses_bind 0 0); [|intros; uses_tac]. apply uses_iter. intros s1. apply (uses_bind 0 0); [apply (uses_weaken 1 0); [apply uses_await|lia]|].
    intros [m|]; [|apply uses_ret]. apply (uses_bind 0 0); [apply uses_handle_worker_msg|]. intros. apply uses_ret. }
  unfold dispatch_round. destruct (s_current_worker s) as [w|] eqn:Hw.
  - intros tape. unfold ensure_claim_worker. rewrite Hw, abind_ret. revert tape. change (uses 1 (let! (evt_id, s) := session_gen_id s in
      match s_current_worker s with
      | Some worker =>
          let! ok := send_worker worker (Dispatch (mkDispatch t evt_id data)) in
          if ok then aret (inr (set_acks s (<[evt_id := ack]> (s_pending_acks s))))
          else let! s := broken_worker s in let! _ := sleep (from_secs 1) in aret (inl s)
      | None => aret (inl s)
      end)).
    intros tape. unfold session_gen_id. rewrite abind_assoc. destruct (u64_incr (s_id_gen s)) as [n|]; [|done].
    rewrite abind_lift, abind_ret. cbn [s_current_worker set_id_gen]. rewrite Hw. revert tape. apply (uses_bind 1 0).
    + unfold send_worker. apply (uses_bind 0 1); [apply uses_emit|]. intros. apply uses_await.
    + intros []; [apply uses_ret|]. apply (uses_bind 0 0); [apply Hb|]. intros. unfold sleep. uses_tac.
  - apply (uses_bind 1 0).
    + intros tape. rewrite ensure_claim_unfold by done. revert tape. apply (uses_bind 1 0); [apply claim_round_uses|].
      intros [s'|]; [|apply uses_ret]. apply uses_iter. intros. apply (uses_weaken 1 0); [apply claim_round_uses|lia].
    + intros s1. unfold session_gen_id, send_worker, sleep. uses_tac. apply Hb.
Qed.

(** A round that goes on. *)
Lemma dispatch_goes_on s s' tape rest calls :
  attempt s tape = Done (inl s') rest calls → iter attempt s tape = prepend calls (iter attempt s' rest).
Proof. intros Hr. rewrite iter_unfold by apply dispatch_round_consuming. unfold abind. by rewrite Hr. Qed.

Lemma dispatch_prefix s s' tape rest calls :
  attempt s tape = prepend calls (attempt s' rest) → iter attempt s tape = prepend calls (iter attempt s' rest).
Proof.
  intros Hr. rewrite !iter_unfold by apply dispatch_round_consuming. unfold abind. rewrite Hr.
  destruct (attempt s' rest) as [a rest' tr'| |]; [|done..]. simpl. by rewrite prepend_app.
Qed.

(** The workers that fail, one after the other, and the last one. *)
Fixpoint answers_of (s : Session) (l : list (WorkerHandle * WorkerRetrieved * Failure)) (w : WorkerHandle) (wr : WorkerRetrieved)
    : list Resp :=
  match l with
  | [] => claim_answers s w wr ++ [RSent true]
  | (w0, wr0, f) :: l =>
      if match f with AtRequest => should_send_scripts s wr0 | AtDispatch => false end
      then RWorker w0 wr0 :: RSent false :: answers_of (creating s) l w wr
      else claim_answers s w0 wr0 ++ RSent false :: RTryRecv None :: answers_of (worker_lost (claimed s w0 wr0)) l w wr
  end.

(** The session still has its scripts and has its event pending at a worker. *)
Record dispatched_at (s : Session) (w : WorkerHandle) (broken : list WorkerHandle) (s' : Session) (tr : list Ev) : Prop := {
  da_worker : s_current_worker s' = Some w;
  da_pending : s_pending_acks s' !! s_id_gen s' = Some ack;
  da_scripts : s_scripts s' = s_scripts s;
  da_broken : returned_broken tr = broken;
  da_last : last tr = Some (ESend (worker_id w) (Dispatch (mkDispatch t (s_id_gen s') data)));
}.

Lemma dispatched_after s s1 w broken broken1 s' calls tr :
  s_scripts s1 = s_scripts s → returned_broken calls = broken1 →
  dispatched_at s1 w broken s' tr → dispatched_at s w (broken1 ++ broken) s' (calls ++ tr).
Proof.
  intros Hs Hc [Hw Hp Hsc Hb Hl]. split; [done|done|congruence| |].
  - unfold returned_broken in *. by rewrite bind_app, Hb, Hc.
  - by rewrite last_app, Hl.
Qed.

Lemma claimed_scripts s w wr : s_scripts (claimed s w wr) = s_scripts s.
Proof. unfold claimed. by destruct (should_send_scripts s wr). Qed.
Lemma claimed_id s w wr : s_id_gen s ≤ s_id_gen (claimed s w wr) ≤ s_id_gen s + 1.
Proof. unfold claimed. destruct (should_send_scripts s wr); simpl; lia. Qed.
Lemma claim_calls_broken s w wr : returned_broken (claim_calls s w wr) = [].
Proof. unfold claim_calls. by destruct (should_send_scripts s wr). Qed.

Lemma dispatch_outlasts l s w wr tape :
  s_current_worker s = None → s_id_gen s + 2 * (Z.of_nat (length l) + 1) ≤ u64_max →
  ∃ s' tr, iter attempt s (answers_of s l w wr ++ tape) = Done s' tape tr ∧ dispatched_at s w l.*1.*1 s' tr.
Proof.
  revert s. induction l as [|[[w0 wr0] f] l IH]; intros s Hw Hid.
  - simpl in Hid. pose proof (claimed_id s w wr) as Hc. eexists _, _. cbn [answers_of]. rewrite <- app_assoc.
    rewrite (dispatch_prefix _ _ _ _ _ (dispatch_round_claims s w wr _ Hw ltac:(lia))). cbn [app].
    rewrite iter_unfold by apply dispatch_round_consuming. unfold abind.
    rewrite (dispatch_round_run _ w) by (try done; lia). cbn [prepend aret]. rewrite app_nil_r. split; [reflexivity|].
    split; [done|apply lookup_insert_eq|apply claimed_scripts| |by rewrite last_app].
    unfold returned_broken. rewrite bind_app. fold (returned_broken (claim_calls s w wr)). by rewrite claim_calls_broken.
  - cbn [answers_of]. rewrite length_cons in Hid. destruct (match f with AtRequest => should_send_scripts s wr0 | AtDispatch => false end) eqn:Hf.
    + assert (should_send_scripts s wr0 = true) as Hsend by by destruct f.
      rewrite <- !app_comm_cons, (dispatch_prefix _ _ _ _ _ (dispatch_round_refused s w0 wr0 _ Hw ltac:(lia) Hsend)).
      destruct (IH (creating s) Hw) as (s' & tr & -> & Hd); [cbn [creating s_id_gen set_id_gen]; lia|]. eexists _, _. split; [done|].
      apply (dispatched_after s (creating s) w _ [w0]); [done| |done].
      unfold returned_broken. rewrite bind_app. fold (returned_broken (claim_calls s w0 wr0)). by rewrite claim_calls_broken.
    + pose proof (claimed_id s w0 wr0) as Hc. rewrite <- app_assoc.
      rewrite (dispatch_prefix _ _ _ _ _ (dispatch_round_claims s w0 wr0 _ Hw ltac:(lia))). rewrite <- !app_comm_cons.
      rewrite (dispatch_goes_on _ _ _ _ _ (dispatch_round_fails (claimed s w0 wr0) w0 _ eq_refl ltac:(lia))).
      destruct (IH (worker_lost (claimed s w0 wr0)) eq_refl) as (s' & tr & -> & Hd).
      { cbn [worker_lost s_id_gen set_id_gen set_worker reset_contribs set_acks set_timers set_tasks]. lia. }
      eexists _, _. cbn [prepend]. split; [done|]. rewrite app_assoc.
      apply (dispatched_after s (worker_lost (claimed s w0 wr0)) w _ [w0]); [apply claimed_scripts| |done].
      unfold returned_broken. rewrite bind_app. fold (returned_broken (claim_calls s w0 wr0)). by rewrite claim_calls_broken.
Qed.

(** The worker that is held at first may be gone as well. *)
Definition session_answers (s : Session) (l : list (WorkerHandle * WorkerRetrieved * Failure)) (w : WorkerHandle) (wr : WorkerRetrieved)
    : list Resp :=
  match s_current_worker s with
  | None => answers_of s l w wr
  | Some _ => RSent false :: RTryRecv None :: answers_of (worker_lost s) l w wr
  end.

Lemma dispatch_reaches_worker l s w wr tape :
  s_scripts s ≠ [] → s_id_gen s + 2 * (Z.of_nat (length l) + 2) ≤ u64_max →
  ∃ s' tr, dispatch_worker_evt t data ack s (session_answers s l w wr ++ tape) = Done s' tape tr ∧
    dispatched_at s w (option_list (s_current_worker s) ++ l.*1.*1) s' tr.
Proof.
  intros Hsc Hid. unfold dispatch_worker_evt, session_answers. destruct (s_scripts s) as [|x scs]; [done|]. clear Hsc.
  destruct (s_current_worker s) as [w0|] eqn:Hw; [|apply dispatch_outlasts; [done|lia]].
  rewrite <- !app_comm_cons, (dispatch_goes_on _ _ _ _ _ (dispatch_round_fails s w0 _ Hw ltac:(lia))).
  destruct (dispatch_outlasts l (worker_lost s) w wr tape eq_refl) as (s' & tr & -> & Hd).
  { cbn [worker_lost s_id_gen set_id_gen set_worker reset_contribs set_acks set_timers set_tasks]. lia. }
  eexists _, _. split; [done|]. by apply (dispatched_after s (worker_lost s) w _ [w0]).
Qed.
End dispatching.
(** ** The loop of [shutdown] *)

Lemma next_action_due s t tape :
  next_task_time (s_tasks s) = Some (Some t) → (∀ now, RNow now ∈ tape → t < now) →
  (∃ tr, session_next_action s tape = Suspended tr) ∨
  ∃ now tape', tape = RNow now :: tape' ∧ session_next_action s tape = Done ACheckScheduledTasks tape' [].
Proof.
  intros Ht Hnow. unfold session_next_action, read_tasks_action, ask_now. rewrite Ht, abind_assoc.
  destruct tape as [|r tape]; [left; by eexists|].
  destruct r as [now| | | | | | | | | | | | |]; try (left; by eexists). right. exists now, tape. split; [done|].
  rewrite (abind_await _ _ _ now) by done. rewrite abind_ret. unfold tasks_next_action. rewrite Ht.
  rewrite bool_decide_true by (apply Hnow; by left). reflexivity.
Qed.

Lemma shutdown_round_due s w t tape :
  s_current_worker s = Some w → next_task_time (s_tasks s) = Some (Some t) →
  (∀ now, RNow now ∈ tape → t < now) →
  (∃ tr, shutdown_round s tape = Suspended tr) ∨
  ∃ now tape', tape = RNow now :: tape' ∧ shutdown_round s tape = Done (inl s) tape' [].
Proof.
  intros Hw Ht Hnow. unfold shutdown_round, abind. rewrite Hw.
  destruct (next_action_due s t tape Ht Hnow) as [[tr ->]|(now & tape' & -> & ->)]; [left; eauto|].
  right. exists now, tape'. done.
Qed.

Lemma shutdown_loop_due s w t n tape :
  s_current_worker s = Some w → next_task_time (s_tasks s) = Some (Some t) →
  (∀ now, RNow now ∈ tape → t < now) → ∃ tr, iter_fuel n shutdown_round s tape = Suspended tr.
Proof.
  intros Hw Ht. revert tape. induction n as [|n IH]; intros tape Hnow; simpl; [eauto|]. unfold abind.
  destruct (shutdown_round_due s w t tape Hw Ht Hnow) as [[tr ->]|(now & tape' & -> & ->)]; [eauto|].
  destruct (IH tape') as [tr ->]; [|by eexists]. intros now' Hin. apply Hnow. by right.
Qed.

Lemma load_round_consuming :
  consuming (λ s : Session,
    let! r := list_scripts in
    match r with
    | Some scripts => aret (inr (set_scripts s (List.filter script_enabled scripts)))
    | None => let! _ := sleep (from_secs 10) in aret (inl s)
    end).
Proof.
  apply uses_consuming. intros s. unfold list_scripts, sleep. apply (uses_bind 1 0).
  - apply (uses_bind 0 1); [apply uses_emit|intros _; apply uses_await].
  - intros r. uses_tac.
Qed.

(** A session without timers or tasks that has sent [Complete] and hears from its worker. *)
Lemma next_action_message s w m tape :
  s_current_worker s = Some w → next_task_time (s_tasks s) = None → loaded_intervals (s_timers s) = ∅ →
  session_next_action s (RAction (AWorkerMessage m) :: tape) =
  Done (AWorkerMessage m) tape [ESleep (from_secs 3600); ESleep (from_secs 3600)].
Proof.
  intros Hw Ht Hl. unfold session_next_action, read_tasks_action, read_timers_action. rewrite Ht.
  rewrite (next_event_time_empty _ Hl). unfold select_action. rewrite Hw. done.
Qed.

Lemma shutdown_receives s w m tape :
  s_current_worker s = Some w → next_task_time (s_tasks s) = None → loaded_intervals (s_timers s) = ∅ →
  session_shutdown s (RSent true :: RAction (AWorkerMessage (Some m)) :: tape) =
  prepend [ESend (worker_id w) Complete; ESleep (from_secs 3600); ESleep (from_secs 3600)]
    ((let! s' := handle_worker_msg s m in iter_fuel (S (length tape)) shutdown_round s') tape).
Proof.
  intros Hw Ht Hl. unfold session_shutdown, send_worker. rewrite Hw.
  unfold abind at 1. unfold abind at 1. unfold abind at 1. unfold emit, await, aret. cbn [prepend app].
  unfold iter. cbn [iter_fuel length]. unfold abind at 1. unfold shutdown_round at 1. rewrite Hw.
  unfold abind at 1. rewrite (next_action_message s w) by done. cbn [prepend]. unfold abind.
  destruct (handle_worker_msg s m tape) as [s1 rest tr| |]; [|done..]. cbn [prepend aret].
  by rewrite app_nil_r, <- !prepend_app.
Qed.

(** It panics when the worker reports that its vm was shut down. *)
Lemma session_shutdown_vm_shutdown s w reason tape :
  s_current_worker s = Some w → next_task_time (s_tasks s) = None → loaded_intervals (s_timers s) = ∅ →
  session_shutdown s (RSent true :: RAction (AWorkerMessage (Some (WmShutdown reason))) :: tape) =
  Panicked [ESend (worker_id w) Complete; ESleep (from_secs 3600); ESleep (from_secs 3600)].
Proof. intros Hw Ht Hl. by rewrite (shutdown_receives s w). Qed.

(** It completes when the worker has nothing pending. *)
Lemma session_shutdown_none_pending s w tape :
  s_current_worker s = Some w → s_pending_acks s = ∅ → next_task_time (s_tasks s) = None →
  loaded_intervals (s_timers s) = ∅ →
  session_shutdown s (RSent true :: RAction (AWorkerMessage (Some NonePending)) :: tape) =
  Done (set_worker s None) tape
    [ESend (worker_id w) Complete; ESleep (from_secs 3600); ESleep (from_secs 3600); EReturnWorker w false].
Proof.
  intros Hw Ha Ht Hl. rewrite (shutdown_receives s w) by done. unfold handle_worker_msg.
  rewrite bool_decide_true by done. by rewrite Hw.
Qed.

(** * Properties *)

(** Dispatching an event, whatever fails on the way. When the call completes and the guild
    has scripts, the last thing it did was to send the event, under the newest sequence
    number, to the worker the session holds, and the acknowledgement is pending under that
    number; without scripts nothing happens. The calls follow the worker protocol and the
    session's invariant is kept. *)
Theorem dispatch_pending_at_worker t data ack s :
  session_ok s → wp True (dispatch_worker_evt t data ack s) (λ s' tr,
    advance s tr s' ∧ session_ok s' ∧
    (s_scripts s = [] ∧ s' = s ∧ tr = [] ∨
     s_scripts s ≠ [] ∧ s_pending_acks s' !! s_id_gen s' = Some ack ∧
     ∃ w tr0, s_current_worker s' = Some w ∧
       tr = tr0 ++ [ESend (worker_id w) (Dispatch (mkDispatch t (s_id_gen s') data))])).
Proof.
  intros Hs. eapply wp_mono; [by apply dispatch_worker_evt_spec|done|]. simpl.
  intros s' tr (Ha & Hs' & _ & Hc). auto.
Qed.

(** C17: An event is delivered once a worker works. A session with scripts, whatever worker it
    holds, gets any number of workers that fail: their connection is gone when they are asked to
    run the guild's vm, or only when they are sent the event, and so may be that of the worker it
    holds. It returns each of them as broken, goes on with the next, and with the first one that
    takes what it is sent the call completes: the last thing it did was to send that worker the
    event, whose acknowledgement it expects. *)
Theorem dispatch_outlasts_broken_workers t data ack s l w wr tape :
  s_scripts s ≠ [] → s_id_gen s + 2 * (Z.of_nat (length l) + 2) ≤ u64_max →
  ∃ s' tr, dispatch_worker_evt t data ack s (session_answers s l w wr ++ tape) = Done s' tape tr ∧
    s_current_worker s' = Some w ∧ s_pending_acks s' !! s_id_gen s' = Some ack ∧
    returned_broken tr = option_list (s_current_worker s) ++ l.*1.*1 ∧
    last tr = Some (ESend (worker_id w) (Dispatch (mkDispatch t (s_id_gen s') data))).
Proof.
  intros Hsc Hid. destruct (dispatch_reaches_worker t data ack l s w wr tape Hsc Hid) as (s' & tr & Hrun & [Hw Hp _ Hb Hl]).
  by exists s', tr.
Qed.

(** Reloading gets through: however often the store fails, the session asks again ten
    seconds later, and with the first answer it goes on to load the contributions with
    exactly the enabled scripts of that answer, in order. *)
Theorem reload_retries_until_loaded s n l tape :
  reload_guild_scripts s (replicate n (RListScripts None) ++ RListScripts (Some l) :: tape) =
  prepend (concat (replicate n [EListScripts; ESleep (from_secs 10)]) ++ [EListScripts])
    (load_contribs (set_scripts s (List.filter script_enabled l)) tape).
Proof.
  unfold reload_guild_scripts, abind.
  assert (try_retry_load_guild_scripts s (replicate n (RListScripts None) ++ RListScripts (Some l) :: tape) =
    Done (set_scripts s (List.filter script_enabled l)) tape
      (concat (replicate n [EListScripts; ESleep (from_secs 10)]) ++ [EListScripts])) as ->; [|done].
  unfold try_retry_load_guild_scripts. induction n as [|n IH];
    (rewrite iter_unfold by apply load_round_consuming); [done|].
  rewrite abind_assoc. unfold list_scripts. rewrite abind_assoc, abind_emit. cbn [replicate app].
  rewrite (abind_await _ _ _ None) by done. rewrite abind_assoc. unfold sleep. rewrite abind_emit, abind_ret.
  unfold list_scripts, sleep in IH. rewrite IH. done.
Qed.

(** A session that has completed its shutdown holds no worker, has returned the one it
    held and waits for nothing; and with no timer or task of its own and nothing to wait for
    it does complete when its worker reports that nothing is pending, having told it to
    finish and returned it unbroken. *)
Theorem shutdown_gives_worker_back s :
  session_ok s →
  wp True (session_shutdown s) (λ s' tr,
    own_run (s_current_worker s) tr = Some None ∧ s_current_worker s' = None ∧ s_pending_acks s' = ∅) ∧
  ∀ w tape, s_current_worker s = Some w → s_pending_acks s = ∅ → next_task_time (s_tasks s) = None →
    loaded_intervals (s_timers s) = ∅ →
    ∃ tr, session_shutdown s (RSent true :: RAction (AWorkerMessage (Some NonePending)) :: tape) =
        Done (set_worker s None) tape tr ∧ head tr = Some (ESend (worker_id w) Complete) ∧
      last tr = Some (EReturnWorker w false).
Proof.
  intros Hs. split.
  - eapply wp_mono; [by apply session_shutdown_spec|done|]. simpl.
    intros s' tr ([Ho _ _] & [_ Hi] & Hw). rewrite Hw in Ho. auto.
  - intros w tape Hw Ha Ht Hl. rewrite (session_shutdown_none_pending s w) by done. by eexists.
Qed.

(** The shutdown of a session that holds a worker does not end when a scheduled task is
    due: whatever the worker sends, as long as the clock reads past the task's time the
    session only rereads the clock. *)
Theorem shutdown_spins_while_task_due s w t tape :
  s_current_worker s = Some w → next_task_time (s_tasks s) = Some (Some t) →
  (∀ now, RNow now ∈ tape → t < now) →
  ∃ tr, session_shutdown s (RSent true :: tape) = Suspended tr.
Proof.
  intros Hw Ht Hnow. unfold session_shutdown, send_worker. rewrite Hw.
  unfold abind at 1. unfold abind at 1. unfold abind at 1. unfold emit, await, aret. simpl.
  destruct (shutdown_loop_due s w t (S (length tape)) tape Hw Ht Hnow) as [tr Htr].
  unfold iter. rewrite Htr. by eexists.
Qed.

End session.

(** * Runs *)

Definition ex_worker (id : Z) : WorkerHandle := mkWorkerHandle None 0 0 id 0.
Definition ex_script (id : Z) (enabled : bool) : Script :=
  mkScript id "s" "" enabled (mkContributes [] []) None None.

Notation ex_session := (Session (H := ex_calendar)).
Definition ex_new : ex_session := session_new (H := ex_calendar) 7 (Fetched None).
Definition ex_loaded (worker : option WorkerHandle) : ex_session :=
  set_worker (set_scripts ex_new [ex_script 1 true]) worker.

Lemma ex_session_ok worker : session_ok (ex_loaded worker).
Proof.
  split; [|done]. split; [|apply map_Forall_empty]. split; simpl; [done|constructor|].
  intros n Hn. by apply not_elem_of_nil in Hn.
Qed.

Lemma dispatch_pending_at_worker_witness :
  session_ok (ex_loaded None) ∧
  wp True (dispatch_worker_evt "MESSAGE_CREATE" JNull (PaDispatch None) (ex_loaded None))
    (λ s' _, session_ok s').
Proof.
  split; [apply ex_session_ok|].
  eapply wp_mono; [apply dispatch_pending_at_worker; apply ex_session_ok|done|].
  by intros s' tr (_ & Hs & _).
Defined.

(** The worker held fails with the event, the next one with the request for the vm, and the third
    one, which has the guild's vm, with the event again. *)
Lemma dispatch_outlasts_broken_workers_witness :
  ∃ s' tr,
    dispatch_worker_evt "MESSAGE_CREATE" JNull (PaDispatch None) (ex_loaded (Some (ex_worker 3)))
      [RSent false; RTryRecv None; RWorker (ex_worker 4) OtherGuild; RSent false;
       RWorker (ex_worker 5) SameGuild; RSent false; RTryRecv None; RWorker (ex_worker 6) OtherGuild; RSent true; RSent true] =
      Done s' [] tr ∧ s_current_worker s' = Some (ex_worker 6) ∧ returned_broken tr = [ex_worker 3; ex_worker 4; ex_worker 5].
Proof.
  destruct (dispatch_outlasts_broken_workers (H := ex_calendar) "MESSAGE_CREATE" JNull
    (PaDispatch None) (ex_loaded (Some (ex_worker 3))) [(ex_worker 4, OtherGuild, AtRequest); (ex_worker 5, SameGuild, AtDispatch)]
    (ex_worker 6) OtherGuild []) as (s' & tr & Hrun & Hw & _ & Hb & _).
  - done.
  - vm_compute. discriminate.
  - exists s', tr. split; [exact Hrun|split; [exact Hw|exact Hb]].
Defined.

Lemma shutdown_gives_worker_back_witness :
  session_ok (ex_loaded (Some (ex_worker 5))) ∧
  wp True (session_shutdown (HashOrder0 := list_order) (ex_loaded (Some (ex_worker 5))))
    (λ s' _, s_current_worker s' = None) ∧
  ∃ tr, session_shutdown (HashOrder0 := list_order) (ex_loaded (Some (ex_worker 5)))
      [RSent true; RAction (AWorkerMessage (Some NonePending))] = Done (ex_loaded None) [] tr.
Proof.
  destruct (shutdown_gives_worker_back (HashOrder0 := list_order) (ex_loaded (Some (ex_worker 5)))) as [Hw Hd].
  { apply ex_session_ok. }
  split_and!; [apply ex_session_ok| |].
  - eapply wp_mono; [exact Hw|done|]. by intros s' tr (_ & Hs & _).
  - destruct (Hd (ex_worker 5) []) as (tr & Htr & _); [reflexivity..|]. by exists tr.
Defined.

(** The shutdown of a session does complete: the worker finishes with [NonePending]. *)
Example shutdown_completes :
  session_shutdown (HashOrder0 := list_order) (ex_loaded (Some (ex_worker 5)))
    [RSent true; RAction (AWorkerMessage (Some NonePending))] =
  Done (ex_loaded None) [] [ESend 5 Complete; ESleep (from_secs 3600); ESleep (from_secs 3600);
                            EReturnWorker (ex_worker 5) false].
Proof. reflexivity. Qed.

Definition ex_due : ex_session := set_tasks (ex_loaded (Some (ex_worker 5))) (mkTasks (Some (Some 10)) [] []).

Lemma shutdown_spins_while_task_due_witness :
  ∃ tr, session_shutdown (HashOrder0 := list_order) ex_due
    (RSent true :: replicate 3 (RNow 11) ++ [RAction (AWorkerMessage (Some NonePending))]) = Suspended tr.
Proof.
  apply (shutdown_spins_while_task_due (HashOrder0 := list_order) ex_due (ex_worker 5) 10); [reflexivity..|].
  intros now Hin. repeat (apply elem_of_cons in Hin as [[= ->] | Hin]; [lia|]).
  apply elem_of_cons in Hin as [Hin | Hin]; [done|by apply elem_of_nil in Hin].
Defined.

(** ** A timer that fires twice *)

Definition dispatched (tr : list Ev) : list string :=
  tr ≫= (λ e, match e with ESend _ (Dispatch d) => [de_name d] | _ => [] end).

(** The due timers are triggered without a worker at hand, the script starts, and the session
    takes its next action. *)
Definition cold_start `{Calendar} `{!HashOrder string} (s : Session) (meta : ScriptMeta) : io Session :=
  let! (s, _) := handle_action s ACheckIntervalTimers in
  let! (s, _) := handle_action s (AWorkerMessage (Some (ScriptStarted meta))) in
  let! a := session_next_action s in
  let! (s, _) := handle_action s a in
  aret s.

(** A timer that becomes due while the session has no worker is dispatched twice for one due
    time: claiming a worker for another guild's vm forgets that it is pending, and the
    script's start loads it again with its old last run. *)
Lemma cold_timer_fires_twice :
  let s := set_timers (ex_loaded None) (ex_timers []) in
  let now := 6 * nanos_per_minute in
  let meta := mkScriptMeta "" 1 [] [] [mkScriptTimer "tick" (Minutes 5)] [] in
  let stored := mkIntervalTimer "tick" (Minutes 5) 0 in
  ∃ s' tr, cold_start (HashOrder0 := list_order) s meta
      [RNow now; RWorker (ex_worker 5) OtherGuild; RSent true; RSent true;
       RContribsUpdated true; RAllTimers (Some [stored]); RTimerUpdated (Some stored);
       RNow now; RNow now; RSent true] = Done s' [] tr ∧
    dispatched tr = ["BOTLOADER_INTERVAL_TIMER_FIRED"; "BOTLOADER_INTERVAL_TIMER_FIRED"].
Proof. vm_compute. by eexists _, _. Qed.
