(* ===== verification/GuildHandler.v ===== *)
(** The handler of one guild ([cmd/scheduler/src/guild_handler.rs]): it fetches the guild's
    premium tier, starts the vm session, and then alternates between commands of the
    scheduler and actions of the session until it is told to stop or the vm was shut down.

    The handler's state is its session: the premium tier it shares with the session is the
    session's [s_premium_tier]. *)
From stdpp Require Import base gmap list strings sorting.
From S2P Require Import Prelude Models WorkerPool Commands World IntervalTimers ScheduledTasks VmSession.

Section handler.
Context `{Calendar} `{!HashOrder string}.

Inductive NextGuildAction :=
| NVmAction (a : NextAction)
| NGuildCommand (c : GuildCommand).

Definition set_premium_tier (s : Session) (t : PremiumTierState) : Session :=
  mkSession (s_guild_id s) t (s_timers s) (s_tasks s) (s_pending_acks s)
    (s_current_worker s) (s_force_load_scripts_next s) (s_scripts s) (s_id_gen s).

(** The loop over the slots. *)
Definition highest_tier (slots : list PremiumSlot) : option PremiumSlotTier :=
  fold_left (λ highest slot,
    match highest with
    | Some current_highest =>
        if is_higher_than (slot_tier slot) current_highest then Some (slot_tier slot) else highest
    | None => Some (slot_tier slot)
    end) slots None.

Definition fetch_premium_tier (s : Session) : io Session :=
  let s := set_premium_tier s Unknown in
  let! r := get_guild_premium_slots in
  match r with
  | Some slots => aret (set_premium_tier s (Fetched (highest_tier slots)))
  | None => aret s
  end.

Definition handle_broker_event (s : Session) (evt : GuildEvent) : io Session :=
  match ge_kind evt with
  | GuildCreate => aret s
  | GuildDelete => apanic
  | OtherDispatch => send_discord_guild_event s evt
  end.

Definition handle_guild_command (s : Session) (cmd : GuildCommand) : io Session :=
  match cmd with
  | BrokerEvent evt => handle_broker_event s evt
  | ReloadScripts => reload_guild_scripts s
  | GcShutdown => apanic
  | PurgeCache => aret s
  end.

(** [None] when the scheduler has dropped its sender. *)
Definition next_event (s : Session) : io (Session * option NextGuildAction) :=
  let! s := init_timers s in
  let! r := race (λ r, match r with RGuildCommand c => Some c | _ => None end) (session_next_action s) in
  match r with
  | inl c => aret (s, NGuildCommand <$> c)
  | inr a => aret (s, Some (NVmAction a))
  end.

(** One round of the loop of [run]. *)
Definition handler_round (s : Session) : io (Session + Session) :=
  let! (s, next) := next_event s in
  match next with
  | None => aret (inr s)
  | Some (NGuildCommand GcShutdown) => aret (inr s)
  | Some (NGuildCommand cmd) => let! s := handle_guild_command s cmd in aret (inl s)
  | Some (NVmAction action) =>
      let! (s, evt) := handle_action s action in
      match evt with
      | Some TooManyInvalidRequests => let! _ := emit (ESchedulerEvent true) in aret (inr s)
      | Some ForciblyShutdown => let! _ := emit (ESchedulerEvent false) in aret (inr s)
      | None => aret (inl s)
      end
  end.

Definition handler_run (s : Session) : io Session :=
  let! s := fetch_premium_tier s in
  let! s := session_start s in
  let! s := iter handler_round s in
  session_shutdown s.

(** [GuildHandler::new_run], the task it spawns. *)
Definition new_run (guild_id : Z) : io Session := handler_run (session_new guild_id Unknown).

(** * Facts *)

Lemma highest_tier_spec slots :
  match highest_tier slots with
  | None => slots = []
  | Some t => t ∈ slot_tier <$> slots ∧ Forall (λ s, is_higher_than (slot_tier s) t = false) slots
  end.
Proof.
  induction slots as [|x l IH] using rev_ind; [done|]. unfold highest_tier in *. rewrite fold_left_app. simpl.
  destruct (fold_left _ _ _) as [t|].
  - destruct IH as [Hin Hmax]. destruct (is_higher_than (slot_tier x) t) eqn:Hx;
      rewrite fmap_app, elem_of_app, Forall_app, Forall_singleton; [|auto].
    split; [right; by left|]. split; [|by destruct (slot_tier x)].
    eapply Forall_impl; [exact Hmax|]. simpl. intros s. by destruct (slot_tier s), (slot_tier x), t.
  - subst l. split; [by left|]. apply Forall_singleton. by destruct (slot_tier x).
Qed.

Lemma session_new_ok guild_id tier : session_ok (session_new guild_id tier).
Proof.
  split; [|done]. split; [|apply map_Forall_empty]. split; simpl; [done|constructor|].
  intros n Hn. by apply not_elem_of_nil in Hn.
Qed.

(** The protocol of a session without the premium tier, which the handler changes. *)
Definition follows (s : Session) (tr : list Ev) (s' : Session) : Prop :=
  own_run (s_current_worker s) tr = Some (s_current_worker s') ∧
  increasing_in (s_id_gen s) (sent_seqs tr) (s_id_gen s') ∧ s_guild_id s' = s_guild_id s.

Lemma advance_follows s tr s' : advance s tr s' → follows s tr s'.
Proof. intros [Ho Hs [Hg _]]. done. Qed.

Lemma follows_trans s tr s' tr' s'' : follows s tr s' → follows s' tr' s'' → follows s (tr ++ tr') s''.
Proof.
  intros (Ho & Hs & Hg) (Ho' & Hs' & Hg'). split_and!; [by rewrite (own_run_app _ _ _ _ Ho)| |congruence].
  unfold sent_seqs. rewrite bind_app. by eapply increasing_in_app.
Qed.

Lemma follows_quiet s tr : Forall quiet tr → follows s tr s.
Proof. intros Hq. by apply advance_follows, same_frame_advance. Qed.

Lemma fetch_premium_tier_spec s :
  session_ok s → wp True (fetch_premium_tier s) (λ s' tr, follows s tr s' ∧ session_ok s').
Proof.
  intros [[Ht Ha] Hi]. unfold fetch_premium_tier, get_guild_premium_slots.
  assert (∀ t, follows s [EPremiumSlots] (set_premium_tier s t)) as Hf.
  { intros t. split_and!; [done|by apply increasing_in_nil|done]. }
  apply wp_bind, wp_bind, wp_emit, wp_await. intros _ [slots|] _; apply wp_ret; by split; [apply Hf|].
Qed.

Lemma handle_guild_command_spec s cmd :
  session_ok s → wp True (handle_guild_command s cmd) (λ s' tr, follows s tr s' ∧ session_ok s').
Proof.
  intros Hs. destruct cmd as [evt| | |]; simpl.
  - unfold handle_broker_event. destruct (ge_kind evt).
    + apply wp_ret. split; [by apply follows_quiet|done].
    + by apply wp_panic.
    + unfold send_discord_guild_event. apply wp_bind, wp_lift. destruct (ge_dispatch evt) as [[[name data]|]|]; simpl; [..|done].
      * eapply wp_mono; [by apply dispatch_advance|done|]. intros s' tr [Ha Hs']. by split; [apply advance_follows|].
      * apply wp_ret. split; [by apply follows_quiet|done].
  - eapply wp_mono; [by apply reload_guild_scripts_spec|done|]. intros s' tr (Ha & Hs' & _). by split; [apply advance_follows|].
  - apply wp_ret. split; [by apply follows_quiet|done].
  - by apply wp_panic.
Qed.

Lemma next_event_spec s :
  session_ok s → wp True (next_event s) (λ r tr, follows s tr r.1 ∧ session_ok r.1).
Proof.
  intros [[Ht Ha] Hi]. unfold next_event, init_timers. apply wp_bind, wp_bind.
  eapply wp_mono; [apply always_wp, quiet_init_next_task_time|done|]. simpl. intros m tr Hq. apply wp_ret.
  assert (∀ tr', Forall quiet tr' → follows s tr' (set_tasks s m) ∧ session_ok (set_tasks s m)) as Hok.
  { intros tr' Hq'. split; [|by split]. by apply advance_follows, same_frame_advance. }
  apply wp_bind, wp_race.
  - intros _ c _. apply wp_ret. simpl. apply Hok. rewrite !app_nil_r. done.
  - eapply wp_mono; [apply always_wp, quiet_session_next_action|done|]. simpl. intros a tr' Hq'. apply wp_ret. simpl.
    apply Hok. rewrite !app_nil_r. by apply Forall_app.
Qed.

Lemma handler_round_spec s :
  session_ok s → wp True (handler_round s) (λ r tr,
    let s' := match r with inl s' => s' | inr s' => s' end in follows s tr s' ∧ session_ok s').
Proof.
  intros Hs. unfold handler_round. apply wp_bind. eapply wp_mono; [by apply next_event_spec|done|].
  simpl. intros [s1 next] tr1 [Hf1 Hs1]. simpl in Hf1, Hs1.
  destruct next as [[action|cmd]|]; [| |apply wp_ret; by rewrite app_nil_r].
  - apply wp_bind. eapply wp_mono; [by apply handle_action_spec|done|]. simpl. intros [s2 evt] tr2 [Ha Hs2].
    simpl in Ha, Hs2. apply advance_follows in Ha. pose proof (follows_trans _ _ _ _ _ Hf1 Ha) as Hf.
    assert (∀ b, follows s ((tr1 ++ tr2) ++ [ESchedulerEvent b]) s2) as He.
    { intros b. eapply follows_trans; [exact Hf|]. apply follows_quiet. by repeat constructor. }
    destruct evt as [[]|]; [apply wp_bind, wp_emit, wp_ret..|apply wp_ret]; simpl; rewrite ?app_nil_r, ?app_assoc; auto.
  - assert (wp True (let! s := handle_guild_command s1 cmd in aret (inl s : Session + Session)) (λ r tr,
      follows s (tr1 ++ tr) (match r with inl s' => s' | inr s' => s' end) ∧
      session_ok (match r with inl s' => s' | inr s' => s' end))) as Hcmd.
    { apply wp_bind. eapply wp_mono; [by apply handle_guild_command_spec|done|]. simpl. intros s2 tr2 [Hf2 Hs2].
      apply wp_ret. rewrite app_nil_r. split; [by eapply follows_trans|done]. }
    destruct cmd; try exact Hcmd. apply wp_ret. by rewrite app_nil_r.
Qed.

Lemma handler_loop_spec s :
  session_ok s → wp True (iter handler_round s) (λ s' tr, follows s tr s' ∧ session_ok s').
Proof.
  intros Hs. apply (wp_iter _ _ (λ s' tr, follows s tr s' ∧ session_ok s')); [by split; [apply follows_quiet|]|].
  intros s1 tr [Hf Hs1]. eapply wp_mono; [by apply handler_round_spec|done|].
  intros [s'|s'] tr' [Hf' Hs']; (split; [by eapply follows_trans|done]).
Qed.

(** ** Runs that do not complete *)

Lemma follows_legal s tr s' : follows s tr s' → legal (stand s) tr (stand s').
Proof. intros (Ho & Hs & _). by split. Qed.

Lemma quiet_fetch_premium_tier s : always quiet (fetch_premium_tier s).
Proof. unfold fetch_premium_tier, get_guild_premium_slots. always_tac. Qed.

Lemma quiet_next_event s : always quiet (next_event s).
Proof.
  unfold next_event, init_timers. apply always_bind; [apply always_bind; [apply quiet_init_next_task_time|intros; apply always_ret]|].
  intros s1. apply always_bind; [apply always_race, quiet_session_next_action|]. intros []; apply always_ret.
Qed.

Lemma handle_guild_command_safe s cmd : session_ok s → safe (stand s) (handle_guild_command s cmd).
Proof.
  intros Hs. destruct cmd as [evt| | |]; simpl.
  - unfold handle_broker_event. destruct (ge_kind evt); [apply safe_ret|apply safe_panic|].
    unfold send_discord_guild_event. apply safe_bind; [apply safe_lift|]. apply wp_lift.
    destruct (ge_dispatch evt) as [d|]; [|done]. exists (stand s). split; [apply legal_refl|].
    destruct d as [[name data]|]; [by apply dispatch_worker_evt_safe|apply safe_ret].
  - by apply reload_guild_scripts_safe.
  - apply safe_ret.
  - apply safe_panic.
Qed.

Lemma handler_round_safe s : session_ok s → safe (stand s) (handler_round s).
Proof.
  intros Hs. unfold handler_round. apply safe_bind; [apply safe_quiet, quiet_next_event|].
  eapply wp_mono; [by apply next_event_spec|done|]. intros [s1 next] tr [Hf Hs1]. simpl in Hs1. exists (stand s1).
  split; [by apply follows_legal|]. destruct next as [[action|cmd]|]; [| |apply safe_ret].
  - apply (safe_step _ _ _ fst (λ _, True)); [by apply handle_action_safe| |].
    + eapply wp_mono; [by apply handle_action_spec|done|]. by intros r tr' [? _].
    + intros [s2 [[]|]] _; [apply safe_map, safe_emit..|apply safe_ret].
  - destruct cmd; try (by apply safe_map, handle_guild_command_safe). apply safe_ret.
Qed.

Lemma handler_run_safe s : session_ok s → safe (stand s) (handler_run s).
Proof.
  intros Hs. unfold handler_run. apply safe_bind; [apply safe_quiet, quiet_fetch_premium_tier|].
  eapply wp_mono; [by apply fetch_premium_tier_spec|done|]. intros s1 tr1 [Hf1 Hs1]. exists (stand s1).
  split; [by apply follows_legal|]. apply (safe_step _ _ _ id session_ok).
  { by apply (reload_guild_scripts_safe s1). }
  { eapply wp_mono; [by apply (reload_guild_scripts_spec s1)|done|]. by intros s2 tr (? & ? & _). }
  intros s2 Hs2. apply safe_bind.
  - apply (safe_iter (λ s' σ, session_ok s' ∧ σ = stand s')); [done|..].
    + intros s3 σ [Hs3 ->]. by apply handler_round_safe.
    + intros s3 σ [Hs3 ->]. eapply wp_mono; [by apply handler_round_spec|done|].
      intros [s4|s4] tr; [|done]. intros [Hf Hs4]. exists (stand s4). by split; [apply follows_legal|].
  - eapply wp_mono; [by apply handler_loop_spec|done|]. intros s3 tr [Hf Hs3]. exists (stand s3).
    split; [by apply follows_legal|]. by apply session_shutdown_safe.
Qed.

(** * Properties *)

(** A guild's tier is the highest tier of its premium slots: one of the slots has it and
    none has a higher one; a guild without slots has none, and a store error leaves the tier
    unknown, which counts as none. *)
Theorem fetched_tier_is_highest s slots tape :
  ∃ t, fetch_premium_tier s (RPremiumSlots slots :: tape) = Done (set_premium_tier s t) tape [EPremiumSlots] ∧
    match slots with
    | None => t = Unknown ∧ tier_option t = None
    | Some [] => t = Fetched None
    | Some (x :: l) => ∃ tier, t = Fetched (Some tier) ∧ tier ∈ slot_tier <$> (x :: l) ∧
        Forall (λ y, is_higher_than (slot_tier y) tier = false) (x :: l)
    end.
Proof.
  destruct slots as [[|x l]|]; [by exists (Fetched None)| |by exists Unknown].
  exists (Fetched (highest_tier (x :: l))). split; [done|].
  pose proof (highest_tier_spec (x :: l)) as Hspec. destruct (highest_tier (x :: l)) as [t|]; [|done]. eauto.
Qed.

(** C7: The life of a guild handler. At every moment of it, whatever the stores, the pool, the
    worker and the scheduler do, and also when it panics: it has held at most one worker at a
    time, sent only to the one it held and returned only the one it held, and the sequence
    numbers it has sent are strictly increasing, so no acknowledgement can be taken for
    another one's. When it ends it has given back every worker it got. *)
Theorem handler_returns_its_workers guild_id tape :
  let tr := trace_of (new_run guild_id tape) in
  (∃ held, own_run None tr = Some held) ∧ StronglySorted Z.lt (sent_seqs tr) ∧
  ∀ s' rest, new_run guild_id tape = Done s' rest tr →
    own_run None tr = Some None ∧ s_current_worker s' = None ∧ s_guild_id s' = guild_id.
Proof.
  assert (wp True (new_run guild_id) (λ s' tr, follows (session_new guild_id Unknown) tr s' ∧ s_current_worker s' = None)) as Hw.
  { unfold new_run, handler_run. set (s0 := session_new guild_id Unknown).
    apply wp_bind. eapply wp_mono; [apply fetch_premium_tier_spec, session_new_ok|done|]. simpl. intros s1 tr1 [Hf1 Hs1].
    apply wp_bind. eapply wp_mono; [by apply (reload_guild_scripts_spec s1)|done|]. simpl. intros s2 tr2 (Ha2 & Hs2 & _).
    apply wp_bind. eapply wp_mono; [by apply handler_loop_spec|done|]. simpl. intros s3 tr3 [Hf3 Hs3].
    eapply wp_mono; [by apply session_shutdown_spec|done|]. simpl. intros s4 tr4 (Ha4 & _ & Hw). split; [|done].
    eapply follows_trans; [exact Hf1|]. eapply follows_trans; [by apply advance_follows|].
    eapply follows_trans; [exact Hf3|by apply advance_follows]. }
  pose proof (handler_run_safe _ (session_new_ok guild_id Unknown) tape) as Hsafe.
  specialize (Hw tape). change (handler_run _ tape) with (new_run guild_id tape) in Hsafe.
  destruct (new_run guild_id tape) as [s' rest tr|tr|tr]; simpl in *.
  - destruct Hw as [(Ho & (Hsort & _) & Hg) Hn]. simpl in Ho, Hg. rewrite Hn in Ho. split_and!; [eauto|done|].
    by intros s1 rest1 [= <- <-].
  - destruct Hsafe as (σ & Ho & (Hsort & _)). split_and!; [by eexists|done|done].
  - destruct Hsafe as (σ & Ho & (Hsort & _)). split_and!; [by eexists|done|done].
Qed.
End handler.

(** A handler's whole life: it starts with a script, gets an event, and is told to stop. *)
Example handler_life :
  let evt := mkGuildEvent 7 "MESSAGE_CREATE" OtherDispatch (Ret (Some ("MESSAGE_CREATE", JNull))) in
  ∃ s' tr, new_run (H := ex_calendar) (HashOrder0 := list_order) 7
      [RPremiumSlots (Some []); RListScripts (Some [ex_script 1 true]); RWorker (ex_worker 5) OtherGuild; RSent true;
       RNextTaskTime (Some None); RGuildCommand (Some (BrokerEvent evt)); RSent true;
       RAction (AWorkerMessage (Some (Ack 4))); RGuildCommand (Some GcShutdown); RSent true;
       RAction (AWorkerMessage (Some NonePending))] = Done s' [] tr ∧
    sent_seqs tr = [3; 4] ∧ own_run None tr = Some None.
Proof. vm_compute. by eexists _, _. Qed.
