(* ===== verification/Interactions.v ===== *)
(** Interactions: what a user did with a command, a component or a modal of a script, as scripts
    see it, and what a script answers ([components/runtime-models/src/internal]: [interaction.rs],
    [interactions.rs]).

    Discord nests the options of a command that is in a group; [normalize] is the loop that makes
    them flat and finds the names of the command, its group and its parent group. *)
From stdpp Require Import base gmap list strings.
From S2P Require Import Prelude Numbers Models Commands Payloads Entities.

(** * interactions.rs: resolved data *)

Record TwInteractionChannel := mkTwInteractionChannel {
  tic_id : Z;
  tic_kind : TwChannelType;
  tic_name : string;
  tic_parent_id : option Z;
  tic_permissions : Z;
  tic_thread_metadata : option TwThreadMetadata;
}.
Record InteractionPartialChannel := mkInteractionPartialChannel {
  ipc_id : string;
  ipc_kind : ChannelType;
  ipc_name : string;
  ipc_parent_id : option string;
  ipc_permissions_raw : string;
  ipc_thread_metadata : option ThreadMetadata;
}.

#[global] Instance partial_channel_of_tw : From TwInteractionChannel InteractionPartialChannel := λ v,
  do! kind := from (tic_kind v) in
  do! thread_metadata := from (tic_thread_metadata v) in
  Ret (mkInteractionPartialChannel (u64_text (tic_id v)) kind (tic_name v) (u64_text <$> tic_parent_id v)
         (u64_text (tic_permissions v)) thread_metadata).

Record TwInteractionMember := mkTwInteractionMember {
  tim_joined_at : Z;
  tim_nick : option string;
  tim_premium_since : option Z;
  tim_roles : list Z;
}.
Record InteractionPartialMember := mkInteractionPartialMember {
  ipm_joined_at : Z;
  ipm_nick : option string;
  ipm_premium_since : option Z;
  ipm_roles : list string;
}.

#[global] Instance interaction_member_of_tw : From TwInteractionMember InteractionPartialMember := λ v,
  Ret (mkInteractionPartialMember (ts_millis (tim_joined_at v)) (tim_nick v) (ts_millis <$> tim_premium_since v)
         (u64_text <$> tim_roles v)).

(** * interaction.rs: commands *)

(** [CommandDataOption], [CommandOptionValue] *)
Inductive TwDataOption := mkDataOption (name : string) (value : TwDataValue)
with TwDataValue :=
| VString (s : string)
| VInteger (i : Z)
| VBoolean (b : bool)
| VUser (id : Z)
| VChannel (id : Z)
| VRole (id : Z)
| VMentionable (id : Z)
| VNumber (x : f64)
| VSubCommand (l : list TwDataOption)
| VSubCommandGroup (l : list TwDataOption)
| VAttachment (id : Z)
| VFocused (s : string) (k : TwOptionType).

Definition do_name (o : TwDataOption) : string := match o with mkDataOption name _ => name end.
Definition do_value (o : TwDataOption) : TwDataValue := match o with mkDataOption _ value => value end.

Inductive CommandInteractionOptionValue :=
| OvString (value : string)
| OvInteger (value : Z)
| OvBoolean (value : bool)
| OvUser (value : string)
| OvChannel (value : string)
| OvRole (value : string)
| OvMentionable (value : string)
| OvNumber (value : f64)
| OvFocused (value : string) (option_kind : CommandOptionType).

#[global] Instance focused_type_of_tw : From TwOptionType CommandOptionType := λ k,
  match k with
  | TwString => Ret CoString
  | TwInteger => Ret CoInteger
  | TwBoolean => Ret CoBoolean
  | Models.TwUser => Ret CoUser
  | TwChannel => Ret CoChannel
  | Models.TwRole => Ret CoRole
  | TwMentionable => Ret CoMentionable
  | TwNumber => Ret CoNumber
  | TwSubCommand => Panic
  | TwSubCommandGroup => Panic
  | TwAttachmentOption => Panic
  | TwUnknownOption _ => Panic
  end.

#[global] Instance option_value_of_tw : From TwDataValue CommandInteractionOptionValue := λ v,
  match v with
  | VString ov => Ret (OvString ov)
  | VInteger ov => Ret (OvInteger ov)
  | VBoolean ov => Ret (OvBoolean ov)
  | VUser ov => Ret (OvUser (u64_text ov))
  | VChannel ov => Ret (OvChannel (u64_text ov))
  | VRole ov => Ret (OvRole (u64_text ov))
  | VMentionable ov => Ret (OvMentionable (u64_text ov))
  | VNumber ov => Ret (OvNumber ov)
  | VSubCommand _ => Panic
  | VSubCommandGroup _ => Panic
  | VAttachment _ => Ret (OvString "TODO")
  | VFocused ov k => do! option_kind := from k in Ret (OvFocused ov option_kind)
  end.

Record CommandInteractionOption := mkInteractionOption { io_name : string; io_value : CommandInteractionOptionValue }.

#[global] Instance interaction_option_of_tw : From TwDataOption CommandInteractionOption := λ v,
  do! value := from (do_value v) in Ret (mkInteractionOption (do_name v) value).

(** The loop's variables. *)
Record Normal := mkNormal {
  n_name : string;
  n_parent_name : option string;
  n_parent_parent_name : option string;
  n_opts : list CommandInteractionOption;
}.

(** One round of the loop over the options. *)
Definition normalize_option (n : Normal) (opt : TwDataOption) : outcome Normal :=
  match do_value opt with
  | VSubCommand sub_cmd =>
      do! sub_opts := from sub_cmd in
      Ret (mkNormal (do_name opt) (Some (n_name n)) (n_parent_parent_name n) (n_opts n ++ sub_opts))
  | VSubCommandGroup sub_cmd_group =>
      do! cmd := unwrap (head sub_cmd_group) in
      do! sub_sub_opts := match do_value cmd with VSubCommand sub_sub_opts => from sub_sub_opts | _ => Ret [] end in
      Ret (mkNormal (do_name cmd) (Some (do_name opt)) (Some (n_name n)) (n_opts n ++ sub_sub_opts))
  | _ =>
      do! o := from opt in
      Ret (mkNormal (n_name n) (n_parent_name n) (n_parent_parent_name n) (n_opts n ++ [o]))
  end.

Fixpoint normalize_options (n : Normal) (options : list TwDataOption) : outcome Normal :=
  match options with
  | [] => Ret n
  | opt :: options => do! n := normalize_option n opt in normalize_options n options
  end.

Definition normalize (name : string) (options : list TwDataOption) : outcome Normal :=
  normalize_options (mkNormal name None None []) options.

#[global] Instance command_type_of_tw : From TwCommandType CommandType := λ v,
  match v with
  | TwChatInput => Ret Chat
  | TwUserCommand => Ret UserCommand
  | TwMessageCommand => Ret MessageCommand
  | TwUnknownCommand _ => Panic
  end.

(** [.into_iter().map(|(k, v)| (k.to_string(), v.into())).collect()] of a [HashMap] *)
Definition map_keys `{From A B} (m : gmap Z A) : outcome (gmap string B) :=
  do! l := map_outcome (λ kv : Z * A, do! v := from kv.2 in Ret (u64_text kv.1, v)) (map_to_list m) in
  Ret (list_to_map l).

Section interactions.
Context `{!ImageHashes, !TwilightText, !Timestamps}.

Record TwResolved := mkTwResolved {
  tr_channels : gmap Z TwInteractionChannel;
  tr_members : gmap Z TwInteractionMember;
  tr_messages : gmap Z TwMessage;
  tr_roles : gmap Z TwRole;
  tr_users : gmap Z TwUser;
}.
Record CommandInteractionDataMap := mkDataMap {
  dm_channels : gmap string InteractionPartialChannel;
  dm_members : gmap string InteractionPartialMember;
  dm_messages : gmap string Message;
  dm_roles : gmap string Role;
  dm_users : gmap string User;
}.

#[global] Instance data_map_of_tw : From TwResolved CommandInteractionDataMap := λ v,
  do! channels := map_keys (tr_channels v) in
  do! members := map_keys (tr_members v) in
  do! messages := map_keys (tr_messages v) in
  do! roles := map_keys (tr_roles v) in
  do! users := map_keys (tr_users v) in
  Ret (mkDataMap channels members messages roles users).

Record TwCommandData := mkTwCommandData {
  tcd_kind : TwCommandType;
  tcd_name : string;
  tcd_options : list TwDataOption;
  tcd_resolved : option TwResolved;
  tcd_target_id : option Z;
}.

(** ** Components and modals *)

Record TwMessageComponentData := mkTwComponentData {
  tmc_component_type : TwComponentType;
  tmc_custom_id : string;
  tmc_values : list string;
}.
Record TwModalComponent := mkTwModalComponent { tmo_custom_id : string; tmo_kind : TwComponentType; tmo_value : option string }.
(** The components by row. *)
Record TwModalData := mkTwModalData { tmo_data_custom_id : string; tmo_components : list (list TwModalComponent) }.

Record ModalInteractionDataComponent := mkModalComponent { mo_custom_id : string; mo_kind : ComponentType; mo_value : string }.

#[global] Instance modal_component_of_tw : From TwModalComponent ModalInteractionDataComponent := λ v,
  do! kind := from (tmo_kind v) in
  Ret (mkModalComponent (tmo_custom_id v) kind (default "" (tmo_value v))).

(** ** The whole interaction *)

Inductive TwInteractionData :=
| TidApplicationCommand (data : TwCommandData)
| TidMessageComponent (data : TwMessageComponentData)
| TidModalSubmit (data : TwModalData)
| TidUnknown.

Record TwInteraction := mkTwInteraction {
  ti_channel_id : option Z;
  ti_data : option TwInteractionData;
  ti_guild_id : option Z;
  ti_guild_locale : option string;
  ti_id : Z;
  ti_locale : option string;
  ti_member : option TwPartialMember;
  ti_message : option TwMessage;
  ti_token : string;
}.

Record CommandInteraction := mkCommandInteraction {
  ci_channel_id : string;
  ci_id : string;
  ci_member : Member;
  ci_token : string;
  ci_name : string;
  ci_parent_name : option string;
  ci_parent_parent_name : option string;
  ci_options : list CommandInteractionOption;
  ci_data_map : CommandInteractionDataMap;
  ci_kind : CommandType;
  ci_target_id : option string;
}.
Record MessageComponentInteraction := mkComponentInteraction {
  mci_channel_id : string;
  mci_guild_locale : option string;
  mci_id : string;
  mci_locale : string;
  mci_member : Member;
  mci_message : Message;
  mci_token : string;
  mci_custom_id : string;
  mci_component_type : ComponentType;
  mci_values : list string;
}.
Record ModalInteraction := mkModalInteraction {
  mi_channel_id : string;
  mi_guild_locale : option string;
  mi_id : string;
  mi_locale : string;
  mi_member : Member;
  mi_message : option Message;
  mi_token : string;
  mi_custom_id : string;
  mi_values : list ModalInteractionDataComponent;
}.

Inductive Interaction :=
| ICommand (c : CommandInteraction)
| IMessageComponent (c : MessageComponentInteraction)
| IModalSubmit (c : ModalInteraction).

(** [Interaction::try_from] *)
Definition interaction_of_tw (v : TwInteraction) : outcome (result unit Interaction) :=
  match ti_data v with
  | Some (TidApplicationCommand data) =>
      do! n := normalize (tcd_name data) (tcd_options data) in
      do! channel_id := unwrap (ti_channel_id v) in
      do! member := unwrap (ti_member v) in
      do! member := member_from_partial member in
      do! data_map := match tcd_resolved data with
                      | Some resolved => from resolved
                      | None => Ret (mkDataMap ∅ ∅ ∅ ∅ ∅)
                      end in
      do! kind := from (tcd_kind data) in
      Ret (Ok (ICommand {|
        ci_channel_id := u64_text channel_id;
        ci_id := u64_text (ti_id v);
        ci_member := member;
        ci_token := ti_token v;
        ci_name := n_name n;
        ci_parent_name := n_parent_name n;
        ci_parent_parent_name := n_parent_parent_name n;
        ci_options := n_opts n;
        ci_data_map := data_map;
        ci_kind := kind;
        ci_target_id := u64_text <$> tcd_target_id data;
      |}))
  | Some (TidMessageComponent data) =>
      do! channel_id := unwrap (ti_channel_id v) in
      do! member := unwrap (ti_member v) in
      do! member := member_from_partial member in
      do! message := unwrap (ti_message v) in
      do! message := from message in
      do! component_type := from (tmc_component_type data) in
      Ret (Ok (IMessageComponent {|
        mci_channel_id := u64_text channel_id;
        mci_guild_locale := ti_guild_locale v;
        mci_id := u64_text (ti_id v);
        mci_locale := default "" (ti_locale v);
        mci_member := member;
        mci_message := message;
        mci_token := ti_token v;
        mci_custom_id := tmc_custom_id data;
        mci_component_type := component_type;
        mci_values := tmc_values data;
      |}))
  | Some (TidModalSubmit data) =>
      do! channel_id := unwrap (ti_channel_id v) in
      do! member := unwrap (ti_member v) in
      do! member := member_from_partial member in
      do! message := from (ti_message v) in
      do! rows := from (tmo_components data) in
      Ret (Ok (IModalSubmit {|
        mi_channel_id := u64_text channel_id;
        mi_guild_locale := ti_guild_locale v;
        mi_id := u64_text (ti_id v);
        mi_locale := default "" (ti_locale v);
        mi_member := member;
        mi_message := message;
        mi_token := ti_token v;
        mi_custom_id := tmo_data_custom_id data;
        mi_values := mjoin rows;
      |}))
  | Some TidUnknown => Ret (Err tt)
  | None => Ret (Err tt)
  end.

(** * interactions.rs: what a script answers *)

Record InteractionCallbackData := mkCallbackData { icd_fields : MessageFields; icd_flags : option MessageFlags }.
Record ModalCallbackData := mkModalCallback { mcd_title : string; mcd_custom_id : string; mcd_components : list Component }.

Inductive InteractionResponse :=
| IrPong
| IrChannelMessageWithSource (src : InteractionCallbackData)
| IrDeferredChannelMessageWithSource (src : InteractionCallbackData)
| IrDeferredUpdateMessage
| IrUpdateMessage (src : InteractionCallbackData)
| IrModal (src : ModalCallbackData).

(** [twilight_model::http::interaction::InteractionResponseData]; [tts], [attachments] and
    [choices] are never set. *)
Record TwCallbackData := mkTwCallbackData {
  tcb_allowed_mentions : option TwMentions;
  tcb_components : option (list TwComponent);
  tcb_content : option string;
  tcb_embeds : option (list TwEmbed);
  tcb_flags : option Z;
  tcb_custom_id : option string;
  tcb_title : option string;
}.

Inductive TwResponseType :=
| TrtPong | TrtChannelMessageWithSource | TrtDeferredChannelMessageWithSource | TrtDeferredUpdateMessage | TrtUpdateMessage | TrtModal.

Record TwInteractionResponse := mkTwResponse { trs_kind : TwResponseType; trs_data : option TwCallbackData }.

#[global] Instance callback_data_to_tw : From InteractionCallbackData TwCallbackData := λ v,
  do! components := from (mf_components (icd_fields v)) in
  do! embeds := from (mf_embeds (icd_fields v)) in
  Ret (mkTwCallbackData (tw_mentions <$> mf_allowed_mentions (icd_fields v)) components (mf_content (icd_fields v)) embeds
         (message_flags_to_tw <$> icd_flags v) None None).

#[global] Instance modal_callback_to_tw : From ModalCallbackData TwCallbackData := λ v,
  do! components := from (mcd_components v) in
  Ret (mkTwCallbackData None (Some components) None None None (Some (mcd_custom_id v)) (Some (mcd_title v))).

#[global] Instance response_to_tw : From InteractionResponse TwInteractionResponse := λ v,
  match v with
  | IrPong => Ret (mkTwResponse TrtPong None)
  | IrChannelMessageWithSource src => do! d := from src in Ret (mkTwResponse TrtChannelMessageWithSource (Some d))
  | IrDeferredChannelMessageWithSource src => do! d := from src in Ret (mkTwResponse TrtDeferredChannelMessageWithSource (Some d))
  | IrDeferredUpdateMessage => Ret (mkTwResponse TrtDeferredUpdateMessage None)
  | IrUpdateMessage src => do! d := from src in Ret (mkTwResponse TrtUpdateMessage (Some d))
  | IrModal src => do! d := from src in Ret (mkTwResponse TrtModal (Some d))
  end.

(** * What can be converted *)

#[global] Instance interaction_member_converts : Converts TwInteractionMember InteractionPartialMember (λ _, true).
Proof. by intros []. Qed.
#[global] Instance partial_channel_converts : Converts TwInteractionChannel InteractionPartialChannel (λ v, channel_type_known (tic_kind v)).
Proof. intros v. conv partial_channel_of_tw. by parts. Qed.

Definition focused_known (k : TwOptionType) : bool :=
  match k with
  | TwSubCommand | TwSubCommandGroup | TwAttachmentOption | TwUnknownOption _ => false
  | _ => true
  end.
(** A value that is no sub command. *)
Definition value_known (v : TwDataValue) : bool :=
  match v with
  | VSubCommand _ | VSubCommandGroup _ => false
  | VFocused _ k => focused_known k
  | _ => true
  end.
Definition option_known (o : TwDataOption) : bool := value_known (do_value o).

#[global] Instance focused_converts : Converts TwOptionType CommandOptionType focused_known.
Proof. by intros []. Qed.
#[global] Instance value_converts : Converts TwDataValue CommandInteractionOptionValue value_known.
Proof. intros []; try done. conv option_value_of_tw. by parts. Qed.
#[global] Instance interaction_option_converts : Converts TwDataOption CommandInteractionOption option_known.
Proof. intros o. conv interaction_option_of_tw. by parts. Qed.

(** Sub commands hold values, and a group holds a sub command first. *)
Definition top_option_known (o : TwDataOption) : bool :=
  match do_value o with
  | VSubCommand l => forallb option_known l
  | VSubCommandGroup (cmd :: _) => match do_value cmd with VSubCommand l => forallb option_known l | _ => true end
  | VSubCommandGroup [] => false
  | v => value_known v
  end.

Lemma normalize_option_known n o : is_ret (normalize_option n o) = top_option_known o.
Proof.
  destruct o as [name v]. unfold normalize_option, top_option_known. simpl.
  destruct v as [| | | | | | | |l|[|[cname []] l]| |]; simpl; try done; by parts.
Qed.

Lemma normalize_options_known n l : is_ret (normalize_options n l) = forallb top_option_known l.
Proof.
  revert n. induction l as [|o l IH]; intros n; [done|]. simpl. apply is_ret_bind; [apply normalize_option_known|]. intros n'. apply IH.
Qed.

Definition command_type_known (v : TwCommandType) : bool := match v with TwUnknownCommand _ => false | _ => true end.
#[global] Instance command_type_converts : Converts TwCommandType CommandType command_type_known.
Proof. by intros []. Qed.

Definition map_all {A} (p : A → bool) (m : gmap Z A) : bool := forallb (λ kv : Z * A, p kv.2) (map_to_list m).
Lemma map_keys_converts `{Converts A B p} m : is_ret (map_keys m : outcome (gmap string B)) = map_all p m.
Proof.
  unfold map_keys, map_all. rewrite <- (andb_true_r (forallb _ _)). apply is_ret_bind; [|done].
  apply is_ret_map. intros [k v] _. simpl. rewrite <- (andb_true_r (p v)). apply is_ret_bind; [apply converts|done].
Qed.

Lemma map_all_true {A} (m : gmap Z A) : map_all (λ _, true) m = true.
Proof. apply forallb_true. Qed.

Definition resolved_known (v : TwResolved) : bool :=
  map_all (λ c, channel_type_known (tic_kind c)) (tr_channels v) && map_all message_known (tr_messages v) &&
  map_all user_known (tr_users v).

#[global] Instance data_map_converts : Converts TwResolved CommandInteractionDataMap resolved_known.
Proof.
  intros v. conv data_map_of_tw. etrans.
  { repeat (eapply is_ret_bind; [apply map_keys_converts|intros]). exact (eq_refl true). }
  rewrite !map_all_true, !andb_true_r. unfold resolved_known. by rewrite <- andb_assoc.
Qed.

#[global] Instance modal_component_converts : Converts TwModalComponent ModalInteractionDataComponent (λ v, component_type_known (tmo_kind v)).
Proof. intros v. conv modal_component_of_tw. by parts. Qed.

(** A user acts in a channel and as a member of the guild. *)
Definition is_some {A} (o : option A) : bool := match o with Some _ => true | None => false end.
Definition origin_known (v : TwInteraction) : bool :=
  is_some (ti_channel_id v) && match ti_member v with Some m => partial_known m | None => false end.

Definition interaction_known (v : TwInteraction) : bool :=
  match ti_data v with
  | Some (TidApplicationCommand data) =>
      forallb top_option_known (tcd_options data) && origin_known v && opt_all resolved_known (tcd_resolved data) &&
      command_type_known (tcd_kind data)
  | Some (TidMessageComponent data) =>
      origin_known v && match ti_message v with Some m => message_known m | None => false end && component_type_known (tmc_component_type data)
  | Some (TidModalSubmit data) =>
      origin_known v && opt_all message_known (ti_message v) && forallb (forallb (λ c, component_type_known (tmo_kind c))) (tmo_components data)
  | Some TidUnknown | None => true
  end.

Ltac no_origin := simpl; rewrite ?andb_false_r; simpl; first [done | by destruct (normalize _ _)].

Lemma interaction_converts v : is_ret (interaction_of_tw v) = interaction_known v.
Proof.
  unfold interaction_of_tw, interaction_known, origin_known.
  destruct (ti_data v) as [[data|data|data|]|]; [..|done|done];
    (destruct (ti_channel_id v) as [c|]; [|no_origin]);
    (destruct (ti_member v) as [m|]; [pose proof (from_partial_converts m) as Hm|no_origin]).
  - pose proof (normalize_options_known (mkNormal (tcd_name data) None None []) (tcd_options data)) as Hn. unfold normalize.
    simpl. destruct (tcd_resolved data); simpl; parts; by rewrite ?andb_true_r, <- ?andb_assoc.
  - destruct (ti_message v); simpl; [parts; by rewrite <- ?andb_assoc|]. destruct (member_from_partial m); simpl; by rewrite ?andb_false_r.
  - simpl. parts. by rewrite <- ?andb_assoc.
Qed.
End interactions.

(** * The command that was invoked *)

(** How Discord sends the invocation of a registered command with the given arguments: below the
    sub command and the sub command group it was registered in. *)
Definition invocation (cmd : Command) (args : list TwDataOption) : string * list TwDataOption :=
  match c_group cmd, c_sub_group cmd with
  | None, _ => (c_name cmd, args)
  | Some g, None => (g, [mkDataOption (c_name cmd) (VSubCommand args)])
  | Some g, Some sg => (g, [mkDataOption sg (VSubCommandGroup [mkDataOption (c_name cmd) (VSubCommand args)])])
  end.

(** A name is present unless it is missing or empty, as in a condition of JavaScript. *)
Definition truthy (o : option string) : bool :=
  match o with
  | Some s => negb (bool_decide (s = ""))
  | None => false
  end.

(** [matchesCommand] of [ts/commands.ts], for a command as a script declares it: [cmd.group.parent]
    is the group and [cmd.group] the sub group of a command that has both. *)
Definition matches_command (cmd : Command) (name : string) (parent_name parent_parent_name : option string) : bool :=
  if truthy parent_parent_name then
    match c_group cmd, c_sub_group cmd with
    | Some g, Some sg => bool_decide (c_name cmd = name) && bool_decide (Some sg = parent_name) && bool_decide (Some g = parent_parent_name)
    | _, _ => false
    end
  else if truthy parent_name then
    match c_group cmd, c_sub_group cmd with
    | Some g, None => bool_decide (c_name cmd = name) && bool_decide (Some g = parent_name)
    | _, _ => false
    end
  else
    match c_group cmd with
    | None => bool_decide (c_name cmd = name)
    | Some _ => false
    end.

(** Groups have names, and only a group has a sub group. *)
Definition place_ok (cmd : Command) : Prop :=
  match c_group cmd, c_sub_group cmd with
  | None, None => True
  | Some g, None => g ≠ ""
  | Some g, Some sg => g ≠ "" ∧ sg ≠ ""
  | None, Some _ => False
  end.
Definition same_place (a b : Command) : Prop := c_name a = c_name b ∧ c_group a = c_group b ∧ c_sub_group a = c_sub_group b.

(** Arguments are no sub commands: the loop just converts them. *)
Lemma normalize_args n args opts : from args = Ret opts →
  normalize_options n args = Ret (mkNormal (n_name n) (n_parent_name n) (n_parent_parent_name n) (n_opts n ++ opts)).
Proof.
  revert n opts. induction args as [|a args IH]; intros n opts Ha.
  - injection Ha as <-. destruct n. simpl. by rewrite app_nil_r.
  - change (do! o := from a in do! os := from args in Ret (o :: os)) with (from (a :: args) : outcome (list CommandInteractionOption)) in Ha.
    unfold from at 1, from_list in Ha. simpl in Ha. destruct (from a) as [o|] eqn:Ho; [|done]. simpl in Ha.
    destruct (map_outcome from args) as [os|] eqn:Hos; [|done]. injection Ha as <-. simpl.
    assert (normalize_option n a = do! o := from a in Ret (mkNormal (n_name n) (n_parent_name n) (n_parent_parent_name n) (n_opts n ++ [o]))) as ->.
    { destruct a as [name []]; try done; discriminate Ho. }
    rewrite Ho. simpl. rewrite (IH _ os Hos). simpl. by rewrite <- app_assoc.
Qed.

Definition expected (cmd : Command) (opts : list CommandInteractionOption) : Normal :=
  match c_group cmd, c_sub_group cmd with
  | None, _ => mkNormal (c_name cmd) None None opts
  | Some g, None => mkNormal (c_name cmd) (Some g) None opts
  | Some g, Some sg => mkNormal (c_name cmd) (Some sg) (Some g) opts
  end.

Lemma normalize_invocation cmd args opts : from args = Ret opts →
  normalize (invocation cmd args).1 (invocation cmd args).2 = Ret (expected cmd opts).
Proof.
  intros Ha. unfold normalize, invocation, expected. destruct (c_group cmd) as [g|]; [destruct (c_sub_group cmd) as [sg|]|]; simpl.
  - unfold normalize_option. simpl. by rewrite Ha.
  - unfold normalize_option. simpl. by rewrite Ha.
  - by rewrite (normalize_args _ _ _ Ha).
Qed.

Lemma truthy_some s : s ≠ "" → truthy (Some s) = true.
Proof. intros Hs. simpl. by rewrite bool_decide_false. Qed.

Lemma matches_expected cmd cmd' opts : place_ok cmd → place_ok cmd' →
  let n := expected cmd opts in
  matches_command cmd' (n_name n) (n_parent_name n) (n_parent_parent_name n) = true ↔ same_place cmd' cmd.
Proof.
  unfold place_ok, expected, same_place, matches_command. intros Hok Hok'.
  destruct (c_group cmd) as [g|], (c_sub_group cmd) as [sg|]; try done; cbn [n_name n_parent_name n_parent_parent_name];
    simpl (truthy None); rewrite ?truthy_some by (by destruct_and?);
    destruct (c_group cmd') as [g'|], (c_sub_group cmd') as [sg'|]; try done;
    rewrite ?andb_true_iff, ?bool_decide_eq_true; (split; [intros|intros (? & ? & ?)]; destruct_and?; simplify_eq; done).
Qed.

Lemma u64_text_inj a b : 0 ≤ a ≤ u64_max → 0 ≤ b ≤ u64_max → u64_text a = u64_text b → a = b.
Proof. intros Ha Hb Heq. pose proof (parse_u64_text a Ha) as H1. rewrite Heq, (parse_u64_text b Hb) in H1. by injection H1. Qed.

(** A script finds the entity of an identifier under its text. *)
Lemma map_keys_lookup `{From A B} (m : gmap Z A) (m' : gmap string B) k v :
  (∀ k, k ∈ dom m → is_id k) → map_keys m = Ret m' → m !! k = Some v → ∃ v', from v = Ret v' ∧ m' !! u64_text k = Some v'.
Proof.
  intros Hids Hm Hk. unfold map_keys in Hm. destruct (map_outcome _ _) as [l|] eqn:Hl; simpl in Hm; [|done]. injection Hm as <-.
  assert (Forall2 (λ (kv : Z * A) (r : string * B), r.1 = u64_text kv.1 ∧ from kv.2 = Ret r.2) (map_to_list m) l) as Hall.
  { clear Hk Hids. revert l Hl. induction (map_to_list m) as [|[k' v'] ms IH]; intros l Hl; [by injection Hl as <-|].
    simpl in Hl. destruct (from v') as [w|] eqn:Hw; simpl in Hl; [|done]. destruct (map_outcome _ ms) as [ws|]; simpl in Hl; [|done].
    injection Hl as <-. constructor; [done|by apply IH]. }
  apply elem_of_map_to_list in Hk as Hin. apply list_elem_of_lookup in Hin as [i Hi].
  destruct (Forall2_lookup_l _ _ _ _ _ Hall Hi) as ([t v'] & Hi' & Ht & Hv). simpl in Ht, Hv. subst t. exists v'. split; [done|].
  apply elem_of_list_to_map_1; [|by eapply list_elem_of_lookup_2].
  assert (l.*1 = u64_text <$> (map_to_list m).*1) as ->.
  { clear -Hall. induction Hall as [|? ? ? ? [Heq _] _ IH]; [done|]. csimpl. by rewrite Heq, IH. }
  apply NoDup_fmap_2_strong; [|apply NoDup_fst_map_to_list]. intros x y Hx Hy. apply u64_text_inj;
    [apply list_elem_of_fmap in Hx as ([? ?] & -> & Hx)|apply list_elem_of_fmap in Hy as ([? ?] & -> & Hy)];
    [apply elem_of_map_to_list in Hx|apply elem_of_map_to_list in Hy]; simpl;
    [apply elem_of_dom_2, Hids in Hx as []|apply elem_of_dom_2, Hids in Hy as []]; lia.
Qed.

(** * Properties *)

(** C35: The command a user invokes is registered and identified. Each command a script declares
    is in the commands registered for the script, at its place: at the top level, as a sub
    command of its group, or as one of the sub group of its group, if no command directly in that
    group has the sub group's name. When Discord sends the invocation of that command, in an
    interaction whose parts are known, the script gets a command with exactly the converted
    arguments, and of the commands the script declares those that match it are the ones with its
    name, group and sub group; so a script, which refuses duplicates, runs the one that was
    invoked. *)
Theorem invoked_command_identified `{!ImageHashes, !TwilightText, !Timestamps} guild_id commands groups cmd args opts v data :
  cmd ∈ commands → Forall place_ok commands → no_clash commands cmd → from args = Ret opts →
  ti_data v = Some (TidApplicationCommand data) → (tcd_name data, tcd_options data) = invocation cmd args →
  interaction_known v = true →
  registered (to_twilight_commands guild_id commands groups) cmd ∧
  ∃ c, interaction_of_tw v = Ret (Ok (ICommand c)) ∧ ci_options c = opts ∧ ci_token c = ti_token v ∧
    ∀ cmd', cmd' ∈ commands →
      matches_command cmd' (ci_name c) (ci_parent_name c) (ci_parent_parent_name c) = true ↔ same_place cmd' cmd.
Proof.
  intros Hin Hok Hclash Ha Hd Hinv Hknown. split; [by apply commands_registered|].
  rewrite <- interaction_converts in Hknown. unfold interaction_of_tw in *. rewrite Hd in *.
  pose proof (normalize_invocation cmd args opts Ha) as Hn. rewrite <- Hinv in Hn. simpl in Hn. rewrite Hn in *. simpl in *.
  destruct (ti_channel_id v) as [ch|]; [|done]. simpl in *. destruct (ti_member v) as [m|]; [|done]. simpl in *.
  destruct (member_from_partial m) as [mem|]; [|done]. simpl in *.
  destruct (match tcd_resolved data with Some resolved => from resolved | None => _ end) as [dm|]; [|done]. simpl in *.
  destruct (from (tcd_kind data)) as [kind|]; [|done]. simpl in *.
  eexists. split; [done|]. cbn [ci_options ci_token ci_name ci_parent_name ci_parent_parent_name]. split_and!; [|done|].
  - unfold expected. by destruct (c_group cmd), (c_sub_group cmd).
  - rewrite Forall_forall in Hok. intros cmd' Hin'. apply matches_expected; by apply Hok.
Qed.

#[local] Existing Instances ex_hashes ex_text ex_timestamps.

Definition ex_ban : Command := mkCommand "ban" "bans" [] (Some "mod") (Some "user") Chat.
Definition ex_data : TwCommandData :=
  mkTwCommandData TwChatInput "mod"
    [mkDataOption "user" (VSubCommandGroup [mkDataOption "ban" (VSubCommand [mkDataOption "who" (VUser 5)])])] None None.
Definition ex_interaction : TwInteraction :=
  mkTwInteraction (Some 8) (Some (TidApplicationCommand ex_data)) (Some 3) None 9 None
    (Some (mkTwPartialMember false 0 false None None [] None (Some ex_user))) None "tok".

Lemma invoked_command_identified_witness :
  registered (to_twilight_commands 3 [ex_ban; mkCommand "ban" "bans" [] (Some "mod") None Chat] []) ex_ban ∧
  ∃ c, interaction_of_tw ex_interaction = Ret (Ok (ICommand c)) ∧
    ci_options c = [mkInteractionOption "who" (OvUser "5")] ∧ ci_token c = "tok" ∧
    matches_command ex_ban (ci_name c) (ci_parent_name c) (ci_parent_parent_name c) = true.
Proof.
  destruct (invoked_command_identified 3 [ex_ban; mkCommand "ban" "bans" [] (Some "mod") None Chat] [] ex_ban
    [mkDataOption "who" (VUser 5)] [mkInteractionOption "who" (OvUser "5")] ex_interaction ex_data)
    as (Hreg & c & Hc & Ho & Ht & Hm); [by left|by repeat constructor| |reflexivity..|].
  - intros g sg [= <-] [= <-]. repeat constructor; by intros ? ?.
  - split; [exact Hreg|]. exists c. split; [exact Hc|]. split; [exact Ho|]. split; [exact Ht|].
    apply (Hm ex_ban); [by left|done].
Defined.
