(* ===== verification/Dispatch.v ===== *)
(** Events of Discord as scripts get them ([cmd/scheduler/src/dispatch_conv.rs]), and what the
    guild handler does with an event it cannot convert.

    A conversion panics on values the source does not know and on parts it takes for granted;
    [event_known] says which events these are. The JSON serializer of the models is the interface
    [Serde]. *)
From stdpp Require Import base gmap list strings.
From S2P Require Import Prelude Numbers Models WorkerPool Commands Payloads Entities World IntervalTimers VmSession GuildHandler Interactions.

Section dispatch.
Context `{!ImageHashes, !TwilightText, !Timestamps}.

(** [twilight_model::gateway::event::DispatchEvent]; [DeOther] are the kinds no script sees. *)
Inductive DispatchEvent :=
| DeMessageCreate (m : TwMessage)
| DeMessageUpdate (m : TwMessageUpdate)
| DeMessageDelete (m : TwMessageDelete)
| DeMemberAdd (m : TwMember)
| DeMemberUpdate (m : TwMemberUpdate)
| DeMemberRemove (m : TwMemberRemove)
| DeReactionAdd (r : TwGatewayReaction)
| DeReactionRemove (r : TwGatewayReaction)
| DeReactionRemoveAll (r : TwReactionRemoveAll)
| DeReactionRemoveEmoji (r : TwReactionRemoveEmoji)
| DeChannelCreate (c : TwChannelData)
| DeChannelUpdate (c : TwChannelData)
| DeChannelDelete (c : TwChannelData)
| DeThreadCreate (c : TwChannelData)
| DeThreadUpdate (c : TwChannelData)
| DeThreadDelete (t : TwThreadDelete)
| DeInteractionCreate (i : TwInteraction)
| DeGuildCreate
| DeGuildDelete
| DeOther.

(** The models that are sent to scripts. *)
Inductive EventData :=
| EdMessage (m : Message)
| EdMessageUpdate (m : EventMessageUpdate)
| EdMessageDelete (m : EventMessageDelete)
| EdMember (m : Member)
| EdMemberRemove (m : EventMemberRemove)
| EdReactionAdd (r : EventMessageReactionAdd)
| EdReactionRemove (r : EventMessageReactionRemove)
| EdReactionRemoveAll (r : EventMessageReactionRemoveAll)
| EdReactionRemoveEmoji (r : EventMessageReactionRemoveAllEmoji)
| EdChannel (c : GuildChannel)
| EdThreadDelete (t : EventThreadDelete)
| EdCommand (i : CommandInteraction)
| EdComponent (i : MessageComponentInteraction)
| EdModal (i : ModalInteraction).

Record DiscordDispatchEvent := mkDispatchEvent { dde_guild_id : Z; dde_name : string; dde_data : EventData }.

Definition dispatch_channel (name : string) (c : TwChannelData) : outcome (option DiscordDispatchEvent) :=
  do! guild_id := unwrap (tc_guild_id c) in
  do! data := from c in
  Ret (Some (mkDispatchEvent guild_id name (EdChannel data))).

Definition discord_event_to_dispatch (evt : DispatchEvent) : outcome (option DiscordDispatchEvent) :=
  match evt with
  | DeMessageCreate m =>
      match tg_guild_id m with
      | Some guild_id => do! data := from m in Ret (Some (mkDispatchEvent guild_id "MESSAGE_CREATE" (EdMessage data)))
      | None => Ret None
      end
  | DeMessageUpdate m =>
      match tmg_guild_id m with
      | Some guild_id => do! data := from m in Ret (Some (mkDispatchEvent guild_id "MESSAGE_UPDATE" (EdMessageUpdate data)))
      | None => Ret None
      end
  | DeMessageDelete m =>
      match tmd_guild_id m with
      | Some guild_id => do! data := from m in Ret (Some (mkDispatchEvent guild_id "MESSAGE_DELETE" (EdMessageDelete data)))
      | None => Ret None
      end
  | DeMemberAdd m => do! data := from m in Ret (Some (mkDispatchEvent (tme_guild_id m) "MEMBER_ADD" (EdMember data)))
  | DeMemberUpdate m => do! data := from m in Ret (Some (mkDispatchEvent (tmu_guild_id m) "MEMBER_UPDATE" (EdMember data)))
  | DeMemberRemove m => do! data := from m in Ret (Some (mkDispatchEvent (tmv_guild_id m) "MEMBER_REMOVE" (EdMemberRemove data)))
  | DeReactionAdd r =>
      do! guild_id := unwrap (tgr_guild_id r) in
      do! data := reaction_add_of_tw r in
      Ret (Some (mkDispatchEvent guild_id "MESSAGE_REACTION_ADD" (EdReactionAdd data)))
  | DeReactionRemove r =>
      do! guild_id := unwrap (tgr_guild_id r) in
      do! data := reaction_remove_of_tw r in
      Ret (Some (mkDispatchEvent guild_id "MESSAGE_REACTION_REMOVE" (EdReactionRemove data)))
  | DeReactionRemoveAll r =>
      do! guild_id := unwrap (tra_guild_id r) in
      do! data := from r in
      Ret (Some (mkDispatchEvent guild_id "MESSAGE_REACTION_REMOVE_ALL" (EdReactionRemoveAll data)))
  | DeReactionRemoveEmoji r =>
      do! data := from r in
      Ret (Some (mkDispatchEvent (trm_guild_id r) "MESSAGE_REACTION_REMOVE_ALL_EMOJI" (EdReactionRemoveEmoji data)))
  | DeChannelCreate cc => dispatch_channel "CHANNEL_CREATE" cc
  | DeChannelUpdate cu => dispatch_channel "CHANNEL_UPDATE" cu
  | DeChannelDelete cd => dispatch_channel "CHANNEL_DELETE" cd
  | DeThreadCreate r => dispatch_channel "THREAD_CREATE" r
  | DeThreadUpdate r => dispatch_channel "THREAD_UPDATE" r
  | DeThreadDelete r => do! data := from r in Ret (Some (mkDispatchEvent (ttd_guild_id r) "THREAD_DELETE" (EdThreadDelete data)))
  | DeInteractionCreate interaction =>
      do! guild_id := unwrap (ti_guild_id interaction) in
      do! v := interaction_of_tw interaction in
      match v with
      | Ok (ICommand c) => Ret (Some (mkDispatchEvent guild_id "BOTLOADER_COMMAND_INTERACTION_CREATE" (EdCommand c)))
      | Ok (IMessageComponent c) => Ret (Some (mkDispatchEvent guild_id "BOTLOADER_COMPONENT_INTERACTION_CREATE" (EdComponent c)))
      | Ok (IModalSubmit c) => Ret (Some (mkDispatchEvent guild_id "BOTLOADER_MODAL_SUBMIT_INTERACTION_CREATE" (EdModal c)))
      | Err _ => Ret None
      end
  | DeGuildCreate | DeGuildDelete | DeOther => Ret None
  end.

(** * Events that can be converted *)

Definition event_known (evt : DispatchEvent) : bool :=
  match evt with
  | DeMessageCreate m => negb (is_some (tg_guild_id m)) || message_known m
  | DeMessageUpdate m => negb (is_some (tmg_guild_id m)) || message_update_known m
  | DeMemberAdd m => user_known (tme_user m)
  | DeMemberUpdate m => user_known (tmu_user m)
  | DeMemberRemove m => user_known (tmv_user m)
  | DeReactionAdd r => is_some (tgr_guild_id r) && match tgr_member r with Some m => user_known (tme_user m) | None => false end
  | DeReactionRemove r => is_some (tgr_guild_id r)
  | DeReactionRemoveAll r => is_some (tra_guild_id r)
  | DeChannelCreate c | DeChannelUpdate c | DeChannelDelete c | DeThreadCreate c | DeThreadUpdate c =>
      is_some (tc_guild_id c) && guild_channel_known c
  | DeThreadDelete t => channel_type_known (ttd_kind t)
  | DeInteractionCreate i => is_some (ti_guild_id i) && interaction_known i
  | DeMessageDelete _ | DeReactionRemoveEmoji _ | DeGuildCreate | DeGuildDelete | DeOther => true
  end.

Lemma dispatch_channel_known name c : is_ret (dispatch_channel name c) = is_some (tc_guild_id c) && guild_channel_known c.
Proof. unfold dispatch_channel. destruct (tc_guild_id c); simpl; [by parts|done]. Qed.

Lemma dispatch_known evt : is_ret (discord_event_to_dispatch evt) = event_known evt.
Proof.
  destruct evt as [m|m|m|m|m|m|r|r|r|r|c|c|c|c|c|t|i| | |]; simpl; try done; try apply dispatch_channel_known.
  - destruct (tg_guild_id m); simpl; [by parts|done].
  - destruct (tmg_guild_id m); simpl; [by parts|done].
  - destruct (tmd_guild_id m); simpl; [by parts|done].
  - by parts.
  - by parts.
  - by parts.
  - destruct (tgr_guild_id r); simpl; [|done]. unfold reaction_add_of_tw. destruct (tgr_member r); simpl; [by parts|].
    by destruct (from (tgr_emoji r)).
  - destruct (tgr_guild_id r); simpl; [|done]. unfold reaction_remove_of_tw. by parts.
  - destruct (tra_guild_id r); simpl; [by parts|done].
  - by parts.
  - by parts.
  - destruct (ti_guild_id i); simpl; [|done]. rewrite <- interaction_converts. by destruct (interaction_of_tw i) as [[[]|]|].
Qed.

(** The guild an event is about. *)
Definition event_guild (evt : DispatchEvent) : option Z :=
  match evt with
  | DeMessageCreate m => tg_guild_id m
  | DeMessageUpdate m => tmg_guild_id m
  | DeMessageDelete m => tmd_guild_id m
  | DeMemberAdd m => Some (tme_guild_id m)
  | DeMemberUpdate m => Some (tmu_guild_id m)
  | DeMemberRemove m => Some (tmv_guild_id m)
  | DeReactionAdd r | DeReactionRemove r => tgr_guild_id r
  | DeReactionRemoveAll r => tra_guild_id r
  | DeReactionRemoveEmoji r => Some (trm_guild_id r)
  | DeChannelCreate c | DeChannelUpdate c | DeChannelDelete c | DeThreadCreate c | DeThreadUpdate c => tc_guild_id c
  | DeThreadDelete t => Some (ttd_guild_id t)
  | DeInteractionCreate i => ti_guild_id i
  | DeGuildCreate | DeGuildDelete | DeOther => None
  end.

Lemma unwrap_ret {A} (o : option A) a : unwrap o = Ret a → o = Some a.
Proof. destruct o; [by intros [= <-]|done]. Qed.

Lemma dispatch_guild evt d : discord_event_to_dispatch evt = Ret (Some d) → event_guild evt = Some (dde_guild_id d).
Proof.
  intros He. destruct evt; simpl in *; try done; unfold dispatch_channel in *;
    repeat match type of He with
    | match ?x with _ => _ end = _ => destruct x eqn:?; simpl in He; try done
    | (do! _ := ?m in _) = _ => destruct m eqn:?; simpl in He; try done
    end; injection He as <-; simpl; try done; by apply unwrap_ret.
Qed.
End dispatch.

(** * The handler *)

Class Serde := { to_value : EventData → JsonValue }.

Section handling.
Context `{!ImageHashes, !TwilightText, !Timestamps, !Serde}.

Definition event_kind (evt : DispatchEvent) : GuildEventKind :=
  match evt with
  | DeGuildCreate => GuildCreate
  | DeGuildDelete => GuildDelete
  | _ => OtherDispatch
  end.

(** An event as the handler gets it; [t] is the name of its type. *)
Definition guild_event (guild_id : Z) (t : string) (evt : DispatchEvent) : GuildEvent :=
  mkGuildEvent guild_id t (event_kind evt)
    (do! d := discord_event_to_dispatch evt in Ret ((λ d, (dde_name d, to_value (dde_data d))) <$> d)).

Context {cal : Calendar}.

Lemma unknown_is_other evt : event_known evt = false → event_kind evt = OtherDispatch.
Proof. by destruct evt. Qed.

Lemma dispatch_panics evt : discord_event_to_dispatch evt = Panic ↔ event_known evt = false.
Proof. rewrite <- dispatch_known. by destruct (discord_event_to_dispatch evt). Qed.

Lemma handle_unknown s guild_id t evt tape : event_known evt = false →
  handle_guild_command s (BrokerEvent (guild_event guild_id t evt)) tape = Panicked [].
Proof.
  intros Hk. simpl. unfold handle_broker_event. simpl. rewrite (unknown_is_other _ Hk). unfold send_discord_guild_event. simpl.
  by rewrite (proj2 (dispatch_panics evt) Hk).
Qed.

Lemma handle_dispatches s guild_id t evt d tape : discord_event_to_dispatch evt = Ret (Some d) →
  handle_guild_command s (BrokerEvent (guild_event guild_id t evt)) tape =
  dispatch_worker_evt (dde_name d) (to_value (dde_data d)) (PaDispatch None) s tape.
Proof.
  intros Hd. simpl. unfold handle_broker_event. simpl.
  assert (event_kind evt = OtherDispatch) as -> by (by destruct evt). unfold send_discord_guild_event. simpl. rewrite Hd. simpl.
  by rewrite abind_ret.
Qed.

Lemma handle_known s guild_id t evt d tape w x l : discord_event_to_dispatch evt = Ret (Some d) →
  s_scripts s = x :: l → s_current_worker s = Some w → s_id_gen s < u64_max →
  handle_guild_command s (BrokerEvent (guild_event guild_id t evt)) (RSent true :: tape) =
    Done (set_acks (set_id_gen s (s_id_gen s + 1)) (<[s_id_gen s + 1 := PaDispatch None]> (s_pending_acks s))) tape
      [ESend (worker_id w) (Dispatch (mkDispatch (dde_name d) (s_id_gen s + 1) (to_value (dde_data d))))].
Proof.
  intros Hd Hx Hw Hid. simpl. unfold handle_broker_event. simpl.
  assert (event_kind evt = OtherDispatch) as -> by (by destruct evt). unfold send_discord_guild_event. simpl. rewrite Hd. simpl.
  unfold dispatch_worker_evt. rewrite Hx. unfold iter. simpl. unfold dispatch_round, ensure_claim_worker, session_gen_id, u64_incr. rewrite Hw.
  unfold abind, aret, lift. simpl. rewrite (proj2 (Z.ltb_lt _ _) Hid). simpl. by rewrite Hw.
Qed.

(** * Properties *)

(** C21: Which events scripts can be told of. The conversion gives up exactly on the events with a part
    it takes for granted or does not know: a kind of message, component style, premium type,
    overwrite or video quality that was added since, a mention of or a thread in a channel that is
    not of a guild, a reaction or interaction without guild, member, user or channel, an empty
    sub command group. What it gives is about the guild of the event. *)
Theorem conversion_fails_exactly_on_unknown evt :
  (discord_event_to_dispatch evt = Panic ↔ event_known evt = false) ∧
  ∀ d, discord_event_to_dispatch evt = Ret (Some d) → event_guild evt = Some (dde_guild_id d).
Proof. split; [apply dispatch_panics|]. intros d. apply dispatch_guild. Qed.


(** An event that cannot be converted ends the handler of its guild: it panics in the state it is
    in, and the worker it holds is not given back. *)
Theorem unknown_event_ends_handler s guild_id t evt tape :
  event_known evt = false → handle_guild_command s (BrokerEvent (guild_event guild_id t evt)) tape = Panicked [].
Proof. apply handle_unknown. Qed.
End handling.

(** ** Examples *)

Definition ex_serde : Serde := {| to_value _ := JNull |}.
#[local] Existing Instances ex_hashes ex_text ex_timestamps ex_serde.


(** A message of a kind added since: its handler ends with the worker it got, which is never given
    back. *)
Lemma unknown_event_ends_handler_witness :
  handle_guild_command (H := ex_calendar) (ex_loaded (Some (ex_worker 5)))
    (BrokerEvent (guild_event 7 "MESSAGE_CREATE" (DeMessageCreate (ex_tw_message (TmtUnknown 27) None)))) [] = Panicked [] ∧
  ∃ tr, new_run (H := ex_calendar) (HashOrder0 := list_order) 7
      [RPremiumSlots (Some []); RListScripts (Some [ex_script 1 true]); RWorker (ex_worker 5) OtherGuild; RSent true;
       RNextTaskTime (Some None);
       RGuildCommand (Some (BrokerEvent (guild_event 7 "MESSAGE_CREATE" (DeMessageCreate (ex_tw_message (TmtUnknown 27) None)))));
       RGuildCommand (Some GcShutdown)] = Panicked tr ∧
    own_run None tr = Some (Some (ex_worker 5)).
Proof.
  split; [apply (unknown_event_ends_handler (cal := ex_calendar)); reflexivity|].
  vm_compute. by eexists.
Defined.
