(* ===== verification/Scheduler.v ===== *)
(** The scheduler ([cmd/scheduler/src/scheduler.rs]): it keeps one handler per guild, forwards
    the broker's events to them, queues events while a handler is shutting down, suspends
    guilds whose vm was forcibly shut down, and shuts everything down in the end.

    [Scheduler] is the state of the struct; [Net] holds the tasks it has spawned and their
    channels. A handler task is here an arbitrary process that receives commands, reports
    events and ends ([GuildHandler] models what it does in between). *)
From stdpp Require Import base gmap list strings sets.
From S2P Require Import Prelude Models WorkerPool Commands World IntervalTimers ScheduledTasks VmSession.

(** * State *)

Inductive SuspensionReason := ExcessCpu | ExcessInvalidDiscordRequests.

Definition duration (r : SuspensionReason) : Z :=
  match r with
  | ExcessCpu => from_secs 15
  | ExcessInvalidDiscordRequests => from_secs (60 * 10)
  end.

Record GuildSuspension := mkSuspension {
  gs_reason : SuspensionReason;
  suspended_at : Z;
}.

Definition can_remove (now : Z) (s : GuildSuspension) : bool :=
  bool_decide (duration (gs_reason s) < elapsed now (suspended_at s)).

(** [GuildHandle]: the task at the other end, and whether the command sender is still there. *)
Record GuildHandle := mkHandle {
  h_task : nat;
  h_tx : bool;
}.

(** A spawned handler: the commands sent and not received, whether it still runs (and so
    holds the receiver and the event sender), the events it reported. *)
Record HandlerTask := mkTask {
  tk_guild : Z;
  tk_inbox : list GuildCommand;
  tk_running : bool;
  tk_outbox : list VmSessionEvent;
}.

Record Scheduler := mkScheduler {
  guilds : gmap Z GuildHandle;
  queued_events : list GuildEvent;
  pending_starts : list Z;
  suspended_guilds : gmap Z GuildSuspension;
}.

Record Net := mkNet {
  net_tasks : gmap nat HandlerTask;
  net_next : nat;
  net_log : list LogEntry;
}.

Definition sys : Type := Scheduler * Net.

Definition scheduler_new : Scheduler := mkScheduler ∅ [] [] ∅.
Definition net_new : Net := mkNet ∅ 0 [].

Definition with_guilds (s : Scheduler) (g : gmap Z GuildHandle) : Scheduler :=
  mkScheduler g (queued_events s) (pending_starts s) (suspended_guilds s).
Definition with_queue (s : Scheduler) (q : list GuildEvent) : Scheduler :=
  mkScheduler (guilds s) q (pending_starts s) (suspended_guilds s).
Definition with_starts (s : Scheduler) (p : list Z) : Scheduler :=
  mkScheduler (guilds s) (queued_events s) p (suspended_guilds s).
Definition with_suspended (s : Scheduler) (m : gmap Z GuildSuspension) : Scheduler :=
  mkScheduler (guilds s) (queued_events s) (pending_starts s) m.
Definition with_tasks (n : Net) (t : gmap nat HandlerTask) : Net := mkNet t (net_next n) (net_log n).

Definition push_inbox (c : GuildCommand) (t : HandlerTask) : HandlerTask :=
  mkTask (tk_guild t) (tk_inbox t ++ [c]) (tk_running t) (tk_outbox t).

(** [tx.send(c)]: fails when the task has ended. *)
Definition chan_send (h : GuildHandle) (c : GuildCommand) (n : Net) : bool * Net :=
  match net_tasks n !! h_task h with
  | Some t => if tk_running t then (true, with_tasks n (<[h_task h := push_inbox c t]> (net_tasks n)))
              else (false, n)
  | None => (false, n)
  end.

(** * Operations *)

Definition get_or_start_guild (guild_id : Z) (x : sys) : GuildHandle * sys :=
  let '(s, n) := x in
  match guilds s !! guild_id with
  | None =>
      let handle := mkHandle (net_next n) true in
      (handle, (with_guilds s (<[guild_id := handle]> (guilds s)),
                mkNet (<[net_next n := mkTask guild_id [] true []]> (net_tasks n)) (S (net_next n)) (net_log n)))
  | Some worker => (worker, x)
  end.

Definition send_or_queue_broker_evt (evt : GuildEvent) (x : sys) : sys :=
  let '(worker, (s, n)) := get_or_start_guild (ge_guild_id evt) x in
  if h_tx worker then
    let '(ok, n) := chan_send worker (BrokerEvent evt) n in
    if ok then (s, n) else (with_queue s (queued_events s ++ [evt]), n)
  else (with_queue s (queued_events s ++ [evt]), n).

(** [tx.take()] and the shutdown signal. *)
Definition stop_handle (h : GuildHandle) (n : Net) : GuildHandle * Net :=
  if h_tx h then (mkHandle (h_task h) false, (chan_send h GcShutdown n).2) else (h, n).

Definition stop_guild (guild_id : Z) (worker : GuildHandle) (x : sys) : sys :=
  let '(s, n) := x in
  let '(h, n) := stop_handle worker n in
  (with_guilds s (<[guild_id := h]> (guilds s)), n).

Section ops.
Context `{!HashOrder Z}.

Definition shutdown_all (x : sys) : sys :=
  fold_left (λ x gh, stop_guild gh.1 gh.2 x) (hiter (guilds x.1)) x.

Definition try_unsuspend_guild (now : Z) (guild_id : Z) (s : Scheduler) : bool * Scheduler :=
  match suspended_guilds s !! guild_id with
  | Some susp =>
      if can_remove now susp then (true, with_suspended s (delete guild_id (suspended_guilds s)))
      else (false, s)
  | None => (true, s)
  end.

Definition mark_guild_as_suspended (now : Z) (guild_id : Z) (reason : SuspensionReason) (s : Scheduler)
    : Scheduler :=
  let s := with_suspended s (<[guild_id := mkSuspension reason now]> (suspended_guilds s)) in
  let s := with_starts s (List.filter (λ v, negb (v =? guild_id)) (pending_starts s)) in
  with_queue s (List.filter (λ v, negb (ge_guild_id v =? guild_id)) (queued_events s)).

Definition handle_guild_handler_event (now : Z) (guild_id : Z) (event : VmSessionEvent) (s : Scheduler)
    : Scheduler :=
  match event with
  | ForciblyShutdown => mark_guild_as_suspended now guild_id ExcessCpu s
  | TooManyInvalidRequests => mark_guild_as_suspended now guild_id ExcessInvalidDiscordRequests s
  end.

Definition check_queue_start_worker (guild_id : Z) (x : sys) : outcome sys :=
  do! x :=
    match find_index (λ v, v =? guild_id) (pending_starts x.1) with
    | Some index =>
        do! (_, starts) := unwrap (vec_remove index (pending_starts x.1)) in
        Ret (get_or_start_guild guild_id (with_starts x.1 starts, x.2)).2
    | None => Ret x
    end in
  let '(s, n) := x in
  let indexes := rev (matching_indexes (λ v, ge_guild_id v =? guild_id) (queued_events s)) in
  do! (evts, rest) := remove_each indexes (queued_events s) in
  Ret (fold_left (λ x evt, send_or_queue_broker_evt evt x) (rev evts) (with_queue s rest, n)).

Inductive SchedulerCommand :=
| BrokerConnected
| BrokerDisconnected
| BrokerHello (connected_guilds : list Z)
| DiscordEvent (evt : GuildEvent)
| ScShutdown
| ReloadGuildScripts (guild_id : Z)
| PurgeGuildCache (guild_id : Z).

(** One guild of a broker's hello. *)
Definition hello_guild (now : Z) (g : Z) (x : sys) : sys :=
  let '(ok, s) := try_unsuspend_guild now g x.1 in
  if ok then
    let '(worker, (s, n)) := get_or_start_guild g (s, x.2) in
    if h_tx worker then (s, n) else (with_starts s (pending_starts s ++ [g]), n)
  else (s, x.2).

Definition send_to_guild (guild_id : Z) (c : GuildCommand) (x : sys) : sys :=
  match guilds x.1 !! guild_id with
  | Some g => if h_tx g then (x.1, (chan_send g c x.2).2) else x
  | None => x
  end.

(** [clk i] is the reading of the clock for the [i]th guild the command concerns. *)
Definition handle_scheduler_command (clk : nat → Z) (cmd : SchedulerCommand) (x : sys) : outcome sys :=
  match cmd with
  | BrokerHello connected_guilds =>
      let '(s, n) := shutdown_all x in
      Ret (fold_left (λ x ig, hello_guild (clk ig.1) ig.2 x) (enumerate connected_guilds) (with_starts s [], n))
  | BrokerDisconnected => Ret (shutdown_all x)
  | BrokerConnected => Ret x
  | DiscordEvent evt =>
      let '(ok, s) := try_unsuspend_guild (clk 0%nat) (ge_guild_id evt) x.1 in
      if ok then
        match ge_kind evt with
        | GuildDelete =>
            Ret (match guilds s !! ge_guild_id evt with
                 | Some worker => stop_guild (ge_guild_id evt) worker (s, x.2)
                 | None => (s, x.2)
                 end)
        | _ => Ret (send_or_queue_broker_evt evt (s, x.2))
        end
      else Ret (s, x.2)
  | ScShutdown => Panic
  | ReloadGuildScripts guild_id =>
      let '(ok, s) := try_unsuspend_guild (clk 0%nat) guild_id x.1 in
      if ok then Ret (send_to_guild guild_id ReloadScripts (get_or_start_guild guild_id (s, x.2)).2)
      else
        let n := x.2 in
        Ret (s, mkNet (net_tasks n) (net_next n) (net_log n ++
          [log_error guild_id "can't unsuspend your guild yet, please wait 10 minutes"]))
  | PurgeGuildCache guild_id => Ret (send_to_guild guild_id PurgeCache x)
  end.

(** ** The main loop *)

Inductive SchedulerAction :=
| SaCmd (c : option SchedulerCommand)
| SaGuildHandler (guild_id : Z) (evt : option VmSessionEvent).

(** [handle.rx.poll_recv]: an event, the end of the channel, or nothing yet. *)
Definition poll_handle (n : Net) (h : GuildHandle) : option (option VmSessionEvent) :=
  match net_tasks n !! h_task h with
  | Some t =>
      match tk_outbox t with
      | e :: _ => Some (Some e)
      | [] => if tk_running t then None else Some None
      end
  | None => Some None
  end.

Definition pop_event (h : GuildHandle) (n : Net) : Net :=
  match net_tasks n !! h_task h with
  | Some t => with_tasks n (<[h_task h := mkTask (tk_guild t) (tk_inbox t) (tk_running t) (drop 1 (tk_outbox t))]> (net_tasks n))
  | None => n
  end.

(** [SchedulerNextActionFuture::poll]: the handlers come first; [cmd] is what the command
    channel has. *)
Definition scheduler_poll (cmd : option (option SchedulerCommand)) (x : sys) : option (SchedulerAction * sys) :=
  match find_first (λ gh, bool_decide (is_Some (poll_handle x.2 gh.2))) (hiter (guilds x.1)) with
  | Some (guild_id, handle) =>
      match poll_handle x.2 handle with
      | Some r => Some (SaGuildHandler guild_id r, (x.1, pop_event handle x.2))
      | None => None
      end
  | None => match cmd with Some c => Some (SaCmd c, x) | None => None end
  end.

Inductive phase := Running | WaitingShutdown | Stopped.

Definition wait_all (x : sys) : phase * sys :=
  (if bool_decide (guilds x.1 = ∅) then Stopped else WaitingShutdown, x).

(** The body of the loops of [run] and [wait_all_shutdown]. *)
Definition handle_scheduler_action (clk : nat → Z) (ph : phase) (a : SchedulerAction) (x : sys)
    : outcome (phase * sys) :=
  let '(s, n) := x in
  match ph with
  | Running =>
      match a with
      | SaCmd (Some ScShutdown) => Ret (wait_all (shutdown_all x))
      | SaCmd (Some cmd) => do! x := handle_scheduler_command clk cmd x in Ret (Running, x)
      | SaCmd None => Ret (wait_all (shutdown_all x))
      | SaGuildHandler guild_id None =>
          let s := with_guilds s (delete guild_id (guilds s)) in
          let '(ok, s) := try_unsuspend_guild (clk 0%nat) guild_id s in
          if ok then do! x := check_queue_start_worker guild_id (s, n) in Ret (Running, x)
          else Ret (Running, (s, n))
      | SaGuildHandler g (Some evt) => Ret (Running, (handle_guild_handler_event (clk 0%nat) g evt s, n))
      end
  | WaitingShutdown =>
      match a with
      | SaGuildHandler guild_id None =>
          do! x := check_queue_start_worker guild_id (with_guilds s (delete guild_id (guilds s)), n) in
          Ret (wait_all x)
      | _ => Ret (WaitingShutdown, x)
      end
  | Stopped => Ret (Stopped, x)
  end.
End ops.

(** * Invariant *)

Definition inbox_events (l : list GuildCommand) : list GuildEvent :=
  l ≫= (λ c, match c with BrokerEvent e => [e] | _ => [] end).

Definition for_guild (g : Z) (l : list GuildEvent) : list GuildEvent :=
  List.filter (λ e, ge_guild_id e =? g) l.

(** The events in the channel of the guild's handler. *)
Definition inbox_of (g : Z) (x : sys) : list GuildEvent :=
  match guilds x.1 !! g with
  | Some h => match net_tasks x.2 !! h_task h with Some t => inbox_events (tk_inbox t) | None => [] end
  | None => []
  end.

(** The events on their way to the guild, the oldest first. *)
Definition on_the_way (g : Z) (x : sys) : list GuildEvent := inbox_of g x ++ for_guild g (queued_events x.1).

(** What a handler may be sent: events of its own guild, and no [GuildDelete]. *)
Definition cmd_ok (g : Z) (c : GuildCommand) : Prop :=
  match c with
  | BrokerEvent e => ge_guild_id e = g ∧ ge_kind e ≠ GuildDelete
  | _ => True
  end.

Record core_inv (x : sys) : Prop := {
  ci_registered : ∀ g h, guilds x.1 !! g = Some h → ∃ t, net_tasks x.2 !! h_task h = Some t ∧ tk_guild t = g;
  ci_running : ∀ i t, net_tasks x.2 !! i = Some t → tk_running t = true →
    ∃ h, guilds x.1 !! tk_guild t = Some h ∧ h_task h = i;
  ci_fresh : ∀ i t, net_tasks x.2 !! i = Some t → (i < net_next x.2)%nat;
  ci_inbox : ∀ i t, net_tasks x.2 !! i = Some t →
    Forall (cmd_ok (tk_guild t)) (tk_inbox t) ∧ (tk_running t = false → tk_inbox t = []);
  ci_queue : ∀ e, e ∈ queued_events x.1 → ge_kind e ≠ GuildDelete ∧
    ∃ h, guilds x.1 !! ge_guild_id e = Some h ∧
      (h_tx h = true → ∀ t, net_tasks x.2 !! h_task h = Some t → tk_running t = false);
  ci_suspended : ∀ g, is_Some (suspended_guilds x.1 !! g) →
    (∀ e, e ∈ queued_events x.1 → ge_guild_id e ≠ g) ∧ g ∉ pending_starts x.1;
}.

Definition starts_ok (x : sys) : Prop := ∀ g, g ∈ pending_starts x.1 → is_Some (guilds x.1 !! g).

Definition sched_inv (x : sys) : Prop := core_inv x ∧ starts_ok x.

Lemma sched_inv_new : sched_inv (scheduler_new, net_new).
Proof.
  split; [split|]; simpl; try (intros ?? [=]).
  - by intros e ?%not_elem_of_nil.
  - by intros g [? [=]].
  - by intros g ?%not_elem_of_nil.
Qed.

Lemma elem_of_for_guild g l e : e ∈ for_guild g l ↔ e ∈ l ∧ ge_guild_id e = g.
Proof.
  unfold for_guild. rewrite !list_elem_of_In, filter_In, Z.eqb_eq. done.
Qed.

Lemma for_guild_app g l l' : for_guild g (l ++ l') = for_guild g l ++ for_guild g l'.
Proof. apply List.filter_app. Qed.

Lemma for_guild_one g e : for_guild g [e] = if g =? ge_guild_id e then [e] else [].
Proof. unfold for_guild. simpl. by rewrite Z.eqb_sym. Qed.

Lemma for_guild_nil g l : (∀ e, e ∈ l → ge_guild_id e ≠ g) → for_guild g l = [].
Proof.
  intros Hl. destruct (for_guild g l) as [|e r] eqn:He; [done|].
  assert (e ∈ for_guild g l) as [Hin Hg]%elem_of_for_guild by (rewrite He; by left). by apply Hl in Hin.
Qed.

Lemma inbox_events_app l l' : inbox_events (l ++ l') = inbox_events l ++ inbox_events l'.
Proof. apply bind_app. Qed.

(** ** Starting a handler *)

Lemma get_or_start_spec g x :
  let '(h, x') := get_or_start_guild g x in
  core_inv x →
  core_inv x' ∧ guilds x'.1 !! g = Some h ∧ (∀ g', on_the_way g' x' = on_the_way g' x) ∧
  queued_events x'.1 = queued_events x.1 ∧ pending_starts x'.1 = pending_starts x.1 ∧
  suspended_guilds x'.1 = suspended_guilds x.1 ∧ (∀ g', is_Some (guilds x.1 !! g') → is_Some (guilds x'.1 !! g')).
Proof.
  destruct x as [s n]. unfold get_or_start_guild. destruct (guilds s !! g) as [h|] eqn:Hg.
  { intros Hx. split_and!; done. }
  intros Hx. assert (net_tasks n !! net_next n = None) as Hnew.
  { destruct (net_tasks n !! net_next n) as [t|] eqn:Ht; [|done]. apply (ci_fresh _ Hx) in Ht. simpl in Ht. lia. }
  assert (∀ g' h, guilds s !! g' = Some h → g' ≠ g ∧ h_task h ≠ net_next n) as Hother.
  { intros g' h Hh. split; [congruence|]. destruct (ci_registered _ Hx g' h Hh) as (t & Ht & _). simpl in Ht. congruence. }
  assert (∀ e, e ∈ queued_events s → ge_guild_id e ≠ g) as Hq.
  { intros e He Heq. destruct (ci_queue _ Hx e He) as (_ & h & Hh & _). simpl in Hh. congruence. }
  split_and!; simpl; try done.
  - split; simpl.
    + intros g' h. rewrite lookup_insert. case_decide as Hd.
      * intros [= <-]. simpl. rewrite lookup_insert_eq. eauto.
      * intros Hh. destruct (Hother _ _ Hh). rewrite lookup_insert_ne by done. by apply (ci_registered _ Hx).
    + intros i t. rewrite lookup_insert. case_decide as Hd.
      * intros [= <-] _. simpl. rewrite lookup_insert_eq. eauto.
      * intros Ht Hr. destruct (ci_running _ Hx i t Ht Hr) as (h & Hh & Hi). simpl in Hh.
        destruct (Hother _ _ Hh). rewrite lookup_insert_ne by done. eauto.
    + intros i t. rewrite lookup_insert. case_decide as Hd; [intros _; lia|].
      intros Ht. apply (ci_fresh _ Hx) in Ht. simpl in Ht. lia.
    + intros i t. rewrite lookup_insert. case_decide as Hd; [|apply (ci_inbox _ Hx)].
      intros [= <-]. simpl. done.
    + intros e He. destruct (ci_queue _ Hx e He) as (Hk & h & Hh & Hend). simpl in Hh. split; [done|].
      destruct (Hother _ _ Hh). exists h. rewrite !lookup_insert_ne by done. done.
    + apply (ci_suspended _ Hx).
  - apply lookup_insert_eq.
  - intros g'. unfold on_the_way, inbox_of. simpl. f_equal. rewrite lookup_insert. case_decide as Hd.
    + subst g'. rewrite Hg. simpl. by rewrite lookup_insert_eq.
    + destruct (guilds s !! g') as [h|] eqn:Hh; [|done]. destruct (Hother _ _ Hh). by rewrite lookup_insert_ne.
  - intros g' Hs. rewrite lookup_insert. case_decide; eauto.
Qed.

(** ** Changing one task *)

Lemma core_inv_update x i t t' :
  core_inv x → net_tasks x.2 !! i = Some t → tk_guild t' = tk_guild t →
  (tk_running t' = true → tk_running t = true) →
  Forall (cmd_ok (tk_guild t)) (tk_inbox t') → (tk_running t' = false → tk_inbox t' = []) →
  core_inv (x.1, with_tasks x.2 (<[i := t']> (net_tasks x.2))).
Proof.
  intros Hx Hi Hg Hr Hin Hend. split; simpl.
  - intros g h Hh. destruct (ci_registered _ Hx g h Hh) as (t0 & Ht0 & Hg0). rewrite lookup_insert.
    case_decide as Hd; [|eauto]. exists t'. split; [done|]. subst i. congruence.
  - intros j t0. rewrite lookup_insert. case_decide as Hd; [|apply (ci_running _ Hx)].
    intros [= <-] Hr'. rewrite Hg. subst j. by apply (ci_running _ Hx); auto.
  - intros j t0. rewrite lookup_insert. case_decide as Hd; [|apply (ci_fresh _ Hx)].
    intros _. subst j. by eapply (ci_fresh _ Hx).
  - intros j t0. rewrite lookup_insert. case_decide as Hd; [|apply (ci_inbox _ Hx)].
    intros [= <-]. by rewrite Hg.
  - intros e He. destruct (ci_queue _ Hx e He) as (Hk & h & Hh & Hc). split; [done|]. exists h. split; [done|].
    intros Htx t0. rewrite lookup_insert. case_decide as Hd; [|by apply Hc].
    intros [= <-]. subst i. specialize (Hc Htx t Hi). destruct (tk_running t'); [|done]. by rewrite Hr in Hc.
  - apply (ci_suspended _ Hx).
Qed.

Lemma inbox_of_update x i t' g :
  is_Some (net_tasks x.2 !! i) →
  inbox_of g (x.1, with_tasks x.2 (<[i := t']> (net_tasks x.2))) =
  match guilds x.1 !! g with
  | Some h => if decide (h_task h = i) then inbox_events (tk_inbox t') else inbox_of g x
  | None => []
  end.
Proof.
  intros Hi. unfold inbox_of. simpl. destruct (guilds x.1 !! g) as [h|]; [|done].
  rewrite lookup_insert. by destruct (decide (h_task h = i)) as [<- | Hne]; [rewrite decide_True|rewrite decide_False].
Qed.

Lemma handler_unique x g h g' h' :
  core_inv x → guilds x.1 !! g = Some h → guilds x.1 !! g' = Some h' → h_task h = h_task h' → g = g'.
Proof.
  intros Hx Hh Hh' Ht. destruct (ci_registered _ Hx _ _ Hh) as (t & H1 & <-).
  destruct (ci_registered _ Hx _ _ Hh') as (t' & H2 & <-). rewrite Ht in H1. congruence.
Qed.

Lemma chan_send_spec x g h c :
  core_inv x → guilds x.1 !! g = Some h → cmd_ok g c →
  let '(ok, n) := chan_send h c x.2 in
  core_inv (x.1, n) ∧
  (∀ g', inbox_of g' (x.1, n) = inbox_of g' x ++ (if ok && (g' =? g) then inbox_events [c] else [])) ∧
  (∀ t, net_tasks x.2 !! h_task h = Some t → tk_running t = ok).
Proof.
  intros Hx Hh Hc. destruct (ci_registered _ Hx g h Hh) as (t & Ht & Hg). unfold chan_send. rewrite Ht.
  destruct (tk_running t) eqn:Hr.
  - split_and!.
    + apply core_inv_update with t; simpl; try done; [|congruence].
      destruct (ci_inbox _ Hx _ _ Ht) as [Hin _]. apply Forall_app. split; [done|]. apply Forall_singleton. by rewrite Hg.
    + intros g'. rewrite inbox_of_update by eauto. simpl.
      destruct (Z.eqb_spec g' g) as [-> | Hne].
      * rewrite Hh, decide_True by done. unfold inbox_of. rewrite Hh, Ht. apply inbox_events_app.
      * rewrite app_nil_r. destruct (guilds x.1 !! g') as [h'|] eqn:Hh'; [|unfold inbox_of; by rewrite Hh'].
        rewrite decide_False; [done|]. intros Heq. apply Hne. by eapply handler_unique.
    + intros t0 Ht0. congruence.
  - simpl. split_and!; [by destruct x|intros g'; rewrite app_nil_r; by destruct x|intros t0 Ht0; congruence].
Qed.

Lemma chan_send_false h c n n' : chan_send h c n = (false, n') → n' = n.
Proof.
  unfold chan_send. destruct (net_tasks n !! h_task h) as [t|]; [|by intros [= ->]].
  destruct (tk_running t); by intros [= ->].
Qed.

(** ** Sending an event *)

Lemma core_inv_enqueue x evt h :
  core_inv x → guilds x.1 !! ge_guild_id evt = Some h → ge_kind evt ≠ GuildDelete →
  suspended_guilds x.1 !! ge_guild_id evt = None →
  (h_tx h = true → ∀ t, net_tasks x.2 !! h_task h = Some t → tk_running t = false) →
  core_inv (with_queue x.1 (queued_events x.1 ++ [evt]), x.2).
Proof.
  intros Hx Hh Hk Hs Hend. split; simpl; try apply Hx.
  - intros e [He | ->%list_elem_of_singleton]%elem_of_app; [by apply (ci_queue _ Hx)|]. eauto.
  - intros g Hg. destruct (ci_suspended _ Hx g Hg) as [Hq Hp]. split; [|done].
    intros e [He | ->%list_elem_of_singleton]%elem_of_app; [by apply Hq|]. intros <-. rewrite Hs in Hg. by destruct Hg.
Qed.

(** The event joins the end of what is on the way to its guild. *)
Lemma send_or_queue_spec evt x :
  let x' := send_or_queue_broker_evt evt x in
  core_inv x → ge_kind evt ≠ GuildDelete → suspended_guilds x.1 !! ge_guild_id evt = None →
  core_inv x' ∧ (∀ g, on_the_way g x' = on_the_way g x ++ for_guild g [evt]) ∧
  pending_starts x'.1 = pending_starts x.1 ∧ suspended_guilds x'.1 = suspended_guilds x.1 ∧
  (∀ g, is_Some (guilds x.1 !! g) → is_Some (guilds x'.1 !! g)).
Proof.
  intros x' Hx Hk Hs. subst x'. unfold send_or_queue_broker_evt.
  pose proof (get_or_start_spec (ge_guild_id evt) x) as Hstart.
  destruct (get_or_start_guild (ge_guild_id evt) x) as [h [s n]].
  destruct (Hstart Hx) as (Hx1 & Hh & Hview & Hq & Hp & Hsu & Hdom). cbn [fst snd] in *. clear Hstart.
  assert (∀ n', core_inv (s, n') → (h_tx h = true → ∀ t, net_tasks n' !! h_task h = Some t → tk_running t = false) →
    (∀ g, inbox_of g (s, n') = inbox_of g (s, n)) →
    core_inv (with_queue s (queued_events s ++ [evt]), n') ∧
    (∀ g, on_the_way g (with_queue s (queued_events s ++ [evt]), n') = on_the_way g x ++ for_guild g [evt])) as Hqueue.
  { intros n' Hn' Hend Hin. split; [apply (core_inv_enqueue (s, n') evt h); simpl; [done..|congruence|done]|].
    intros g. rewrite <- Hview. unfold on_the_way. simpl. rewrite for_guild_app, app_assoc.
    change (inbox_of g (with_queue s _, n')) with (inbox_of g (s, n')). by rewrite Hin. }
  destruct (h_tx h) eqn:Htx.
  - pose proof (chan_send_spec (s, n) (ge_guild_id evt) h (BrokerEvent evt) Hx1 Hh (conj eq_refl Hk)) as Hsend.
    cbn [fst snd] in Hsend. destruct (chan_send h (BrokerEvent evt) n) as [ok n1] eqn:Hcs.
    destruct Hsend as (Hx2 & Hin & Hrun). destruct ok; [|].
    + split_and!; [done| |done|done|done]. intros g. rewrite <- Hview. unfold on_the_way. rewrite Hin, for_guild_one.
      cbn [andb fst].
      destruct (Z.eqb_spec g (ge_guild_id evt)) as [-> | Hne]; [|by rewrite !app_nil_r].
      rewrite (for_guild_nil (ge_guild_id evt)); [by rewrite !app_nil_r|].
      intros e He Heq. destruct (ci_queue _ Hx1 e He) as (_ & h' & Hh' & Hend).
      cbn [fst] in Hh'. rewrite Heq, Hh in Hh'.
      injection Hh' as <-. destruct (ci_registered _ Hx1 _ _ Hh) as (t & Ht & _).
      specialize (Hend Htx t Ht). rewrite (Hrun t Ht) in Hend. done.
    + destruct (Hqueue n1) as [Hc Hv]; [done| |intros g; rewrite Hin; by rewrite app_nil_r|by split_and!].
      intros _ t Ht. apply chan_send_false in Hcs as ->. by apply Hrun.
  - destruct (Hqueue n) as [Hc Hv]; [done|done|done|]. by split_and!.
Qed.

(** ** Shutting handlers down *)

(** Operations that keep the invariant, what is on the way, and the other components. *)
Record keeps (x x' : sys) : Prop := {
  k_core : core_inv x → core_inv x';
  k_view : ∀ g, on_the_way g x' = on_the_way g x;
  k_queue : queued_events x'.1 = queued_events x.1;
  k_starts : pending_starts x'.1 = pending_starts x.1;
  k_susp : suspended_guilds x'.1 = suspended_guilds x.1;
  k_dom : ∀ g, is_Some (guilds x.1 !! g) → is_Some (guilds x'.1 !! g);
}.

Lemma keeps_refl x : keeps x x.
Proof. by split. Qed.

Lemma keeps_trans x y z : keeps x y → keeps y z → keeps x z.
Proof. intros [] []. split; auto; intros; etrans; eauto. Qed.

Lemma core_inv_set_tx x g h :
  core_inv x → guilds x.1 !! g = Some h →
  core_inv (with_guilds x.1 (<[g := mkHandle (h_task h) false]> (guilds x.1)), x.2).
Proof.
  intros Hx Hh. split; simpl; try apply Hx.
  - intros g' h'. rewrite lookup_insert. case_decide; [|apply Hx]. subst. intros [= <-]. simpl. eapply (ci_registered _ Hx); exact Hh.
  - intros i t Ht Hr. destruct (ci_running _ Hx i t Ht Hr) as (h' & Hh' & Hi). rewrite lookup_insert.
    case_decide; [|eauto]. eexists. split; [done|]. simpl. congruence.
  - intros e He. destruct (ci_queue _ Hx e He) as (Hk & h' & Hh' & Hend). split; [done|]. rewrite lookup_insert.
    case_decide; [|eauto]. by eexists.
Qed.

Lemma stop_guild_spec g h x :
  core_inv x → guilds x.1 !! g = Some h →
  keeps x (stop_guild g h x) ∧
  (∀ g', guilds (stop_guild g h x).1 !! g' = if decide (g = g') then Some (mkHandle (h_task h) false) else guilds x.1 !! g').
Proof.
  intros Hx Hh. destruct x as [s n]. cbn [fst snd] in Hh. unfold stop_guild, stop_handle. destruct (h_tx h) eqn:Htx.
  - pose proof (chan_send_spec (s, n) g h GcShutdown Hx Hh I) as Hsend. cbn [fst snd] in Hsend.
    destruct (chan_send h GcShutdown n) as [ok n1]. destruct Hsend as (Hx1 & Hin & _). simpl.
    split; [|intros g'; by rewrite lookup_insert].
    assert (∀ g', inbox_of g' (with_guilds s (<[g := mkHandle (h_task h) false]> (guilds s)), n1) = inbox_of g' (s, n)) as Hview.
    { intros g'. trans (inbox_of g' (s, n1)); [|rewrite Hin; by destruct ok, (g' =? g); rewrite ?app_nil_r].
      unfold inbox_of. simpl. rewrite lookup_insert. case_decide; [subst; by rewrite Hh|done]. }
    split; simpl; try done.
    + intros _. by apply (core_inv_set_tx (s, n1)).
    + intros g'. unfold on_the_way. by rewrite Hview.
    + intros g' Hg'. rewrite lookup_insert. case_decide; [eauto|done].
  - destruct h as [i tx]. simpl in *. subst tx. rewrite insert_id by done.
    split; [destruct s; apply keeps_refl|]. intros g'. case_decide; congruence.
Qed.

Section facts.
Context `{!HashOrder Z}.

Lemma stop_list_spec (l : list (Z * GuildHandle)) x :
  core_inv x → NoDup l.*1 → (∀ g h, (g, h) ∈ l → guilds x.1 !! g = Some h) →
  let x' := fold_left (λ x gh, stop_guild gh.1 gh.2 x) l x in
  keeps x x' ∧ ∀ g h, guilds x'.1 !! g = Some h → h_tx h = false ∨ g ∉ l.*1 ∧ guilds x.1 !! g = Some h.
Proof.
  revert x. induction l as [|[g h] l IH]; intros x Hx Hnd Hl; simpl.
  { split; [apply keeps_refl|]. intros g h Hh. right. split; [apply not_elem_of_nil|done]. }
  apply NoDup_cons in Hnd as [Hg Hnd]. destruct (stop_guild_spec g h x Hx (Hl g h ltac:(by left))) as [Hk Hgs].
  destruct (IH (stop_guild g h x)) as [Hk' Hgs'].
  - by apply Hk.
  - done.
  - intros g' h' Hin. rewrite Hgs. case_decide as Hd; [|apply Hl; by right]. subst g'. destruct Hg.
    apply list_elem_of_fmap. by exists (g, h').
  - split; [by eapply keeps_trans|]. intros g' h' Hh'. destruct (Hgs' g' h' Hh') as [Htx|[Hin Hold]]; [by left|].
    rewrite Hgs in Hold. case_decide as Hd; [injection Hold as <-; by left|]. right. split; [|done].
    by apply not_elem_of_cons.
Qed.

(** All handlers have been told to stop, and nothing else has changed. *)
Lemma shutdown_all_spec x :
  core_inv x → keeps x (shutdown_all x) ∧ ∀ g h, guilds (shutdown_all x).1 !! g = Some h → h_tx h = false.
Proof.
  intros Hx. destruct (stop_list_spec (hiter (guilds x.1)) x Hx) as [Hk Hg].
  - apply NoDup_hiter.
  - intros g h. by rewrite elem_of_hiter.
  - split; [exact Hk|]. intros g h Hh. destruct (Hg g h Hh) as [?|[Hin Hold]]; [done|].
    destruct Hin. apply list_elem_of_fmap. exists (g, h). split; [done|]. by rewrite elem_of_hiter.
Qed.

(** ** Commands *)

Lemma sched_inv_keeps x x' : keeps x x' → sched_inv x → sched_inv x'.
Proof.
  intros Hk [Hc Hs]. split; [by apply Hk|]. intros g Hg. apply Hk, Hs. by rewrite <- (k_starts _ _ Hk).
Qed.

Lemma get_or_start_keeps g x : core_inv x → keeps x (get_or_start_guild g x).2.
Proof.
  intros Hx. pose proof (get_or_start_spec g x) as Hs. destruct (get_or_start_guild g x) as [h x'].
  destruct (Hs Hx) as (Hc & _ & Hv & Hq & Hp & Hsu & Hd). by split.
Qed.

Lemma get_or_start_lookup g x : core_inv x → guilds (get_or_start_guild g x).2.1 !! g = Some (get_or_start_guild g x).1.
Proof.
  intros Hx. pose proof (get_or_start_spec g x) as Hs. destruct (get_or_start_guild g x) as [h x'].
  by destruct (Hs Hx) as (_ & Hh & _).
Qed.

(** The state after [try_unsuspend_guild], which changes the suspensions only. *)
Lemma try_unsuspend_spec now g x :
  let '(ok, s) := try_unsuspend_guild now g x.1 in
  (sched_inv x → sched_inv (s, x.2)) ∧ guilds s = guilds x.1 ∧ queued_events s = queued_events x.1 ∧
  pending_starts s = pending_starts x.1 ∧
  (if ok then suspended_guilds s !! g = None else s = x.1 ∧ is_Some (suspended_guilds x.1 !! g)).
Proof.
  destruct x as [s n]. unfold try_unsuspend_guild. simpl. destruct (suspended_guilds s !! g) as [susp|] eqn:Hg; [|done].
  destruct (can_remove now susp); [|split_and!; [done..|eauto]]. split_and!; [|done..|apply lookup_delete_eq].
  intros [Hc Hs]. split; [|done]. split; simpl; try apply Hc. intros g'. rewrite lookup_delete.
  case_decide; [by intros []|apply (ci_suspended _ Hc)].
Qed.

Lemma try_unsuspend_view now g g' x : on_the_way g' ((try_unsuspend_guild now g x.1).2, x.2) = on_the_way g' x.
Proof.
  pose proof (try_unsuspend_spec now g x) as Hs. destruct (try_unsuspend_guild now g x.1) as [ok s].
  destruct Hs as (_ & Hg & Hq & _). unfold on_the_way, inbox_of. simpl. by rewrite Hg, Hq.
Qed.

Lemma mark_suspended_spec now g r x :
  sched_inv x → sched_inv (mark_guild_as_suspended now g r x.1, x.2) ∧
  ∀ g', on_the_way g' (mark_guild_as_suspended now g r x.1, x.2) `sublist_of` on_the_way g' x.
Proof.
  destruct x as [s n]. intros [Hc Hs].
  assert (∀ e, e ∈ List.filter (λ v, negb (ge_guild_id v =? g)) (queued_events s) ↔ e ∈ queued_events s ∧ ge_guild_id e ≠ g) as Hf.
  { intros e. rewrite !list_elem_of_In, filter_In, negb_true_iff, Z.eqb_neq. done. }
  assert (∀ g', g' ∈ List.filter (λ v, negb (v =? g)) (pending_starts s) ↔ g' ∈ pending_starts s ∧ g' ≠ g) as Hp.
  { intros g'. rewrite !list_elem_of_In, filter_In, negb_true_iff, Z.eqb_neq. done. }
  split.
  - split; simpl.
    + split; simpl; try apply Hc.
      * intros e [He _]%Hf. by apply (ci_queue _ Hc).
      * intros g'. rewrite lookup_insert. case_decide as Hd.
        { subst g'. intros _. split; [by intros e [_ ?]%Hf|]. by intros [_ ?]%Hp. }
        intros Hg'. destruct (ci_suspended _ Hc g' Hg') as [Hq Hst]. split; [intros e [? _]%Hf; by apply Hq|].
        intros [? _]%Hp. done.
    + intros g' [Hg' _]%Hp. by apply Hs.
  - intros g'. unfold on_the_way. simpl. apply sublist_app; [done|]. unfold for_guild. clear Hf.
    induction (queued_events s) as [|e l IH]; simpl; [done|]. clear -IH.
    destruct (negb (ge_guild_id e =? g)); simpl; destruct (ge_guild_id e =? g'); try done; by constructor.
Qed.

Lemma hello_guild_spec now g x :
  sched_inv x → sched_inv (hello_guild now g x) ∧ ∀ g', on_the_way g' (hello_guild now g x) = on_the_way g' x.
Proof.
  intros Hx. unfold hello_guild. pose proof (try_unsuspend_spec now g x) as Hs.
  pose proof (λ g', try_unsuspend_view now g g' x) as Hv.
  destruct (try_unsuspend_guild now g x.1) as [ok s]. cbn [fst snd] in Hv. destruct Hs as (Hinv & _ & _ & _ & Hok).
  specialize (Hinv Hx). destruct ok; [|done].
  pose proof (get_or_start_keeps g (s, x.2) (proj1 Hinv)) as Hk.
  pose proof (get_or_start_lookup g (s, x.2) (proj1 Hinv)) as Hl.
  destruct (get_or_start_guild g (s, x.2)) as [h [s' n']]. cbn [fst snd] in *.
  assert (sched_inv (s', n')) as [Hc' Hs'] by by eapply sched_inv_keeps.
  destruct (h_tx h); [split; [done|intros; by rewrite (k_view _ _ Hk)]|].
  split; [|intros g'; rewrite <- Hv; exact (k_view _ _ Hk g')]. split.
  - split; simpl; try apply Hc'. intros g' Hg'. destruct (ci_suspended _ Hc' g' Hg') as [Hq Hst]. split; [done|].
    intros [Hin | ->%list_elem_of_singleton]%elem_of_app; [done|].
    pose proof (k_susp _ _ Hk) as Hsu. simpl in Hsu, Hg'. rewrite Hsu, Hok in Hg'. by destruct Hg'.
  - intros g' [Hin | ->%list_elem_of_singleton]%elem_of_app; [by apply Hs'|]. simpl. by rewrite Hl.
Qed.

Lemma hello_fold_spec clk l x :
  sched_inv x → let x' := fold_left (λ x (ig : nat * Z), hello_guild (clk ig.1) ig.2 x) l x in
  sched_inv x' ∧ ∀ g, on_the_way g x' = on_the_way g x.
Proof.
  revert x. induction l as [|[i g] l IH]; intros x Hx; simpl; [done|].
  destruct (hello_guild_spec (clk i) g x Hx) as [Hx' Hv]. destruct (IH _ Hx') as [Hx2 Hv2].
  split; [done|]. intros g'. by rewrite Hv2.
Qed.

Lemma send_to_guild_spec g c x :
  sched_inv x → cmd_ok g c → inbox_events [c] = [] →
  sched_inv (send_to_guild g c x) ∧ ∀ g', on_the_way g' (send_to_guild g c x) = on_the_way g' x.
Proof.
  intros Hx Hc Hno. unfold send_to_guild. destruct (guilds x.1 !! g) as [h|] eqn:Hh; [|done].
  destruct (h_tx h); [|done]. pose proof (chan_send_spec x g h c (proj1 Hx) Hh Hc) as Hs.
  destruct (chan_send h c x.2) as [ok n]. destruct Hs as (Hc' & Hin & _). split; [by split; [|apply Hx]|].
  intros g'. unfold on_the_way. rewrite Hin, Hno. destruct (_ && _); by rewrite app_nil_r.
Qed.

(** ** The end of a handler *)

Definition others (g : Z) (l : list GuildEvent) : list GuildEvent :=
  List.filter (λ e, negb (ge_guild_id e =? g)) l.

Lemma elem_of_others g l e : e ∈ others g l ↔ e ∈ l ∧ ge_guild_id e ≠ g.
Proof. unfold others. rewrite !list_elem_of_In, filter_In, negb_true_iff, Z.eqb_neq. done. Qed.

Lemma others_id g l : (∀ e, e ∈ l → ge_guild_id e ≠ g) → others g l = l.
Proof.
  induction l as [|e l IH]; intros Hl; [done|]. unfold others. simpl.
  destruct (Z.eqb_spec (ge_guild_id e) g) as [He|_]; [by destruct (Hl e ltac:(by left))|].
  simpl. f_equal. apply IH. intros e' He'. apply Hl. by right.
Qed.

Lemma for_guild_others g g' l : for_guild g' (others g l) = if g' =? g then [] else for_guild g' l.
Proof.
  induction l as [|e l IH]; simpl; [by destruct (g' =? g)|]. unfold others, for_guild in *. simpl.
  destruct (Z.eqb_spec (ge_guild_id e) g) as [He|He]; simpl; rewrite IH;
    destruct (Z.eqb_spec g' g), (Z.eqb_spec (ge_guild_id e) g'); try done; congruence.
Qed.

(** The handler's entry and the guild's queued events are gone. *)
Definition ended (g : Z) (s : Scheduler) (starts : list Z) : Scheduler :=
  mkScheduler (delete g (guilds s)) (others g (queued_events s)) starts (suspended_guilds s).

Lemma ended_inv g s n h starts :
  core_inv (s, n) → guilds s !! g = Some h →
  (∀ t, net_tasks n !! h_task h = Some t → tk_running t = false) →
  (∀ g', g' ∈ starts → g' ∈ pending_starts s) →
  core_inv (ended g s starts, n) ∧
  (∀ g', on_the_way g' (s, n) = on_the_way g' (ended g s starts, n) ++ (if g' =? g then for_guild g (queued_events s) else [])).
Proof.
  intros Hx Hh Hend Hst. split.
  - split; simpl; try apply Hx.
    + intros g' h'. rewrite lookup_delete. case_decide; [done|]. apply (ci_registered _ Hx).
    + intros i t Ht Hr. destruct (ci_running _ Hx i t Ht Hr) as (h' & Hh' & Hi). simpl in Hh'.
      exists h'. split; [|done]. rewrite lookup_delete. case_decide as Hd; [|done].
      rewrite <- Hd in Hh'. replace h' with h in Hi by congruence. subst i. simpl in Ht. rewrite (Hend t Ht) in Hr. done.
    + intros e [He Hne]%elem_of_others. destruct (ci_queue _ Hx e He) as (Hk & h' & Hh' & Hc). split; [done|].
      exists h'. by rewrite lookup_delete_ne.
    + intros g' Hg'. destruct (ci_suspended _ Hx g' Hg') as [Hq Hp]. split; [|by intros ?%Hst].
      intros e [He _]%elem_of_others. by apply Hq.
  - intros g'. unfold on_the_way. simpl. rewrite for_guild_others. unfold inbox_of. simpl. rewrite lookup_delete.
    destruct (Z.eqb_spec g' g) as [-> | Hne].
    + rewrite decide_True by done. simpl. rewrite Hh.
      destruct (ci_registered _ Hx g h Hh) as (t & Ht & _). simpl in Ht. rewrite Ht.
      destruct (ci_inbox _ Hx _ _ Ht) as [_ Hin]. by rewrite (Hin (Hend t Ht)).
    + rewrite decide_False by done. by rewrite app_nil_r.
Qed.

Lemma send_list_spec evts x :
  core_inv x → Forall (λ e, ge_kind e ≠ GuildDelete ∧ suspended_guilds x.1 !! ge_guild_id e = None) evts →
  let x' := fold_left (λ x evt, send_or_queue_broker_evt evt x) evts x in
  core_inv x' ∧ (∀ g, on_the_way g x' = on_the_way g x ++ for_guild g evts) ∧
  pending_starts x'.1 = pending_starts x.1 ∧ suspended_guilds x'.1 = suspended_guilds x.1 ∧
  (∀ g, is_Some (guilds x.1 !! g) → is_Some (guilds x'.1 !! g)).
Proof.
  revert x. induction evts as [|e evts IH]; intros x Hx He; cbn [fold_left].
  { split_and!; try done. intros g. by rewrite app_nil_r. }
  apply Forall_cons in He as [[Hk Hs] He].
  destruct (send_or_queue_spec e x Hx Hk Hs) as (Hx1 & Hv1 & Hp1 & Hs1 & Hd1).
  destruct (IH (send_or_queue_broker_evt e x)) as (Hx2 & Hv2 & Hp2 & Hs2 & Hd2); [done|by rewrite Hs1|].
  split_and!; [done| |congruence|congruence|auto]. intros g. rewrite Hv2, Hv1, <- app_assoc.
  by rewrite <- for_guild_app.
Qed.

Lemma get_or_start_with_queue g s q n :
  get_or_start_guild g (with_queue s q, n) =
  let '(h, (s', n')) := get_or_start_guild g (s, n) in (h, (with_queue s' q, n')).
Proof. unfold get_or_start_guild. simpl. by destruct (guilds s !! g). Qed.

(** [check_queue_start_worker] without indices: start the guild if it waits for that, then
    send its queued events in order. *)
Lemma check_queue_eq g s n :
  ∃ starts, (∀ g', g' ∈ starts → g' ∈ pending_starts s) ∧
    (if bool_decide (g ∈ pending_starts s) then True else starts = pending_starts s) ∧
    check_queue_start_worker g (s, n) =
    Ret (fold_left (λ x evt, send_or_queue_broker_evt evt x) (for_guild g (queued_events s))
      (let x := (mkScheduler (guilds s) (others g (queued_events s)) starts (suspended_guilds s), n) in
       if bool_decide (g ∈ pending_starts s) then (get_or_start_guild g x).2 else x)).
Proof.
  unfold check_queue_start_worker. cbn [fst snd].
  destruct (find_index _ (pending_starts s)) as [i|] eqn:Hi.
  - apply find_index_Some in Hi as (y & Hy & ->%Z.eqb_eq & _).
    rewrite bool_decide_true by by eapply list_elem_of_lookup_2.
    unfold vec_remove. rewrite Hy. cbn [unwrap outcome_bind].
    exists (take i (pending_starts s) ++ drop (S i) (pending_starts s)). split_and!; [|done|].
    + intros g' Hin. rewrite <- (take_drop (S i) (pending_starts s)). rewrite (take_S_r _ _ _ Hy).
      rewrite !elem_of_app in *. naive_solver.
    + set (starts := take i _ ++ _).
      change (mkScheduler (guilds s) _ starts _) with (with_queue (with_starts s starts) (others g (queued_events s))).
      rewrite get_or_start_with_queue.
      assert (queued_events (get_or_start_guild g (with_starts s starts, n)).2.1 = queued_events s) as Hq.
      { unfold get_or_start_guild. simpl. by destruct (guilds s !! g). }
      destruct (get_or_start_guild g (with_starts s starts, n)) as [h [s' n']]. cbn [fst snd] in *.
      rewrite Hq, remove_matching. cbn [outcome_bind]. by rewrite rev_involutive.
  - apply find_index_None in Hi. rewrite bool_decide_false.
    2:{ intros Hin. rewrite Forall_forall in Hi. specialize (Hi g Hin). by rewrite Z.eqb_refl in Hi. }
    exists (pending_starts s). split_and!; [done|done|]. cbn [outcome_bind].
    rewrite remove_matching. cbn [outcome_bind]. rewrite rev_involutive. done.
Qed.

Lemma queued_sendable g x :
  core_inv x → Forall (λ e, ge_kind e ≠ GuildDelete ∧ suspended_guilds x.1 !! ge_guild_id e = None)
    (for_guild g (queued_events x.1)).
Proof.
  intros Hx. apply Forall_forall. intros e [He _]%elem_of_for_guild. destruct (ci_queue _ Hx e He) as [Hk _].
  split; [done|]. destruct (suspended_guilds x.1 !! ge_guild_id e) eqn:Hs; [|done].
  destruct (ci_suspended _ Hx (ge_guild_id e)) as [Hq _]; [eauto|]. by destruct (Hq e He).
Qed.

Lemma for_guild_twice g g' l : for_guild g' (for_guild g l) = if g' =? g then for_guild g l else [].
Proof.
  destruct (Z.eqb_spec g' g) as [-> | Hne].
  - unfold for_guild. induction l as [|e l IH]; simpl; [done|].
    destruct (ge_guild_id e =? g) eqn:He; simpl; rewrite ?He, ?IH; done.
  - apply for_guild_nil. intros e [_ <-]%elem_of_for_guild. done.
Qed.

(** Nothing on the way is lost or reordered when a handler's end is handled. *)
Lemma handler_end_spec g s n h :
  sched_inv (s, n) → guilds s !! g = Some h →
  (∀ t, net_tasks n !! h_task h = Some t → tk_running t = false) →
  ∃ x', check_queue_start_worker g (with_guilds s (delete g (guilds s)), n) = Ret x' ∧
    sched_inv x' ∧ ∀ g', on_the_way g' x' = on_the_way g' (s, n).
Proof.
  intros [Hc Hst] Hh Hend.
  destruct (check_queue_eq g (with_guilds s (delete g (guilds s))) n) as (starts & Hsub & Hsame & Heq).
  cbn [guilds queued_events pending_starts suspended_guilds with_guilds] in *.
  eexists. split; [exact Heq|]. clear Heq. change (mkScheduler _ _ starts _) with (ended g s starts).
  destruct (ended_inv g s n h starts Hc Hh Hend Hsub) as [Hce Hve].
  set (x1 := if bool_decide _ then _ else _).
  assert (keeps (ended g s starts, n) x1 ∧ (g ∈ pending_starts s → is_Some (guilds x1.1 !! g))) as [Hk1 Hd1].
  { subst x1. case_bool_decide as Hb; [|split; [apply keeps_refl|done]].
    split; [by apply get_or_start_keeps|]. intros _. rewrite get_or_start_lookup by done. eauto. }
  pose proof (queued_sendable g (s, n) Hc) as Hev. simpl in Hev.
  destruct (send_list_spec (for_guild g (queued_events s)) x1) as (Hx2 & Hv2 & Hp2 & Hs2 & Hd2).
  { by apply Hk1. }
  { rewrite (k_susp _ _ Hk1). done. }
  split; [split; [done|]|].
  - intros g' Hg'. apply Hd2. rewrite Hp2, (k_starts _ _ Hk1) in Hg'. simpl in Hg'.
    destruct (decide (g' = g)) as [-> | Hne].
    + apply Hd1, Hsub, Hg'.
    + apply (k_dom _ _ Hk1). simpl. rewrite lookup_delete_ne by done. by apply Hst, Hsub.
  - intros g'. rewrite Hv2, (k_view _ _ Hk1), for_guild_twice, Hve. done.
Qed.

Lemma handler_end_refused g s n h :
  sched_inv (s, n) → guilds s !! g = Some h →
  (∀ t, net_tasks n !! h_task h = Some t → tk_running t = false) → is_Some (suspended_guilds s !! g) →
  sched_inv (with_guilds s (delete g (guilds s)), n) ∧
  ∀ g', on_the_way g' (with_guilds s (delete g (guilds s)), n) = on_the_way g' (s, n).
Proof.
  intros [Hc Hst] Hh Hend Hsu. destruct (ci_suspended _ Hc g Hsu) as [Hq Hp]. simpl in Hq, Hp.
  destruct (ended_inv g s n h (pending_starts s) Hc Hh Hend ltac:(done)) as [Hce Hve].
  unfold ended in Hce, Hve. rewrite (others_id g) in Hce, Hve by done. split.
  - split; [exact Hce|]. intros g' Hg'. simpl. rewrite lookup_delete_ne; [by apply Hst|]. intros ->. done.
  - intros g'. rewrite Hve. rewrite (for_guild_nil g) by done. destruct (_ =? _); by rewrite app_nil_r.
Qed.

Lemma try_unsuspend_with_guilds now g s m :
  try_unsuspend_guild now g (with_guilds s m) =
  let '(ok, s') := try_unsuspend_guild now g s in (ok, with_guilds s' m).
Proof.
  unfold try_unsuspend_guild. simpl. destruct (suspended_guilds s !! g) as [su|]; [|done]. by destruct (can_remove now su).
Qed.

(** ** Actions *)

(** What [scheduler_poll] guarantees of the action it returns. *)
Definition enabled (a : SchedulerAction) (x : sys) : Prop :=
  match a with
  | SaGuildHandler g None => ∃ h, guilds x.1 !! g = Some h ∧
      ∀ t, net_tasks x.2 !! h_task h = Some t → tk_running t = false
  | _ => True
  end.

(** The event the action accepts for delivery. *)
Definition accepts (clk : nat → Z) (ph : phase) (a : SchedulerAction) (x : sys) : list GuildEvent :=
  match ph, a with
  | Running, SaCmd (Some (DiscordEvent evt)) =>
      if (try_unsuspend_guild (clk 0%nat) (ge_guild_id evt) x.1).1 then
        match ge_kind evt with GuildDelete => [] | _ => [evt] end
      else []
  | _, _ => []
  end.

Lemma poll_spec cmd x a x' :
  sched_inv x → scheduler_poll cmd x = Some (a, x') →
  sched_inv x' ∧ enabled a x' ∧ (∀ g, on_the_way g x' = on_the_way g x) ∧ guilds x'.1 = guilds x.1.
Proof.
  intros [Hc Hst]. unfold scheduler_poll. destruct (find_first _ _) as [[g h]|] eqn:Hf.
  2:{ destruct cmd; [|done]. intros [= <- <-]. split_and!; [done| |done|done]. done. }
  apply find_first_Some in Hf as [Hin _]. rewrite elem_of_hiter in Hin.
  destruct (ci_registered _ Hc g h Hin) as (t & Ht & Hg).
  destruct (poll_handle x.2 h) as [r|] eqn:Hp; [|done]. intros [= <- <-]. unfold pop_event. rewrite Ht.
  set (t' := mkTask _ _ _ _). destruct (ci_inbox _ Hc _ _ Ht) as [Hi1 Hi2].
  assert (core_inv (x.1, with_tasks x.2 (<[h_task h := t']> (net_tasks x.2)))) as Hc'
    by (apply core_inv_update with t; done).
  split_and!; [done| |  |done].
  - destruct r as [e|]; [done|]. exists h. split; [done|]. simpl. rewrite lookup_insert_eq. intros t0 [= <-]. simpl.
    unfold poll_handle in Hp. rewrite Ht in Hp. destruct (tk_outbox t); [|done]. by destruct (tk_running t).
  - intros g'. unfold on_the_way. rewrite inbox_of_update by eauto. simpl. f_equal.
    unfold inbox_of. destruct (guilds x.1 !! g') as [h'|]; [|done]. case_decide as Hd; [|done]. by rewrite Hd, Ht.
Qed.

Lemma handle_command_spec clk cmd x :
  sched_inv x → cmd ≠ ScShutdown →
  ∃ x', handle_scheduler_command clk cmd x = Ret x' ∧ sched_inv x' ∧
    ∀ g, on_the_way g x' = on_the_way g x ++ for_guild g (accepts clk Running (SaCmd (Some cmd)) x).
Proof.
  intros Hx Hne. pose proof (shutdown_all_spec x (proj1 Hx)) as [Hk _].
  assert (∀ x', sched_inv x' → (∀ g, on_the_way g x' = on_the_way g x) →
    ∃ x'', Ret x' = Ret x'' ∧ sched_inv x'' ∧ ∀ g, on_the_way g x'' = on_the_way g x ++ []) as Hsame.
  { intros x' Hx' Hv. exists x'. split_and!; [done..|]. intros g. by rewrite app_nil_r. }
  destruct cmd as [| |l|evt| |g|g]; simpl; try done.
  - by apply Hsame.
  - apply Hsame; [by eapply sched_inv_keeps|apply Hk].
  - destruct (shutdown_all x) as [s n] eqn:Hsd.
    assert (sched_inv (with_starts s [], n)) as Hx1.
    { destruct (sched_inv_keeps _ _ Hk Hx) as [Hc _]. split; [|by intros g ?%not_elem_of_nil].
      split; simpl; try apply Hc. intros g Hg. destruct (ci_suspended _ Hc g Hg). split; [done|apply not_elem_of_nil]. }
    destruct (hello_fold_spec clk (enumerate l) _ Hx1) as [Hx2 Hv2]. apply Hsame; [done|].
    intros g. rewrite Hv2. exact (k_view _ _ Hk g).
  - pose proof (try_unsuspend_spec (clk 0%nat) (ge_guild_id evt) x) as Hs.
    pose proof (λ g', try_unsuspend_view (clk 0%nat) (ge_guild_id evt) g' x) as Hv.
    destruct (try_unsuspend_guild _ _ _) as [ok s]. cbn [fst snd] in *. destruct Hs as (Hinv & _ & _ & _ & Hok).
    specialize (Hinv Hx). destruct ok; [|by apply Hsame].
    assert (ge_kind evt ≠ GuildDelete → ∃ x', Ret (send_or_queue_broker_evt evt (s, x.2)) = Ret x' ∧ sched_inv x' ∧
      ∀ g, on_the_way g x' = on_the_way g x ++ for_guild g [evt]) as Hsend.
    { intros Hk'. destruct (send_or_queue_spec evt (s, x.2) (proj1 Hinv) Hk' Hok) as (Hc & Hv' & Hp & _ & Hd).
      eexists. split; [done|]. split; [|intros g; by rewrite Hv', Hv]. split; [done|].
      intros g Hg. rewrite Hp in Hg. by apply Hd, Hinv. }
    destruct (ge_kind evt) eqn:Hkind; [by apply Hsend| |by apply Hsend].
    destruct (guilds s !! ge_guild_id evt) as [h|] eqn:Hh; [|by apply Hsame].
    destruct (stop_guild_spec (ge_guild_id evt) h (s, x.2) (proj1 Hinv) Hh) as [Hks _].
    apply Hsame; [by eapply sched_inv_keeps|]. intros g. by rewrite (k_view _ _ Hks).
  - pose proof (try_unsuspend_spec (clk 0%nat) g x) as Hs.
    pose proof (λ g', try_unsuspend_view (clk 0%nat) g g' x) as Hv.
    destruct (try_unsuspend_guild _ _ _) as [ok s]. cbn [fst snd] in *. destruct Hs as (Hinv & _ & _ & _ & Hok).
    specialize (Hinv Hx). destruct ok.
    + pose proof (get_or_start_keeps g (s, x.2) (proj1 Hinv)) as Hkg.
      destruct (send_to_guild_spec g ReloadScripts (get_or_start_guild g (s, x.2)).2) as [Hx2 Hv2];
        [by eapply sched_inv_keeps|done|done|]. apply Hsame; [done|]. intros g'. by rewrite Hv2, (k_view _ _ Hkg).
    + apply Hsame; [|done]. destruct Hinv as [Hc Hst]. split; [|done]. destruct Hc. by split.
  - destruct (send_to_guild_spec g PurgeCache x Hx) as [Hx2 Hv2]; [done..|]. by apply Hsame.
Qed.

Lemma handle_action_inv clk ph a x :
  sched_inv x → enabled a x →
  ∃ ph' x', handle_scheduler_action clk ph a x = Ret (ph', x') ∧ sched_inv x' ∧
    ∀ g, on_the_way g x' `sublist_of` on_the_way g x ++ for_guild g (accepts clk ph a x).
Proof.
  intros Hx Ha. destruct x as [s n].
  assert (∀ (ph' : phase) x', sched_inv x' → (∀ g, on_the_way g x' = on_the_way g (s, n)) →
    ∃ (ph'' : phase) x'', Ret (ph', x') = Ret (ph'', x'') ∧ sched_inv x'' ∧
      ∀ g, on_the_way g x'' `sublist_of` on_the_way g (s, n) ++ []) as Hsame.
  { intros ph' x' Hx' Hv. exists ph', x'. split_and!; [done..|]. intros g. by rewrite app_nil_r, Hv. }
  pose proof (shutdown_all_spec (s, n) (proj1 Hx)) as [Hk _].
  pose proof (sched_inv_keeps _ _ Hk Hx) as Hsd. pose proof (k_view _ _ Hk) as Hsdv.
  destruct ph; unfold handle_scheduler_action.
  - destruct a as [[cmd|]|g [evt|]].
    + assert (cmd = ScShutdown ∨ cmd ≠ ScShutdown) as [-> | Hne] by (destruct cmd; by (left + right)); [by apply Hsame|].
      destruct (handle_command_spec clk cmd (s, n) Hx Hne) as (x' & Hrun & Hx' & Hv).
      exists Running, x'. split; [|split; [done|intros g; by rewrite Hv]].
      destruct cmd; rewrite ?Hrun; done.
    + by apply Hsame.
    + destruct evt; simpl.
      * destruct (mark_suspended_spec (clk 0%nat) g ExcessInvalidDiscordRequests (s, n) Hx) as [Hx' Hv].
        eexists _, _. split_and!; [done|exact Hx'|]. intros g'. rewrite app_nil_r. apply Hv.
      * destruct (mark_suspended_spec (clk 0%nat) g ExcessCpu (s, n) Hx) as [Hx' Hv].
        eexists _, _. split_and!; [done|exact Hx'|]. intros g'. rewrite app_nil_r. apply Hv.
    + destruct Ha as (h & Hh & Hend). cbn [fst snd] in Hh, Hend. rewrite try_unsuspend_with_guilds.
      pose proof (try_unsuspend_spec (clk 0%nat) g (s, n)) as Hs.
      pose proof (λ g', try_unsuspend_view (clk 0%nat) g g' (s, n)) as Hv. cbn [fst snd] in Hs, Hv.
      destruct (try_unsuspend_guild (clk 0%nat) g s) as [ok s1]. cbn [fst snd] in *.
      destruct Hs as (Hinv & Hg1 & _ & _ & Hok). specialize (Hinv Hx). rewrite <- Hg1 in Hh |- *. destruct ok.
      * destruct (handler_end_spec g s1 n h Hinv Hh Hend) as (x' & Hrun & Hx' & Hv'). rewrite Hrun. simpl.
        apply Hsame; [done|]. intros g'. by rewrite Hv', Hv.
      * destruct Hok as [-> Hsu]. destruct (handler_end_refused g s n h Hx Hh Hend Hsu). by apply Hsame.
  - destruct a as [c|g [evt|]]; try by apply Hsame.
    destruct Ha as (h & Hh & Hend). cbn [fst snd] in Hh, Hend.
    destruct (handler_end_spec g s n h Hx Hh Hend) as (x' & Hrun & Hx' & Hv'). rewrite Hrun. by apply Hsame.
  - by apply Hsame.
Qed.

(** * The scheduler and its handlers together

    The ghost components are the events the scheduler accepted for delivery, and the events
    handlers have received, in order. *)
Record world := mkWorld {
  w_phase : phase;
  w_sys : sys;
  w_accepted : list GuildEvent;
  w_handled : list GuildEvent;
}.

Definition world_new : world := mkWorld Running (scheduler_new, net_new) [] [].

Definition set_task (x : sys) (i : nat) (t : HandlerTask) : sys :=
  (x.1, with_tasks x.2 (<[i := t]> (net_tasks x.2))).

Inductive step : world → world → Prop :=
| step_scheduler ph x acc han clk cmd a x1 ph' x' :
    ph ≠ Stopped → scheduler_poll cmd x = Some (a, x1) →
    handle_scheduler_action clk ph a x1 = Ret (ph', x') →
    step (mkWorld ph x acc han) (mkWorld ph' x' (acc ++ accepts clk ph a x1) han)
| step_receive ph x acc han i t c rest :
    net_tasks x.2 !! i = Some t → tk_running t = true → tk_inbox t = c :: rest →
    step (mkWorld ph x acc han)
      (mkWorld ph (set_task x i (mkTask (tk_guild t) rest true (tk_outbox t))) acc (han ++ inbox_events [c]))
| step_report ph x acc han i t e :
    net_tasks x.2 !! i = Some t → tk_running t = true →
    step (mkWorld ph x acc han)
      (mkWorld ph (set_task x i (mkTask (tk_guild t) (tk_inbox t) true (tk_outbox t ++ [e]))) acc han)
| step_end ph x acc han i t :
    net_tasks x.2 !! i = Some t → tk_running t = true →
    step (mkWorld ph x acc han)
      (mkWorld ph (set_task x i (mkTask (tk_guild t) [] false (tk_outbox t))) acc han).

Inductive reachable : world → Prop :=
| reachable_new : reachable world_new
| reachable_step w w' : reachable w → step w w' → reachable w'.

Definition ordered (w : world) : Prop :=
  ∀ g, for_guild g (w_handled w) ++ on_the_way g (w_sys w) `sublist_of` for_guild g (w_accepted w).

Lemma running_handler x i t :
  core_inv x → net_tasks x.2 !! i = Some t → tk_running t = true →
  ∃ h, guilds x.1 !! tk_guild t = Some h ∧ h_task h = i ∧ inbox_of (tk_guild t) x = inbox_events (tk_inbox t).
Proof.
  intros Hx Ht Hr. destruct (ci_running _ Hx i t Ht Hr) as (h & Hh & Hi). exists h. split_and!; [done..|].
  unfold inbox_of. by rewrite Hh, Hi, Ht.
Qed.

Lemma set_task_view x i t t' g :
  core_inv x → net_tasks x.2 !! i = Some t → tk_running t = true →
  on_the_way g (set_task x i t') =
  (if g =? tk_guild t then inbox_events (tk_inbox t') else inbox_of g x) ++ for_guild g (queued_events x.1).
Proof.
  intros Hx Ht Hr. destruct (running_handler x i t Hx Ht Hr) as (h & Hh & Hi & _).
  unfold on_the_way, set_task. rewrite inbox_of_update by eauto. simpl. f_equal.
  destruct (Z.eqb_spec g (tk_guild t)) as [-> | Hne]; [by rewrite Hh, decide_True|].
  destruct (guilds x.1 !! g) as [h'|] eqn:Hh'; [|unfold inbox_of; by rewrite Hh'].
  rewrite decide_False; [done|]. intros Heq. apply Hne. apply (handler_unique x g h' (tk_guild t) h Hx Hh' Hh). congruence.
Qed.

Lemma step_inv w w' : step w w' → sched_inv (w_sys w) → ordered w → sched_inv (w_sys w') ∧ ordered w'.
Proof.
  intros Hstep. destruct Hstep as [ph x acc han clk cmd a x1 ph' x' _ Hp Ha|ph x acc han i t c rest Ht Hr Hin
    |ph x acc han i t e Ht Hr|ph x acc han i t Ht Hr]; cbn [w_handled w_sys w_accepted]; intros Hx Ho.
  - destruct (poll_spec cmd x a x1 Hx Hp) as (Hx1 & Hen & Hv1 & _).
    destruct (handle_action_inv clk ph a x1 Hx1 Hen) as (ph2 & x2 & Hrun & Hx2 & Hv2).
    rewrite Ha in Hrun. injection Hrun as <- <-. split; [done|]. intros g. simpl. rewrite for_guild_app.
    specialize (Ho g). simpl in Ho. rewrite <- Hv1 in Ho. etrans; [apply sublist_app; [done|apply Hv2]|].
    rewrite app_assoc. by apply sublist_app.
  - destruct Hx as [Hc Hst]. destruct (ci_inbox _ Hc i t Ht) as [Hok _]. rewrite Hin in Hok.
    apply Forall_cons in Hok as [Hc0 Hrest]. split.
    + split; [|done]. by apply core_inv_update with t.
    + intros g. cbn [w_handled w_sys w_accepted]. rewrite (set_task_view _ _ t) by done. specialize (Ho g). cbn [w_handled w_sys w_accepted tk_inbox] in *. unfold on_the_way in Ho.
      destruct (running_handler x i t Hc Ht Hr) as (h & Hh & Hi & Hib). rewrite Hin in Hib.
      rewrite for_guild_app, <- app_assoc. destruct (Z.eqb_spec g (tk_guild t)) as [-> | Hne].
      * rewrite Hib in Ho. change (c :: rest) with ([c] ++ rest) in Ho. rewrite inbox_events_app, <- app_assoc in Ho.
        enough (for_guild (tk_guild t) (inbox_events [c]) = inbox_events [c]) as -> by done.
        destruct c as [e| | |]; try done. change (inbox_events [BrokerEvent e]) with [e]. rewrite for_guild_one. destruct Hc0 as [<- _]. by rewrite Z.eqb_refl.
      * enough (for_guild g (inbox_events [c]) = []) as -> by done.
        destruct c as [e| | |]; try done. change (inbox_events [BrokerEvent e]) with [e]. rewrite for_guild_one. destruct Hc0 as [Heq _]. rewrite Heq.
        by apply Z.eqb_neq in Hne as ->.
  - destruct Hx as [Hc Hst]. destruct (ci_inbox _ Hc i t Ht) as [Hok _]. split.
    + split; [|done]. by apply core_inv_update with t.
    + intros g. cbn [w_handled w_sys w_accepted]. rewrite (set_task_view _ _ t) by done. specialize (Ho g). cbn [w_handled w_sys w_accepted tk_inbox] in *.
      destruct (running_handler x i t Hc Ht Hr) as (_ & _ & _ & <-).
      destruct (Z.eqb_spec g (tk_guild t)) as [<- | _]; done.
  - destruct Hx as [Hc Hst]. split.
    + split; [|done]. by apply core_inv_update with t.
    + intros g. cbn [w_handled w_sys w_accepted]. rewrite (set_task_view _ _ t) by done. specialize (Ho g). cbn [w_handled w_sys w_accepted tk_inbox] in *.
      etrans; [|exact Ho]. apply sublist_app; [done|]. unfold on_the_way.
      destruct (g =? tk_guild t); [|done]. simpl. by apply sublist_inserts_l.
Qed.

Lemma reachable_inv w : reachable w → sched_inv (w_sys w) ∧ ordered w.
Proof.
  induction 1 as [|w w' _ [IH1 IH2] Hstep]; [|by eapply step_inv].
  split; [apply sched_inv_new|]. intros g. done.
Qed.

(** ** The handler that the end of another one starts *)

Definition started (g : Z) (evts : list GuildEvent) (s : Scheduler) (n : Net) : sys :=
  (with_guilds s (<[g := mkHandle (net_next n) true]> (guilds s)),
   mkNet (<[net_next n := mkTask g (BrokerEvent <$> evts) true []]> (net_tasks n)) (S (net_next n)) (net_log n)).

Lemma send_started g evts e s n :
  ge_guild_id e = g → send_or_queue_broker_evt e (started g evts s n) = started g (evts ++ [e]) s n.
Proof.
  intros <-. unfold send_or_queue_broker_evt, get_or_start_guild, started. simpl. rewrite lookup_insert_eq. simpl.
  unfold chan_send. simpl. rewrite lookup_insert_eq. unfold with_tasks, push_inbox. simpl.
  rewrite insert_insert_eq, fmap_app. done.
Qed.

Lemma send_list_started g l evts s n :
  Forall (λ e, ge_guild_id e = g) l →
  fold_left (λ x evt, send_or_queue_broker_evt evt x) l (started g evts s n) = started g (evts ++ l) s n.
Proof.
  intros Hl. revert evts. induction Hl as [|e l He _ IH]; intros evts; simpl; [by rewrite app_nil_r|].
  rewrite send_started, IH by done. by rewrite <- app_assoc.
Qed.

Lemma get_or_start_new g s n :
  guilds s !! g = None → (get_or_start_guild g (s, n)).2 = started g [] s n.
Proof. intros Hg. unfold get_or_start_guild. by rewrite Hg. Qed.

Lemma send_list_new g l s n :
  guilds s !! g = None → l ≠ [] → Forall (λ e, ge_guild_id e = g) l →
  fold_left (λ x evt, send_or_queue_broker_evt evt x) l (s, n) = started g l s n.
Proof.
  intros Hg Hl Hall. destruct l as [|e l]; [done|]. pose proof Hall as [He Hall']%Forall_cons.
  pose proof (send_list_started g (e :: l) [] s n Hall) as Hs. cbn [app] in Hs. rewrite <- Hs. cbn [fold_left]. f_equal.
  rewrite send_started by done. unfold send_or_queue_broker_evt. rewrite He.
  unfold get_or_start_guild at 1. rewrite Hg. simpl. unfold chan_send. simpl. rewrite lookup_insert_eq.
  unfold started, with_tasks, push_inbox. simpl. by rewrite insert_insert_eq.
Qed.

(** The queued events of the guild go to a fresh handler, in order. *)
Lemma check_queue_starts g s n :
  guilds s !! g = None → g ∈ pending_starts s ∨ for_guild g (queued_events s) ≠ [] →
  ∃ starts, check_queue_start_worker g (s, n) =
    Ret (started g (for_guild g (queued_events s))
           (mkScheduler (guilds s) (others g (queued_events s)) starts (suspended_guilds s)) n).
Proof.
  intros Hg Hw. destruct (check_queue_eq g s n) as (starts & _ & _ & ->). exists starts. f_equal.
  assert (Forall (λ e, ge_guild_id e = g) (for_guild g (queued_events s))) as Hall.
  { apply Forall_forall. by intros e [_ ?]%elem_of_for_guild. }
  cbn zeta. case_bool_decide as Hp.
  - rewrite get_or_start_new by done. by apply (send_list_started g _ []).
  - destruct Hw as [?|Hne]; [done|]. by apply send_list_new.
Qed.

Lemma check_queue_nothing g s n :
  g ∉ pending_starts s → for_guild g (queued_events s) = [] →
  check_queue_start_worker g (s, n) = Ret (s, n).
Proof.
  intros Hp Hq. destruct (check_queue_eq g s n) as (starts & _ & Hst & ->).
  rewrite bool_decide_false in Hst |- * by done. subst starts. rewrite Hq. simpl. f_equal. f_equal.
  rewrite others_id; [by destruct s|]. intros e He Heq.
  assert (e ∈ for_guild g (queued_events s)) as Hin by by apply elem_of_for_guild. rewrite Hq in Hin. by apply not_elem_of_nil in Hin.
Qed.

(** * Properties *)

(** C2: Every guild has at most one running handler, and it is the one the scheduler talks
    to: no two handlers of a guild ever run vms for it at the same time, whatever the order of
    broker connections, events, shutdowns, suspensions and handler failures. *)
Theorem one_handler_per_guild w i j t t' :
  reachable w → net_tasks (w_sys w).2 !! i = Some t → net_tasks (w_sys w).2 !! j = Some t' →
  tk_running t = true → tk_running t' = true → tk_guild t = tk_guild t' →
  i = j ∧ ∃ h, guilds (w_sys w).1 !! tk_guild t = Some h ∧ h_task h = i.
Proof.
  intros [[Hc _] _]%reachable_inv Hi Hj Hr Hr' Hg.
  destruct (ci_running _ Hc i t Hi Hr) as (h & Hh & <-). destruct (ci_running _ Hc j t' Hj Hr') as (h' & Hh' & <-).
  rewrite <- Hg in Hh'. split; [congruence|eauto].
Qed.

(** C12: Events are delivered in order. For every guild, the events its handlers have received,
    followed by the ones in its handler's channel and the ones in the queue, are a subsequence
    of the events the scheduler accepted: nothing is delivered twice, overtaken or delivered
    to another guild, also across handler restarts; and what waits in the queue waits for a
    handler that takes no more events and whose end flushes the queue. *)
Theorem events_in_order w g :
  reachable w →
  for_guild g (w_handled w) ++ on_the_way g (w_sys w) `sublist_of` for_guild g (w_accepted w) ∧
  ∀ e, e ∈ queued_events (w_sys w).1 → ∃ h t, guilds (w_sys w).1 !! ge_guild_id e = Some h ∧
    net_tasks (w_sys w).2 !! h_task h = Some t ∧ (h_tx h = false ∨ tk_running t = false).
Proof.
  intros [[Hc _] Ho]%reachable_inv. split; [apply Ho|]. intros e He.
  destruct (ci_queue _ Hc e He) as (_ & h & Hh & Hend). destruct (ci_registered _ Hc _ _ Hh) as (t & Ht & _).
  exists h, t. split_and!; [done..|]. destruct (h_tx h); auto.
Qed.

(** C19: The scheduler never panics, and never forwards an event that makes a handler panic:
    whatever it polls, it handles, and the events in a handler's channel are of the handler's
    own guild and are not [GuildDelete]. *)
Theorem scheduler_never_panics w clk cmd a x :
  reachable w → scheduler_poll cmd (w_sys w) = Some (a, x) →
  (∃ ph' x', handle_scheduler_action clk (w_phase w) a x = Ret (ph', x')) ∧
  ∀ i t e, net_tasks x.2 !! i = Some t → BrokerEvent e ∈ tk_inbox t →
    ge_guild_id e = tk_guild t ∧ ge_kind e ≠ GuildDelete.
Proof.
  intros [Hx _]%reachable_inv Hp. destruct (poll_spec _ _ _ _ Hx Hp) as (Hx1 & Hen & _).
  destruct (handle_action_inv clk (w_phase w) a x Hx1 Hen) as (ph' & x' & Hrun & _). split; [eauto|].
  intros i t e Ht He. destruct (ci_inbox _ (proj1 Hx1) i t Ht) as [Hall _]. rewrite Forall_forall in Hall.
  exact (Hall _ He).
Qed.

(** Suspension. After a vm was forcibly shut down its guild's events are dropped without
    any effect until strictly more than 15 seconds (ten minutes when it made too many invalid
    requests) have passed, measured by a clock that never counts backwards; then the next
    event lifts the suspension and is sent on. *)
Theorem suspension_gates_events clk evt since r s n :
  suspended_guilds s !! ge_guild_id evt = Some (mkSuspension r since) → ge_kind evt ≠ GuildDelete →
  handle_scheduler_command clk (DiscordEvent evt) (s, n) =
  Ret (if bool_decide ((match r with ExcessCpu => 15 | ExcessInvalidDiscordRequests => 600 end) * 1000000000
                        < clk 0%nat - since)
       then send_or_queue_broker_evt evt (with_suspended s (delete (ge_guild_id evt) (suspended_guilds s)), n)
       else (s, n)).
Proof.
  intros Hs Hk. simpl. unfold try_unsuspend_guild. rewrite Hs. unfold can_remove, elapsed. simpl.
  assert (duration r = (match r with ExcessCpu => 15 | ExcessInvalidDiscordRequests => 600 end) * 1000000000) as ->
    by by destruct r.
  repeat case_bool_decide; try (destruct r; lia); [|done]. by destruct (ge_kind evt).
Qed.

(** When a guild's handler has ended and the guild is not suspended, its queued events are
    handed, in order and all of them, to one fresh handler, which is also started when the
    guild waits for a restart; the other guilds' events stay queued, and nothing happens when
    there is neither. *)
Theorem handler_end_flushes_queue clk g s n h :
  sched_inv (s, n) → guilds s !! g = Some h →
  (∀ t, net_tasks n !! h_task h = Some t → tk_running t = false) → suspended_guilds s !! g = None →
  let evts := for_guild g (queued_events s) in
  ∃ s' n', handle_scheduler_action clk Running (SaGuildHandler g None) (s, n) = Ret (Running, (s', n')) ∧
    queued_events s' = others g (queued_events s) ∧
    if decide (g ∈ pending_starts s ∨ evts ≠ [])
    then guilds s' = <[g := mkHandle (net_next n) true]> (guilds s) ∧
         net_tasks n' = <[net_next n := mkTask g (BrokerEvent <$> evts) true []]> (net_tasks n)
    else guilds s' = delete g (guilds s) ∧ n' = n.
Proof.
  intros Hx Hh Hend Hsu evts. unfold handle_scheduler_action, try_unsuspend_guild.
  cbn [suspended_guilds with_guilds]. rewrite Hsu.
  case_decide as Hd.
  - destruct (check_queue_starts g (with_guilds s (delete g (guilds s))) n) as [starts Hrun].
    + simpl. apply lookup_delete_eq.
    + exact Hd.
    + rewrite Hrun. eexists _, _. split; [reflexivity|]. split_and!; [done| |done]. simpl. apply insert_delete_eq.
  - assert (evts = []) as Hev by (destruct evts; [done|]; destruct Hd; by right).
    rewrite check_queue_nothing; [|simpl; tauto|exact Hev]. eexists _, _. split; [reflexivity|].
    split_and!; [|done..]. simpl. symmetry. apply others_id. intros e He Heq.
    assert (e ∈ evts) as Hin by by apply elem_of_for_guild. rewrite Hev in Hin. by apply not_elem_of_nil in Hin.
Qed.

(** While the scheduler waits for all handlers to shut down, the end of the handler of a
    guild with queued events or a pending restart starts a new handler, which has not been
    told to shut down: the wait goes on for a handler that does not end. *)
Theorem waiting_shutdown_restarts clk g s n h :
  guilds s !! g = Some h → g ∈ pending_starts s ∨ for_guild g (queued_events s) ≠ [] →
  ∃ s' n' h' t, handle_scheduler_action clk WaitingShutdown (SaGuildHandler g None) (s, n) = Ret (WaitingShutdown, (s', n')) ∧
    guilds s' !! g = Some h' ∧ net_tasks n' !! h_task h' = Some t ∧
    h_tx h' = true ∧ tk_running t = true ∧ GcShutdown ∉ tk_inbox t.
Proof.
  intros Hh Hw. unfold handle_scheduler_action.
  destruct (check_queue_starts g (with_guilds s (delete g (guilds s))) n) as [starts Hrun];
    [simpl; apply lookup_delete_eq|exact Hw|]. rewrite Hrun. cbn [outcome_bind]. unfold wait_all.
  rewrite bool_decide_false by (simpl; apply insert_non_empty).
  eexists _, _, _, _. split; [reflexivity|]. simpl. rewrite !lookup_insert_eq. split_and!; [done|apply lookup_insert_eq|done|done|].
  simpl. by intros (? & ? & _)%list_elem_of_fmap.
Qed.
End facts.

(** * Runs *)

Definition ex_event (g : Z) : GuildEvent :=
  mkGuildEvent g "MESSAGE_CREATE" OtherDispatch (Ret (Some ("MESSAGE_CREATE", JNull))).

(** The scheduler after a broker has connected with guild 7. *)
Definition ex_connected : sys :=
  (mkScheduler {[7 := mkHandle 0 true]} [] [] ∅, mkNet {[0%nat := mkTask 7 [] true []]} 1 []).

Lemma ex_connected_reachable : reachable (HashOrder0 := list_order) (mkWorld Running ex_connected [] []).
Proof.
  eapply reachable_step; [apply reachable_new|].
  apply (step_scheduler Running (scheduler_new, net_new) [] [] (λ _, 0) (Some (Some (BrokerHello [7])))
    (SaCmd (Some (BrokerHello [7]))) (scheduler_new, net_new)); [done|reflexivity|reflexivity].
Qed.

Lemma one_handler_per_guild_witness :
  reachable (HashOrder0 := list_order) (mkWorld Running ex_connected [] []) ∧
  ∃ h, guilds ex_connected.1 !! 7 = Some h ∧ h_task h = 0%nat.
Proof.
  split; [apply ex_connected_reachable|].
  refine (proj2 (one_handler_per_guild (HashOrder0 := list_order) (mkWorld Running ex_connected [] []) 0%nat 0%nat
    (mkTask 7 [] true []) (mkTask 7 [] true []) _ _ _ _ _ _)); [apply ex_connected_reachable|reflexivity..].
Defined.

(** The event of a handler that has stopped waits in the queue. *)
Definition ex_stopping : sys :=
  (mkScheduler {[7 := mkHandle 0 false]} [ex_event 7] [] ∅,
   mkNet {[0%nat := mkTask 7 [GcShutdown] true []]} 1 []).

Lemma ex_stopping_reachable :
  reachable (HashOrder0 := list_order) (mkWorld Running ex_stopping [ex_event 7] []).
Proof.
  eapply reachable_step; [eapply reachable_step; [apply ex_connected_reachable|]|].
  - apply (step_scheduler Running ex_connected [] [] (λ _, 0) (Some (Some BrokerDisconnected))
      (SaCmd (Some BrokerDisconnected)) ex_connected); [done|reflexivity|reflexivity].
  - apply (step_scheduler Running _ [] [] (λ _, 0) (Some (Some (DiscordEvent (ex_event 7))))
      (SaCmd (Some (DiscordEvent (ex_event 7)))) (with_queue ex_stopping.1 [], ex_stopping.2)); [done|reflexivity|reflexivity].
Qed.

Lemma events_in_order_witness :
  ∃ h t, guilds ex_stopping.1 !! 7 = Some h ∧ net_tasks ex_stopping.2 !! h_task h = Some t ∧
    (h_tx h = false ∨ tk_running t = false).
Proof.
  apply (proj2 (events_in_order (HashOrder0 := list_order) _ 7 ex_stopping_reachable) (ex_event 7)).
  by left.
Defined.

Lemma scheduler_never_panics_witness :
  ∃ ph' x', handle_scheduler_action (HashOrder0 := list_order) (λ _, 0) Running
    (SaCmd (Some (DiscordEvent (ex_event 7)))) ex_connected = Ret (ph', x').
Proof.
  apply (proj1 (scheduler_never_panics (HashOrder0 := list_order) (mkWorld Running ex_connected [] []) (λ _, 0)
    (Some (Some (DiscordEvent (ex_event 7)))) (SaCmd (Some (DiscordEvent (ex_event 7)))) ex_connected
    ex_connected_reachable eq_refl)).
Defined.

Lemma suspension_gates_events_witness :
  let s := mkScheduler ∅ [] [] {[7 := mkSuspension ExcessCpu 0]} in
  handle_scheduler_command (HashOrder0 := list_order) (λ _, 15000000000) (DiscordEvent (ex_event 7)) (s, net_new) = Ret (s, net_new) ∧
  ∃ n, handle_scheduler_command (HashOrder0 := list_order) (λ _, 15000000001) (DiscordEvent (ex_event 7)) (s, net_new) =
    Ret (mkScheduler {[7 := mkHandle 0 true]} [] [] ∅, n).
Proof.
  split.
  - apply (suspension_gates_events (HashOrder0 := list_order) (λ _, 15000000000) (ex_event 7) 0 ExcessCpu
      (mkScheduler ∅ [] [] {[7 := mkSuspension ExcessCpu 0]}) net_new); [reflexivity|done].
  - eexists. etrans; [apply (suspension_gates_events (HashOrder0 := list_order) (λ _, 15000000001) (ex_event 7) 0 ExcessCpu
      (mkScheduler ∅ [] [] {[7 := mkSuspension ExcessCpu 0]}) net_new); [reflexivity|done]|reflexivity].
Defined.

Definition ex_ended : sys := (ex_stopping.1, mkNet {[0%nat := mkTask 7 [] false []]} 1 []).

Lemma ex_ended_inv : sched_inv ex_ended.
Proof.
  assert (reachable (HashOrder0 := list_order) (mkWorld Running ex_ended [ex_event 7] [])) as Hr.
  { eapply reachable_step; [apply ex_stopping_reachable|].
    apply (step_end Running ex_stopping [ex_event 7] [] 0%nat (mkTask 7 [GcShutdown] true [])); reflexivity. }
  apply (reachable_inv _ Hr).
Qed.

Lemma handler_end_flushes_queue_witness :
  ∃ s' n', handle_scheduler_action (HashOrder0 := list_order) (λ _, 0) Running (SaGuildHandler 7 None) ex_ended =
    Ret (Running, (s', n')) ∧ queued_events s' = [].
Proof.
  destruct (handler_end_flushes_queue (HashOrder0 := list_order) (λ _, 0) 7 ex_ended.1 ex_ended.2 (mkHandle 0 false))
    as (s' & n' & Hrun & Hq & _).
  - apply ex_ended_inv.
  - reflexivity.
  - intros t [= <-]. reflexivity.
  - reflexivity.
  - exists s', n'. split; [exact Hrun|exact Hq].
Defined.

Lemma waiting_shutdown_restarts_witness :
  ∃ s' n' h', handle_scheduler_action (HashOrder0 := list_order) (λ _, 0) WaitingShutdown (SaGuildHandler 7 None) ex_ended =
    Ret (WaitingShutdown, (s', n')) ∧ guilds s' !! 7 = Some h' ∧ h_tx h' = true.
Proof.
  destruct (waiting_shutdown_restarts (HashOrder0 := list_order) (λ _, 0) 7 ex_ended.1 ex_ended.2 (mkHandle 0 false))
    as (s' & n' & h' & t & Hrun & Hh & _ & Htx & _).
  - reflexivity.
  - right. done.
  - exists s', n', h'. auto.
Defined.
