(* ===== verification/VmThread.v ===== *)
(** Vm threads: the cell that tracks the entered isolate ([components/isolatecell/src/lib.rs])
    and the thread that drives vms ([components/vmthread/src/lib.rs]).

    The vms are reached through [VmInterface], the trait of the same name: a vm is created
    from a description, can be asked to shut down, and is polled with whatever the outside
    world supplies to it at that moment. *)
From stdpp Require Import base list.
From S2P Require Import Prelude.

(** * The isolate cell *)

(** [IsolateCell]; [reported] are the durations passed to the tracker callback. *)
Record IsolateCell := mkCell {
  entered : bool;
  updated_at : option Z;
  reported : list Z;
}.

Definition cell_new : IsolateCell := mkCell false None [].

(** [_enter]; [now] is the thread's cpu time. *)
Definition cell_enter (now : Z) (c : IsolateCell) : outcome IsolateCell :=
  if entered c then Panic else Ret (mkCell true (Some now) (reported c)).

Definition emit_used_cpu (now : Z) (c : IsolateCell) : IsolateCell :=
  match updated_at c with
  | Some last => mkCell (entered c) (Some now) (reported c ++ [now - last])
  | None => c
  end.

Definition cell_exit (now : Z) (c : IsolateCell) : outcome IsolateCell :=
  if entered c then
    let c := emit_used_cpu now c in Ret (mkCell false (updated_at c) (reported c))
  else Panic.

(** A guard's lifetime: [enter_isolate] at [t.1], dropped at [t.2]. *)
Definition with_guard (t : Z * Z) (c : IsolateCell) : outcome IsolateCell :=
  do! c := cell_enter t.1 c in cell_exit t.2 c.

Fixpoint with_guards (ts : list (Z * Z)) (c : IsolateCell) : outcome IsolateCell :=
  match ts with
  | [] => Ret c
  | t :: ts => do! c := with_guard t c in with_guards ts c
  end.

(** * The thread *)

(** [vmthread::ShutdownReason] *)
Inductive TReason := TUnknown | TRunaway | TThreadTermination | TOutOfMemory.

Class VmInterface := {
  BuildDesc : Type;
  VmFuture : Type;
  PollInput : Type;
  create_vm : BuildDesc → option VmFuture;
  shutdown_vm : TReason → bool → VmFuture → VmFuture;
  (** [true]: the future has completed. *)
  vm_poll : PollInput → VmFuture → VmFuture * bool;
}.

Section thread.
Context `{VmInterface}.

Inductive VmThreadCommand :=
| StartVM (d : BuildDesc)
| Ping (resp : nat)
| ThreadShutdown.

Record VmThread := mkThread {
  vms : list VmFuture;
  shutting_down : bool;
  pongs : list nat;
}.

Definition thread_new : VmThread := mkThread [] false [].

Definition shutdown_thread (t : VmThread) : VmThread :=
  mkThread (shutdown_vm TThreadTermination false <$> vms t) true (pongs t).

Definition thread_handle_cmd (cmd : option VmThreadCommand) (t : VmThread) : outcome VmThread :=
  match cmd with
  | Some ThreadShutdown | None => Ret (shutdown_thread t)
  | Some (Ping resp) => Ret (mkThread (vms t) (shutting_down t) (pongs t ++ [resp]))
  | Some (StartVM desc) =>
      do! vm := unwrap (create_vm desc) in
      Ret (mkThread (vms t ++ [vm]) (shutting_down t) (pongs t))
  end.

(** [while let Poll::Ready(cmd) = self.rcv_cmd.poll_recv(cx)]; the checker of [create] holds a
    sender for as long as the thread runs, so the channel does not close. *)
Fixpoint handle_cmds (cmds : list VmThreadCommand) (t : VmThread) : outcome VmThread :=
  match cmds with
  | [] => Ret t
  | cmd :: cmds => do! t := thread_handle_cmd (Some cmd) t in handle_cmds cmds t
  end.

(** Polls every vm; [inputs i] is what the [i]th one finds. *)
Definition poll_vms (inputs : nat → PollInput) (l : list VmFuture) : list (VmFuture * bool) :=
  imap (λ i vm, vm_poll (inputs i) vm) l.

(** [VmThreadFuture::poll]: [cmds] are the commands that are ready. The vms that completed are
    removed by index, the largest first. *)
Definition thread_poll (cmds : list VmThreadCommand) (inputs : nat → PollInput) (t : VmThread)
    : outcome (VmThread * bool) :=
  do! t := if shutting_down t then Ret t else handle_cmds cmds t in
  let polled := poll_vms inputs (vms t) in
  let to_remove := rev (matching_indexes snd polled) in
  do! (_, rest) := remove_each to_remove polled in
  let t := mkThread rest.*1 (shutting_down t) (pongs t) in
  Ret (t, bool_decide (vms t = []) && shutting_down t).

(** [n] further polls, up to the one that completes. *)
Fixpoint thread_polls (n : nat) (inputs : nat → nat → PollInput) (late : nat → list VmThreadCommand)
    (t : VmThread) : outcome (VmThread * bool) :=
  match n with
  | O => Ret (t, false)
  | S n' =>
      do! (t, ready) := thread_poll (late n) (inputs n) t in
      if ready then Ret (t, true) else thread_polls n' inputs late t
  end.

(** * Facts *)

Lemma handle_cmds_app cmds cmds' t :
  handle_cmds (cmds ++ cmds') t = do! t := handle_cmds cmds t in handle_cmds cmds' t.
Proof.
  revert t. induction cmds as [|c cmds IH]; intros t; cbn [app handle_cmds]; [done|].
  destruct (thread_handle_cmd (Some c) t); cbn [outcome_bind]; [apply IH|done].
Qed.
End thread.

Lemma with_guards_spec ts c :
  entered c = false →
  ∃ c', with_guards ts c = Ret c' ∧ entered c' = false ∧
    reported c' = reported c ++ ((λ t, t.2 - t.1) <$> ts).
Proof.
  revert c. induction ts as [|[t1 t2] ts IH]; intros c Hc; simpl.
  { exists c. by rewrite app_nil_r. }
  unfold with_guard, cell_enter, cell_exit. simpl. rewrite Hc. simpl.
  destruct (IH (mkCell false (Some t2) (reported c ++ [t2 - t1])) eq_refl) as (c' & Hrun & He & Hr).
  exists c'. rewrite Hrun. split_and!; [done..|]. rewrite Hr. simpl. by rewrite <- app_assoc.
Qed.

(** * Properties *)

(** The cell admits one guard at a time and accounts for all of it: guards that do not
    overlap never panic, and the durations reported are exactly how long each was held; a
    second guard while one is held panics. *)
Theorem isolate_guards_exclusive ts c t :
  entered c = false →
  (∃ c', with_guards ts c = Ret c' ∧ entered c' = false ∧ reported c' = reported c ++ ((λ t, t.2 - t.1) <$> ts)) ∧
  (∀ c1, cell_enter t c = Ret c1 → ∀ t', cell_enter t' c1 = Panic ∧ ∃ c2, cell_exit t' c1 = Ret c2 ∧ entered c2 = false).
Proof.
  intros Hc. split; [by apply with_guards_spec|]. unfold cell_enter. rewrite Hc. intros c1 [= <-] t'.
  split; [done|]. by eexists.
Qed.

Lemma isolate_guards_exclusive_witness :
  ∃ c', with_guards [(0, 3); (5, 9)] cell_new = Ret c' ∧ entered c' = false ∧ reported c' = [3; 4].
Proof. exact (proj1 (isolate_guards_exclusive [(0, 3); (5, 9)] cell_new 0 eq_refl)). Defined.

Section properties.
Context `{VmInterface}.

(** One poll of the thread, when the descriptions it is given build. It takes the ready
    commands in order unless it is shutting down, polls every vm exactly once, keeps exactly
    the ones that have not completed, in their order, and is done when it is shutting down and
    none is left. The removals by index never go out of range. *)
Theorem thread_poll_keeps_unfinished cmds inputs t t1 :
  (if shutting_down t then Ret t else handle_cmds cmds t) = Ret t1 →
  ∃ t', thread_poll cmds inputs t = Ret (t', bool_decide (vms t' = []) && shutting_down t') ∧
    vms t' = (List.filter (λ r, negb r.2) (poll_vms inputs (vms t1))).*1 ∧
    shutting_down t' = shutting_down t1 ∧ pongs t' = pongs t1.
Proof.
  intros Hcmds. unfold thread_poll. rewrite Hcmds. cbn [outcome_bind]. rewrite remove_matching. cbn [outcome_bind].
  by eexists.
Qed.
End properties.

(** Vms that count down and stop early when asked to. *)
Definition ex_vm : VmInterface :=
  {| BuildDesc := nat; VmFuture := nat; PollInput := unit; create_vm n := Some n;
     shutdown_vm _ _ _ := 0%nat; vm_poll _ n := (pred n, bool_decide (n = 0%nat)) |}.

Lemma thread_poll_keeps_unfinished_witness :
  ∃ t', thread_poll (H := ex_vm) [StartVM (H := ex_vm) 2%nat; StartVM (H := ex_vm) 0%nat] (λ _, tt) (thread_new (H := ex_vm)) =
    Ret (t', false) ∧ vms t' = [1%nat].
Proof.
  destruct (thread_poll_keeps_unfinished (H := ex_vm) [StartVM (H := ex_vm) 2%nat; StartVM (H := ex_vm) 0%nat] (λ _, tt)
    (thread_new (H := ex_vm)) (mkThread (H := ex_vm) [2; 0]%nat false []) eq_refl) as (t' & Hrun & Hvms & _).
  exists t'. assert (vms t' = [1%nat]) as Hv by (rewrite Hvms; reflexivity). rewrite Hv in Hrun.
  split; [exact Hrun|exact Hv].
Defined.
