(* ===== verification/Watchdog.v ===== *)
(** Runaway script detection ([components/vmthread/src/lib.rs], [runaway_checker]): the thread
    that drives the vms and the task that pings it, side by side.

    [VmThread] models one poll of the thread as one step. Here a poll is taken apart into the
    steps between which the checker's task can run (reading the commands, entering a vm,
    leaving it, the end of the poll), with the [running_vm] slot they share, and time passes
    between any two steps. [poll_in_steps] ties the two views together. Times are milliseconds. *)
From stdpp Require Import base list.
From S2P Require Import Prelude VmThread.

(** * The system *)

Definition ping_interval : Z := 10000.

(** Where the thread is in [VmThreadFuture::poll]; [done] tells which of the vms before the
    [i]th have completed. *)
Inductive ThreadPc :=
| Parked
| Between (i : nat) (done : list bool)
| InVm (i : nat) (done : list bool)
| Exited
| Unwound.

(** Where the checker is: about to run, awaiting the pong to the ping it sent at [last_ping],
    sleeping, or ended. *)
Inductive CheckerPc :=
| CheckerStarts
| CheckerWaits (ping : nat) (last_ping : Z)
| CheckerSleeps (until : Z)
| CheckerReturned
| CheckerPanicked.

Section watchdog.
Context `{VmInterface}.

(** The handle in the slot is written as the index of its vm, which is stable during a poll.
    [wake_at] is when the runtime is due to poll the checker's task: the deadline of its timer,
    or the instant its pong was sent. [last_taken] and [runaways] record when the thread last
    read its commands, and which vms were stopped as runaways and when. *)
Record System := mkSystem {
  now : Z;
  thread : VmThread;
  thread_pc : ThreadPc;
  channel : list VmThreadCommand;
  running_vm : option nat;
  checker : CheckerPc;
  pings_sent : nat;
  wake_at : Z;
  last_taken : Z;
  runaways : list (nat * Z);
}.

(** [VmThreadFuture::create] *)
Definition system_new : System :=
  mkSystem 0 thread_new Parked [] None CheckerStarts 0 0 0 [].

Definition with_thread (t : VmThread) (pc : ThreadPc) (s : System) : System :=
  mkSystem (now s) t pc (channel s) (running_vm s) (checker s) (pings_sent s) (wake_at s) (last_taken s) (runaways s).

Definition with_checker (pc : CheckerPc) (wake : Z) (s : System) : System :=
  mkSystem (now s) (thread s) (thread_pc s) (channel s) (running_vm s) pc (pings_sent s) wake (last_taken s) (runaways s).

Definition set_running_vm (v : option nat) (s : System) : System :=
  mkSystem (now s) (thread s) (thread_pc s) (channel s) v (checker s) (pings_sent s) (wake_at s) (last_taken s) (runaways s).

(** The receiver of the commands has been dropped. *)
Definition thread_gone (s : System) : bool :=
  match thread_pc s with Exited | Unwound => true | _ => false end.

(** ** The checker *)

(** The top of the loop: sends a ping and starts to wait for it. *)
Definition send_ping (s : System) : System :=
  if thread_gone s then with_checker CheckerReturned (wake_at s) s
  else mkSystem (now s) (thread s) (thread_pc s) (channel s ++ [Ping (pings_sent s)]) (running_vm s)
         (CheckerWaits (pings_sent s) (now s)) (S (pings_sent s)) (now s + ping_interval)
         (last_taken s) (runaways s).

(** [h.shutdown_handle.shutdown_vm(ShutdownReason::Runaway, true)] on what the slot holds. *)
Definition stop_running_vm (s : System) : System :=
  match running_vm s with
  | Some i =>
      let t := mkThread (alter (shutdown_vm TRunaway true) i (vms (thread s)))
                 (shutting_down (thread s)) (pongs (thread s)) in
      mkSystem (now s) t (thread_pc s) (channel s) (running_vm s) (checker s) (pings_sent s)
        (wake_at s) (last_taken s) (runaways s ++ [(i, now s)])
  | None => s
  end.

(** The ping's receiver is ready: a pong was sent, or the sender was dropped with the channel. *)
Definition resolved (ping : nat) (s : System) : bool :=
  bool_decide (ping ∈ pongs (thread s)) || thread_gone s.

(** One poll of [runaway_checker]. [timeout] looks at the receiver before its timer; the
    subtraction of durations panics below zero. *)
Definition checker_poll (s : System) : System :=
  match checker s with
  | CheckerStarts => send_ping s
  | CheckerWaits ping last_ping =>
      let elapsed := now s - last_ping in
      if resolved ping s then
        if bool_decide (elapsed ≤ ping_interval) then
          let until := now s + (ping_interval - elapsed) in
          with_checker (CheckerSleeps until) until s
        else with_checker CheckerPanicked (wake_at s) s
      else if bool_decide (ping_interval ≤ elapsed) then send_ping (stop_running_vm s)
      else s
  | CheckerSleeps until => if bool_decide (until ≤ now s) then send_ping s else s
  | CheckerReturned | CheckerPanicked => s
  end.

(** ** The thread *)

(** The checker's task is made ready when its ping is resolved. *)
Definition notify_checker (s : System) : System :=
  match checker s with
  | CheckerWaits ping _ => if resolved ping s then with_checker (checker s) (now s `min` wake_at s) s else s
  | _ => s
  end.

(** The commands are read, unless the thread is shutting down. *)
Definition take_commands (s : System) : System :=
  if shutting_down (thread s) then with_thread (thread s) (Between 0 []) s
  else match handle_cmds (channel s) (thread s) with
  | Ret t => notify_checker (mkSystem (now s) t (Between 0 []) [] (running_vm s) (checker s) (pings_sent s)
                               (wake_at s) (now s) (runaways s))
  | Panic => notify_checker (with_thread (thread s) Unwound s)
  end.

(** [set_running_vm(&*running_handle, None)] and what follows it. *)
Definition end_poll (done : list bool) (s : System) : System :=
  let s := set_running_vm None s in
  let polled := zip (vms (thread s)) done in
  match remove_each (rev (matching_indexes snd polled)) polled with
  | Ret (_, rest) =>
      let t := mkThread rest.*1 (shutting_down (thread s)) (pongs (thread s)) in
      notify_checker (with_thread t (if bool_decide (vms t = []) && shutting_down t then Exited else Parked) s)
  | Panic => notify_checker (with_thread (thread s) Unwound s)
  end.

(** ** Steps *)

Inductive Event :=
| Elapse (d : Z)
| SendStart (desc : BuildDesc)
| SendShutdown
| TakeCommands
| EnterVm
| LeaveVm (input : PollInput)
| EndPoll
| CheckerPolled.

Definition send_cmd (cmd : VmThreadCommand) (s : System) : System :=
  if thread_gone s then s
  else mkSystem (now s) (thread s) (thread_pc s) (channel s ++ [cmd]) (running_vm s) (checker s)
         (pings_sent s) (wake_at s) (last_taken s) (runaways s).

(** [None]: the step is not possible here. *)
Definition system_step (e : Event) (s : System) : option System :=
  match e, thread_pc s with
  | Elapse d, _ =>
      if bool_decide (0 ≤ d) then
        Some (mkSystem (now s + d) (thread s) (thread_pc s) (channel s) (running_vm s) (checker s)
                (pings_sent s) (wake_at s) (last_taken s) (runaways s))
      else None
  | SendStart desc, _ => Some (send_cmd (StartVM desc) s)
  | SendShutdown, _ => Some (send_cmd ThreadShutdown s)
  | CheckerPolled, _ => Some (checker_poll s)
  | TakeCommands, Parked => Some (take_commands s)
  | EnterVm, Between i done =>
      if bool_decide (i < length (vms (thread s)))%nat then
        Some (with_thread (thread s) (InVm i done) (set_running_vm (Some i) s))
      else None
  | LeaveVm input, InVm i done =>
      vm ← vms (thread s) !! i;
      let '(vm, ready) := vm_poll input vm in
      let t := mkThread (<[i := vm]> (vms (thread s))) (shutting_down (thread s)) (pongs (thread s)) in
      Some (with_thread t (Between (S i) (done ++ [ready])) s)
  | EndPoll, Between i done =>
      if bool_decide (i = length (vms (thread s))) then Some (end_poll done s) else None
  | _, _ => None
  end.

Fixpoint system_run (es : list Event) (s : System) : option System :=
  match es with
  | [] => Some s
  | e :: es => s ← system_step e s; system_run es s
  end.

(** ** Vocabulary of the properties *)

(** The checker's task is never left waiting for longer than [δ] once it is ready to run. *)
Definition in_time (δ : Z) (e : Event) (s : System) : bool :=
  match e, checker s with
  | Elapse _, (CheckerReturned | CheckerPanicked) => true
  | Elapse d, _ => bool_decide (now s + d ≤ wake_at s + δ)
  | _, _ => true
  end.

Fixpoint timely_run (δ : Z) (es : list Event) (s : System) : option System :=
  match es with
  | [] => Some s
  | e :: es => if in_time δ e s then s ← system_step e s; timely_run δ es s else None
  end.

(** Nothing the thread does: the vm it is in does not return. *)
Definition outside (e : Event) : bool :=
  match e with Elapse _ | SendStart _ | SendShutdown | CheckerPolled => true | _ => false end.

(** The steps of one poll of the thread, with nothing in between. *)
Definition vm_events (inputs : nat → PollInput) (i : nat) : list Event := [EnterVm; LeaveVm (inputs i)].
Definition poll_events (inputs : nat → PollInput) (n : nat) : list Event :=
  TakeCommands :: concat (vm_events inputs <$> seq 0 n) ++ [EndPoll].

(** * Facts *)

(** What the slot holds is determined by where the thread is. *)
Definition slot_of (pc : ThreadPc) : option nat :=
  match pc with InVm i _ | Between (S i) _ => Some i | _ => None end.

(** The invariant of the system. A ping that is not resolved is still in the channel, and was
    sent after the thread last read it. *)
Record system_wf (s : System) : Prop := {
  wf_pongs p : p ∈ pongs (thread s) → (p < pings_sent s)%nat;
  wf_channel p : Ping p ∈ channel s → (p < pings_sent s)%nat;
  wf_taken : last_taken s ≤ now s;
  wf_slot : running_vm s = slot_of (thread_pc s);
  wf_starts : checker s = CheckerStarts → wake_at s ≤ now s;
  wf_waits p last : checker s = CheckerWaits p last → last ≤ now s ∧
    if resolved p s then wake_at s ≤ now s ∧ wake_at s ≤ last + ping_interval
    else wake_at s = last + ping_interval ∧ Ping p ∈ channel s ∧ last_taken s ≤ last;
  wf_sleeps u : checker s = CheckerSleeps u → wake_at s = u ∧ u ≤ now s + ping_interval;
  wf_returned : checker s = CheckerReturned → thread_gone s = true;
}.

Lemma handle_cmds_pongs cmds t t' :
  handle_cmds cmds t = Ret t' → ∀ p, p ∈ pongs t' ↔ p ∈ pongs t ∨ Ping p ∈ cmds.
Proof.
  revert t. induction cmds as [|c cmds IH]; intros t; cbn [handle_cmds].
  { intros [= <-] p. split; [by left|]. by intros [?|?%not_elem_of_nil]. }
  destruct (thread_handle_cmd (Some c) t) as [t1|] eqn:Hc; cbn [outcome_bind]; [|done].
  intros Hr p. rewrite (IH _ Hr p), elem_of_cons.
  destruct c as [d|resp|]; simpl in Hc.
  - destruct (create_vm d); [|done]. simpl in Hc. injection Hc as <-. simpl. naive_solver.
  - injection Hc as <-. simpl. rewrite elem_of_app, list_elem_of_singleton. naive_solver.
  - injection Hc as <-. simpl. naive_solver.
Qed.

Lemma system_new_wf : system_wf system_new.
Proof. by constructor; try done; intros p ?%not_elem_of_nil. Qed.

(** [wf] closes the goals about fields that a step leaves alone. *)
Ltac wf_start Hwf :=
  destruct Hwf as [Hpongs Hchan Htaken Hslot Hstarts Hwaits Hsleeps Hret];
  unfold resolved, thread_gone in *; simpl in *.
Ltac wf := try solve [eassumption | done | intros; discriminate | lia].

Lemma send_cmd_wf cmd s : (∀ p, cmd ≠ Ping p) → system_wf s → system_wf (send_cmd cmd s).
Proof.
  intros Hcmd Hwf. unfold send_cmd. destruct (thread_gone s) eqn:Hg; [done|]. wf_start Hwf.
  constructor; simpl; wf.
  - intros p [?|[=]%list_elem_of_singleton]%elem_of_app; [auto|naive_solver].
  - intros p last Hc. destruct (Hwaits p last Hc) as [? Hr]. split; [done|]. unfold resolved, thread_gone. simpl.
    destruct (_ || _); [done|]. rewrite elem_of_app. naive_solver.
Qed.

Lemma elapse_wf d s : 0 ≤ d → system_wf s →
  system_wf (mkSystem (now s + d) (thread s) (thread_pc s) (channel s) (running_vm s) (checker s)
               (pings_sent s) (wake_at s) (last_taken s) (runaways s)).
Proof.
  intros Hd Hwf. wf_start Hwf. constructor; simpl; wf.
  - intros Hc%Hstarts. lia.
  - intros p last Hc. destruct (Hwaits p last Hc) as [? Hr]. unfold resolved, thread_gone. simpl.
    destruct (_ || _); split; [lia| |lia|]; naive_solver lia.
  - intros u Hc%Hsleeps. lia.
Qed.

Lemma send_ping_wf s :
  system_wf s ∨ (system_wf (with_checker CheckerStarts (now s) s)) → system_wf (send_ping s).
Proof.
  intros Hwf. assert (system_wf (with_checker CheckerStarts (now s) s)) as Hwf'.
  { destruct Hwf as [Hwf|]; [|done]. wf_start Hwf. constructor; simpl; wf. }
  clear Hwf. unfold send_ping. destruct (thread_gone s) eqn:Hg; wf_start Hwf'; constructor; simpl; wf.
  - intros p ?%Hpongs. lia.
  - intros p [?%Hchan|[= ->]%list_elem_of_singleton]%elem_of_app; lia.
  - intros p last [= <- <-]. split; [lia|]. unfold resolved. simpl.
    rewrite bool_decide_false by (intros ?%Hpongs; lia). unfold thread_gone. simpl. rewrite Hg. simpl.
    rewrite elem_of_app, list_elem_of_singleton. split_and!; [done|by right|done].
Qed.

Lemma stop_running_vm_wf s : system_wf s → system_wf (stop_running_vm s).
Proof.
  intros Hwf. unfold stop_running_vm. destruct (running_vm s) eqn:Hr; [|done]. wf_start Hwf. constructor; simpl; wf. congruence.
Qed.

Lemma checker_poll_wf s : system_wf s → system_wf (checker_poll s).
Proof.
  intros Hwf. unfold checker_poll. destruct (checker s) as [|p last|u| |] eqn:Hc; [|..|done|done].
  - apply send_ping_wf. by left.
  - destruct (resolved p s) eqn:Hr.
    + pose proof (wf_waits _ Hwf p last Hc) as Hw. rewrite Hr in Hw.
      case_bool_decide; wf_start Hwf; constructor; simpl; wf.
      intros u [= <-]. lia.
    + case_bool_decide; [|done]. apply send_ping_wf. left. by apply stop_running_vm_wf.
  - case_bool_decide; [|done]. apply send_ping_wf. by left.
Qed.

(** What a step of the thread must keep for the checker's part of the invariant. *)
Lemma notify_checker_wf s t pc ch taken slot :
  system_wf s → thread_gone s = false → slot = slot_of pc →
  (∀ p, p ∈ pongs t ↔ p ∈ pongs (thread s) ∨ Ping p ∈ channel s ∧ ch = []) →
  (ch = channel s ∧ taken = last_taken s ∨ ch = [] ∧ taken = now s) →
  system_wf (notify_checker (mkSystem (now s) t pc ch slot (checker s) (pings_sent s) (wake_at s) taken (runaways s))).
Proof.
  intros Hwf Hg Hs Hpp Hch. unfold notify_checker. simpl.
  assert (∀ p, p ∈ pongs t → (p < pings_sent s)%nat) as Hp'.
  { intros p [?%(wf_pongs _ Hwf)|[?%(wf_channel _ Hwf) _]]%Hpp; done. }
  assert (∀ p, Ping p ∈ ch → (p < pings_sent s)%nat) as Hc'.
  { intros p Hin. destruct Hch as [[-> _]|[-> _]]; [by apply (wf_channel _ Hwf)|by apply not_elem_of_nil in Hin]. }
  assert (taken ≤ now s) as Ht by (pose proof (wf_taken _ Hwf); destruct Hch as [[_ ->]|[_ ->]]; lia).
  destruct (checker s) as [|p last|u| |] eqn:Hc;
    [|destruct (resolved _ _) eqn:Hr|..]; constructor; simpl; try done; try (by intros; discriminate).
  - intros _. by apply (wf_starts _ Hwf).
  - intros p' last' [= <- <-]. destruct (wf_waits _ Hwf p last Hc) as [? Hw]. split; [done|].
    unfold resolved, thread_gone in Hr |- *. simpl in Hr |- *. rewrite Hr. destruct (resolved p s); lia.
  - intros p' last' [= <- <-]. destruct (wf_waits _ Hwf p last Hc) as [? Hw]. split; [done|]. rewrite Hr.
    unfold resolved in Hr, Hw. simpl in Hr. apply orb_false_iff in Hr as [Hr _]. apply bool_decide_eq_false in Hr.
    rewrite Hpp in Hr. rewrite Hg, bool_decide_false in Hw by tauto. simpl in Hw. destruct Hw as (? & ? & ?).
    destruct Hch as [[-> ->]|[-> ->]]; [done|]. exfalso. tauto.
  - intros u' [= <-]. by apply (wf_sleeps _ Hwf).
  - intros _. pose proof (wf_returned _ Hwf Hc). congruence.
Qed.

Lemma kept_pongs s p :
  p ∈ pongs (thread s) ↔ p ∈ pongs (thread s) ∨ Ping p ∈ channel s ∧ channel s = [].
Proof. split; [by left|]. intros [?|[Hin Hn]]; [done|]. rewrite Hn in Hin. by apply not_elem_of_nil in Hin. Qed.

Lemma thread_step_wf s t pc slot :
  system_wf s → thread_gone s = false → slot = slot_of pc → pongs t = pongs (thread s) → thread_gone (with_thread t pc s) = false →
  system_wf (with_thread t pc (set_running_vm slot s)).
Proof.
  intros Hwf Hg Hs Hp Hg'. destruct Hwf. constructor; simpl; rewrite ?Hp; try done.
  - intros p last Hc. destruct (wf_waits0 p last Hc) as [? Hw]. split; [done|].
    unfold resolved, thread_gone in *. simpl in *. by rewrite Hg, Hp, Hg' in *.
  - intros Hc%wf_returned0. congruence.
Qed.

Lemma thread_step_wf_same s t pc :
  system_wf s → thread_gone s = false → running_vm s = slot_of pc → pongs t = pongs (thread s) →
  thread_gone (with_thread t pc s) = false → system_wf (with_thread t pc s).
Proof.
  intros Hwf Hg Hs Hp Hg'. pose proof (thread_step_wf s t pc (running_vm s) Hwf Hg Hs Hp Hg') as Hw.
  by replace (set_running_vm (running_vm s) s) with s in Hw by by destruct s.
Qed.

Lemma system_step_wf e s s' : system_wf s → system_step e s = Some s' → system_wf s'.
Proof.
  intros Hwf. pose proof (wf_slot _ Hwf) as Hslot.
  destruct e as [d|d| | | |inp| |]; simpl.
  - case_bool_decide; [|done]. intros [= <-]. by apply elapse_wf.
  - intros [= <-]. by apply send_cmd_wf.
  - intros [= <-]. by apply send_cmd_wf.
  - destruct (thread_pc s) eqn:Hpc; try done. intros [= <-]. unfold take_commands. simpl in Hslot.
    assert (thread_gone s = false) as Hg by (unfold thread_gone; by rewrite Hpc).
    destruct (shutting_down (thread s)).
    + by apply thread_step_wf_same.
    + destruct (handle_cmds _ _) as [t|] eqn:Hr.
      * apply notify_checker_wf; try done; [|by right]. intros p. rewrite (handle_cmds_pongs _ _ _ Hr p). naive_solver.
      * apply notify_checker_wf; try done; [|by left]. intros p. apply kept_pongs.
  - destruct (thread_pc s) eqn:Hpc; try done. case_bool_decide; [|done]. intros [= <-].
    apply thread_step_wf; try done. unfold thread_gone. by rewrite Hpc.
  - destruct (thread_pc s) as [|j dn|i dn| |] eqn:Hpc; [done|done| |done|done]. destruct (vms (thread s) !! i); [|done]. simpl.
    destruct (vm_poll inp v). intros [= <-]. apply thread_step_wf_same; try done.
    unfold thread_gone. by rewrite Hpc.
  - destruct (thread_pc s) as [|i dn|j dn| |] eqn:Hpc; [done| |done..]. case_bool_decide; [|done]. intros [= <-].
    unfold end_poll. rewrite remove_matching. apply (notify_checker_wf s); try done; [..|by left].
    + unfold thread_gone. by rewrite Hpc.
    + simpl. by destruct (_ && _).
    + intros p. apply (kept_pongs s).
  - intros [= <-]. by apply checker_poll_wf.
Qed.

Lemma system_run_wf es s s' : system_wf s → system_run es s = Some s' → system_wf s'.
Proof.
  revert s. induction es as [|e es IH]; intros s Hwf; simpl; [by intros [= <-]|].
  destruct (system_step e s) as [s1|] eqn:Hs; [|done]. simpl. apply IH. by eapply system_step_wf.
Qed.

Lemma timely_run_run δ es s s' : timely_run δ es s = Some s' → system_run es s = Some s'.
Proof.
  revert s. induction es as [|e es IH]; intros s; simpl; [done|]. destruct (in_time δ e s); [|done].
  destruct (system_step e s); [|done]. apply IH.
Qed.

(** The checker has ended, or is not later than [δ]. *)
Definition not_late (δ : Z) (s : System) : Prop :=
  checker s = CheckerReturned ∨ checker s = CheckerPanicked ∨ now s ≤ wake_at s + δ.

(** Only the passing of time and the checker itself change the clock, the checker and the
    record of the runaways. *)
Lemma other_steps e s s' :
  system_step e s = Some s' →
  (∃ d, e = Elapse d) ∨ e = CheckerPolled ∨
  checker s' = checker s ∧ now s' = now s ∧ runaways s' = runaways s ∧
  (wake_at s' = wake_at s ∨ wake_at s' = now s `min` wake_at s).
Proof.
  assert (∀ s1, checker (notify_checker s1) = checker s1 ∧ now (notify_checker s1) = now s1 ∧
    runaways (notify_checker s1) = runaways s1 ∧
    (wake_at (notify_checker s1) = wake_at s1 ∨ wake_at (notify_checker s1) = now s1 `min` wake_at s1)) as Hnot.
  { intros s1. unfold notify_checker. repeat case_match; simpl; split_and!; auto; congruence. }
  destruct e as [d|d| | | |inp| |]; simpl; intros Hs; [by eauto| | | | | | |by eauto]; right; right.
  - injection Hs as <-. unfold send_cmd. destruct (thread_gone s); simpl; auto.
  - injection Hs as <-. unfold send_cmd. destruct (thread_gone s); simpl; auto.
  - destruct (thread_pc s); try done. injection Hs as <-. unfold take_commands. destruct (shutting_down _); [simpl; auto|].
    destruct (handle_cmds _ _); match goal with |- context [notify_checker ?s1] => exact (Hnot s1) end.
  - destruct (thread_pc s); try done. case_bool_decide; [|done]. injection Hs as <-. simpl; auto.
  - destruct (thread_pc s) as [|j dn|i dn| |]; [done|done| |done..]. destruct (vms (thread s) !! i); [|done]. simpl in Hs.
    destruct (vm_poll inp v). injection Hs as <-. simpl; auto.
  - destruct (thread_pc s) as [|i dn|j dn| |]; [done| |done..]. case_bool_decide; [|done]. injection Hs as <-.
    unfold end_poll. rewrite remove_matching. match goal with |- context [notify_checker ?s1] => exact (Hnot s1) end.
Qed.

Lemma checker_poll_not_late δ s : 0 ≤ δ → system_wf s → not_late δ s → not_late δ (checker_poll s).
Proof.
  intros Hd Hwf Hl. unfold checker_poll, not_late, ping_interval in *.
  assert (∀ s1, checker (send_ping s1) = CheckerReturned ∨ now (send_ping s1) ≤ wake_at (send_ping s1) + δ) as Hping.
  { intros s1. unfold send_ping, ping_interval. destruct (thread_gone s1); simpl; [by left|right; lia]. }
  destruct (checker s) as [|p last|u| |] eqn:Hc; [| | |tauto..].
  - destruct (Hping s); tauto.
  - destruct (resolved p s); case_bool_decide; simpl;
      [right; right; lia|tauto|destruct (Hping (stop_running_vm s)); tauto|naive_solver].
  - case_bool_decide; [destruct (Hping s); tauto|naive_solver].
Qed.

Lemma step_not_late δ e s s' :
  0 ≤ δ → system_wf s → not_late δ s → in_time δ e s = true → system_step e s = Some s' → not_late δ s'.
Proof.
  intros Hd Hwf Hl Hin Hs. unfold not_late in *.
  destruct (other_steps _ _ _ Hs) as [[d ->]|[->|(-> & -> & _ & Hw)]]; simpl in *.
  - destruct (bool_decide (0 ≤ d)); [|done]. injection Hs as <-. simpl.
    destruct (checker s); [apply bool_decide_eq_true in Hin; tauto..|tauto|tauto].
  - injection Hs as <-. by apply checker_poll_not_late.
  - destruct Hl as [?|[?|?]]; [tauto..|]. right. right. lia.
Qed.

Lemma timely_run_inv δ es s s' :
  0 ≤ δ → system_wf s → not_late δ s → timely_run δ es s = Some s' → system_wf s' ∧ not_late δ s'.
Proof.
  intros Hd. revert s. induction es as [|e es IH]; intros s Hwf Hl; simpl; [by intros [= <-]|].
  destruct (in_time δ e s) eqn:Hin; [|done]. destruct (system_step e s) as [s1|] eqn:Hs; [|done]. simpl.
  apply IH; [by eapply system_step_wf|by eapply step_not_late].
Qed.

(** ** A vm that does not return *)

Lemma send_ping_unresolved s :
  system_wf s → thread_gone s = false → resolved (pings_sent s) (send_ping s) = false.
Proof.
  intros Hwf Hg. unfold send_ping. rewrite Hg. unfold resolved, thread_gone in *. simpl. rewrite Hg.
  rewrite bool_decide_false; [done|]. intros ?%(wf_pongs _ Hwf). lia.
Qed.

(** The checker is on its way to the vm that has been running since [t0]. *)
Definition closing_in (δ t0 : Z) (s : System) : Prop :=
  match checker s with
  | CheckerStarts => wake_at s ≤ t0
  | CheckerWaits p last =>
      if resolved p s then wake_at s ≤ t0 ∧ last ≤ t0 else last ≤ t0 + ping_interval + δ
  | CheckerSleeps u => u ≤ t0 + ping_interval
  | CheckerReturned => False
  | CheckerPanicked => True
  end.

Definition stopped_since (t0 limit : Z) (i : nat) (s : System) : Prop :=
  ∃ t, (i, t) ∈ runaways s ∧ t0 ≤ t ≤ limit.

Record blocked_since (δ t0 : Z) (i : nat) (s : System) : Prop := {
  bs_in : ∃ dn, thread_pc s = InVm i dn;
  bs_wf : system_wf s;
  bs_late : not_late δ s;
  bs_time : t0 ≤ now s;
  bs_checker : stopped_since t0 (t0 + 2 * ping_interval + 2 * δ) i s ∨ closing_in δ t0 s;
}.

Lemma blocked_not_gone δ t0 i s : blocked_since δ t0 i s → thread_gone s = false.
Proof. intros [[dn Hpc] _ _ _ _]. unfold thread_gone. by rewrite Hpc. Qed.

Lemma blocked_not_late δ t0 i s : blocked_since δ t0 i s → checker s ≠ CheckerPanicked → now s ≤ wake_at s + δ.
Proof.
  intros Hb Hp. pose proof (blocked_not_gone _ _ _ _ Hb) as Hg. destruct (bs_late _ _ _ _ Hb) as [Hc|[?|?]]; [|done..].
  pose proof (wf_returned _ (bs_wf _ _ _ _ Hb) Hc). congruence.
Qed.

Lemma runaways_grow s : ∃ l, runaways (checker_poll s) = runaways s ++ l.
Proof.
  assert (∀ s1, runaways (send_ping s1) = runaways s1) as Hp by (intros s1; unfold send_ping; by destruct (thread_gone s1)).
  unfold checker_poll, stop_running_vm. destruct (checker s); repeat case_match; rewrite ?Hp; simpl;
    first [by eexists|exists []; by rewrite app_nil_r].
Qed.

Lemma stopped_poll t0 limit i s : stopped_since t0 limit i s → stopped_since t0 limit i (checker_poll s).
Proof.
  intros (t & Hin & Ht). exists t. split; [|done]. destruct (runaways_grow s) as [l ->]. apply elem_of_app. by left.
Qed.

Lemma poll_closing_in δ t0 i s :
  0 ≤ δ → blocked_since δ t0 i s → closing_in δ t0 s →
  stopped_since t0 (t0 + 2 * ping_interval + 2 * δ) i (checker_poll s) ∨ closing_in δ t0 (checker_poll s).
Proof.
  intros Hd Hb. pose proof (blocked_not_gone _ _ _ _ Hb) as Hg. pose proof (blocked_not_late _ _ _ _ Hb) as Hl.
  pose proof (bs_wf _ _ _ _ Hb) as Hwf. pose proof (bs_time _ _ _ _ Hb) as Htime.
  assert (now s ≤ t0 + ping_interval + δ → closing_in δ t0 (send_ping s)) as Hping.
  { intros Hn. unfold closing_in. pose proof (send_ping_unresolved s Hwf Hg) as Hu. revert Hu.
    unfold send_ping. rewrite Hg. simpl. by intros ->. }
  unfold closing_in, checker_poll. destruct (checker s) as [|p last|u| |] eqn:Hc; [| | |done|].
  - intros Hw. right. apply Hping. specialize (Hl ltac:(done)). unfold ping_interval. lia.
  - specialize (Hl ltac:(done)). destruct (resolved p s) eqn:Hr.
    + intros [Hw Hlast]. right. case_bool_decide; simpl; [lia|done].
    + intros Hlast. case_bool_decide; [|right; by rewrite Hc, Hr]. left.
      destruct (wf_waits _ Hwf p last Hc) as [_ Hw]. rewrite Hr in Hw. destruct Hw as (Hw & _ & _).
      destruct (bs_in _ _ _ _ Hb) as [dn Hpc]. pose proof (wf_slot _ Hwf) as Hslot. rewrite Hpc in Hslot.
      exists (now s). split; [|lia]. unfold stop_running_vm. rewrite Hslot. unfold send_ping.
      destruct (thread_gone _); simpl; apply elem_of_app; right; by apply list_elem_of_singleton.
  - intros Hu. case_bool_decide; [|right; by rewrite Hc]. right. apply Hping. specialize (Hl ltac:(done)).
    destruct (wf_sleeps _ Hwf u Hc). lia.
  - intros _. right. by rewrite Hc.
Qed.

Lemma blocked_step δ t0 i e s s' :
  0 ≤ δ → outside e = true → in_time δ e s = true → system_step e s = Some s' →
  blocked_since δ t0 i s → blocked_since δ t0 i s'.
Proof.
  intros Hd He Hin Hs Hb. destruct (Hb) as [[dn Hpc] Hwf Hl Ht Hc].
  pose proof (system_step_wf _ _ _ Hwf Hs) as Hwf'. pose proof (step_not_late _ _ _ _ Hd Hwf Hl Hin Hs) as Hl'.
  destruct e as [d|d| | | |inp| |]; try done; simpl in Hs.
  - case_bool_decide; [|done]. injection Hs as <-. constructor; simpl; [by eauto|done|done|lia|done].
  - injection Hs as <-. unfold send_cmd in *. rewrite (blocked_not_gone _ _ _ _ Hb) in *. constructor; simpl; by eauto.
  - injection Hs as <-. unfold send_cmd in *. rewrite (blocked_not_gone _ _ _ _ Hb) in *. constructor; simpl; by eauto.
  - injection Hs as <-. assert (thread_pc (checker_poll s) = thread_pc s ∧ now (checker_poll s) = now s) as [Hpc' Hn].
    { unfold checker_poll, stop_running_vm, send_ping. destruct (checker s); repeat case_match; by simpl. }
    constructor; [rewrite Hpc'; by eauto|done|done|lia|].
    destruct Hc as [Hc|Hc]; [left; by apply stopped_poll|by eapply poll_closing_in].
Qed.

Lemma blocked_run δ t0 i es s s' :
  0 ≤ δ → forallb outside es = true → timely_run δ es s = Some s' →
  blocked_since δ t0 i s → blocked_since δ t0 i s'.
Proof.
  intros Hd. revert s. induction es as [|e es IH]; intros s; simpl; [by intros _ [= <-]|].
  intros [He Hes]%andb_true_iff. destruct (in_time δ e s) eqn:Hin; [|done].
  destruct (system_step e s) as [s1|] eqn:Hs; [|done]. simpl. intros Hr Hb.
  eapply IH; [done..|]. by eapply blocked_step.
Qed.

Lemma blocked_start δ i dn s :
  0 ≤ δ → system_wf s → not_late δ s → thread_pc s = InVm i dn → blocked_since δ (now s) i s.
Proof.
  intros Hd Hwf Hl Hpc. constructor; [by eauto|done|done|lia|]. right. unfold closing_in.
  destruct (checker s) as [|p last|u| |] eqn:Hc; [..|done].
  - by apply (wf_starts _ Hwf).
  - destruct (wf_waits _ Hwf p last Hc) as [? Hw]. destruct (resolved p s); [lia|]. unfold ping_interval. lia.
  - destruct (wf_sleeps _ Hwf u Hc). lia.
  - pose proof (wf_returned _ Hwf Hc) as Hg. unfold thread_gone in Hg. by rewrite Hpc in Hg.
Qed.

Lemma blocked_end δ t0 i s :
  blocked_since δ t0 i s → t0 + 2 * ping_interval + 2 * δ < now s →
  stopped_since t0 (t0 + 2 * ping_interval + 2 * δ) i s ∨ checker s = CheckerPanicked.
Proof.
  intros Hb Hn. pose proof (blocked_not_late _ _ _ _ Hb) as Hl. pose proof (bs_time _ _ _ _ Hb).
  pose proof (bs_wf _ _ _ _ Hb) as Hwf.
  destruct (bs_checker _ _ _ _ Hb) as [?|Hc]; [by left|]. right. unfold closing_in in Hc.
  unfold ping_interval in *.
  destruct (checker s) as [|p last|u| |] eqn:Hpc; [| | |done|done]; exfalso; specialize (Hl ltac:(done)).
  - lia.
  - destruct (wf_waits _ Hwf p last Hpc) as [? Hw]. unfold ping_interval in *. destruct (resolved p s); lia.
  - destruct (wf_sleeps _ Hwf u Hpc). lia.
Qed.

(** A task that is always polled in time meets no negative remainder. *)
Lemma in_time_no_panic e s s' :
  system_wf s → not_late 0 s → checker s ≠ CheckerPanicked → system_step e s = Some s' → checker s' ≠ CheckerPanicked.
Proof.
  intros Hwf Hl Hp Hs. destruct (other_steps _ _ _ Hs) as [[d ->]|[->|(-> & _)]]; [| |done]; simpl in Hs.
  - case_bool_decide; [|done]. by injection Hs as <-.
  - injection Hs as <-. unfold checker_poll.
    assert (∀ s1, checker (send_ping s1) ≠ CheckerPanicked) as Hping by (intros s1; unfold send_ping; by case_match).
    destruct (checker s) as [|p last|u| |] eqn:Hc; [done| |..|by rewrite Hc|done].
    + destruct (wf_waits _ Hwf p last Hc) as [? Hw]. destruct (resolved p s); case_bool_decide; try done; [|by rewrite Hc].
      destruct Hl as [Hl|[Hl|Hl]]; [congruence..|]. lia.
    + case_bool_decide; [done|by rewrite Hc].
Qed.

Lemma timely_no_panic es s s' :
  system_wf s → not_late 0 s → checker s ≠ CheckerPanicked → timely_run 0 es s = Some s' → checker s' ≠ CheckerPanicked.
Proof.
  revert s. induction es as [|e es IH]; intros s Hwf Hl Hp; simpl; [by intros [= <-]|].
  destruct (in_time 0 e s) eqn:Hin; [|done]. destruct (system_step e s) as [s1|] eqn:Hs; [|done]. simpl.
  apply IH; [by eapply system_step_wf|by eapply step_not_late|by eapply in_time_no_panic].
Qed.

(** A checker that has panicked stops nothing. *)
Lemma dead_checker_step e s s' :
  checker s = CheckerPanicked → system_step e s = Some s' → checker s' = CheckerPanicked ∧ runaways s' = runaways s.
Proof.
  intros Hc Hs. destruct (other_steps _ _ _ Hs) as [[d ->]|[->|(-> & _ & -> & _)]]; [| |done]; simpl in Hs.
  - case_bool_decide; [|done]. by injection Hs as <-.
  - injection Hs as <-. unfold checker_poll. by rewrite Hc.
Qed.

Lemma dead_checker_run es s s' :
  checker s = CheckerPanicked → system_run es s = Some s' → checker s' = CheckerPanicked ∧ runaways s' = runaways s.
Proof.
  revert s. induction es as [|e es IH]; intros s Hc; simpl; [by intros [= <-]|].
  destruct (system_step e s) as [s1|] eqn:Hs; [|done]. simpl. intros Hr.
  destruct (dead_checker_step _ _ _ Hc Hs) as [Hc1 <-]. by apply IH.
Qed.

(** ** A poll of the thread, step by step *)

Lemma system_run_app es es' s :
  system_run (es ++ es') s = s ← system_run es s; system_run es' s.
Proof. revert s. induction es as [|e es IH]; intros s; simpl; [done|]. destruct (system_step e s); [apply IH|done]. Qed.

(** After the first [k] vms. *)
Lemma vm_events_run inputs l k s :
  vms (thread s) = l → thread_pc s = Between 0 [] → (k ≤ length l)%nat →
  ∃ s', system_run (concat (vm_events inputs <$> seq 0 k)) s = Some s' ∧
    thread s' = mkThread ((take k (poll_vms inputs l)).*1 ++ drop k l) (shutting_down (thread s)) (pongs (thread s)) ∧
    thread_pc s' = Between k (take k (poll_vms inputs l)).*2.
Proof.
  intros Hl Hpc. induction k as [|k IH]; intros Hk.
  { exists s. split_and!; [done| |done]. rewrite drop_0, <- Hl. simpl. by destruct (thread s). }
  destruct (IH ltac:(lia)) as (s1 & Hr & Ht & Hpc1). rewrite seq_S, fmap_app, concat_app, system_run_app, Hr. simpl.
  assert (length (take k (poll_vms inputs l)) = k) as Hlen
    by (rewrite length_take; unfold poll_vms; rewrite length_imap; lia).
  rewrite Hpc1, Ht. simpl. rewrite bool_decide_true by (rewrite length_app, length_fmap, Hlen, length_drop; lia). simpl.
  destruct (lookup_lt_is_Some_2 l k ltac:(lia)) as [vm Hvm].
  assert (poll_vms inputs l !! k = Some (vm_poll (inputs k) vm)) as Hp
    by (unfold poll_vms; by rewrite list_lookup_imap, Hvm).
  rewrite (drop_S _ _ _ Hvm), list_lookup_middle by by rewrite length_fmap. simpl.
  destruct (vm_poll (inputs k) vm) as [vm' r] eqn:Hv. eexists. split_and!; [reflexivity| |]; simpl.
  - f_equal. rewrite insert_app_r_alt by (rewrite length_fmap; lia). rewrite length_fmap, Hlen, Nat.sub_diag. simpl.
    rewrite (take_S_r _ _ _ Hp), fmap_app, <- app_assoc. done.
  - by rewrite (take_S_r _ _ _ Hp), fmap_app.
Qed.

Lemma system_new_not_late δ : 0 ≤ δ → not_late δ system_new.
Proof. intros. right. right. simpl. lia. Qed.

(** The run after which the checker is gone: its ping is answered at the deadline, and its task
    is polled [late] after it. *)
Definition late_pong (late : Z) : list Event :=
  [CheckerPolled; Elapse ping_interval; TakeCommands; Elapse late; CheckerPolled].

(** * Properties *)

(** A poll of the thread, taken in the steps between which other tasks run, is the
    poll of [VmThread]: from a parked thread with the same commands waiting and the same inputs
    for its vms, it ends with the same vms, parked or completed, and with the slot empty. *)
Theorem poll_in_steps inputs s t r :
  thread_pc s = Parked → thread_poll (channel s) inputs (thread s) = Ret (t, r) →
  ∃ n s', system_run (poll_events inputs n) s = Some s' ∧ thread s' = t ∧
    thread_pc s' = (if r then Exited else Parked) ∧ running_vm s' = None.
Proof.
  intros Hpc. unfold thread_poll.
  destruct (if shutting_down (thread s) then _ else _) as [t1|] eqn:Ht1; [|done]. simpl.
  rewrite remove_matching. simpl. intros [= <- <-]. exists (length (vms t1)).
  unfold poll_events. cbn [app system_run system_step]. rewrite Hpc. simpl.
  assert (thread (take_commands s) = t1 ∧ thread_pc (take_commands s) = Between 0 []) as [Ht Hpc1].
  { unfold take_commands. destruct (shutting_down (thread s)); [by injection Ht1 as <-|]. rewrite Ht1.
    unfold notify_checker. repeat case_match; by simpl. }
  rewrite system_run_app.
  destruct (vm_events_run inputs (vms t1) (length (vms t1)) (take_commands s)) as (s2 & -> & Ht2 & Hpc2);
    [by rewrite Ht|done|lia|]. simpl.
  assert (length (poll_vms inputs (vms t1)) = length (vms t1)) as Hlen by (unfold poll_vms; by rewrite length_imap).
  rewrite drop_all, app_nil_r, take_ge, Ht in Ht2 by lia. rewrite take_ge in Hpc2 by lia.
  rewrite Hpc2, Ht2. simpl. rewrite length_fmap, Hlen, bool_decide_true by done. eexists. split; [reflexivity|].
  unfold end_poll. cbn [set_running_vm thread]. rewrite Ht2. cbn [vms shutting_down pongs]. rewrite zip_fst_snd, remove_matching.
  unfold notify_checker. simpl. repeat case_match; by simpl.
Qed.

(** A vm is stopped as a runaway by the checker only, it is the one that the thread is in (or
    has just left), and only when the thread has not read its commands for the whole interval:
    a thread whose vms always return in time loses none. *)
Theorem runaway_only_when_unread es e s s' :
  system_run es system_new = Some s → system_step e s = Some s' → runaways s' ≠ runaways s →
  e = CheckerPolled ∧ last_taken s + ping_interval ≤ now s ∧
  ∃ i, slot_of (thread_pc s) = Some i ∧ runaways s' = runaways s ++ [(i, now s)] ∧
    vms (thread s') = alter (shutdown_vm TRunaway true) i (vms (thread s)).
Proof.
  intros Hrun Hs Hne. pose proof (system_run_wf _ _ _ system_new_wf Hrun) as Hwf.
  destruct (other_steps _ _ _ Hs) as [[d ->]|[->|(_ & _ & ? & _)]]; [| |done]; simpl in Hs.
  { case_bool_decide; [|done]. by injection Hs as <-. }
  injection Hs as <-. split; [done|]. pose proof (wf_slot _ Hwf) as Hslot. revert Hne. unfold checker_poll.
  assert (∀ s1, runaways (send_ping s1) = runaways s1 ∧ thread (send_ping s1) = thread s1) as Hp
    by (intros s1; unfold send_ping; by destruct (thread_gone s1)).
  destruct (checker s) as [|p last|u| |] eqn:Hc; [|..|done|done].
  - by destruct (Hp s) as [-> _].
  - destruct (wf_waits _ Hwf p last Hc) as [_ Hw]. destruct (resolved p s); case_bool_decide; try done.
    destruct (Hp (stop_running_vm s)) as [-> ->]. unfold stop_running_vm. destruct (running_vm s) as [i|] eqn:Hr; [|done].
    intros _. simpl. split; [lia|]. by exists i.
  - case_bool_decide; [|done]. by destruct (Hp s) as [-> _].
Qed.

(** C32: A vm that does not return is stopped: when the checker's task is never
    left waiting for longer than [δ] and a vm keeps the thread for more than two intervals and
    [2δ], the checker has asked that vm to stop in that time, or it has panicked, which
    takes a late poll. *)
Theorem blocking_vm_is_stopped δ es0 s i dn es s' :
  0 ≤ δ → timely_run δ es0 system_new = Some s → thread_pc s = InVm i dn →
  forallb outside es = true → timely_run δ es s = Some s' →
  now s + 2 * ping_interval + 2 * δ < now s' →
  stopped_since (now s) (now s + 2 * ping_interval + 2 * δ) i s' ∨ checker s' = CheckerPanicked ∧ δ ≠ 0.
Proof.
  intros Hd H0 Hpc Hout Hrun Hlong.
  destruct (timely_run_inv _ _ _ _ Hd system_new_wf (system_new_not_late δ Hd) H0) as [Hwf Hl].
  pose proof (blocked_run _ _ _ _ _ _ Hd Hout Hrun (blocked_start _ _ _ _ Hd Hwf Hl Hpc)) as Hb.
  destruct (blocked_end _ _ _ _ Hb Hlong) as [?|Hp]; [by left|]. right. split; [done|]. intros ->.
  assert (checker s ≠ CheckerPanicked) as Hs
    by (eapply timely_no_panic; [exact system_new_wf|by apply system_new_not_late|done|exact H0]).
  by apply (timely_no_panic _ _ _ Hwf Hl Hs Hrun).
Qed.

(** A pong that arrives in time but is noticed late ends the detection: the time left to sleep
    is computed by a subtraction of durations that panics, and whatever happens afterwards
    no vm of the thread is stopped as a runaway again. *)
Theorem late_pong_ends_detection late es s :
  0 < late → system_run (late_pong late ++ es) system_new = Some s →
  checker s = CheckerPanicked ∧ runaways s = [].
Proof.
  intros Hlate. rewrite system_run_app. unfold late_pong, ping_interval. simpl. rewrite bool_decide_true by lia. simpl.
  unfold checker_poll. simpl. rewrite bool_decide_false by (unfold ping_interval; lia). simpl. intros Hr.
  by apply dead_checker_run in Hr.
Qed.
End watchdog.

(** ** Instances *)

(** Two vms are started and the first one is entered. *)
Definition ex_entered : list (Event (H := ex_vm)) :=
  [SendStart (H := ex_vm) 7%nat; SendStart (H := ex_vm) 0%nat; CheckerPolled; TakeCommands; CheckerPolled; EnterVm].

Definition ex_state (es : list (Event (H := ex_vm))) : System (H := ex_vm) :=
  default system_new (system_run es system_new).

(** ... and it does not return. *)
Definition ex_stuck : list (Event (H := ex_vm)) :=
  [Elapse 10000; CheckerPolled; Elapse 10000; CheckerPolled; Elapse 5].

Lemma poll_in_steps_witness :
  ∃ n s', system_run (H := ex_vm) (poll_events (H := ex_vm) (λ _, tt) n) (ex_state [SendStart (H := ex_vm) 7%nat; SendStart (H := ex_vm) 0%nat]) = Some s' ∧
    thread s' = mkThread (H := ex_vm) [6%nat] false [] ∧ thread_pc s' = Parked ∧ running_vm s' = None.
Proof.
  exact (poll_in_steps (H := ex_vm) (λ _, tt) (ex_state [SendStart (H := ex_vm) 7%nat; SendStart (H := ex_vm) 0%nat])
    (mkThread (H := ex_vm) [6%nat] false []) false eq_refl eq_refl).
Defined.

Lemma runaway_only_when_unread_witness :
  let s := ex_state (ex_entered ++ [Elapse 10000; CheckerPolled; Elapse 10000]) in
  last_taken s + ping_interval ≤ now s ∧ slot_of (thread_pc s) = Some 0%nat.
Proof.
  intros s.
  destruct (runaway_only_when_unread (H := ex_vm) (ex_entered ++ [Elapse 10000; CheckerPolled; Elapse 10000]) CheckerPolled
    s (checker_poll s) ltac:(vm_compute; reflexivity) eq_refl ltac:(vm_compute; discriminate)) as (_ & Ht & i & Hi & _).
  split; [exact Ht|]. vm_compute. reflexivity.
Defined.

Lemma blocking_vm_is_stopped_witness :
  stopped_since (H := ex_vm) 0 20000 0 (ex_state (ex_entered ++ ex_stuck)).
Proof.
  destruct (blocking_vm_is_stopped (H := ex_vm) 0 ex_entered (ex_state ex_entered) 0 [] ex_stuck (ex_state (ex_entered ++ ex_stuck))
    ltac:(lia) ltac:(vm_compute; reflexivity) ltac:(vm_compute; reflexivity) ltac:(reflexivity) ltac:(vm_compute; reflexivity)
    ltac:(vm_compute; reflexivity)) as [Hs|[_ Hs]]; [exact Hs|]. exfalso. by apply Hs.
Defined.

(** The bound is not the interval: a vm that runs for almost two of them is not stopped, even
    with a checker that is never late. *)
Lemma blocking_bound_tight :
  ∃ s, timely_run (H := ex_vm) 0 [Elapse 10000; CheckerPolled; Elapse 9999; CheckerPolled] (ex_state ex_entered) = Some s ∧
    now s = 19999 ∧ thread_pc s = InVm 0 [] ∧ runaways s = [].
Proof. eexists. split; [vm_compute; reflexivity|]. by split_and!. Qed.

Lemma late_pong_ends_detection_witness :
  runaways (ex_state (late_pong 1 ++ [EndPoll; SendStart (H := ex_vm) 7%nat; TakeCommands; EnterVm; Elapse 100000; CheckerPolled])) = [].
Proof.
  apply (late_pong_ends_detection (H := ex_vm) 1
    [EndPoll; SendStart (H := ex_vm) 7%nat; TakeCommands; EnterVm; Elapse 100000; CheckerPolled]); [lia|].
  vm_compute. reflexivity.
Defined.
