(* ===== verification/ScriptStore.v ===== *)
(** The scripts of a guild's vm: the store that keeps them ([components/vm/src/lib.rs]), the
    module loader ([moduleloader.rs]) and the mapping of stack traces to the scripts' sources
    ([error.rs]).

    The TypeScript compiler and its source maps are an interface ([Compiler]), and so is the
    regular expression that takes a stack frame apart ([StackRegex]). *)
From stdpp Require Import base list strings pretty.
From S2P Require Import Prelude Models.

(** * Scripts *)

(** [tscompiler::CompiledItem] and [compile_typescript]. *)
Class Compiler := {
  SourceMap : Type;
  lookup_token : SourceMap → Z → Z → option (Z * Z);
  compile_typescript : string → result string (string * SourceMap * string);
}.

(** The groups that [\(?(file:///[\w/\.]+):(\d+):(\d+)\)?] captures: file, line, column. *)
Class StackRegex := {
  stack_captures : string → option (string * string * string);
}.

Inductive ScriptLoadState := Unloaded | Loaded | Failed.
#[global] Instance ScriptLoadState_eq_dec : EqDecision ScriptLoadState.
Proof. solve_decision. Defined.

(** [str::strip_prefix] and [str::strip_suffix]. *)
Fixpoint strip_prefix (p s : string) : option string :=
  match p, s with
  | EmptyString, _ => Some s
  | String a p', String b s' => if bool_decide (a = b) then strip_prefix p' s' else None
  | _, EmptyString => None
  end.

Fixpoint strip_suffix (p s : string) : option string :=
  if bool_decide (s = p) then Some EmptyString
  else match s with
       | EmptyString => None
       | String a s' => String a <$> strip_suffix p s'
       end.

Definition newline : string := String (Ascii.ascii_of_nat 10) "".

(** The text that precedes a script; the import's quotes are written as code 34. *)
Definition dquote : string := String (Ascii.ascii_of_nat 34) "".

Definition gen_script_source_header (script : option Script) : string :=
  let indent := match script with None => "        " | Some _ => "                " end in
  let id := match script with None => 0 | Some h => script_id h end in
  (newline +:+ indent +:+ "import {Script} from " +:+ dquote +:+ "/script" +:+ dquote +:+ ";" +:+ newline +:+
   indent +:+ "const script = new Script(" +:+ pretty id +:+ ");" +:+ newline +:+ indent)%string.

Definition prepend_script_source_header (source : string) (script : option Script) : string :=
  (gen_script_source_header script +:+ source +:+ newline +:+ "script.run();")%string.

Definition SCRIPT_HEADER_NUM_LINES : Z := 4.

Section store.
Context `{Compiler} `{StackRegex}.

Record CompiledItem := mkCompiled {
  ci_output : string;
  ci_source_map : SourceMap;
  ci_source_map_raw : string;
}.

Record ScriptState := mkScriptState {
  ss_script : Script;
  ss_state : ScriptLoadState;
  ss_compiled : CompiledItem;
}.

(** [ScriptsStateStore]: its [scripts]. *)
Definition Store : Type := list ScriptState.

Definition store_new : Store := [].

(** [line_no - SCRIPT_HEADER_NUM_LINES] on [u32]. *)
Definition script_line_col (s : ScriptState) (line_no col : Z) : outcome (option (Z * Z)) :=
  if line_no <? SCRIPT_HEADER_NUM_LINES then Panic
  else Ret ((λ t, (t.1 + 1, t.2)) <$> lookup_token (ci_source_map (ss_compiled s)) (line_no - SCRIPT_HEADER_NUM_LINES) col).

Definition get_guild_script_name (res : string) : option string :=
  strip_prefix "file:///guild_scripts/" res ≫= strip_suffix ".js".

Definition named (name : string) (v : ScriptState) : bool := bool_decide (script_name (ss_script v) = name).
Definition with_id (id : Z) (v : ScriptState) : bool := script_id (ss_script v) =? id.

Definition get_original_line_col (res : string) (line col : Z) (st : Store) : outcome (option (string * Z * Z)) :=
  match get_guild_script_name res with
  | Some name =>
      match find_first (named name) st with
      | Some script_load =>
          do! r := script_line_col script_load line col in
          Ret ((λ lc, (("guild_scripts/" +:+ name +:+ ".ts")%string, lc.1, lc.2)) <$> r)
      | None => Ret None
      end
  | None => Ret None
  end.

Definition get_script (id : Z) (st : Store) : option ScriptState := find_first (with_id id) st.

Definition compile_add_script (script : Script) (st : Store) : result string ScriptState * Store :=
  match compile_typescript (original_source script) with
  | Ok (output, sm, raw) =>
      let item := mkScriptState script Unloaded (mkCompiled output sm raw) in
      (Ok item, st ++ [item])
  | Err e => (Err e, st)
  end.

Definition failed_or_loaded (s : ScriptLoadState) : bool :=
  match s with Unloaded => false | _ => true end.

Definition is_failed_or_loaded (id : Z) (st : Store) : option bool :=
  (λ s, failed_or_loaded (ss_state s)) <$> get_script id st.

Definition put_state (new_state : ScriptLoadState) (s : ScriptState) : ScriptState :=
  mkScriptState (ss_script s) new_state (ss_compiled s).

Definition set_state (id : Z) (new_state : ScriptLoadState) (st : Store) : Store :=
  update_first (with_id id) (put_state new_state) st.

Definition get_source_map (file_name : string) (st : Store) : option string :=
  name ← get_guild_script_name file_name;
  (λ s, ci_source_map_raw (ss_compiled s)) <$> find_first (named name) st.

(** * Errors and stack traces *)

(** [deno_core::error::JsError], as far as it is read: its stack, its message, and the text it
    displays as; other errors are their text. *)
Record JsError := mkJsError {
  js_stack : option string;
  js_exception_message : string;
  js_display : string;
}.

Inductive AnyError :=
| EJs (e : JsError)
| EOther (msg : string).

(** [str::split] at a character. *)
Fixpoint split_on (c : Ascii.ascii) (s : string) : list string :=
  match s with
  | EmptyString => [EmptyString]
  | String a r =>
      if bool_decide (a = c) then EmptyString :: split_on c r
      else match split_on c r with
           | p :: ps => String a p :: ps
           | [] => [String a EmptyString]
           end
  end.

(** [str::parse::<u32>]: an optional sign and decimal digits, within the type's range. *)
Fixpoint parse_digits (acc : Z) (s : string) : option Z :=
  match s with
  | EmptyString => Some acc
  | String a r =>
      let d := Z.of_nat (Ascii.nat_of_ascii a) - 48 in
      if (0 <=? d) && (d <=? 9) then parse_digits (acc * 10 + d) r else None
  end.

Definition parse_u32 (s : string) : option Z :=
  let digits := match s with
                | String a r => if bool_decide (a = Ascii.ascii_of_nat 43) then r else s
                | EmptyString => s
                end in
  match digits with
  | EmptyString => None
  | _ => n ← parse_digits 0 digits; if n <=? u32_max then Some n else None
  end.

Definition space_char : Ascii.ascii := Ascii.ascii_of_nat 32.
Definition newline_char : Ascii.ascii := Ascii.ascii_of_nat 10.

Definition parse_transform_stack_line (scripts : Store) (line : string) : outcome (option string) :=
  let segments := List.filter (λ v, negb (bool_decide (v = EmptyString))) (split_on space_char line) in
  let transform main_part func :=
    match
      ('(file, l, c) ← stack_captures main_part;
       line ← parse_u32 l; col ← parse_u32 c; Some (file, line, col))
    with
    | None => Ret None
    | Some (file, line, col) =>
        do! r := get_original_line_col file line col scripts in
        Ret ((λ x : string * Z * Z, let '(new_file, src_line, src_col) := x in
          ("    at " +:+ (match func with Some f => f +:+ " " | None => "" end) +:+
           "(" +:+ new_file +:+ ":" +:+ pretty src_line +:+ ":" +:+ pretty src_col +:+ ")")%string) <$> r)
    end in
  match segments with
  | [_; main_part] => transform main_part None
  | [_; func; main_part] => transform main_part (Some func)
  | _ => Ret None
  end.

(** The loop of [parse_transform_stack]. *)
Fixpoint transform_lines (scripts : Store) (lines : list string) : outcome string :=
  match lines with
  | [] => Ret EmptyString
  | line :: lines =>
      do! new_line := parse_transform_stack_line scripts line in
      do! rest := transform_lines scripts lines in
      Ret (default line new_line +:+ newline +:+ rest)%string
  end.

Definition parse_transform_stack (scripts : Store) (stack : string) : outcome string :=
  transform_lines scripts (split_on newline_char stack).

(** The text of the resulting error. *)
Definition source_map_error (loaded_scripts : Store) (err : AnyError) : outcome string :=
  match err with
  | EJs v =>
      match js_stack v with
      | Some stack =>
          do! transformed := parse_transform_stack loaded_scripts stack in
          Ret (js_exception_message v +:+ newline +:+ transformed)%string
      | None => Ret (js_display v)
      end
  | EOther orig => Ret orig
  end.

(** * The module loader *)

Record ModuleSource := mkModuleSource {
  ms_code : string;
  ms_url : string;
}.

Definition try_load_std_module (module_map : list (string * string)) (specifier : string) : option ModuleSource :=
  (λ e, mkModuleSource e.2 specifier) <$> find_first (λ e, bool_decide (e.1 = specifier)) module_map.

(** [path] is the specifier's path component; a script that is imported counts as loaded. *)
Definition try_load_script_module (path specifier : string) (st : Store) : option ModuleSource * Store :=
  match strip_prefix "/guild_scripts/" path ≫= strip_suffix ".js" with
  | Some name =>
      match find_first (named name) st with
      | Some script =>
          (Some (mkModuleSource (prepend_script_source_header (ci_output (ss_compiled script)) (Some (ss_script script))) specifier),
           update_first (named name) (put_state Loaded) st)
      | None => (None, st)
      end
  | None => (None, st)
  end.

Definition module_load (module_map : list (string * string)) (path specifier : string) (st : Store)
    : option ModuleSource * Store :=
  match try_load_std_module module_map specifier with
  | Some l => (Some l, st)
  | None => try_load_script_module path specifier st
  end.
(** * Facts *)

(** ** Names *)

Lemma strip_prefix_Some p s r : strip_prefix p s = Some r ↔ s = (p +:+ r)%string.
Proof.
  revert s. induction p as [|a p IH]; intros s; simpl; [split; [by intros [= ->] | by intros ->]|].
  destruct s as [|b s]; [done|]. case_bool_decide as Hab; [subst; rewrite IH; split; [by intros -> | by intros [= ->]]|]. split; [done|]. by intros [= ->].
Qed.

Lemma append_cons a r p : (String a r +:+ p)%string = String a (r +:+ p)%string.
Proof. done. Qed.

Lemma append_length r p : String.length (r +:+ p)%string = (String.length r + String.length p)%nat.
Proof. induction r as [|a r IH]; [done|]. rewrite append_cons. simpl. by rewrite IH. Qed.

Lemma append_assoc a b c : ((a +:+ b) +:+ c)%string = (a +:+ (b +:+ c))%string.
Proof. induction a as [|x a IH]; [done|]. by rewrite !append_cons, IH. Qed.

Lemma append_nil_r a : (a +:+ "")%string = a.
Proof. induction a as [|x a IH]; [done|]. by rewrite append_cons, IH. Qed.

Lemma strip_suffix_app p r : strip_suffix p (r +:+ p)%string = Some r.
Proof.
  induction r as [|a r IH].
  - change (EmptyString +:+ p)%string with p. by destruct p; cbn [strip_suffix]; rewrite bool_decide_true.
  - rewrite append_cons. cbn [strip_suffix]. rewrite bool_decide_false; [by rewrite IH|]. intros Heq.
    apply (f_equal String.length) in Heq. cbn [String.length] in Heq. rewrite append_length in Heq. lia.
Qed.

Lemma strip_suffix_Some p s r : strip_suffix p s = Some r → s = (r +:+ p)%string.
Proof.
  revert r. induction s as [|a s IH]; intros r; cbn [strip_suffix]; case_bool_decide as Hp.
  - intros [= <-]. by rewrite <- Hp.
  - done.
  - intros [= <-]. by rewrite <- Hp.
  - destruct (strip_suffix p s) as [r'|]; [|done]. intros [= <-]. rewrite append_cons. f_equal. auto.
Qed.

(** ** Progress of the load states *)

Definition is_done (st : Store) (id : Z) : Prop := is_failed_or_loaded id st = Some true.

(** Same scripts, and none goes back to unloaded. *)
Definition progresses (st st' : Store) : Prop :=
  Forall2 (λ s s', ss_script s' = ss_script s ∧ (failed_or_loaded (ss_state s) = true → failed_or_loaded (ss_state s') = true)) st st'.

Lemma progresses_refl st : progresses st st.
Proof. apply Forall_Forall2_diag, Forall_forall. done. Qed.

Lemma progresses_trans st st' st'' : progresses st st' → progresses st' st'' → progresses st st''.
Proof.
  intros H1. revert st''. induction H1 as [|s s' l l' [Hs Hd] _ IH]; intros st'' H2; inversion H2 as [|? s'' ? l'' [Hs' Hd'] Hl]; subst; [done|].
  constructor; [split; [congruence|auto]|auto]. by apply IH.
Qed.

Lemma update_progresses p new st : failed_or_loaded new = true → progresses st (update_first p (put_state new) st).
Proof.
  intros Hn. induction st as [|s st IH]; simpl; [constructor|].
  destruct (p s); constructor; [by split|apply progresses_refl|done|exact IH].
Qed.

Lemma progresses_done st st' id : progresses st st' → is_done st id → is_done st' id.
Proof.
  unfold is_done, is_failed_or_loaded, get_script. induction 1 as [|s s' l l' [Hs Hd] _ IH]; simpl; [done|].
  unfold with_id in *. rewrite Hs. destruct (_ =? _); simpl; [|done]. intros [= He]. by rewrite Hd.
Qed.

Lemma progresses_scripts st st' : progresses st st' → ss_script <$> st' = ss_script <$> st.
Proof. induction 1 as [|s s' l l' [Hs _] _ IH]; [done|]. by rewrite !fmap_cons, Hs, IH. Qed.

Lemma progresses_NoDup st st' :
  progresses st st' → NoDup ((λ z, script_id (ss_script z)) <$> st) → NoDup ((λ z, script_id (ss_script z)) <$> st').
Proof.
  intros Hp. by rewrite !(list_fmap_compose ss_script script_id), (progresses_scripts _ _ Hp).
Qed.

Lemma progresses_get st st' id : progresses st st' → is_Some (get_script id st) → is_Some (get_script id st').
Proof.
  unfold get_script. induction 1 as [|s s' l l' [Hs Hd] _ IH]; simpl; [done|].
  unfold with_id in *. rewrite Hs. destruct (_ =? _); [eauto|done].
Qed.

Lemma module_load_progresses m path spec st : progresses st (module_load m path spec st).2.
Proof.
  unfold module_load. destruct (try_load_std_module m spec); [apply progresses_refl|].
  unfold try_load_script_module. destruct (_ ≫= _) as [name|]; [|apply progresses_refl].
  destruct (find_first _ _); [by apply update_progresses|apply progresses_refl].
Qed.

Lemma set_state_done id new st :
  failed_or_loaded new = true → is_Some (get_script id st) → is_done (set_state id new st) id.
Proof.
  intros Hn [s Hs]. unfold is_done, is_failed_or_loaded, get_script, set_state.
  rewrite (find_first_update_first _ _ _ s Hs); [simpl; by rewrite Hn|].
  by apply find_first_Some in Hs as [_ ?].
Qed.

Definition compiled_of (s : Script) : option ScriptState :=
  match compile_typescript (original_source s) with
  | Ok (output, sm, raw) => Some (mkScriptState s Unloaded (mkCompiled output sm raw))
  | Err _ => None
  end.

Lemma compiled_of_script s x : compiled_of s = Some x → ss_script x = s.
Proof. unfold compiled_of. destruct (compile_typescript _) as [[[]]|]; [|done]. by intros [= <-]. Qed.

Lemma omap_ids_NoDup l :
  NoDup (script_id <$> l) → NoDup (script_id <$> (ss_script <$> omap compiled_of l)).
Proof.
  induction l as [|s l IH]; [done|]. rewrite fmap_cons, NoDup_cons. intros [Hs Hnd]. simpl.
  destruct (compiled_of s) as [x|] eqn:Hx; [|by apply IH]. rewrite !fmap_cons, NoDup_cons. split; [|by apply IH].
  rewrite (compiled_of_script s x Hx). intros (y & Hy & (z & -> & (s' & Hs' & Hz)%list_elem_of_omap)%list_elem_of_fmap)%list_elem_of_fmap.
  apply Hs. rewrite (compiled_of_script s' z Hz) in Hy. apply list_elem_of_fmap. eauto.
Qed.

Lemma get_script_own st x :
  NoDup ((λ z, script_id (ss_script z)) <$> st) → x ∈ st → get_script (script_id (ss_script x)) st = Some x.
Proof.
  intros Hnd [i Hx]%list_elem_of_lookup. unfold get_script.
  apply find_first_unique with i; [done|apply Z.eqb_refl|]. intros j z Hz Hid%Z.eqb_eq.
  eapply NoDup_lookup; [exact Hnd|rewrite list_lookup_fmap, Hz; reflexivity|].
  rewrite list_lookup_fmap, Hx. simpl. by rewrite Hid.
Qed.

Lemma compiled_NoDup l :
  NoDup (script_id <$> l) → NoDup ((λ z, script_id (ss_script z)) <$> omap compiled_of l).
Proof. intros Hnd. rewrite (list_fmap_compose ss_script script_id). by apply omap_ids_NoDup. Qed.

Lemma get_script_fresh id st : (∀ x, x ∈ st → script_id (ss_script x) ≠ id) → get_script id st = None.
Proof. intros Hst. apply find_first_None, Forall_forall. intros x Hx. apply Z.eqb_neq. by apply Hst. Qed.

Lemma find_first_after {A} (p : A → bool) pre x post :
  Forall (λ y, p y = false) pre → p x = true → find_first p (pre ++ x :: post) = Some x.
Proof. induction 1 as [|y pre Hy _ IH]; intros Hx; simpl; [by rewrite Hx|]. rewrite Hy. auto. Qed.

Lemma update_first_after {A} (p : A → bool) f pre x post :
  Forall (λ y, p y = false) pre → p x = true → update_first p f (pre ++ x :: post) = pre ++ f x :: post.
Proof. induction 1 as [|y pre Hy _ IH]; intros Hx; simpl; [by rewrite Hx|]. rewrite Hy. f_equal. auto. Qed.

(** ** Splitting *)

Fixpoint join_with (c : string) (l : list string) : string :=
  match l with
  | [] => EmptyString
  | [p] => p
  | p :: l => (p +:+ c +:+ join_with c l)%string
  end.

Lemma split_on_not_nil c s : split_on c s ≠ [].
Proof. destruct s as [|a s]; simpl; [done|]. case_bool_decide; [done|]. by destruct (split_on c s). Qed.

(** Joining the pieces gives the string back. *)
Lemma join_split c s : join_with (String c EmptyString) (split_on c s) = s.
Proof.
  induction s as [|a s IH]; [done|]. simpl. pose proof (split_on_not_nil c s) as Hn. case_bool_decide as Ha.
  - subst a. destruct (split_on c s) as [|p ps]; [done|].
    change (join_with (String c "") ("" :: p :: ps)) with (String c (join_with (String c "") (p :: ps))). by rewrite IH.
  - destruct (split_on c s) as [|p [|q ps]]; [done|by subst s|].
    cbn [join_with] in *. rewrite append_cons. by f_equal.
Qed.

(** * Properties *)

(** The name of a script and the file name under which it runs determine each other, so
    errors and source maps are looked up for the right script. *)
Theorem guild_script_name_roundtrip name res :
  get_guild_script_name ("file:///guild_scripts/" +:+ name +:+ ".js")%string = Some name ∧
  (get_guild_script_name res = Some name → res = ("file:///guild_scripts/" +:+ name +:+ ".js")%string).
Proof.
  unfold get_guild_script_name. split.
  - rewrite (proj2 (strip_prefix_Some _ _ (name +:+ ".js")%string) eq_refl). simpl. apply strip_suffix_app.
  - destruct (strip_prefix _ res) as [r|] eqn:Hr; [|done]. apply strip_prefix_Some in Hr as ->. simpl.
    intros Hs%strip_suffix_Some. by rewrite Hs.
Qed.
(** A stack trace keeps its lines, in order: the ones that are no frame of a guild's script are
    unchanged and the others are mapped one by one, so a trace without such frames is
    unchanged but for the newline at its end. *)
Theorem foreign_stack_unchanged st stack :
  (∀ line, line ∈ split_on newline_char stack → parse_transform_stack_line st line = Ret None) →
  parse_transform_stack st stack = Ret (stack +:+ newline)%string.
Proof.
  intros Hl. unfold parse_transform_stack. rewrite <- (join_split newline_char stack) at 2.
  pose proof (split_on_not_nil newline_char stack) as Hn. revert Hl Hn.
  induction (split_on newline_char stack) as [|l lines IH]; intros Hl Hn; [done|].
  cbn [transform_lines]. rewrite Hl by by left. destruct lines as [|l' lines]; [done|].
  rewrite IH; [|intros line Hline; apply Hl; by right|done]. cbn [outcome_bind default join_with].
  by rewrite !append_assoc.
Qed.

(** Looking up the source position of a frame panics exactly for a frame in the header that
    precedes a script's own first line. *)
Theorem header_frame_panics res line col st :
  get_original_line_col res line col st = Panic ↔
  line < 4 ∧ ∃ s, s ∈ st ∧ get_guild_script_name res = Some (script_name (ss_script s)).
Proof.
  unfold get_original_line_col. destruct (get_guild_script_name res) as [name|]; [|by split; [|intros (_ & ? & _ & ?)]].
  destruct (find_first (named name) st) as [s|] eqn:Hs.
  - apply find_first_Some in Hs as [Hin Hn%bool_decide_eq_true]. unfold script_line_col, SCRIPT_HEADER_NUM_LINES.
    destruct (line <? 4) eqn:Hl; simpl.
    + apply Z.ltb_lt in Hl. split; [intros _; split; [done|]; exists s; by subst name|done].
    + apply Z.ltb_ge in Hl. split; [done|]. intros [? _]. lia.
  - split; [done|]. intros (_ & s & Hin & [= ->]). apply find_first_None in Hs. rewrite Forall_forall in Hs.
    specialize (Hs s Hin). unfold named in Hs. by rewrite bool_decide_true in Hs.
Qed.
End store.

(** * Examples *)

Definition ex_compiler : Compiler :=
  {| SourceMap := unit; lookup_token _ l c := Some (l, c);
     compile_typescript s := if bool_decide (s = "") then Err "empty" else Ok (s, tt, "") |}.

Definition ex_source (id : Z) (source : string) : Script :=
  mkScript id "s" source true (mkContributes [] []) None None.

(** Takes a frame apart at its colons. *)
Definition ex_regex : StackRegex :=
  {| stack_captures s :=
       let s := default s (strip_prefix "(" s) in
       let s := default s (strip_suffix ")" s) in
       match split_on (Ascii.ascii_of_nat 58) s with
       | [scheme; path; l; c] => Some ((scheme +:+ ":" +:+ path)%string, l, c)
       | _ => None
       end |}.

(** A frame of a script, a frame of the runtime, and the script that both belong to. *)
Example stack_mapped :
  let st := [mkScriptState (H := ex_compiler) (ex_source 1 "a") Loaded (mkCompiled (H := ex_compiler) "a" tt "")] in
  source_map_error (H := ex_compiler) (H0 := ex_regex) st
    (EJs (mkJsError (Some ("Error: x" +:+ newline +:+ "    at f (file:///guild_scripts/s.js:6:3)" +:+ newline +:+
                            "    at file:///script.js:9:1")%string) "x" "")) =
  Ret ("x" +:+ newline +:+ "Error: x" +:+ newline +:+ "    at f (guild_scripts/s.ts:3:3)" +:+ newline +:+
       "    at file:///script.js:9:1" +:+ newline)%string.
Proof. vm_compute. reflexivity. Qed.
