(* ===== verification/Modules.v ===== *)
(** Imports between scripts ([components/vm/src/moduleloader.rs], [resolve] and [load]): an import
    is resolved against the importing module and then loaded from the standard modules or the
    guild's scripts. Urls are those of the url crate, an interface. *)
From stdpp Require Import base list strings.
From S2P Require Import Prelude Models ScriptStore.

Class Urls := {
  Url : Type;
  url_parse : string → option Url;
  url_join : Url → string → option Url;
  url_text : Url → string;
  url_path : Url → string;
}.

Definition script_url (name : string) : string := "file:///guild_scripts/" +:+ name +:+ ".js".

(** Letters, digits, underscores and dashes, which mean themselves in a url. *)
Definition plain_char (a : Ascii.ascii) : bool :=
  let n := Ascii.nat_of_ascii a in
  ((97 <=? n) && (n <=? 122) || (65 <=? n) && (n <=? 90) || (48 <=? n) && (n <=? 57) || (n =? 95) || (n =? 45))%nat.

Fixpoint plain (s : string) : bool :=
  match s with EmptyString => true | String a s => plain_char a && plain s end.

(** RFC 3986 for the urls of scripts: [./b.js] relative to [a.js] is its neighbour, and the path
    of a url is what follows the (empty) authority. *)
Class UrlLaws `{Urls} := {
  parse_script name : plain name = true → ∃ u, url_parse (script_url name) = Some u ∧
    url_path u = "/guild_scripts/" +:+ name +:+ ".js" ∧ url_text u = script_url name;
  parse_relative name : url_parse ("./" +:+ name) = None;
  join_neighbour a b u : plain a = true → plain b = true → url_parse (script_url a) = Some u →
    url_join u ("./" +:+ b +:+ ".js") = url_parse (script_url b);
}.

Section modules.
Context `{Compiler} `{Urls}.

(** [ModuleLoader::resolve] *)
Definition module_resolve (specifier referrer : string) : outcome (result string Url) :=
  match url_parse specifier with
  | Some u => Ret (Ok u)
  | None =>
      let specifier := if bool_decide (specifier = "botloader") then "/index" else specifier in
      match url_parse referrer with
      | None => Ret (Err ("failed parsing referrer url: (" +:+ specifier +:+ " - " +:+ referrer +:+ ")"))
      | Some parsed_referrer => do! resolved := unwrap (url_join parsed_referrer (specifier +:+ ".js")) in Ret (Ok resolved)
      end
  end.

(** What V8 does for an import: [resolve], then [load]. *)
Definition import (module_map : list (string * string)) (specifier referrer : string) (st : Store)
    : outcome (option ModuleSource * Store) :=
  do! r := module_resolve specifier referrer in
  match r with
  | Ok u => Ret (module_load module_map (url_path u) (url_text u) st)
  | Err _ => Ret (None, st)
  end.

(** * Properties *)

(** Scripts of a guild can import each other by name: the import of [./b] in the
    script [a] yields the first script named [b], marks it as loaded, which keeps it from being
    run again, and changes no other script. *)
Theorem import_neighbour `{!UrlLaws} module_map a b st s :
  plain a = true → plain b = true → find_first (named b) st = Some s →
  find_first (λ e : string * string, bool_decide (e.1 = script_url b)) module_map = None →
  import module_map ("./" +:+ b) (script_url a) st =
    Ret (Some (mkModuleSource (prepend_script_source_header (ci_output (ss_compiled s)) (Some (ss_script s))) (script_url b)),
         update_first (named b) (put_state Loaded) st).
Proof.
  intros Ha Hb Hs Hm. unfold import, module_resolve. rewrite parse_relative, bool_decide_false by done.
  destruct (parse_script a Ha) as (ua & Hua & _ & _). destruct (parse_script b Hb) as (ub & Hub & Hpath & Htext).
  rewrite Hua, append_assoc, (join_neighbour a b ua Ha Hb Hua), Hub. simpl. f_equal.
  unfold module_load, try_load_std_module, try_load_script_module. rewrite Htext, Hpath, Hm.
  rewrite (proj2 (strip_prefix_Some "/guild_scripts/" _ (b +:+ ".js")%string) eq_refl). cbn [mbind option_bind fmap option_fmap option_map].
  by rewrite strip_suffix_app, Hs.
Qed.

(** A specifier that cannot be joined with the url of the module that imports it panics, instead
    of failing the import. *)
Theorem unjoinable_import_panics specifier referrer :
  module_resolve specifier referrer = Panic ↔
  url_parse specifier = None ∧ ∃ u, url_parse referrer = Some u ∧
    url_join u ((if bool_decide (specifier = "botloader") then "/index" else specifier) +:+ ".js") = None.
Proof.
  unfold module_resolve. destruct (url_parse specifier); [by split; [|intros [? _]]|].
  destruct (url_parse referrer) as [u|]; [|by split; [|intros (_ & ? & ? & _)]].
  destruct (url_join u _) eqn:Hj; simpl.
  - split; [done|]. intros (_ & ? & [= <-] & ?). congruence.
  - split; [|done]. intros _. by eauto.
Qed.
End modules.

(** ** Instances *)

(** Urls of files: an authority in brackets that is not closed is refused, as the url crate does. *)
#[global] Instance ex_urls : Urls := {|
  Url := string;
  url_parse s := s' ← strip_prefix "file://" s; Some s;
  url_join u r := match strip_prefix "./" r with
                  | Some n => Some ("file:///guild_scripts/" +:+ n)
                  | None => match strip_prefix "//" r with Some _ => None | None => Some ("file://" +:+ r) end
                  end;
  url_text u := u;
  url_path u := default "" (strip_prefix "file://" u);
|}.

#[global] Instance ex_url_laws : UrlLaws.
Proof. constructor; [intros name _; by eexists|done|done]. Qed.

Definition ex_two : Store (H := ex_compiler) :=
  [mkScriptState (H := ex_compiler) (mkScript 1 "a" "x" true (mkContributes [] []) None None) Loaded (mkCompiled (H := ex_compiler) "x" tt "");
   mkScriptState (H := ex_compiler) (mkScript 2 "b" "y" true (mkContributes [] []) None None) Unloaded (mkCompiled (H := ex_compiler) "y" tt "")].

Lemma import_neighbour_witness :
  ∃ src st', import (H := ex_compiler) [] "./b" (script_url "a") ex_two = Ret (Some src, st') ∧
    (ss_state <$> st') = [Loaded; Loaded].
Proof.
  eexists _, _. split.
  - apply (import_neighbour (H := ex_compiler) [] "a" "b" ex_two
      (mkScriptState (H := ex_compiler) (mkScript 2 "b" "y" true (mkContributes [] []) None None) Unloaded (mkCompiled (H := ex_compiler) "y" tt "")));
      reflexivity.
  - reflexivity.
Defined.

(** A script that imports a url with an open bracket takes its vm's thread down. *)
Example bracket_import_panics : module_resolve "//[" (script_url "a") = Panic.
Proof. reflexivity. Qed.
