(* ===== verification/Vm.v ===== *)
(** The vm of a guild and its life ([components/vm/src/vm.rs]), over the store of its scripts.

    V8 is the environment: what an evaluation or the event loop does is an answer ([VResp]);
    the calls into it, the log and the events for the worker are the trace ([VEv]). *)
From stdpp Require Import base list strings pretty.
From S2P Require Import Prelude Models VmThread ScriptStore.

Section vm.
Context `{Compiler} `{StackRegex}.

(** * The vm's life *)

Inductive VmCommand :=
| DispatchEvent (name : string) (data : JsonValue) (evt_id : Z)
| LoadScript (s : Script)
| UnloadScripts (l : list Script)
| UpdateScript (s : Script)
| Restart (l : list Script).

Inductive VmEvent :=
| VmShutdown (r : TReason)
| DispatchedEvent (id : Z)
| VmFinished.

(** [poll_event_loop]. *)
Inductive LoopPoll := LPending | LOk | LErr (e : AnyError).

Inductive TickResult :=
| TickVmError (e : AnyError)
| TickCompleted
| TickCommand (c : option VmCommand)
| TickContinue.

(** [TickFuture::poll]: what the wakeup channel, the command channel and the event loop have. *)
Definition tick_poll (wakeup : bool) (cmd : option (option VmCommand)) (loop : LoopPoll) (completed : bool)
    : option TickResult :=
  if wakeup then Some TickContinue
  else match cmd with
       | Some c => Some (TickCommand c)
       | None =>
           match loop with
           | LPending => None
           | LOk => if completed then None else Some TickCompleted
           | LErr e => Some (TickVmError e)
           end
       end.

(** A property of an object: there is none, it has another type than is needed, or it is there. *)
Inductive Lookup := LkNone | LkOther | LkFound.

Inductive VResp :=
| VTerminated (b : bool)
| VReason (r : option TReason)
| VPolled (wakeup : bool) (cmd : option (option VmCommand)) (loop : LoopPoll)
(** Loading a module: the scripts it imports, then whether it loaded. *)
| VModule (imports : list (string * string)) (err : option AnyError)
| VEvalDone (err : option AnyError)
| VLoopDone (err : option AnyError)
(** What V8 finds under a name, and whether it can make a value of an event. *)
| VProperty (l : Lookup)
| VToV8 (ok : bool)
| VStopTimeout.

Inductive VEv :=
| VLog (e : LogEntry)
| VOut (e : VmEvent)
| VNewIsolate
| VIsolateHandle
| VEval (id : Z) (source : string)
| VCall (name : string) (data : JsonValue)
| VUndispatched (error : string)
| VGot (c : VmCommand).

Notation vio := (async VResp VEv).

Record Vm := mkVm {
  vm_guild : Z;
  vm_modules : list (string * string);
  vm_store : Store;
}.

Definition set_store (v : Vm) (st : Store) : Vm := mkVm (vm_guild v) (vm_modules v) st.

Definition log_guild_err (v : Vm) (err : AnyError) : vio unit :=
  let! mapped := lift (source_map_error (vm_store v) err) in
  emit (VLog (log_error (vm_guild v) ("Script error occurred: " +:+ mapped)%string)).

Definition compile_script (script : Script) (v : Vm) : vio (option ScriptState * Vm) :=
  match compile_add_script script (vm_store v) with
  | (Ok compiled, st) => aret (Some compiled, set_store v st)
  | (Err e, st) =>
      let! _ := emit (VLog (log_error (vm_guild v)
                  ("Script compilation failed for " +:+ script_name script +:+ ".ts: " +:+ e)%string)) in
      aret (None, set_store v st)
  end.

(** The loop of [complete_module_eval]. *)
Definition complete_module_eval (v : Vm) : vio unit :=
  iter (λ _ : unit,
    let! r := await (λ r, match r with VEvalDone e => Some e | _ => None end) in
    match r with
    | Some err => let! _ := log_guild_err v err in aret (inl tt)
    | None => aret (inr tt)
    end) tt.

Definition load_imports (v : Vm) (imports : list (string * string)) : Vm :=
  set_store v (fold_left (λ st i, (module_load (vm_modules v) i.1 i.2 st).2) imports (vm_store v)).

Definition run_script (v : Vm) (id : Z) : vio Vm :=
  match is_failed_or_loaded id (vm_store v), get_script id (vm_store v) with
  | Some true, _ => aret v
  | _, None => aret v
  | _, Some script =>
      let v := set_store v (set_state id Loaded (vm_store v)) in
      let! _ := emit (VEval id (prepend_script_source_header (ci_output (ss_compiled script)) (Some (ss_script script)))) in
      let! (imports, err) := await (λ r, match r with VModule i e => Some (i, e) | _ => None end) in
      let v := load_imports v imports in
      match err with
      | Some e => let! _ := log_guild_err v e in aret (set_store v (set_state id Failed (vm_store v)))
      | None => let! _ := complete_module_eval v in aret v
      end
  end.

Definition compile_all (scripts : list Script) (v : Vm) : vio Vm :=
  afold (λ v s, let! (_, v) := compile_script s v in aret v) scripts v.
Definition run_all (scripts : list Script) (v : Vm) : vio Vm :=
  afold (λ v s, run_script v (script_id s)) scripts v.

(** One round of the loop of [run_until_completion]: an error is logged and the loop goes on. *)
Definition completion_round (v : Vm) (r : option AnyError) : vio (unit + unit) :=
  match r with
  | Some err => let! _ := log_guild_err v err in aret (inl tt)
  | None => aret (inr tt)
  end.

Definition run_until_completion (v : Vm) : vio unit :=
  iter (λ _ : unit,
    let! r := await (λ r, match r with VLoopDone e => Some e | _ => None end) in
    completion_round v r) tt.

(** [stop_vm]: [run_until_completion] under a timeout of 15 seconds, which may come in any
    round of it. *)
Definition stop_vm (v : Vm) : vio unit :=
  iter (λ _ : unit,
    let! r := await (λ r, match r with
                          | VLoopDone e => Some (Some e)
                          | VStopTimeout => Some None
                          | _ => None
                          end) in
    match r with
    | Some r => completion_round v r
    | None =>
        let! _ := emit (VLog (log_error (vm_guild v)
          "shutting down your vm timed out after 15 sec, cancelling all pending promises and force-shutting down now instead...")) in
        aret (inr tt)
    end) tt.

Definition restart (new_scripts : list Script) (v : Vm) : vio Vm :=
  let! _ := emit (VLog (log_info (vm_guild v) "restarting guild vm...")) in
  let! _ := stop_vm v in
  let! v := compile_all new_scripts (set_store v []) in
  let! _ := emit VNewIsolate in
  let! _ := emit VIsolateHandle in
  let! v := run_all new_scripts v in
  let! _ := emit (VLog (log_info (vm_guild v) "vm restarted")) in
  aret v.

(** [get_property] and [TryFrom::try_from] of what it gives *)
Definition get_property : vio Lookup := await (λ r, match r with VProperty l => Some l | _ => None end).

(** The event is acknowledged first. [VCall] is the call of [BotloaderCore.dispatchWrapper], whose
    result is ignored; scripts share the global object, so it may be gone or be something else. *)
Definition dispatch_event (name : string) (data : JsonValue) (evt_id : Z) : vio unit :=
  let! _ := emit (VOut (DispatchedEvent evt_id)) in
  let! core_obj := get_property in
  match core_obj with
  | LkNone => emit (VUndispatched "BotloaderCore global not found, unable to dispatch events")
  | LkOther => emit (VUndispatched "BotloaderCore is not an object, unable to dispatch events")
  | LkFound =>
      let! dispatch_fn := get_property in
      match dispatch_fn with
      | LkNone => emit (VUndispatched "BotloaderCore.dispatchWrapper not defined, unable to dispatch events")
      | LkOther => emit (VUndispatched "BotloaderCore.dispatchWrapper is not a function, unable to dispatch events")
      | LkFound =>
          let! v := await (λ r, match r with VToV8 ok => Some ok | _ => None end) in
          if v : bool then emit (VCall name data) else apanic
      end
  end.

Definition updated_scripts (script : Script) (st : Store) : list Script :=
  (λ v, if script_id (ss_script v) =? script_id script then script else ss_script v) <$> st.

Definition handle_vm_cmd (cmd : VmCommand) (v : Vm) : vio Vm :=
  match cmd with
  | Restart new_scripts => restart new_scripts v
  | DispatchEvent name evt evt_id => let! _ := dispatch_event name evt evt_id in aret v
  | LoadScript script =>
      let! (compiled, v) := compile_script script v in
      match compiled with
      | Some s => run_script v (script_id (ss_script s))
      | None => aret v
      end
  | UpdateScript script =>
      if existsb (with_id (script_id script)) (vm_store v)
      then restart (updated_scripts script (vm_store v)) v
      else aret v
  | UnloadScripts scripts =>
      restart (List.filter (λ s, negb (existsb (λ i, script_id i =? script_id s) scripts)) (ss_script <$> vm_store v)) v
  end.

(** Polls the tick until it is ready. *)
Definition tick (completed : bool) : vio TickResult :=
  iter (λ _ : unit,
    let! p := await (λ r, match r with VPolled w c l => Some (tick_poll w c l completed) | _ => None end) in
    match p with Some r => aret (inr r) | None => aret (inl tt) end) tt.

(** One round of the loop of [run]. *)
Definition vm_round (st : Vm * bool) : vio ((Vm * bool) + Vm) :=
  let '(v, completed) := st in
  let! terminated := await (λ r, match r with VTerminated b => Some b | _ => None end) in
  if terminated then aret (inr v)
  else
    let! r := tick completed in
    match r with
    | TickCommand (Some cmd) =>
        let! _ := emit (VGot cmd) in
        let! v := handle_vm_cmd cmd v in aret (inl (v, false))
    | TickCommand None => aret (inl (v, false))
    | TickContinue => aret (inl (v, false))
    | TickVmError e => let! _ := log_guild_err v e in aret (inl (v, false))
    | TickCompleted => let! _ := emit (VOut VmFinished) in aret (inl (v, true))
    end.

Definition vm_run (v : Vm) : vio Vm :=
  let! _ := emit VIsolateHandle in
  let! _ := emit (VLog (log_info (vm_guild v) "guild vm started")) in
  let! v := iter vm_round (v, false) in
  let! reason := await (λ r, match r with VReason x => Some x | _ => None end) in
  let! _ := match reason with Some TThreadTermination => stop_vm v | _ => aret tt end in
  let! _ := emit (VOut (VmShutdown (match reason with Some r => r | None => TUnknown end))) in
  aret v.

Definition create_run (guild : Z) (modules : list (string * string)) (load_scripts : list Script) : vio Vm :=
  let! _ := emit VNewIsolate in
  let v := mkVm guild modules store_new in
  let! _ := emit (VLog (log_info guild "starting fresh guild vm...")) in
  let! _ := emit VIsolateHandle in
  let! v := compile_all load_scripts v in
  let! v := run_all load_scripts v in
  vm_run v.

(** * Facts *)


Lemma wp_log {B} v err (k : unit → vio B) Q :
  (∀ e, wp True (k tt) (λ b tr, Q b ([VLog e] ++ tr))) → wp True (abind (log_guild_err v err) k) Q.
Proof.
  intros Hk. apply wp_bind. unfold log_guild_err. apply wp_bind, wp_lift.
  destruct (source_map_error (vm_store v) err); [|done]. apply wp_emit. exact (Hk _).
Qed.

(** ** The trace *)

Definition evals (tr : list VEv) : list Z := tr ≫= (λ e, match e with VEval id _ => [id] | _ => [] end).
Definition outs (tr : list VEv) : list VmEvent := tr ≫= (λ e, match e with VOut o => [o] | _ => [] end).
Definition acked (tr : list VEv) : list Z := outs tr ≫= (λ o, match o with DispatchedEvent id => [id] | _ => [] end).
(** The calls of the scripts, [None] where the wrapper was not to be found. *)
Definition handled (tr : list VEv) : list (option (string * JsonValue)) :=
  tr ≫= (λ e, match e with VCall n d => [Some (n, d)] | VUndispatched _ => [None] | _ => [] end).
Definition dispatches (tr : list VEv) : list (string * JsonValue * Z) :=
  tr ≫= (λ e, match e with VGot (DispatchEvent n d id) => [(n, d, id)] | _ => [] end).

(** Neither an event for the worker nor a dispatch. *)
Definition internal (e : VEv) : Prop :=
  match e with
  | VOut _ | VGot _ | VCall _ _ | VUndispatched _ => False
  | _ => True
  end.

Notation internal_io := (always internal).

Lemma internal_run_script v id : internal_io (run_script v id).
Proof. unfold run_script, complete_module_eval, log_guild_err. always_tac. Qed.

Lemma internal_compile_script s v : internal_io (compile_script s v).
Proof. unfold compile_script. always_tac. Qed.

Lemma internal_stop_vm v : internal_io (stop_vm v).
Proof. unfold stop_vm, completion_round, log_guild_err. always_tac. Qed.

Lemma internal_compile_all l v : internal_io (compile_all l v).
Proof.
  unfold compile_all. apply always_afold. intros. apply always_bind; [apply internal_compile_script|]. intros []. apply always_ret.
Qed.

Lemma internal_run_all l v : internal_io (run_all l v).
Proof. unfold run_all. apply always_afold. intros. apply internal_run_script. Qed.

Lemma internal_restart l v : internal_io (restart l v).
Proof.
  unfold restart.
  repeat first [apply internal_compile_all | apply internal_run_all | apply internal_stop_vm
    | apply always_ret | apply always_emit; exact I | apply always_bind; [|intros]].
Qed.

Lemma internal_tick c : internal_io (tick c).
Proof. unfold tick. always_tac. Qed.

(** What became of a dispatch: the scripts were called with it, or the wrapper was not there. *)
Definition fate_of (d : string * JsonValue * Z) (f : option (string * JsonValue)) : Prop := f = Some d.1 ∨ f = None.

(** What the worker and the scripts see of a stretch of the vm's life: every dispatch is
    acknowledged and meets its fate, in order. *)
Record serves (tr : list VEv) : Prop := {
  sv_acks : acked tr = (dispatches tr).*2;
  sv_handled : Forall2 fate_of (dispatches tr) (handled tr);
  sv_alive : ∀ r, VmShutdown r ∉ outs tr;
}.

Lemma outs_app tr tr' : outs (tr ++ tr') = outs tr ++ outs tr'.
Proof. apply bind_app. Qed.

Lemma serves_app tr tr' : serves tr → serves tr' → serves (tr ++ tr').
Proof.
  intros [Ha Hc Hd] [Ha' Hc' Hd']. split.
  - unfold acked, dispatches in *. by rewrite outs_app, !bind_app, fmap_app, Ha, Ha'.
  - unfold handled, dispatches in *. rewrite !bind_app. by apply Forall2_app.
  - intros r. rewrite outs_app, elem_of_app. intros [?|?]; [by eapply Hd|by eapply Hd'].
Qed.

Lemma internal_serves tr : Forall internal tr → serves tr.
Proof.
  induction 1 as [|e tr He _ IH]; [split; [done|constructor|intros r; apply not_elem_of_nil]|].
  change (e :: tr) with ([e] ++ tr). apply serves_app; [|done].
  destruct e; try done; (split; [done|constructor|intros r'; apply not_elem_of_nil]).
Qed.

(** Any command but a dispatch is handled within the vm. *)
Lemma internal_handle_vm_cmd cmd v : (∀ n d id, cmd ≠ DispatchEvent n d id) → internal_io (handle_vm_cmd cmd v).
Proof.
  intros Hcmd. destruct cmd as [name data id|s|l|s|l]; simpl; [by destruct (Hcmd name data id)|..].
  - apply always_bind; [apply internal_compile_script|]. intros [[s'|] v']; [apply internal_run_script|apply always_ret].
  - apply internal_restart.
  - destruct (existsb _ _); [apply internal_restart|apply always_ret].
  - apply internal_restart.
Qed.

Lemma got_serves cmd : (∀ n d id, cmd ≠ DispatchEvent n d id) → serves [VGot cmd].
Proof.
  intros Hcmd. destruct cmd; try (split; [done|constructor|intros r; apply not_elem_of_nil]). by destruct (Hcmd name data evt_id).
Qed.

Lemma is_dispatch cmd : (∃ n d id, cmd = DispatchEvent n d id) ∨ ∀ n d id, cmd ≠ DispatchEvent n d id.
Proof. destruct cmd; [left; eauto|by right..]. Qed.

Lemma handle_vm_cmd_serves cmd v : wp True (handle_vm_cmd cmd v) (λ _ tr, serves (VGot cmd :: tr)).
Proof.
  destruct (is_dispatch cmd) as [(n & d & id & ->)|Hcmd].
  - assert (∀ e f, handled [e] = [f] → fate_of (n, d, id) f → dispatches [e] = [] → outs [e] = [] →
      serves ([VGot (DispatchEvent n d id); VOut (DispatchedEvent id)] ++ [e])) as Hs.
    { intros e f Hf Hfate Hd Ho. split.
      - destruct e; simplify_eq/=; done.
      - unfold dispatches, handled in *. rewrite !bind_app, Hd, Hf. simpl. by apply Forall2_cons_2.
      - intros r. rewrite outs_app, Ho. simpl. by intros ?%list_elem_of_singleton. }
    simpl. unfold dispatch_event, get_property. apply wp_bind, wp_bind, wp_emit, wp_bind, wp_await. intros _ [] _.
    1, 2: apply wp_emit, wp_ret; eapply Hs; [done|by right|done|done].
    apply wp_bind, wp_await. intros _ [] _. 1, 2: apply wp_emit, wp_ret; eapply Hs; [done|by right|done|done].
    apply wp_bind, wp_await. intros _ [] _; [|by apply wp_panic]. apply wp_emit, wp_ret. eapply Hs; [done|by left|done|done].
  - eapply wp_mono; [by apply always_wp, internal_handle_vm_cmd|done|]. intros a tr Htr.
    change (VGot cmd :: tr) with ([VGot cmd] ++ tr). apply serves_app; [by apply got_serves|by apply internal_serves].
Qed.

Lemma vm_round_serves st : wp True (vm_round st) (λ _ tr, serves tr).
Proof.
  destruct st as [v completed]. unfold vm_round. apply wp_bind, wp_await. intros _ term _.
  assert (serves []) as Hnil by by apply internal_serves.
  destruct term; [by apply wp_ret|]. apply wp_bind. eapply wp_mono; [apply always_wp, internal_tick|done|]. simpl.
  intros r tr Htr%internal_serves. destruct r as [e| |[cmd|]|].
  - apply wp_log. intros l. apply wp_ret. apply serves_app; [done|]. by apply internal_serves; repeat constructor.
  - apply wp_bind, wp_emit, wp_ret. apply serves_app; [done|]. split; [done|constructor|].
    intros r. simpl. by intros ?%list_elem_of_singleton.
  - apply wp_bind, wp_emit, wp_bind. eapply wp_mono; [apply handle_vm_cmd_serves|done|]. simpl. intros v' tr' Htr'.
    apply wp_ret. rewrite app_nil_r. by apply serves_app.
  - apply wp_ret. by rewrite app_nil_r.
  - apply wp_ret. by rewrite app_nil_r.
Qed.

Lemma vm_loop_serves st : wp True (iter vm_round st) (λ _ tr, serves tr).
Proof.
  apply (wp_iter _ _ (λ _ tr, serves tr)); [by apply internal_serves|].
  intros s tr Htr. eapply wp_mono; [apply vm_round_serves|done|]. intros [s'|a] tr' Htr'; by apply serves_app.
Qed.

Lemma internal_final_stop (reason : option TReason) v :
  internal_io (match reason with Some TThreadTermination => stop_vm v | _ => aret tt end).
Proof. destruct reason as [[]|]; try apply always_ret. apply internal_stop_vm. Qed.

Lemma vm_run_serves v : wp True (vm_run v) (λ _ tr, ∃ tr0 r, tr = tr0 ++ [VOut (VmShutdown r)] ∧ serves tr0).
Proof.
  unfold vm_run. apply wp_bind, wp_emit, wp_bind, wp_emit, wp_bind.
  eapply wp_mono; [apply vm_loop_serves|done|].
  simpl. intros v' tr Htr. apply wp_bind, wp_await. intros _ reason _. apply wp_bind.
  eapply wp_mono; [apply always_wp, internal_final_stop|done|]. simpl. intros _ tr' Htr'. apply wp_bind, wp_emit, wp_ret.
  eexists ([VIsolateHandle; VLog _] ++ tr ++ tr'), _. split.
  - simpl. by rewrite <- !app_assoc.
  - apply serves_app; [by apply internal_serves; repeat constructor|]. apply serves_app; [done|]. by apply internal_serves.
Qed.

(** A dispatch that has been acknowledged and not met its fate yet. *)
Definition opened (tr : list VEv) : Prop := ∃ n d id, tr = [VGot (DispatchEvent n d id); VOut (DispatchedEvent id)].

(** A vm that waits for V8, or whose thread panics, has served what it received, but for one
    dispatch that may be open. *)
Definition served_until (σ : bool) (tr : list VEv) (σ' : bool) : Prop :=
  match σ, σ' with
  | false, false => serves tr
  | false, true => ∃ tr0 tr1, tr = tr0 ++ tr1 ∧ serves tr0 ∧ opened tr1
  | true, true => tr = []
  | true, false => False
  end.

#[local] Instance service : Protocol VEv bool.
Proof.
  refine {| legal := served_until |}; [intros []; [done|by apply internal_serves]|].
  intros [] tr [] tr' []; simpl; try done; try (by intros ->).
  - intros (tr0 & tr1 & -> & Hs0 & Hs1) ->. rewrite app_nil_r. eauto.
  - intros Hs (tr0 & tr1 & -> & Hs0 & Hs1). exists (tr ++ tr0), tr1. rewrite <- app_assoc. eauto using serves_app.
  - eauto using serves_app.
Defined.

Lemma safe_serves {A B} (m : vio A) (k : A → vio B) :
  safe false m → wp True m (λ _ tr, serves tr) → (∀ a, safe false (k a)) → safe false (abind m k).
Proof.
  intros Hm Hw Hk. apply safe_bind; [done|]. eapply wp_mono; [exact Hw|done|]. intros a tr Htr. by exists false.
Qed.

Lemma safe_internal {A} (m : vio A) : internal_io m → safe false m.
Proof. apply safe_always, internal_serves. Qed.

Lemma safe_internal_bind {A B} (m : vio A) (k : A → vio B) :
  internal_io m → (∀ a, safe false (k a)) → safe false (abind m k).
Proof.
  intros Hm Hk. apply safe_serves; [by apply safe_internal| |done].
  eapply wp_mono; [by apply always_wp|done|]. intros a tr. apply internal_serves.
Qed.

(** Where a dispatch may stop. *)
Lemma dispatch_event_stops n d id :
  safe false (let! _ := emit (VGot (DispatchEvent n d id)) in dispatch_event n d id).
Proof.
  assert (served_until false [VGot (DispatchEvent n d id); VOut (DispatchedEvent id)] true) as Hopen.
  { exists [], [VGot (DispatchEvent n d id); VOut (DispatchedEvent id)].
    split_and!; [done|by apply internal_serves|by eexists _, _, _]. }
  intros tape. destruct tape as [|[] tape]; try (by exists true). destruct l; try done.
  destruct tape as [|[] tape]; try (by exists true). destruct l; try done.
  destruct tape as [|[] tape]; try (by exists true). destruct ok; [done|by exists true].
Qed.

Lemma handle_vm_cmd_safe cmd v : safe false (let! _ := emit (VGot cmd) in handle_vm_cmd cmd v).
Proof.
  destruct (is_dispatch cmd) as [(n & d & id & ->)|Hcmd].
  - intros tape. simpl. rewrite <- abind_assoc. by apply safe_map, dispatch_event_stops.
  - apply safe_serves; [apply safe_emit|by apply wp_emit, got_serves|]. intros _. by apply safe_internal, internal_handle_vm_cmd.
Qed.

Lemma vm_round_safe st : safe false (vm_round st).
Proof.
  destruct st as [v completed]. unfold vm_round. apply safe_internal_bind; [apply always_await|].
  intros []; [apply safe_ret|]. apply safe_internal_bind; [apply internal_tick|].
  intros [e| |[cmd|]|]; [|apply safe_map, safe_emit| |apply safe_ret|apply safe_ret].
  { apply safe_map, safe_internal. unfold log_guild_err. always_tac. }
  intros tape. rewrite <- abind_assoc. by apply safe_map, handle_vm_cmd_safe.
Qed.

Lemma vm_run_safe v : safe false (vm_run v).
Proof.
  unfold vm_run. do 2 (apply safe_internal_bind; [by apply always_emit|intros _]).
  apply safe_serves; [|apply vm_loop_serves|].
  - apply (safe_iter (λ _ σ, σ = false)); [done|by intros ? ? ->; apply vm_round_safe|]. intros st ? ->.
    eapply wp_mono; [apply vm_round_serves|done|]. intros [s|] tr Htr; [by exists false|done].
  - intros v'. apply safe_internal_bind; [apply always_await|]. intros reason.
    apply safe_internal_bind; [apply internal_final_stop|]. intros _. apply safe_map, safe_emit.
Qed.

(** ** Which scripts are evaluated *)

Lemma load_imports_progresses v imports : progresses (vm_store v) (vm_store (load_imports v imports)).
Proof.
  unfold load_imports. simpl. generalize (vm_store v). induction imports as [|i imports IH]; intros st; simpl.
  - apply progresses_refl.
  - eapply progresses_trans; [apply module_load_progresses|apply IH].
Qed.

Lemma evals_app tr tr' : evals (tr ++ tr') = evals tr ++ evals tr'.
Proof. apply bind_app. Qed.

(** Logging evaluates nothing. *)
Lemma complete_module_eval_evals v : wp True (complete_module_eval v) (λ _ tr, evals tr = []).
Proof.
  unfold complete_module_eval. apply (wp_iter _ _ (λ _ tr, evals tr = [])); [done|].
  intros [] tr Htr. apply wp_bind, wp_await. intros _ [err|] _.
  - apply wp_log. intros l. apply wp_ret. by rewrite evals_app, Htr.
  - apply wp_ret. by rewrite app_nil_r.
Qed.

(** A script that is there is evaluated exactly if it was neither loaded nor failed before. *)
Lemma run_script_spec v id :
  wp True (run_script v id) (λ v' tr,
    progresses (vm_store v) (vm_store v') ∧ (is_Some (get_script id (vm_store v)) → is_done (vm_store v') id) ∧
    (evals tr = [] ∨ evals tr = [id] ∧ ¬ is_done (vm_store v) id ∧ is_Some (get_script id (vm_store v)))).
Proof.
  unfold run_script. destruct (get_script id (vm_store v)) as [s|] eqn:Hs.
  2:{ unfold is_failed_or_loaded. rewrite Hs. simpl. apply wp_ret.
      split_and!; [apply progresses_refl|by intros []|by left]. }
  destruct (is_failed_or_loaded id (vm_store v)) as [[]|] eqn:Hd; [| |by unfold is_failed_or_loaded in Hd; rewrite Hs in Hd].
  { apply wp_ret. split_and!; [apply progresses_refl|done|by left]. }
  set (v1 := set_store v (set_state id Loaded (vm_store v))).
  assert (progresses (vm_store v) (vm_store v1)) as Hp1 by by apply update_progresses.
  assert (is_done (vm_store v1) id) as Hd1 by (apply set_state_done; [done|rewrite Hs; eauto]).
  apply wp_bind, wp_emit, wp_bind, wp_await. intros _ [imports err] _.
  set (v2 := load_imports v1 imports). pose proof (load_imports_progresses v1 imports) as Hp2. fold v2 in Hp2.
  assert (¬ is_done (vm_store v) id) as Hnd by (unfold is_done; congruence).
  destruct err as [e|].
  - apply wp_log. intros l. apply wp_ret. split_and!.
    + eapply progresses_trans; [exact Hp1|]. eapply progresses_trans; [exact Hp2|]. by apply update_progresses.
    + intros _. simpl. apply set_state_done; [done|]. eapply progresses_get; [eapply progresses_trans; [exact Hp1|exact Hp2]|]. eauto.
    + right. simpl. eauto.
  - apply wp_bind. eapply wp_mono; [apply complete_module_eval_evals|done|]. simpl. intros _ tr Htr. apply wp_ret. split_and!.
    + by eapply progresses_trans.
    + intros _. by eapply progresses_done.
    + right. split_and!; [|done|eauto]. simpl. f_equal. by rewrite app_nil_r.
Qed.

Lemma run_all_spec l v :
  wp True (run_all l v) (λ v' tr,
    progresses (vm_store v) (vm_store v') ∧ NoDup (evals tr) ∧
    (∀ id, id ∈ evals tr → is_Some (get_script id (vm_store v)) ∧ ∃ s, s ∈ l ∧ script_id s = id) ∧
    (∀ s, s ∈ l → is_Some (get_script (script_id s) (vm_store v)) → is_done (vm_store v') (script_id s))).
Proof.
  unfold run_all.
  apply (wp_afold _ _ (λ rest v' tr, ∃ seen, l = seen ++ rest ∧
    progresses (vm_store v) (vm_store v') ∧ NoDup (evals tr) ∧
    (∀ id, id ∈ evals tr → is_done (vm_store v') id ∧ is_Some (get_script id (vm_store v)) ∧ ∃ s, s ∈ seen ∧ script_id s = id) ∧
    (∀ s, s ∈ seen → is_Some (get_script (script_id s) (vm_store v)) → is_done (vm_store v') (script_id s)))).
  - exists []. split_and!; [done|apply progresses_refl|constructor| |].
    + by intros id ?%not_elem_of_nil.
    + by intros s ?%not_elem_of_nil.
  - intros s rest v1 tr (seen & -> & Hp & Hnd & Hev & Hdone).
    eapply wp_mono; [apply run_script_spec|done|]. simpl. intros v2 tr2 (Hp2 & Hd2 & He2).
    exists (seen ++ [s]). split_and!; [by rewrite <- app_assoc|by eapply progresses_trans| | |].
    + rewrite evals_app. destruct He2 as [-> | (-> & Hn & _)]; [by rewrite app_nil_r|].
      apply NoDup_app. split_and!; [done| |apply NoDup_singleton]. intros id Hid ->%list_elem_of_singleton.
      by apply Hn, Hev.
    + intros id. rewrite evals_app, elem_of_app. intros [Hid|Hid].
      * destruct (Hev id Hid) as (Hd & Hg & s' & Hs' & Heq). split_and!; [by eapply progresses_done|done|].
        exists s'. split; [|done]. apply elem_of_app. by left.
      * destruct He2 as [He2 | (He2 & _ & Hg)]; rewrite He2 in Hid; [by apply not_elem_of_nil in Hid|].
        apply list_elem_of_singleton in Hid as ->.
        assert (is_Some (get_script (script_id s) (vm_store v))) as Hg0.
        { destruct Hg as [x Hx]. unfold get_script in *. clear -Hp Hx. revert Hx.
          induction Hp as [|a a' l l' [Ha _] _ IH]; simpl; [done|]. unfold with_id in *. rewrite Ha. destruct (_ =? _); eauto. }
        split_and!; [by apply Hd2|done|]. exists s. split; [|done]. apply elem_of_app. right. by left.
    + intros s' [Hs'|Hs']%elem_of_app Hg; [eapply progresses_done; [exact Hp2|]; by apply Hdone|].
      apply list_elem_of_singleton in Hs' as ->. apply Hd2. by eapply progresses_get.
  - intros v' tr (seen & -> & Hp & Hnd & Hev & Hdone). rewrite app_nil_r in *. split_and!; [done|done| |done].
    intros id Hid. by destruct (Hev id Hid) as (_ & ? & ?).
Qed.

Lemma compile_all_spec l v :
  wp True (compile_all l v) (λ v' tr, vm_store v' = vm_store v ++ omap compiled_of l ∧ evals tr = []).
Proof.
  unfold compile_all.
  apply (wp_afold _ _ (λ rest v' tr, vm_store v' ++ omap compiled_of rest = vm_store v ++ omap compiled_of l ∧ evals tr = [])); [done| |].
  - intros s rest v1 tr [Hst Hev]. apply wp_bind. unfold compile_script, compile_add_script.
    simpl in Hst. unfold compiled_of at 1 in Hst.
    destruct (compile_typescript (original_source s)) as [[[out sm] raw]|e].
    + apply wp_ret, wp_ret. rewrite evals_app, Hev. split; [|done]. rewrite <- Hst. simpl. by rewrite <- app_assoc.
    + apply wp_bind, wp_emit, wp_ret, wp_ret. rewrite evals_app, Hev. split; [|done]. by rewrite <- Hst.
  - intros v' tr. simpl. by rewrite app_nil_r.
Qed.

Lemma stop_vm_evals v : wp True (stop_vm v) (λ _ tr, evals tr = []).
Proof.
  unfold stop_vm. apply (wp_iter _ _ (λ _ tr, evals tr = [])); [done|].
  intros [] tr Htr. apply wp_bind, wp_await. intros _ [[err|]|] _.
  - apply wp_log. intros l. apply wp_ret. by rewrite evals_app, Htr.
  - apply wp_ret. by rewrite app_nil_r.
  - apply wp_bind, wp_emit, wp_ret. by rewrite evals_app, Htr.
Qed.

(** Unless it is cut short, stopping the vm is running it to completion. *)
Lemma stop_vm_completes v errs tape :
  stop_vm v ((VLoopDone ∘ Some <$> errs) ++ VLoopDone None :: tape) =
  run_until_completion v ((VLoopDone ∘ Some <$> errs) ++ VLoopDone None :: tape).
Proof.
  unfold stop_vm, run_until_completion, iter. generalize (S (length ((VLoopDone ∘ Some <$> errs) ++ VLoopDone None :: tape))) as n.
  intros n. revert errs. induction n as [|n IH]; intros errs; [done|]. destruct errs as [|e errs]; [done|].
  assert (∀ rest, completion_round v (Some e) rest = Panicked [] ∨ ∃ l, completion_round v (Some e) rest = Done (inl tt) rest [VLog l]) as Hround.
  { intros rest. unfold completion_round, log_guild_err, abind. destruct (source_map_error (vm_store v) e); [right; by eexists|by left]. }
  cbn [iter_fuel]. rewrite !abind_assoc, fmap_cons, <- app_comm_cons.
  change ((VLoopDone ∘ Some) e) with (VLoopDone (Some e)).
  erewrite !abind_await by reflexivity. unfold abind. specialize (Hround ((VLoopDone ∘ Some <$> errs) ++ VLoopDone None :: tape)).
  destruct Hround as [-> | [l ->]]; [done|]. by rewrite IH.
Qed.

(** Running the scripts of a store that was just compiled leaves none unloaded. *)
Lemma run_all_done l v v' :
  NoDup (script_id <$> l) → vm_store v = omap compiled_of l → progresses (vm_store v) (vm_store v') →
  (∀ s, s ∈ l → is_Some (get_script (script_id s) (vm_store v)) → is_done (vm_store v') (script_id s)) →
  Forall (λ s, failed_or_loaded (ss_state s) = true) (vm_store v').
Proof.
  intros Hnd Hst Hp Hdone. apply Forall_lookup. intros i x Hx.
  destruct (Forall2_lookup_r _ _ _ _ _ Hp Hx) as (y & Hy & Hyx & _). rewrite Hst in Hy.
  pose proof (list_elem_of_lookup_2 _ _ _ Hy) as Hin.
  pose proof Hin as (s & Hs & Hsy)%list_elem_of_omap. pose proof (compiled_of_script s y Hsy) as Hys.
  pose proof (get_script_own _ _ (compiled_NoDup l Hnd) Hin) as Hget. rewrite Hys in Hget.
  assert (is_done (vm_store v') (script_id s)) as Hd by (apply Hdone; [done|rewrite Hst; eauto]).
  assert (get_script (script_id s) (vm_store v') = Some x) as Hget'.
  { rewrite <- Hys, <- Hyx. apply get_script_own; [|by eapply list_elem_of_lookup_2].
    eapply progresses_NoDup; [exact Hp|]. rewrite Hst. by apply compiled_NoDup. }
  unfold is_done, is_failed_or_loaded in Hd. rewrite Hget' in Hd. by injection Hd.
Qed.

(** ** Restarts complete

    V8 answers for one compiled script, which imports nothing: it does not load, or it loads
    and is evaluated. *)
Definition script_answers (fails : Z → option string) (s : ScriptState) : list VResp :=
  match fails (script_id (ss_script s)) with
  | Some e => [VModule [] (Some (EOther e))]
  | None => [VModule [] None; VEvalDone None]
  end.

Definition run_state (fails : Z → option string) (s : ScriptState) : ScriptState :=
  put_state (if fails (script_id (ss_script s)) then Failed else Loaded) s.

Lemma run_script_answers fails v pre x post tape :
  vm_store v = pre ++ x :: post → ss_state x = Unloaded →
  Forall (λ y, with_id (script_id (ss_script x)) y = false) pre →
  ∃ tr, run_script v (script_id (ss_script x)) (script_answers fails x ++ tape) =
      Done (set_store v (pre ++ run_state fails x :: post)) tape tr ∧ evals tr = [script_id (ss_script x)].
Proof.
  intros Hst Hun Hpre. pose proof (Z.eqb_refl (script_id (ss_script x))) as Hid.
  assert (∀ y, ss_script y = ss_script x → ∀ new,
    set_state (script_id (ss_script x)) new (pre ++ y :: post) = pre ++ put_state new y :: post) as Hset.
  { intros y Hy new. apply update_first_after; [done|]. unfold with_id. by rewrite Hy. }
  unfold run_script, is_failed_or_loaded, get_script. rewrite Hst, find_first_after by done. simpl. rewrite Hun. simpl.
  unfold script_answers, run_state. destruct (fails _); simpl; eexists;
    (split; [unfold abind; simpl; unfold load_imports; simpl; rewrite ?Hset by done; reflexivity|reflexivity]).
Qed.

Lemma run_all_answers fails l v pre tape :
  NoDup (script_id <$> l) → vm_store v = pre ++ omap compiled_of l →
  (∀ y s, y ∈ pre → s ∈ l → script_id (ss_script y) ≠ script_id s) →
  ∃ tr, run_all l v ((omap compiled_of l ≫= script_answers fails) ++ tape) =
      Done (set_store v (pre ++ (run_state fails <$> omap compiled_of l))) tape tr ∧
    evals tr = (λ x, script_id (ss_script x)) <$> omap compiled_of l.
Proof.
  revert v pre. induction l as [|s l IH]; intros v pre Hnd Hst Hpre.
  { exists []. destruct v. simpl in *. by rewrite Hst. }
  rewrite fmap_cons in Hnd. apply NoDup_cons in Hnd as [Hs Hnd]. unfold run_all. simpl.
  destruct (compiled_of s) as [x|] eqn:Hx; simpl in Hst; rewrite Hx in Hst.
  - pose proof (compiled_of_script s x Hx) as <-.
    assert (ss_state x = Unloaded) as Hun.
    { unfold compiled_of in Hx. destruct (compile_typescript _) as [[[]]|]; [|done]. by injection Hx as <-. }
    destruct (run_script_answers fails v pre x (omap compiled_of l)
      ((omap compiled_of l ≫= script_answers fails) ++ tape)) as (tr1 & Hrun & Hev1); [done|done|..].
    { apply Forall_forall. intros y Hy. apply Z.eqb_neq. apply Hpre; [done|by left]. }
    set (v1 := set_store v (pre ++ run_state fails x :: omap compiled_of l)) in *.
    destruct (IH v1 (pre ++ [run_state fails x])) as (tr2 & Hrun2 & Hev2).
    + done.
    + simpl. by rewrite <- app_assoc.
    + intros y s' [Hy|Hy]%elem_of_app Hs'; [apply Hpre; [done|by right]|].
      apply list_elem_of_singleton in Hy as ->. simpl. intros Heq. apply Hs. rewrite Heq. by apply list_elem_of_fmap_2.
    + exists (tr1 ++ tr2). unfold run_all in Hrun2. split.
      * change (list_omap _ _ compiled_of l) with (omap compiled_of l). rewrite bind_cons, <- app_assoc.
        unfold abind. rewrite Hrun. simpl. rewrite Hrun2. simpl.
        by rewrite <- app_assoc.
      * by rewrite evals_app, Hev1, Hev2.
  - destruct (IH v pre) as (tr2 & Hrun2 & Hev2); [done|done|intros; apply Hpre; [done|by right]|].
    exists tr2. split; [|done]. unfold run_all in Hrun2. unfold abind.
    assert (get_script (script_id s) (vm_store v) = None) as Hnone.
    { apply get_script_fresh. rewrite Hst. intros y [Hy|(s' & Hs' & Hy)%list_elem_of_omap]%elem_of_app; [apply Hpre; [done|by left]|].
      rewrite (compiled_of_script s' y Hy). intros Heq. apply Hs. rewrite <- Heq. by apply list_elem_of_fmap_2. }
    assert (∀ tape, run_script v (script_id s) tape = Done v tape []) as Hskip.
    { intros tape'. unfold run_script, is_failed_or_loaded. by rewrite Hnone. }
    change (list_omap _ _ compiled_of l) with (omap compiled_of l). by rewrite Hskip, Hrun2.
Qed.

Lemma compile_all_runs l v tape :
  ∃ tr, compile_all l v tape = Done (set_store v (vm_store v ++ omap compiled_of l)) tape tr ∧ evals tr = [].
Proof.
  unfold compile_all. revert v. induction l as [|s l IH]; intros v.
  { exists []. destruct v. simpl. by rewrite app_nil_r. }
  assert (∃ c tr, compile_script s v tape = Done (c, set_store v (vm_store v ++ option_list (compiled_of s))) tape tr ∧ evals tr = [])
    as (c & tr1 & Hc & Hev1).
  { unfold compile_script, compile_add_script, compiled_of.
    destruct (compile_typescript (original_source s)) as [[[out sm] raw]|e]; simpl; rewrite ?app_nil_r; by eexists _, _. }
  destruct (IH (set_store v (vm_store v ++ option_list (compiled_of s)))) as (tr2 & Hrun & Hev2).
  exists (tr1 ++ tr2). split; [|by rewrite evals_app, Hev1, Hev2].
  cbn [afold]. unfold abind at 1 2. rewrite Hc. cbn [prepend aret]. rewrite Hrun. simpl.
  rewrite app_nil_r, <- app_assoc. by destruct (compiled_of s).
Qed.

Lemma create_run_serves guild modules scripts :
  wp True (create_run guild modules scripts) (λ _ tr, ∃ tr0 r, tr = tr0 ++ [VOut (VmShutdown r)] ∧ serves tr0).
Proof.
  unfold create_run. do 3 apply wp_bind, wp_emit.
  apply wp_bind. eapply wp_mono; [apply always_wp, internal_compile_all|done|]. simpl. intros v1 tr1 Htr1.
  apply wp_bind. eapply wp_mono; [apply always_wp, internal_run_all|done|]. simpl. intros v2 tr2 Htr2.
  eapply wp_mono; [apply vm_run_serves|done|]. simpl. intros v3 tr3 (tr0 & r & -> & Hs).
  eexists ([VNewIsolate; VLog _; VIsolateHandle] ++ tr1 ++ tr2 ++ tr0), r.
  split; [simpl; by rewrite <- !app_assoc|].
  apply serves_app; [by apply internal_serves; repeat constructor|]. apply serves_app; [by apply internal_serves|].
  apply serves_app; [by apply internal_serves|done].
Qed.

Lemma restart_spec new_scripts v :
  NoDup (script_id <$> new_scripts) →
  wp True (restart new_scripts v) (λ v' tr,
    ss_script <$> vm_store v' = ss_script <$> omap compiled_of new_scripts ∧
    Forall (λ s, failed_or_loaded (ss_state s) = true) (vm_store v') ∧
    NoDup (evals tr) ∧ ∀ id, id ∈ evals tr → ∃ s, s ∈ new_scripts ∧ script_id s = id ∧ is_Some (compiled_of s)).
Proof.
  intros Hnd. unfold restart. apply wp_bind, wp_emit, wp_bind.
  eapply wp_mono; [apply stop_vm_evals|done|]. simpl. intros _ tr0 Htr0. apply wp_bind.
  eapply wp_mono; [apply compile_all_spec|done|]. simpl. intros v1 tr1 [Hst Htr1].
  apply wp_bind, wp_emit, wp_bind, wp_emit, wp_bind.
  eapply wp_mono; [apply run_all_spec|done|]. simpl. intros v2 tr2 (Hp & Hnd2 & Hev & Hdone).
  apply wp_bind, wp_emit, wp_ret. simpl in Hst. rewrite Hst in *.
  assert (evals (VLog (log_info (vm_guild v) "restarting guild vm...") :: tr0 ++ tr1 ++ VNewIsolate :: VIsolateHandle :: tr2 ++
    [VLog (log_info (vm_guild v2) "vm restarted")]) = evals tr2) as Hevals.
  { change (VLog ?x :: ?l) with ([VLog x] ++ l). rewrite !evals_app, Htr0, Htr1.
    change (VNewIsolate :: VIsolateHandle :: ?l) with ([VNewIsolate; VIsolateHandle] ++ l). rewrite !evals_app. simpl.
    by rewrite app_nil_r. }
  split_and!.
  - by apply progresses_scripts.
  - eapply (run_all_done new_scripts v1); [done..|by rewrite Hst|by rewrite Hst].
  - rewrite <- Hevals in Hnd2. exact Hnd2.
  - intros id Hin. assert (id ∈ evals tr2) as Hid by (rewrite <- Hevals; exact Hin). destruct (Hev id Hid) as ([x Hx] & _).
    apply find_first_Some in Hx as [(s & Hs & Hsx)%list_elem_of_omap Heq%Z.eqb_eq].
    exists s. split_and!; [done| |eauto]. by rewrite <- (compiled_of_script s x Hsx).
Qed.

Lemma restart_answers new_scripts v fails :
  NoDup (script_id <$> new_scripts) →
  ∃ tr, restart new_scripts v (VStopTimeout :: (omap compiled_of new_scripts ≫= script_answers fails)) =
      Done (set_store v (run_state fails <$> omap compiled_of new_scripts)) [] tr ∧
    evals tr = (λ x, script_id (ss_script x)) <$> omap compiled_of new_scripts.
Proof.
  intros Hnd. set (tape := _ ≫= _).
  destruct (compile_all_runs new_scripts (set_store v []) tape) as (tr1 & Hc & Hev1).
  destruct (run_all_answers fails new_scripts (set_store v (omap compiled_of new_scripts)) [] []) as (tr2 & Hr & Hev2);
    [done|done|by intros ? ? ?%not_elem_of_nil|]. rewrite app_nil_r in Hr. fold tape in Hr.
  change (set_store (set_store v []) (vm_store (set_store v []) ++ ?x)) with (set_store v x) in Hc.
  change (set_store (set_store v _) ([] ++ ?x)) with (set_store v x) in Hr.
  eexists ([_; _] ++ tr1 ++ [VNewIsolate; VIsolateHandle] ++ tr2 ++ [_]). split.
  - unfold restart. unfold abind at 1 2 3. cbn [emit prepend]. change (stop_vm v (VStopTimeout :: tape)) with
      (@Done VResp VEv unit tt tape [VLog (log_error (vm_guild v)
          "shutting down your vm timed out after 15 sec, cancelling all pending promises and force-shutting down now instead...")]).
    cbn [prepend app]. rewrite Hc. unfold abind. cbn [emit prepend app]. rewrite Hr. reflexivity.
  - rewrite !evals_app, Hev1, Hev2. simpl. by rewrite app_nil_r.
Qed.

(** * Properties *)

(** C15: Every dispatched event is acknowledged exactly once and in the order received, through
    any restarts, and then meets its fate in that order: the scripts are called with it, or, when
    [BotloaderCore.dispatchWrapper] is not there as a function, an error is logged. This holds
    whenever the vm waits for something, has ended or its thread has panicked; at most the last
    dispatch is then without its fate, and none when the vm has ended. If V8 finds the wrapper and
    converts the event, the scripts are called. A vm that ends reports its shutdown, last and once. *)
Theorem vm_acknowledges_in_order guild modules scripts tape :
  let tr := trace_of (create_run guild modules scripts tape) in
  acked tr = (dispatches tr).*2 ∧
  (∃ met rest, dispatches tr = met ++ rest ∧ Forall2 fate_of met (handled tr) ∧ (length rest ≤ 1)%nat ∧
     match create_run guild modules scripts tape with Done _ _ _ => rest = [] | _ => True end) ∧
  match create_run guild modules scripts tape with
  | Done _ _ _ => ∃ tr0 r, tr = tr0 ++ [VOut (VmShutdown r)] ∧ ∀ r', VmShutdown r' ∉ outs tr0
  | _ => ∀ r', VmShutdown r' ∉ outs tr
  end ∧
  ∀ name data id, dispatch_event name data id (VProperty LkFound :: VProperty LkFound :: VToV8 true :: tape) =
    Done tt tape [VOut (DispatchedEvent id); VCall name data].
Proof.
  assert (safe false (create_run guild modules scripts)) as Hsafe.
  { unfold create_run. do 3 (apply safe_internal_bind; [by (apply always_emit || apply always_ret)|intros _]).
    apply safe_internal_bind; [apply internal_compile_all|]. intros v1.
    apply safe_internal_bind; [apply internal_run_all|]. intros v2. apply vm_run_safe. }
  assert (∀ σ tr, served_until false tr σ → acked tr = (dispatches tr).*2 ∧
    (∃ met rest, dispatches tr = met ++ rest ∧ Forall2 fate_of met (handled tr) ∧ (length rest ≤ 1)%nat ∧ True) ∧
    (∀ r', VmShutdown r' ∉ outs tr)) as Hstop.
  { intros [] tr; simpl.
    - intros (tr0 & ? & -> & [Ha Hh Hd] & n & d & id & ->). unfold acked, dispatches, handled in *. rewrite outs_app, !bind_app. split_and!.
      + rewrite fmap_app, Ha. done.
      + exists (dispatches tr0), [(n, d, id)]. split_and!; [done| |done|done]. simpl. by rewrite app_nil_r.
      + intros r'. rewrite elem_of_app. intros [?|Hin]; [by eapply Hd|]. by apply list_elem_of_singleton in Hin.
    - intros [Ha Hh Hd]. split_and!; [done| |done]. exists (dispatches tr), []. rewrite app_nil_r. simpl. split_and!; [done|done|lia|done]. }
  pose proof (create_run_serves guild modules scripts tape) as Hw. specialize (Hsafe tape).
  destruct (create_run guild modules scripts tape) as [v rest tr|tr|tr]; simpl.
  - destruct Hw as (tr0 & r & -> & [Ha Hh Hd]). unfold acked, dispatches, handled in *. rewrite outs_app, !bind_app. split_and!; [..|eauto|done].
    + by rewrite fmap_app, Ha.
    + exists (dispatches tr0), []. simpl. rewrite !app_nil_r. split_and!; [done|done|lia|done].
  - destruct Hsafe as [σ Hl]. by destruct (Hstop σ tr Hl) as (? & ? & ?).
  - destruct Hsafe as [σ Hl]. by destruct (Hstop σ tr Hl) as (? & ? & ?).
Qed.

(** C18: A restart runs the new scripts and only those: the store holds exactly the scripts
    that compile, in order; each is evaluated at most once (a script that another one already
    imported is not evaluated again), nothing else is, and in the end each has been loaded or
    has failed. When V8 answers, a restart completes: with scripts that import nothing, also
    if the old vm has to be cut off, each is evaluated once and in order, and ends up loaded,
    or failed if it is one that does not load. *)
Theorem restart_runs_each_script_once new_scripts v :
  NoDup (script_id <$> new_scripts) →
  wp True (restart new_scripts v) (λ v' tr,
    ss_script <$> vm_store v' = ss_script <$> omap compiled_of new_scripts ∧
    Forall (λ s, failed_or_loaded (ss_state s) = true) (vm_store v') ∧
    NoDup (evals tr) ∧ ∀ id, id ∈ evals tr → ∃ s, s ∈ new_scripts ∧ script_id s = id ∧ is_Some (compiled_of s)) ∧
  ∀ fails, ∃ tr,
    restart new_scripts v (VStopTimeout :: (omap compiled_of new_scripts ≫= script_answers fails)) =
      Done (set_store v (run_state fails <$> omap compiled_of new_scripts)) [] tr ∧
    evals tr = (λ x, script_id (ss_script x)) <$> omap compiled_of new_scripts.
Proof. intros Hnd. split; [by apply restart_spec|]. intros fails. by apply restart_answers. Qed.

End vm.

(** * Shutting a vm down from outside *)

(** [VmShutdownHandle]: [terminated], whether the isolate handle has been set, the reason, the
    wakeups sent, and how often execution was terminated. *)
Record ShutdownHandle := mkShutdownHandle {
  sh_terminated : bool;
  sh_isolate_handle : bool;
  sh_reason : option TReason;
  sh_wakeups : nat;
  sh_interrupts : nat;
}.

Definition shutdown_handle_new : ShutdownHandle := mkShutdownHandle false false None 0 0.

(** [VmShutdownHandle::shutdown_vm] *)
Definition handle_shutdown_vm (reason : TReason) (force : bool) (h : ShutdownHandle) : ShutdownHandle :=
  if sh_isolate_handle h then
    mkShutdownHandle true true (Some reason) (S (sh_wakeups h)) (if force then S (sh_interrupts h) else sh_interrupts h)
  else
    mkShutdownHandle (sh_terminated h) false None (S (sh_wakeups h)) (sh_interrupts h).

(** [emit_isolate_handle] *)
Definition emit_isolate_handle (h : ShutdownHandle) : ShutdownHandle :=
  mkShutdownHandle (sh_terminated h) true (sh_reason h) (sh_wakeups h) (sh_interrupts h).

(** A vm as its thread sees it: the first poll creates the isolate and sets its handle before
    anything is awaited; the future completes at the earliest when [check_terminated] finds
    the flag set, and later if scripts keep it busy. *)
Definition bl_vm : VmInterface :=
  {| BuildDesc := list Script; VmFuture := ShutdownHandle; PollInput := bool;
     create_vm _ := Some shutdown_handle_new;
     shutdown_vm := handle_shutdown_vm;
     vm_poll busy h := (emit_isolate_handle h, sh_terminated h && negb busy) |}.

Section bl_thread.
#[local] Existing Instance bl_vm.
Implicit Types (t : VmThread) (h : ShutdownHandle).

(** The states of a thread: it is polled, and the checker may stop one of its vms. *)
Inductive thread_reachable : VmThread → Prop :=
| tr_new : thread_reachable thread_new
| tr_poll cmds inputs t t' r : thread_reachable t → thread_poll cmds inputs t = Ret (t', r) → thread_reachable t'
| tr_stopped i reason force t : thread_reachable t →
    thread_reachable (mkThread (alter (handle_shutdown_vm reason force) i (vms t)) (shutting_down t) (pongs t)).

Definition is_shutdown (c : VmThreadCommand) : bool := match c with ThreadShutdown => true | _ => false end.
Definition is_start (c : VmThreadCommand) : bool := match c with StartVM _ => true | _ => false end.

Lemma thread_poll_run cmds inputs t t1 :
  (if shutting_down t then Ret t else handle_cmds cmds t) = Ret t1 →
  let rest := (List.filter (λ r, negb r.2) (poll_vms inputs (vms t1))).*1 in
  thread_poll cmds inputs t = Ret (mkThread rest (shutting_down t1) (pongs t1), bool_decide (rest = []) && shutting_down t1).
Proof. intros Hc. unfold thread_poll. rewrite Hc. cbn [outcome_bind]. by rewrite remove_matching. Qed.

(** A vm is left by a poll unless it was told to stop and is not busy. *)
Lemma polled inputs (l : list VmFuture) (h : VmFuture) :
  h ∈ (List.filter (λ r, negb r.2) (poll_vms inputs l)).*1 → ∃ i h0, l !! i = Some h0 ∧ h = emit_isolate_handle h0 ∧
    (sh_terminated h0 = true → inputs i = true).
Proof.
  intros [[h' b] [-> Hin]]%list_elem_of_fmap. apply list_elem_of_In, filter_In in Hin as [Hin Hb].
  apply list_elem_of_In, list_elem_of_lookup in Hin as [i Hi]. unfold poll_vms in Hi. rewrite list_lookup_imap in Hi.
  destruct (l !! i) as [h0|] eqn:Hl; [|done]. simpl in Hi. injection Hi as <- <-. exists i, h0. split_and!; [done|done|].
  intros Ht. rewrite Ht in Hb. by destruct (inputs i).
Qed.

Lemma polled_unterminated inputs (l : list VmFuture) (h : VmFuture) :
  h ∈ l → sh_terminated h = false → emit_isolate_handle h ∈ (List.filter (λ r, negb r.2) (poll_vms inputs l)).*1.
Proof.
  intros [i Hi]%list_elem_of_lookup Ht. apply list_elem_of_fmap. exists (emit_isolate_handle h, false). split; [done|].
  apply list_elem_of_In, filter_In. split; [|done]. apply list_elem_of_In, list_elem_of_lookup. exists i. unfold poll_vms.
  rewrite list_lookup_imap, Hi. simpl. by rewrite Ht.
Qed.

(** Once a thread is shutting down, nothing is started or stopped by commands any more. *)
Lemma unterminated_polls n inputs late t h :
  shutting_down t = true → h ∈ vms t → sh_terminated h = false → ∃ t', thread_polls n inputs late t = Ret (t', false).
Proof.
  revert t h. induction n as [|n IH]; intros t h Hs Hh Ht; [by eexists|]. cbn [thread_polls].
  rewrite (thread_poll_run _ _ t t) by by rewrite Hs. cbn [outcome_bind].
  pose proof (polled_unterminated (inputs (S n)) _ _ Hh Ht) as Hin.
  rewrite bool_decide_false by (intros He; rewrite He in Hin; by apply not_elem_of_nil in Hin).
  by apply (IH _ (emit_isolate_handle h)).
Qed.

Lemma terminated_polls n inputs late t :
  shutting_down t = true → Forall (λ h, sh_terminated h = true) (vms t) →
  ∃ t' d, thread_polls n inputs late t = Ret (t', d) ∧ shutting_down t' = true ∧ Forall (λ h, sh_terminated h = true) (vms t').
Proof.
  revert t. induction n as [|n IH]; intros t Hs Hv; [by eexists _, _|]. cbn [thread_polls].
  rewrite (thread_poll_run _ _ t t) by by rewrite Hs. cbn [outcome_bind].
  set (rest := (List.filter _ _).*1).
  assert (Forall (λ h, sh_terminated h = true) rest) as Hrest.
  { apply Forall_forall. intros h (i & h0 & Hi & -> & _)%polled. simpl. by eapply Forall_lookup in Hv. }
  case_bool_decide; simpl; [rewrite Hs; by eexists _, _|]. by apply IH.
Qed.

(** Commands: those that were there and have an isolate are told to stop by a shutdown among
    them; those started are not, wherever in the order the shutdown is. *)
Lemma handle_cmds_bl cmds t :
  Forall (λ h, sh_isolate_handle h = true) (vms t) →
  ∃ t1 old new, handle_cmds cmds t = Ret t1 ∧ shutting_down t1 = shutting_down t || existsb is_shutdown cmds ∧
    vms t1 = old ++ new ∧ (new = [] ↔ existsb is_start cmds = false) ∧
    Forall (λ h, sh_isolate_handle h = true ∧ (existsb is_shutdown cmds = true → sh_terminated h = true)) old ∧
    Forall (λ h, sh_isolate_handle h = false ∧ sh_terminated h = false) new.
Proof.
  intros Hv. induction cmds as [|c cmds IH] using rev_ind.
  { exists t, (vms t), []. simpl. rewrite orb_false_r, app_nil_r. split_and!; try done. eapply Forall_impl; [exact Hv|]. naive_solver. }
  destruct IH as (t1 & old & new & Hrun & Hs & Hvms & Hnew & Hold & Hn). rewrite handle_cmds_app, Hrun, !existsb_app. cbn [outcome_bind].
  destruct c as [d|resp|]; cbn [handle_cmds thread_handle_cmd is_shutdown is_start existsb]; rewrite ?orb_false_r; cbn.
  - eexists _, old, (new ++ [shutdown_handle_new]). split_and!; [reflexivity|exact Hs|cbn; rewrite Hvms; symmetry; apply app_assoc| |done|].
    + rewrite orb_true_r. split; [by destruct new|done].
    + apply Forall_app. split; [done|]. by apply Forall_singleton.
  - eexists _, old, new. split_and!; [reflexivity|exact Hs|exact Hvms|done|done|done].
  - eexists _, (handle_shutdown_vm TThreadTermination false <$> old), (handle_shutdown_vm TThreadTermination false <$> new).
    rewrite !orb_true_r. split_and!; [reflexivity|done|cbn; rewrite Hvms; apply fmap_app| | |].
    + rewrite <- Hnew. split; [by destruct new|by intros ->].
    + apply Forall_fmap. eapply Forall_impl; [exact Hold|]. intros h [Hi _]. unfold compose, handle_shutdown_vm. by rewrite Hi.
    + apply Forall_fmap. eapply Forall_impl; [exact Hn|]. intros h [Hi Ht]. unfold compose, handle_shutdown_vm. by rewrite Hi.
Qed.

(** Between polls every vm has its isolate. *)
Lemma reachable_isolates t : thread_reachable t → Forall (λ h, sh_isolate_handle h = true) (vms t).
Proof.
  induction 1 as [|cmds inputs t t' r _ IH Hp|i reason force t _ IH]; [constructor| |].
  - assert (∃ t1, (if shutting_down t then Ret t else handle_cmds cmds t) = Ret t1) as [t1 Ht1].
    { destruct (shutting_down t); [by eexists|]. destruct (handle_cmds_bl cmds t IH) as (t1 & _ & _ & -> & _). by eexists. }
    rewrite (thread_poll_run _ _ _ _ Ht1) in Hp. simplify_eq. apply Forall_forall. intros h (j & h0 & _ & -> & _)%polled. done.
  - apply Forall_forall. intros h [j Hj]%list_elem_of_lookup. cbn in Hj. rewrite Forall_lookup in IH.
    destruct (decide (i = j)) as [->|].
    + rewrite list_lookup_alter_eq in Hj. apply fmap_Some in Hj as (h0 & Hh & ->). unfold handle_shutdown_vm. by rewrite (IH j h0 Hh).
    + rewrite list_lookup_alter_ne in Hj by done. by eapply IH.
Qed.
End bl_thread.



(** A compiler that accepts everything but the empty source. *)
#[local] Existing Instance ex_regex.

Lemma restart_runs_each_script_once_witness :
  let scripts := [ex_source 1 "a"; ex_source 2 ""; ex_source 3 "c"] in
  NoDup (script_id <$> scripts) ∧
  wp True (restart (H := ex_compiler) scripts (mkVm (H := ex_compiler) 7 [] []))
    (λ v' _, ss_script (H := ex_compiler) <$> vm_store v' = [ex_source 1 "a"; ex_source 3 "c"]).
Proof.
  assert (NoDup (script_id <$> [ex_source 1 "a"; ex_source 2 ""; ex_source 3 "c"])) as Hnd
    by (apply (bool_decide_unpack _); vm_compute; exact I).
  split; [exact Hnd|].
  eapply wp_mono; [apply (proj1 (restart_runs_each_script_once (H := ex_compiler) _ _ Hnd))|done|].
  intros v' tr (Hst & _). rewrite Hst. reflexivity.
Defined.

(** A vm's whole life: it starts a script, dispatches an event, finishes, and is shut down. *)
Example vm_life :
  ∃ v tr, create_run (H := ex_compiler) 7 [] [ex_source 1 "a"]
      [VModule [] None; VEvalDone None; VTerminated false; VPolled false (Some (Some (DispatchEvent "E" JNull 4))) LPending;
       VProperty LkFound; VProperty LkFound; VToV8 true; VTerminated false; VPolled false None LPending; VPolled false None LOk; VTerminated false; VPolled true None LPending;
       VTerminated true; VReason (Some TThreadTermination); VLoopDone None] = Done v [] tr ∧
    outs tr = [DispatchedEvent 4; VmFinished; VmShutdown TThreadTermination].
Proof. vm_compute. by eexists _, _. Qed.
