(* ===== verification/Isolate.v ===== *)
(** Who is in which isolate ([components/isolatecell/src/lib.rs], and the futures of
    [components/vm/src/vm.rs] that enter one).

    V8 keeps a stack of entered isolates per thread; leaving an isolate that is not on top of
    it, and disposing of one that is still on it, is undefined behaviour, which the [unsafe]
    blocks of the crate must rule out. Here it is a value of its own, [Unsound]. The crate does
    not rule it out for every program: [guards_out_of_order_unsound] and
    [forgotten_guard_unsound] are two that the borrow checker accepts. [isolates_stay_sound]
    shows which programs are sound; the one of this repository, with one cell per thread, is. *)
From stdpp Require Import base gmap list.
From S2P Require Import Prelude Models VmThread ScriptStore Vm.

(** * Entering and leaving *)

Inductive isolate_run (A : Type) := Fine (a : A) | Unwinds (a : A) | Unsound.
Arguments Fine {A} a.
Arguments Unwinds {A} a.
Arguments Unsound {A}.

(** The thread: V8's stack, the isolates that exist, the guards that are held, each with its cell
    and its isolate and the newest first, and the cells. *)
Record IsoThread := mkIso {
  iso_stack : list nat;
  iso_alive : gset nat;
  iso_guards : list (nat * nat);
  iso_cells : gmap nat IsolateCell;
}.

Definition iso_new : IsoThread := mkIso [] ∅ [] ∅.

Definition cell_of (c : nat) (t : IsoThread) : IsolateCell := default cell_new (iso_cells t !! c).

Definition v8_enter (i : nat) (t : IsoThread) : IsoThread :=
  mkIso (i :: iso_stack t) (iso_alive t) (iso_guards t) (iso_cells t).

Definition v8_exit (i : nat) (t : IsoThread) : option IsoThread :=
  match iso_stack t with
  | j :: stack => if bool_decide (i = j) then Some (mkIso stack (iso_alive t) (iso_guards t) (iso_cells t)) else None
  | [] => None
  end.

Definition sound (r : option IsoThread) : isolate_run IsoThread :=
  match r with Some t => Fine t | None => Unsound end.

(** [ManagedIsolate::new_with_oom_handler_and_state] and the other constructors: creating a
    runtime enters its isolate. *)
Definition managed_new (t : IsoThread) : isolate_run IsoThread :=
  let i := fresh (iso_alive t) in
  let t := v8_enter i (mkIso (iso_stack t) ({[i]} ∪ iso_alive t) (iso_guards t) (iso_cells t)) in
  sound (v8_exit i t).

(** [enter_isolate] of the cell [c]; when the assertion fails nothing has changed yet. *)
Definition enter_isolate (c i : nat) (now : Z) (t : IsoThread) : isolate_run IsoThread :=
  match cell_enter now (cell_of c t) with
  | Panic => Unwinds t
  | Ret cell => Fine (v8_enter i (mkIso (iso_stack t) (iso_alive t) ((c, i) :: iso_guards t) (<[c := cell]> (iso_cells t))))
  end.

(** [Drop for IsolateGuard], of the [k]-th guard. *)
Definition guard_drop (k : nat) (now : Z) (t : IsoThread) : isolate_run IsoThread :=
  match iso_guards t !! k with
  | None => Fine t
  | Some (c, i) =>
      match v8_exit i t with
      | None => Unsound
      | Some t =>
          let t := mkIso (iso_stack t) (iso_alive t) (delete k (iso_guards t)) (iso_cells t) in
          match cell_exit now (cell_of c t) with
          | Panic => Unwinds t
          | Ret cell => Fine (mkIso (iso_stack t) (iso_alive t) (iso_guards t) (<[c := cell]> (iso_cells t)))
          end
      end
  end.

(** [Drop for ManagedIsolate]: the isolate is entered, for the runtime leaves it as it goes, and
    V8 disposes of it. *)
Definition managed_drop (i : nat) (t : IsoThread) : isolate_run IsoThread :=
  match v8_exit i (v8_enter i t) with
  | None => Unsound
  | Some t =>
      if bool_decide (i ∈ iso_stack t) then Unsound
      else Fine (mkIso (iso_stack t) (iso_alive t ∖ {[i]}) (iso_guards t) (iso_cells t))
  end.

(** [mem::forget] of a guard: its borrows end, and its [Drop] is never run. *)
Definition guard_forget (k : nat) (t : IsoThread) : isolate_run IsoThread :=
  Fine (mkIso (iso_stack t) (iso_alive t) (delete k (iso_guards t)) (iso_cells t)).

Inductive IsoOp := INew | IEnter (c i : nat) (now : Z) | ILeave (k : nat) (now : Z) | IDrop (i : nat) | IForget (k : nat).

Definition iso_step (o : IsoOp) (t : IsoThread) : isolate_run IsoThread :=
  match o with
  | INew => managed_new t
  | IEnter c i now => enter_isolate c i now t
  | ILeave k now => guard_drop k now t
  | IDrop i => managed_drop i t
  | IForget k => guard_forget k t
  end.

(** What the types allow: a guard borrows its isolate mutably, so for as long as it is held
    the isolate can be neither entered again nor dropped; it borrows its cell only to read. *)
Definition borrow_ok (o : IsoOp) (t : IsoThread) : bool :=
  match o with
  | INew => true
  | ILeave k _ | IForget k => bool_decide (k < length (iso_guards t))%nat
  | IEnter _ i _ | IDrop i => bool_decide (i ∈ iso_alive t) && bool_decide (i ∉ snd <$> iso_guards t)
  end.

(** A panic unwinds, which drops the guards, the newest first. *)
Fixpoint unwind (n : nat) (t : IsoThread) : isolate_run IsoThread :=
  match n with
  | O => Unwinds t
  | S n => match guard_drop 0 0 t with Fine t | Unwinds t => unwind n t | Unsound => Unsound end
  end.

(** A run. *)
Fixpoint iso_run (os : list IsoOp) (t : IsoThread) : isolate_run IsoThread :=
  match os with
  | [] => Fine t
  | o :: os =>
      match iso_step o t with
      | Fine t => iso_run os t
      | Unwinds t => unwind (length (iso_guards t)) t
      | Unsound => Unsound
      end
  end.

Fixpoint borrows_ok (os : list IsoOp) (t : IsoThread) : bool :=
  match os with
  | [] => true
  | o :: os => borrow_ok o t && match iso_step o t with Fine t => borrows_ok os t | _ => true end
  end.

(** Programs that use one cell, programs that drop the newest guard first, and ones that forget
    none. *)
Definition uses_cell (c : nat) (o : IsoOp) : bool := match o with IEnter c' _ _ => bool_decide (c' = c) | _ => true end.
Definition newest_first (o : IsoOp) : bool := match o with ILeave k _ => bool_decide (k = 0)%nat | _ => true end.
Definition forgets_none (o : IsoOp) : bool := match o with IForget _ => false | _ => true end.

(** * The futures that drive a vm *)

(** [TickFuture::poll]: the isolate is entered, from [t.1] to [t.2], only when there is neither
    a wakeup nor a command. *)
Definition tick_future_poll (t : Z * Z) (wakeup : bool) (cmd : option (option VmCommand)) (loop : LoopPoll)
    (completed : bool) (c : IsolateCell) : outcome (IsolateCell * option TickResult) :=
  if wakeup then Ret (c, Some TickContinue)
  else match cmd with
       | Some opt => Ret (c, Some (TickCommand opt))
       | None =>
           do! c := with_guard t c in
           Ret (c, match loop with
                   | LPending => None
                   | LOk => if completed then None else Some TickCompleted
                   | LErr e => Some (TickVmError e)
                   end)
       end.

(** [RunUntilCompletion::poll]; the result is [None] while it is pending. *)
Definition run_until_completion_poll (t : Z * Z) (loop : LoopPoll) (c : IsolateCell)
    : outcome (IsolateCell * option (option AnyError)) :=
  do! c := with_guard t c in
  Ret (c, match loop with LPending => None | LOk => Some None | LErr e => Some (Some e) end).

(** What a oneshot receiver has: nothing yet, that its sender is gone, or a value. *)
Inductive Oneshot (A : Type) := OsPending | OsCanceled | OsValue (a : A).
Arguments OsPending {A}.
Arguments OsCanceled {A}.
Arguments OsValue {A} a.

(** [Poll::Ready(if let Ok(inner) = res { inner } else { Ok(()) })] *)
Definition eval_result (r : Oneshot (option AnyError)) : option (option AnyError) :=
  match r with OsPending => None | OsCanceled => Some None | OsValue inner => Some inner end.

(** [CompleteModuleEval::poll]: [before] and [after] are what the receiver has before and after
    the event loop was polled. *)
Definition complete_module_eval_poll (t : Z * Z) (before : Oneshot (option AnyError)) (loop : LoopPoll)
    (after : Oneshot (option AnyError)) (c : IsolateCell) : outcome (IsolateCell * option (option AnyError)) :=
  match eval_result before with
  | Some r => Ret (c, Some r)
  | None =>
      do! c := with_guard t c in
      Ret (c, match loop with
              | LPending => None
              | LErr e => Some (Some e)
              | LOk => match eval_result after with Some r => Some r | None => Some None end
              end)
  end.

(** * The heap *)

(** [create_isolate]: [heap_limits(512 * 1024, 60 * 512 * 1024)], of which the second is the limit,
    and the callback that V8 makes near it, with the current limit and the initial one. *)
Definition max_heap : Z := 60 * 512 * 1024.

Definition near_heap_limit (current initial : Z) (h : ShutdownHandle) : ShutdownHandle * Z :=
  (handle_shutdown_vm TOutOfMemory true h, if bool_decide (current ≠ initial) then current else current + initial).

Fixpoint near_heap_limits (n : nat) (initial : Z) (st : ShutdownHandle * Z) : ShutdownHandle * Z :=
  match n with
  | O => st
  | S n => near_heap_limits n initial (near_heap_limit st.2 initial st.1)
  end.

(** * Facts *)

(** V8's stack holds the isolates of the guards in the order they were entered and nothing else;
    every guard has its own cell, and the cells of the guards are the entered ones. *)
Record iso_wf (t : IsoThread) : Prop := {
  wf_stack : iso_stack t = snd <$> iso_guards t;
  wf_nodup : NoDup (fst <$> iso_guards t);
  wf_cells : ∀ c, entered (cell_of c t) = bool_decide (c ∈ fst <$> iso_guards t);
}.

Lemma exit_enter i t : v8_exit i (v8_enter i t) = Some t.
Proof. unfold v8_exit. simpl. rewrite bool_decide_true by done. by destruct t. Qed.

Lemma cell_of_insert c c' cell s a g m :
  cell_of c' (mkIso s a g (<[c := cell]> m)) = if decide (c' = c) then cell else cell_of c' (mkIso s a g m).
Proof.
  unfold cell_of. simpl. case_decide as Hc; [subst; by rewrite lookup_insert_eq|by rewrite lookup_insert_ne].
Qed.

(** The newest guard can be dropped. *)
Lemma guard_drop_newest now t :
  iso_wf t → ∃ t', guard_drop 0 now t = Fine t' ∧ iso_wf t' ∧ iso_guards t' = tail (iso_guards t).
Proof.
  intros [Hs Hn Hc]. unfold guard_drop. destruct t as [stack alive guards cells]. simpl in *.
  destruct guards as [|[c i] gs]; simpl in *; [by eexists|]. subst stack. unfold v8_exit. simpl. rewrite bool_decide_true by done.
  simpl. apply NoDup_cons in Hn as [Hni Hn]. pose proof (Hc c) as Hec. rewrite bool_decide_true in Hec by set_solver.
  unfold cell_exit, cell_of in *. simpl in *. rewrite Hec.
  eexists. split; [reflexivity|]. split; [|done]. split; simpl; [done..|].
  intros c'. rewrite cell_of_insert. specialize (Hc c'). unfold cell_of. simpl. destruct (decide (c' = c)) as [->|Hcc]; simpl.
  - by rewrite bool_decide_false.
  - rewrite Hc. apply bool_decide_ext. set_solver.
Qed.

Lemma unwind_sound t : iso_wf t → ∃ t', unwind (length (iso_guards t)) t = Unwinds t' ∧ iso_stack t' = [].
Proof.
  remember (length (iso_guards t)) as n eqn:Hn. revert t Hn. induction n as [|n IH]; intros t Hn Hwf; simpl.
  - exists t. split; [done|]. rewrite (wf_stack t Hwf). by destruct (iso_guards t).
  - destruct (guard_drop_newest 0 t Hwf) as (t' & -> & Hwf' & Hg). apply IH; [|done]. rewrite Hg. destruct (iso_guards t); simpl in *; lia.
Qed.

(** The discipline a program keeps: one cell, with which there is at most one guard, or the
    newest guard first. *)
Definition disciplined (one : option nat) (o : IsoOp) : bool :=
  forgets_none o && match one with Some c => uses_cell c o | None => newest_first o end.

Definition within (one : option nat) (t : IsoThread) : Prop :=
  match one with Some c => ∀ g, g ∈ iso_guards t → g.1 = c | None => True end.

(** With one cell there is only the newest guard to drop. *)
Lemma within_newest c t k :
  iso_wf t → within (Some c) t → (k < length (iso_guards t))%nat → k = 0%nat.
Proof.
  intros [_ Hn _] Hone Hk. destruct (iso_guards t) as [|g [|g' gs]] eqn:Hg; simpl in *; [lia|lia|].
  apply NoDup_cons in Hn as [Hni _]. exfalso. apply Hni. rewrite (Hone g), <- (Hone g'); [set_solver|rewrite Hg; set_solver..].
Qed.

Lemma iso_step_wf one o t :
  iso_wf t → within one t → disciplined one o = true → borrow_ok o t = true →
  (∃ t', iso_step o t = Fine t' ∧ iso_wf t' ∧ within one t') ∨ iso_step o t = Unwinds t.
Proof.
  intros Hwf Hone [Hf Hd]%andb_true_iff Hb. destruct o as [|c i now|k now|i|k]; simpl in *.
  - left. unfold managed_new. rewrite exit_enter. simpl. eexists. split; [done|]. by destruct Hwf.
  - unfold enter_isolate, cell_enter. destruct Hwf as [Hs Hn Hc]. pose proof (Hc c) as Hec.
    destruct (entered (cell_of c t)); [by right|]. symmetry in Hec. apply bool_decide_eq_false in Hec.
    left. eexists. split; [reflexivity|]. split; [split; simpl|].
    + by rewrite Hs.
    + by apply NoDup_cons.
    + intros c'. unfold v8_enter. simpl. rewrite cell_of_insert. specialize (Hc c'). unfold cell_of in *. simpl.
      destruct (decide (c' = c)) as [->|Hcc]; simpl; [symmetry; apply bool_decide_eq_true; set_solver|].
      rewrite Hc. apply bool_decide_ext. set_solver.
    + destruct one as [c1|]; [|done]. apply bool_decide_eq_true in Hd as ->. simpl. intros g [->|Hg]%elem_of_cons; [done|by apply Hone].
  - left. assert (k = 0%nat) as ->.
    { apply bool_decide_eq_true in Hb. destruct one as [c1|]; [by eapply within_newest|by apply bool_decide_eq_true in Hd]. }
    destruct (guard_drop_newest now t Hwf) as (t' & Ht & Hwf' & Hg). exists t'. split_and!; [done..|].
    destruct one as [c1|]; [|done]. intros g Hin. apply Hone. rewrite Hg in Hin. destruct (iso_guards t); set_solver.
  - left. unfold managed_drop. rewrite exit_enter. apply andb_true_iff in Hb as [_ Hni%bool_decide_eq_true].
    rewrite (wf_stack t Hwf), bool_decide_false by done. eexists. split; [done|]. by destruct Hwf.
  - done.
Qed.

Lemma with_guard_free t c :
  entered c = false → ∃ c', with_guard t c = Ret c' ∧ entered c' = false ∧ reported c' = reported c ++ [t.2 - t.1].
Proof. intros Hc. unfold with_guard, cell_enter, cell_exit. rewrite Hc. simpl. by eexists. Qed.

(** * Properties *)

(** C33: The isolates of a thread stay sound under two disciplines: in any sequence of creating,
    entering, leaving and dropping isolates that the borrow checker accepts, in which no guard is
    forgotten and which either uses one cell, as a vm thread does, or drops the newest guard
    first, no isolate is left that is not the current one and none is disposed of while it is
    entered. At the end V8's stack holds the isolates of the guards held, the newest on top, and
    nothing after a panic. *)
Theorem isolates_stay_sound os c :
  borrows_ok os iso_new = true → forallb forgets_none os = true →
  forallb (uses_cell c) os = true ∨ forallb newest_first os = true →
  match iso_run os iso_new with
  | Fine t => iso_stack t = snd <$> iso_guards t
  | Unwinds t => iso_stack t = []
  | Unsound => False
  end.
Proof.
  intros Hb Hf Hd.
  assert (∃ one, forallb (disciplined one) os = true) as [one Hone].
  { assert (∀ one, forallb (λ o, match one with Some c => uses_cell c o | None => newest_first o end) os = true →
                   forallb (disciplined one) os = true) as Hboth.
    { intros one Ho. rewrite forallb_forall in *. intros o Hin. unfold disciplined. by rewrite Hf, Ho. }
    destruct Hd as [Hd|Hd]; [exists (Some c)|exists None]; by apply Hboth. }
  assert (iso_wf iso_new) as Hwf by (split; simpl; [done|constructor|done]).
  assert (within one iso_new) as Hw by (destruct one; [simpl; set_solver|done]).
  clear Hf Hd. revert Hb Hwf Hw. generalize iso_new as t.
  induction os as [|o os IH]; intros t Hb Hwf Hw; simpl in *; [apply Hwf|].
  apply andb_true_iff in Hb as [Hb Hbs], Hone as [Ho Hos].
  destruct (iso_step_wf one o t Hwf Hw Ho Hb) as [(t' & Ht & Hwf' & Hw')|Ht]; rewrite Ht in *.
  - by apply IH.
  - by destruct (unwind_sound t Hwf) as (t' & -> & Hs).
Qed.

(** Two cells admit a guard each, and nothing makes the newer one be dropped first. *)
Example guards_out_of_order_unsound :
  let os := [INew; INew; IEnter 0 0 1; IEnter 1 1 2; ILeave 1 3] in
  borrows_ok os iso_new = true ∧ iso_run os iso_new = Unsound.
Proof. split; vm_compute; reflexivity. Qed.

(** A guard that is forgotten leaves its isolate entered, which is then dropped. *)
Example forgotten_guard_unsound :
  let os := [INew; IEnter 0 0 1; IForget 0; IDrop 0] in
  borrows_ok os iso_new = true ∧ iso_run os iso_new = Unsound.
Proof. split; vm_compute; reflexivity. Qed.

(** No future of the vm holds the isolate across an await: polled with no guard held, each of
    them does not panic, leaves no guard behind, and if it entered the isolate it has reported
    the time it spent there. *)
Theorem polls_leave_isolate_free t c :
  entered c = false →
  (∀ wakeup cmd loop completed, ∃ c', tick_future_poll t wakeup cmd loop completed c = Ret (c', tick_poll wakeup cmd loop completed) ∧
     entered c' = false ∧ reported c' = reported c ++ (if wakeup || bool_decide (is_Some cmd) then [] else [t.2 - t.1])) ∧
  (∀ loop, ∃ c' r, run_until_completion_poll t loop c = Ret (c', r) ∧ entered c' = false ∧ reported c' = reported c ++ [t.2 - t.1] ∧
     (r = None ↔ loop = LPending)) ∧
  (∀ before loop after, ∃ c' r, complete_module_eval_poll t before loop after c = Ret (c', r) ∧ entered c' = false ∧
     (r = None ↔ before = OsPending ∧ loop = LPending) ∧
     (∀ res, eval_result before = Some res → r = Some res) ∧
     (∀ res, before = OsPending → loop = LOk → eval_result after = Some res → r = Some res)).
Proof.
  intros Hc. destruct (with_guard_free t c Hc) as (c' & Hg & He & Hr). split_and!.
  - intros wakeup cmd loop completed. unfold tick_future_poll, tick_poll. destruct wakeup; simpl.
    { exists c. by rewrite app_nil_r. }
    destruct cmd; simpl; [exists c; by rewrite app_nil_r|]. rewrite Hg. by exists c'.
  - intros loop. unfold run_until_completion_poll. rewrite Hg. simpl. eexists c', _. split_and!; [done..|]. by destruct loop.
  - intros before loop after. unfold complete_module_eval_poll. destruct (eval_result before) as [r|] eqn:Hb.
    + exists c, (Some r). split_and!; [done..| |by intros ? [= <-]|by intros ? ->]. split; [done|]. by intros [-> _].
    + rewrite Hg. simpl. assert (before = OsPending) as -> by by destruct before.
      destruct loop as [| |e]; eexists c', _; split_and!; try done; try naive_solver.
      * destruct (eval_result after); naive_solver.
      * by intros res _ _ ->.
Qed.

(** Memory is bounded: however often V8 reports that a vm is near its limit, the limit is
    raised once, to the double, and from the first report on, if its isolate has announced
    itself, the vm is terminated for lack of memory. *)
Theorem heap_limit_bounded n initial h :
  0 < initial → sh_isolate_handle h = true →
  let '(h', limit) := near_heap_limits (S n) initial (h, initial) in
  limit = 2 * initial ∧ sh_terminated h' = true ∧ sh_reason h' = Some TOutOfMemory ∧ sh_interrupts h' = (sh_interrupts h + S n)%nat.
Proof.
  intros Hi Hh. cbn [near_heap_limits]. unfold near_heap_limit at 1. simpl. rewrite bool_decide_false by tauto.
  unfold handle_shutdown_vm. rewrite Hh. set (h1 := mkShutdownHandle _ _ _ _ _).
  assert (∀ k h0, sh_isolate_handle h0 = true → sh_terminated h0 = true → sh_reason h0 = Some TOutOfMemory →
    let '(h', limit) := near_heap_limits k initial (h0, initial + initial) in
    limit = 2 * initial ∧ sh_terminated h' = true ∧ sh_reason h' = Some TOutOfMemory ∧ sh_interrupts h' = (sh_interrupts h0 + k)%nat) as Hk.
  { induction k as [|k IH]; intros h0 Hh0 Ht Hr; simpl; [split_and!; [lia|done|done|lia]|].
    unfold near_heap_limit. simpl. rewrite bool_decide_true by lia. unfold handle_shutdown_vm at 1. rewrite Hh0.
    match goal with |- context [near_heap_limits k initial (?h2, _)] => specialize (IH h2 eq_refl eq_refl eq_refl) end.
    destruct (near_heap_limits k initial _) as [h' l]. destruct IH as (? & ? & ? & ->). split_and!; [done..|]. simpl. lia. }
  specialize (Hk n h1 eq_refl eq_refl eq_refl). destruct (near_heap_limits n initial _) as [h' l].
  destruct Hk as (? & ? & ? & ->). split_and!; [done..|]. simpl. lia.
Qed.

(** ** Instances *)

Lemma isolates_stay_sound_witness :
  match iso_run [INew; INew; IEnter 0 0 5; IDrop 1; ILeave 0 9; IEnter 0 0 10] iso_new with
  | Fine t => iso_stack t = [0%nat] | _ => False end ∧
  match iso_run [INew; INew; IEnter 0 0 5; IEnter 0 1 6] iso_new with Unwinds t => iso_stack t = [] | _ => False end ∧
  match iso_run [INew; INew; IEnter 0 0 5; IEnter 1 1 6; ILeave 0 7] iso_new with Fine t => iso_stack t = [0%nat] | _ => False end.
Proof.
  split_and!.
  - exact (isolates_stay_sound [INew; INew; IEnter 0 0 5; IDrop 1; ILeave 0 9; IEnter 0 0 10] 0 ltac:(vm_compute; reflexivity)
      eq_refl (or_introl eq_refl)).
  - exact (isolates_stay_sound [INew; INew; IEnter 0 0 5; IEnter 0 1 6] 0 ltac:(vm_compute; reflexivity) eq_refl (or_introl eq_refl)).
  - exact (isolates_stay_sound [INew; INew; IEnter 0 0 5; IEnter 1 1 6; ILeave 0 7] 0 ltac:(vm_compute; reflexivity)
      eq_refl (or_intror eq_refl)).
Defined.

Lemma polls_leave_isolate_free_witness :
  ∃ c', tick_future_poll (3, 8) false None LOk false cell_new = Ret (c', Some TickCompleted) ∧ entered c' = false ∧ reported c' = [5].
Proof. exact (proj1 (polls_leave_isolate_free (3, 8) cell_new eq_refl) false None LOk false). Defined.

Lemma heap_limit_bounded_witness :
  let '(h', limit) := near_heap_limits 3 max_heap (emit_isolate_handle shutdown_handle_new, max_heap) in
  limit = 2 * max_heap ∧ sh_terminated h' = true ∧ sh_reason h' = Some TOutOfMemory ∧ sh_interrupts h' = 3%nat.
Proof. apply (heap_limit_bounded 2 max_heap (emit_isolate_handle shutdown_handle_new)); reflexivity. Defined.
