(* ===== verification/VmWorker.v ===== *)
(** The worker process ([cmd/vmworker/src/main.rs]): it runs the vm of one guild at a time for
    the scheduler, relays the vm's events, and replaces the vm when another guild's is asked
    for.

    The environment answers what the worker's channels deliver ([WResp]); the trace ([WEv])
    has the messages to the scheduler, and what the worker does to its vm thread. *)
From stdpp Require Import base list strings.
From S2P Require Import Prelude Models WorkerPool Commands World IntervalTimers ScheduledTasks VmSession VmThread Vm.

Section worker.
(** [runtime::RuntimeEvent] *)
Inductive RuntimeEvent :=
| RtScriptStarted (m : ScriptMeta)
| RtNewTaskScheduled
| RtInvalidRequestsExceeded.

Inductive ContinueState := Stop | Continue.

Inductive WResp :=
| WSchedulerMsg (m : option SchedulerMessage)
| WRuntimeEvt (e : option RuntimeEvent)
| WVmEvt (e : option (Z * VmEvent))
| WTryRuntime (e : option RuntimeEvent)
| WWritten (ok : bool)
| WThreadClosed.

Inductive WEv :=
| WSend (m : WorkerMessage)
| WSpawn (guild : Z) (scripts : list Script)
| WVmCmd (c : VmCommand)
| WThreadShutdown
| WClosed
| WVmGone.

Notation wio := (async WResp WEv).

(** [Worker]: the guild of [current_state] and the shared premium tier. *)
Record Worker := mkWorker {
  current_state : option Z;
  wk_premium_tier : option PremiumSlotTier;
}.

Definition worker_new : Worker := mkWorker None None.
Definition set_current (w : Worker) (c : option Z) : Worker := mkWorker c (wk_premium_tier w).

Definition write_message (m : WorkerMessage) : wio bool :=
  let! _ := emit (WSend m) in await (λ r, match r with WWritten b => Some b | _ => None end).

(** [send(..).await?]: [None] is the error. *)
Definition or_fail {A} (m : wio bool) (k : wio (option A)) : wio (option A) :=
  let! ok := m in if ok then k else aret None.

(** [vm_thread.send_cmd.closed().await]: it returns when the thread has dropped its end of the
    channel, which the trace records. *)
Definition vm_thread_closed : wio unit :=
  let! _ := await (λ r, match r with WThreadClosed => Some tt | _ => None end) in emit WClosed.

Definition wait_shutdown_current_vm (w : Worker) : wio Worker :=
  match current_state w with
  | Some _ =>
      let! _ := emit WThreadShutdown in
      let! _ := vm_thread_closed in
      aret (set_current w None)
  | None => aret w
  end.

Definition handle_runtime_evt (evt : RuntimeEvent) : wio (option ContinueState) :=
  or_fail (write_message (match evt with
                          | RtScriptStarted sm => ScriptStarted sm
                          | RtNewTaskScheduled => TaskScheduled
                          | RtInvalidRequestsExceeded => WmShutdown TooManyInvalidRequestsReason
                          end))
    (aret (Some Continue)).

(** [while let Ok(evt) = self.runtime_evt_rx.try_recv() { .. ? }] *)
Definition drain_runtime : wio (option unit) :=
  iter (λ _ : unit,
    let! e := await (λ r, match r with WTryRuntime e => Some e | _ => None end) in
    match e with
    | Some evt =>
        let! r := handle_runtime_evt evt in
        match r with Some _ => aret (inl tt) | None => aret (inr None) end
    | None => aret (inr (Some tt))
    end) tt.

Definition shutdown_message (r : TReason) : WorkerMessage :=
  WmShutdown (match r with
              | TOutOfMemory => OutOfMemory
              | TRunaway => Runaway
              | TUnknown | TThreadTermination => OtherReason
              end).

Definition handle_vm_evt (w : Worker) (guild_id : Z) (evt : VmEvent) : wio (Worker * option ContinueState) :=
  if bool_decide (current_state w = Some guild_id) then
    match evt with
    | VmShutdown reason =>
        let! w := wait_shutdown_current_vm w in
        let! d := drain_runtime in
        let! r := match d with
                  | None => aret None
                  | Some _ =>
                      or_fail (write_message (shutdown_message reason))
                        (or_fail (write_message NonePending) (aret (Some Continue)))
                  end in
        aret (w, r)
    | DispatchedEvent id =>
        let! r := or_fail (write_message (Ack id)) (aret (Some Continue)) in aret (w, r)
    | VmFinished =>
        let! d := drain_runtime in
        let! r := match d with
                  | None => aret None
                  | Some _ => or_fail (write_message NonePending) (aret (Some Continue))
                  end in
        aret (w, r)
    end
  else aret (w, Some Continue).

Definition handle_create_scripts_vm (w : Worker) (req : CreateScriptsVmReq) : wio (Worker * option ContinueState) :=
  let! w := match current_state w with
            | Some g => if bool_decide (g = cv_guild_id req) then aret w else wait_shutdown_current_vm w
            | None => aret w
            end in
  let w := mkWorker (current_state w) (cv_premium_tier req) in
  let! w := match current_state w with
            | Some _ => let! _ := emit (WVmCmd (Restart (cv_scripts req))) in aret w
            | None =>
                let! _ := emit (WSpawn (cv_guild_id req) (cv_scripts req)) in
                aret (set_current w (Some (cv_guild_id req)))
            end in
  let! r := or_fail (write_message (Ack (cv_seq req))) (aret (Some Continue)) in
  aret (w, r).

Definition handle_scheduler_cmd (w : Worker) (cmd : SchedulerMessage) : wio (Worker * option ContinueState) :=
  match cmd with
  | Dispatch evt =>
      let! _ := match current_state w with
                | Some _ => emit (WVmCmd (DispatchEvent (de_name evt) (de_value evt) (de_seq evt)))
                | None => aret tt
                end in
      aret (w, Some Continue)
  | MsgShutdown => aret (w, Some Stop)
  | CreateScriptsVm data => handle_create_scripts_vm w data
  | Complete =>
      let! _ := match current_state w with
                | Some _ => emit WThreadShutdown
                | None => aret tt
                end in
      aret (w, Some Continue)
  end.

(** The select of [run]: the vm's events only when there is a vm. The channel of the events is
    closed when the vm has dropped it, which the trace records. *)
Definition worker_select (w : Worker) : wio WResp :=
  let! r := await (λ r, match r with
                        | WSchedulerMsg _ | WRuntimeEvt _ => Some r
                        | WVmEvt _ => if current_state w then Some r else None
                        | _ => None
                        end) in
  let! _ := match r with WVmEvt None => emit WVmGone | _ => aret tt end in
  aret r.

(** One round of the loop of [run]; an error is logged and the loop goes on. *)
Definition worker_round (w : Worker) : wio (Worker + Worker) :=
  let! r := worker_select w in
  let! (w, res) :=
    match r with
    | WSchedulerMsg (Some cmd) => handle_scheduler_cmd w cmd
    | WSchedulerMsg None => aret (w, Some Stop)
    | WRuntimeEvt (Some evt) => let! r := handle_runtime_evt evt in aret (w, r)
    | WRuntimeEvt None => aret (w, Some Stop)
    | WVmEvt (Some (g, evt)) => handle_vm_evt w g evt
    | _ =>
        let w := set_current w None in
        let! r := or_fail (write_message (WmShutdown OtherReason)) (aret (Some Continue)) in aret (w, r)
    end in
  match res with
  | Some Stop => aret (inr w)
  | _ => aret (inl w)
  end.

Definition worker_run (w : Worker) : wio Worker :=
  let! w := iter worker_round w in wait_shutdown_current_vm w.

(** * One vm at a time *)

(** What the trace says about the vm thread, [live] from its start until the worker has seen its
    end: its command channel closed ([WClosed]), or the vm gone by itself and its event channel
    closed ([WVmGone]). A vm is started only when none is live, and commands go only to one that
    is. *)
Definition thread_step (live : bool) (e : WEv) : option bool :=
  match e with
  | WSpawn _ _ => if live then None else Some true
  | WVmCmd _ => if live then Some true else None
  | WThreadShutdown => if live then Some true else None
  | WClosed | WVmGone => if live then Some false else None
  | WSend _ => Some live
  end.

Fixpoint thread_trace (live : bool) (tr : list WEv) : option bool :=
  match tr with
  | [] => Some live
  | e :: tr => match thread_step live e with Some live => thread_trace live tr | None => None end
  end.

Lemma thread_trace_app live tr tr' live' :
  thread_trace live tr = Some live' → thread_trace live (tr ++ tr') = thread_trace live' tr'.
Proof.
  revert live. induction tr as [|e tr IH]; intros live; simpl; [by intros [= ->]|].
  destruct (thread_step live e); [|done]. apply IH.
Qed.

Definition is_live (w : Worker) : bool := match current_state w with Some _ => true | None => false end.

(** The messages of a trace. *)
Definition messages (tr : list WEv) : list WorkerMessage := tr ≫= (λ e, match e with WSend m => [m] | _ => [] end).

(** Only messages. *)
Definition talk (e : WEv) : Prop := match e with WSend _ => True | _ => False end.

Lemma talk_trace live tr : Forall talk tr → thread_trace live tr = Some live.
Proof. induction 1 as [|e tr He _ IH]; simpl; [done|]. by destruct e. Qed.

Lemma or_fail_talk {A} m (k : wio (option A)) : always talk k → always talk (or_fail (write_message m) k).
Proof. intros Hk. unfold or_fail, write_message. always_tac. exact Hk. Qed.

Lemma drain_runtime_talk : always talk drain_runtime.
Proof.
  unfold drain_runtime. apply always_iter. intros []. apply always_bind; [apply always_await|]. intros [evt|]; [|apply always_ret].
  apply always_bind; [apply or_fail_talk, always_ret|]. intros []; apply always_ret.
Qed.

(** What is reported once the runtime's events have been passed on. *)
Lemma report_talk {A} (d : option unit) (k : wio (option A)) :
  always talk k → always talk (match d with None => aret None | Some _ => k end).
Proof. intros Hk. destruct d; [exact Hk|apply always_ret]. Qed.

Lemma wait_shutdown_spec w :
  wp True (wait_shutdown_current_vm w) (λ w' tr, w' = set_current w None ∧
    tr = (if current_state w then [WThreadShutdown; WClosed] else []) ∧ thread_trace (is_live w) tr = Some false).
Proof.
  destruct w as [[g|] tier]; unfold wait_shutdown_current_vm; simpl.
  - apply wp_bind, wp_emit, wp_bind. unfold vm_thread_closed. apply wp_bind, wp_await. intros _ [] _. apply wp_emit, wp_ret. done.
  - by apply wp_ret.
Qed.

(** A step of the worker follows the thread, with the vm of its new state. *)
Definition follows_thread (w : Worker) (tr : list WEv) (w' : Worker) : Prop := thread_trace (is_live w) tr = Some (is_live w').

Lemma follows_talk w tr : Forall talk tr → follows_thread w tr w.
Proof. intros Ht. by apply talk_trace. Qed.

Lemma handle_vm_evt_spec w g evt :
  wp True (handle_vm_evt w g evt) (λ r tr, follows_thread w tr r.1).
Proof.
  unfold handle_vm_evt. case_bool_decide as Hg; [|by apply wp_ret, follows_talk].
  destruct evt as [reason|id|].
  - apply wp_bind. eapply wp_mono; [apply wait_shutdown_spec|done|]. simpl. intros w1 tr1 (-> & _ & Ht1).
    apply wp_bind. eapply wp_mono; [apply always_wp, drain_runtime_talk|done|]. simpl. intros d tr2 Ht2. apply wp_bind.
    eapply wp_mono; [apply always_wp, report_talk; by apply or_fail_talk, or_fail_talk, always_ret|done|].
    simpl. intros r tr3 Ht3. apply wp_ret. unfold follows_thread. rewrite (thread_trace_app _ _ _ _ Ht1).
    simpl. apply talk_trace. rewrite app_nil_r. by apply Forall_app.
  - apply wp_bind. eapply wp_mono; [by apply always_wp, or_fail_talk, always_ret|done|]. simpl. intros r tr Ht. apply wp_ret.
    rewrite app_nil_r. by apply follows_talk.
  - apply wp_bind. eapply wp_mono; [apply always_wp, drain_runtime_talk|done|]. simpl. intros d tr2 Ht2. apply wp_bind.
    eapply wp_mono; [apply always_wp, report_talk; by apply or_fail_talk, always_ret|done|].
    simpl. intros r tr3 Ht3. apply wp_ret. rewrite app_nil_r. apply follows_talk. by apply Forall_app.
Qed.

Lemma handle_create_spec w req :
  wp True (handle_create_scripts_vm w req) (λ r tr, follows_thread w tr r.1).
Proof.
  assert (∀ A (P : option A → list WEv → Prop) (a : A), (∀ r, P r [WSend (Ack (cv_seq req))]) →
    wp True (or_fail (write_message (Ack (cv_seq req))) (aret (Some a))) P) as Hack.
  { intros A P a HP. unfold or_fail, write_message. apply wp_bind, wp_bind, wp_emit, wp_await. intros _ [] _; apply wp_ret, HP. }
  unfold handle_create_scripts_vm. destruct w as [[g|] tier]; simpl; [case_bool_decide as Hg|].
  - subst g. apply wp_bind, wp_ret, wp_bind. simpl. apply wp_bind, wp_emit, wp_ret, wp_bind, Hack. intros r. by apply wp_ret.
  - apply wp_bind. eapply wp_mono; [apply wait_shutdown_spec|done|]. simpl. intros w1 tr1 (-> & -> & _).
    apply wp_bind. simpl. apply wp_bind, wp_emit, wp_ret, wp_bind, Hack. intros r. by apply wp_ret.
  - apply wp_bind, wp_ret, wp_bind. simpl. apply wp_bind, wp_emit, wp_ret, wp_bind, Hack. intros r. by apply wp_ret.
Qed.

Lemma handle_scheduler_cmd_spec w cmd :
  wp True (handle_scheduler_cmd w cmd) (λ r tr, follows_thread w tr r.1).
Proof.
  destruct cmd as [evt|req| |]; simpl.
  - apply wp_bind. destruct w as [[g|] tier]; simpl; [apply wp_emit|apply wp_ret]; by apply wp_ret.
  - apply handle_create_spec.
  - apply wp_bind. destruct w as [[g|] tier]; simpl; [apply wp_emit|apply wp_ret]; by apply wp_ret.
  - by apply wp_ret.
Qed.

(** What a select gives, and the vm it leaves. *)
Definition selected (w : Worker) (r : WResp) : Prop :=
  match r with WVmEvt _ => is_live w = true | WSchedulerMsg _ | WRuntimeEvt _ => True | _ => False end.
Definition after_select (w : Worker) (r : WResp) : bool := match r with WVmEvt None => false | _ => is_live w end.

Lemma worker_select_spec w :
  wp True (worker_select w) (λ r tr, selected w r ∧ thread_trace (is_live w) tr = Some (after_select w r)).
Proof.
  unfold worker_select. apply wp_bind, wp_await. intros r0 r Hr. apply wp_bind.
  assert (selected w r) as Hsel.
  { unfold selected, is_live. destruct r0; simplify_eq; try done. destruct (current_state w); [|done]. by simplify_eq. }
  destruct r as [| |[]| | |]; try (apply wp_ret, wp_ret; by split); try done.
  apply wp_emit, wp_ret. split; [done|]. simpl in *. by rewrite Hsel.
Qed.

Lemma worker_round_spec w :
  wp True (worker_round w) (λ r tr, follows_thread w tr (match r with inl w' => w' | inr w' => w' end)).
Proof.
  unfold worker_round. apply wp_bind. eapply wp_mono; [apply worker_select_spec|done|]. simpl. intros r tr0 [Hsel Hl].
  apply wp_bind. apply (wp_mono True True _ (λ x tr, follows_thread w (tr0 ++ tr) x.1)); [|done|].
  - destruct r as [[cmd|]|[evt|]|[[g evt]|]| | |]; try done; simpl.
    + eapply wp_mono; [apply handle_scheduler_cmd_spec|done|]. intros x tr Hf. unfold follows_thread. by rewrite (thread_trace_app _ _ _ _ Hl).
    + apply wp_ret. by rewrite app_nil_r.
    + apply wp_bind. eapply wp_mono; [by apply always_wp, or_fail_talk, always_ret|done|]. simpl. intros x tr Ht. apply wp_ret.
      rewrite app_nil_r. unfold follows_thread. rewrite (thread_trace_app _ _ _ _ Hl). by apply talk_trace.
    + apply wp_ret. by rewrite app_nil_r.
    + eapply wp_mono; [apply handle_vm_evt_spec|done|]. intros x tr Hf. unfold follows_thread. by rewrite (thread_trace_app _ _ _ _ Hl).
    + apply wp_bind. eapply wp_mono; [by apply always_wp, or_fail_talk, always_ret|done|]. simpl. intros x tr Ht. apply wp_ret.
      unfold follows_thread. simpl. rewrite app_nil_r, (thread_trace_app _ _ _ _ Hl). by apply talk_trace.
  - simpl. intros [w' res] tr Hf. simpl in Hf.
    destruct res as [[]|]; apply wp_ret; by rewrite app_nil_r.
Qed.

(** ** Runs that do not complete *)

#[local] Instance thread_protocol : Protocol WEv bool.
Proof.
  refine {| legal live tr live' := thread_trace live tr = Some live' |}; [done|].
  intros live tr live' tr' live'' Ht Ht'. by rewrite (thread_trace_app _ _ _ _ Ht).
Defined.

Lemma safe_talk {A} live (m : wio A) : always talk m → safe live m.
Proof. apply safe_always. intros tr. apply talk_trace. Qed.

Lemma safe_talk_bind {A B} live (m : wio A) (k : A → wio B) :
  always talk m → (∀ a, safe live (k a)) → safe live (abind m k).
Proof.
  intros Hm Hk. apply safe_bind; [by apply safe_talk|]. eapply wp_mono; [by apply always_wp|done|].
  intros a tr Ht. exists live. split; [by apply talk_trace|done].
Qed.

Lemma wait_shutdown_safe w : safe (is_live w) (wait_shutdown_current_vm w).
Proof.
  unfold wait_shutdown_current_vm, is_live. destruct (current_state w); [|apply safe_ret].
  apply safe_bind; [apply safe_emit|]. apply wp_emit. exists true. split; [done|].
  apply safe_map. unfold vm_thread_closed. apply safe_talk_bind; [apply always_await|]. intros _. apply safe_emit.
Qed.

Lemma handle_vm_evt_safe w g evt : safe (is_live w) (handle_vm_evt w g evt).
Proof.
  unfold handle_vm_evt. case_bool_decide; [|apply safe_ret]. destruct evt as [reason|id|].
  - apply safe_bind; [apply wait_shutdown_safe|]. eapply wp_mono; [apply wait_shutdown_spec|done|].
    intros w1 tr (-> & _ & Ht). exists false. split; [exact Ht|].
    apply safe_talk_bind; [apply drain_runtime_talk|]. intros d.
    apply safe_map, safe_talk, report_talk. by apply or_fail_talk, or_fail_talk, always_ret.
  - apply safe_map, safe_talk. by apply or_fail_talk, always_ret.
  - apply safe_talk_bind; [apply drain_runtime_talk|]. intros d.
    apply safe_map, safe_talk, report_talk. by apply or_fail_talk, always_ret.
Qed.

(** The command or the start of the vm, and the acknowledgement. *)
Lemma handle_create_safe w req : safe (is_live w) (handle_create_scripts_vm w req).
Proof.
  assert (∀ live (w : Worker), safe live (let! r := or_fail (write_message (Ack (cv_seq req))) (aret (Some Continue)) in
    aret (w, r))) as Hack.
  { intros live w1. apply safe_map, safe_talk. by apply or_fail_talk, always_ret. }
  assert (∀ w1 : Worker, safe (is_live w1) (let! w := match current_state w1 with
            | Some _ => let! _ := emit (WVmCmd (Restart (cv_scripts req))) in aret w1
            | None => let! _ := emit (WSpawn (cv_guild_id req) (cv_scripts req)) in aret (set_current w1 (Some (cv_guild_id req)))
            end in
      let! r := or_fail (write_message (Ack (cv_seq req))) (aret (Some Continue)) in aret (w, r))) as Hcmd.
  { intros [[g|] tier]; simpl; (apply safe_bind; [apply safe_map, safe_emit|]); apply wp_bind, wp_emit, wp_ret; exists true; split; done || apply Hack. }
  unfold handle_create_scripts_vm. apply safe_bind.
  - destruct (current_state w); [|apply safe_ret]. case_bool_decide; [apply safe_ret|apply wait_shutdown_safe].
  - apply (wp_mono True True _ (λ w1 tr, thread_trace (is_live w) tr = Some (is_live w1))); [|done|].
    + destruct (current_state w); [|by apply wp_ret]. case_bool_decide; [by apply wp_ret|].
      eapply wp_mono; [apply wait_shutdown_spec|done|]. by intros w1 tr (-> & _ & ?).
    + intros w1 tr Ht. exists (is_live w1). split; [exact Ht|].
      exact (Hcmd (mkWorker (current_state w1) (cv_premium_tier req))).
Qed.

Lemma handle_scheduler_cmd_safe w cmd : safe (is_live w) (handle_scheduler_cmd w cmd).
Proof.
  destruct cmd as [evt|req| |]; simpl; [| apply handle_create_safe | |apply safe_ret];
    apply safe_map; (destruct (current_state w); [apply safe_emit|apply safe_ret]).
Qed.

Lemma worker_select_safe w : safe (is_live w) (worker_select w).
Proof.
  unfold worker_select. apply safe_talk_bind; [apply always_await|]. intros r. apply safe_map.
  destruct r as [| |[]| | |]; try apply safe_ret. apply safe_emit.
Qed.

Lemma worker_round_safe w : safe (is_live w) (worker_round w).
Proof.
  unfold worker_round. apply safe_bind; [apply worker_select_safe|].
  eapply wp_mono; [apply worker_select_spec|done|]. intros r tr [Hsel Hl]. exists (after_select w r). split; [exact Hl|].
  match goal with |- safe _ (abind ?m _) => assert (safe (after_select w r) m) as Hm end.
  - destruct r as [[cmd|]|[evt|]|[[g evt]|]| | |]; try done; simpl.
    + apply handle_scheduler_cmd_safe.
    + apply safe_map, safe_talk. by apply or_fail_talk, always_ret.
    + apply handle_vm_evt_safe.
    + apply safe_map, safe_talk. by apply or_fail_talk, always_ret.
  - intros tape. specialize (Hm tape). unfold abind at 1. destruct (_ tape) as [[w' res] rest tr'| |]; [|done..].
    by destruct res as [[]|].
Qed.

Lemma worker_loop_spec w : wp True (iter worker_round w) (λ w' tr, follows_thread w tr w').
Proof.
  apply (wp_iter _ _ (λ w' tr, follows_thread w tr w')); [done|]. intros w1 tr Hf.
  eapply wp_mono; [apply worker_round_spec|done|].
  intros [w'|w'] tr' Hf'; unfold follows_thread in *; by rewrite (thread_trace_app _ _ _ _ Hf).
Qed.

Lemma worker_run_safe w : safe (is_live w) (worker_run w).
Proof.
  unfold worker_run. apply safe_bind.
  - apply (safe_iter (λ w' live, live = is_live w')); [done|by intros w' ? ->; apply worker_round_safe|].
    intros w' ? ->. eapply wp_mono; [apply worker_round_spec|done|]. intros [w1|w1] tr Hf; [|done]. by exists (is_live w1).
  - eapply wp_mono; [apply worker_loop_spec|done|]. intros w' tr Hf. exists (is_live w'). split; [exact Hf|apply wait_shutdown_safe].
Qed.

(** * Properties *)

(** C16: A worker runs one vm at a time: at every moment of its life, a vm thread has only been
    started when the worker had seen the end of the previous one, by having waited until its
    command channel closed or because its event channel was closed, and commands have only been
    sent to a vm that was started and whose end the worker had not seen; and the end of the last
    one has been seen when the worker ends. *)
Theorem worker_one_vm_at_a_time tape :
  ∃ live, thread_trace false (trace_of (worker_run worker_new tape)) = Some live ∧
    ∀ w rest tr, worker_run worker_new tape = Done w rest tr → live = false.
Proof.
  assert (wp True (worker_run worker_new) (λ _ tr, thread_trace false tr = Some false)) as Hw.
  { unfold worker_run. apply wp_bind. eapply wp_mono; [apply worker_loop_spec|done|]. simpl. intros w tr Hf.
    eapply wp_mono; [apply wait_shutdown_spec|done|]. simpl. intros w' tr' (_ & _ & Ht).
    by rewrite (thread_trace_app _ _ _ _ Hf). }
  specialize (Hw tape). pose proof (worker_run_safe worker_new tape) as Hs.
  destruct (worker_run worker_new tape) as [w rest tr|tr|tr]; simpl in *; [by exists false|..];
    destruct Hs as [live Hl]; by exists live.
Qed.

(** A request for a vm. With the old vm's thread ending when it is asked to, the request
    completes: it is acknowledged exactly once, and the worker runs a vm of the requested
    guild under the requested premium tier, the running one restarted with the new scripts if
    it is that guild's, else a new one, before which the old one has been shut down and waited
    for. A write error is reported but the vm is there. *)
Theorem create_vm_replaces w req ok tape :
  let keep := bool_decide (current_state w = Some (cv_guild_id req)) in
  let replace := if keep then false else is_live w in
  handle_create_scripts_vm w req ((if replace then [WThreadClosed] else []) ++ WWritten ok :: tape) =
  Done (mkWorker (Some (cv_guild_id req)) (cv_premium_tier req), if ok then Some Continue else None) tape
    ((if replace then [WThreadShutdown; WClosed] else []) ++
     [if keep then WVmCmd (Restart (cv_scripts req)) else WSpawn (cv_guild_id req) (cv_scripts req);
      WSend (Ack (cv_seq req))]).
Proof.
  destruct w as [[g|] tier]; simpl; [case_bool_decide as Hg|].
  - simplify_eq. unfold handle_create_scripts_vm. simpl. rewrite bool_decide_true by done. by destruct ok.
  - unfold handle_create_scripts_vm. simpl. rewrite bool_decide_false by congruence. by destruct ok.
  - by destruct ok.
Qed.

(** A worker whose vm is shut down by the [Complete] of a session answers with
    [Shutdown(Other)] followed by [NonePending]; the session that sent [Complete] and waits
    for these answers (with no tasks or timers of its own) panics on the first and never
    returns the worker. *)
Theorem complete_panics_session `{Calendar} `{!HashOrder string} w g (s : Session) h :
  current_state w = Some g → s_current_worker s = Some h →
  next_task_time (s_tasks s) = None → loaded_intervals (s_timers s) = ∅ →
  ∃ w' tr,
    (let! (w, _) := handle_scheduler_cmd w Complete in handle_vm_evt w g (VmShutdown TThreadTermination))
      [WThreadClosed; WTryRuntime None; WWritten true; WWritten true] = Done (w', Some Continue) [] tr ∧
    messages tr = [WmShutdown OtherReason; NonePending] ∧
    ∃ tr', session_shutdown s (RSent true :: ((λ m, RAction (AWorkerMessage (Some m))) <$> messages tr)) = Panicked tr' ∧
      ∀ x b, EReturnWorker x b ∉ tr'.
Proof.
  intros Hw Hs Ht Hl. destruct w as [cur tier]. simpl in Hw. subst cur.
  eexists (mkWorker None tier), [WThreadShutdown; WThreadShutdown; WClosed; WSend (WmShutdown OtherReason); WSend NonePending].
  split; [|split; [reflexivity|]].
  - unfold handle_scheduler_cmd, handle_vm_evt. cbn. rewrite bool_decide_true by done. reflexivity.
  - eexists. split; [apply (session_shutdown_vm_shutdown s h OtherReason [RAction (AWorkerMessage (Some NonePending))]); done|].
    intros x b Hin. repeat (apply elem_of_cons in Hin as [Hin | Hin]; [done|]). by apply not_elem_of_nil in Hin.
Qed.
End worker.

Lemma complete_panics_session_witness :
  ∃ tr', session_shutdown (H := ex_calendar) (HashOrder0 := list_order) (ex_loaded (Some (ex_worker 5)))
      [RSent true; RAction (AWorkerMessage (Some (WmShutdown OtherReason))); RAction (AWorkerMessage (Some NonePending))] = Panicked tr' ∧
    ∀ x b, EReturnWorker x b ∉ tr'.
Proof.
  destruct (complete_panics_session (H := ex_calendar) (HashOrder0 := list_order) (mkWorker (Some 7) None) 7
    (ex_loaded (Some (ex_worker 5))) (ex_worker 5)) as (w' & tr & _ & Hm & tr' & Hp & Hn).
  - reflexivity.
  - reflexivity.
  - reflexivity.
  - reflexivity.
  - exists tr'. rewrite Hm in Hp. split; [exact Hp|exact Hn].
Defined.

(** A worker that is asked for a vm, dispatches an event and is stopped. *)
Example worker_life :
  let req := mkCreateVm 3 None 7 [] in
  let evt := mkDispatch "E" 4 JNull in
  ∃ w tr, worker_run worker_new
      [WSchedulerMsg (Some (CreateScriptsVm req)); WWritten true; WSchedulerMsg (Some (Dispatch evt));
       WVmEvt (Some (7, DispatchedEvent 4)); WWritten true; WVmEvt (Some (7, VmFinished)); WTryRuntime None; WWritten true;
       WSchedulerMsg (Some MsgShutdown); WThreadClosed] = Done w [] tr ∧
    messages tr = [Ack 3; Ack 4; NonePending].
Proof. vm_compute. by eexists _, _. Qed.
