(* ===== verification/Metrics.v ===== *)
(** Metrics of a worker, counted by the scheduler ([cmd/vmworker/src/metrics_forwarder.rs] and the
    [handle_metric] of [VmSession]).

    A worker has no metrics of its own: each operation on a counter or gauge is a message, which
    the session that has the worker applies to the scheduler's recorder under the guild's label.
    The recorder and the addition of floats are interfaces. *)
From stdpp Require Import base gmap list strings pretty.
From S2P Require Import Prelude Models WorkerPool Commands World IntervalTimers ScheduledTasks VmSession VmThread.

(** [-value] flips the sign bit. *)
Definition f64_neg (x : f64) : f64 := F64 (Z.lxor (f64_bits x) (2 ^ 63)).

Class FloatArith := { f64_add : f64 → f64 → f64; f64_sub : f64 → f64 → f64 }.
(** IEEE 754: a difference is the sum with the negated operand. *)
Class FloatLaws `{FloatArith} := sub_is_add x y : f64_sub x y = f64_add x (f64_neg y).

(** * The worker's side *)

Record Key := mkKey { k_name : string; k_labels : list (string * string) }.

(** The operations of [GaugeFn] and [CounterFn]. *)
Inductive MetricOp :=
| OpGaugeIncrement (x : f64)
| OpGaugeDecrement (x : f64)
| OpGaugeSet (x : f64)
| OpCounterIncrement (n : Z)
| OpCounterAbsolute (n : Z).

Definition metric_event (o : MetricOp) : MetricEvent :=
  match o with
  | OpGaugeIncrement x => Gauge (GaugeIncr x)
  | OpGaugeDecrement x => Gauge (GaugeIncr (f64_neg x))
  | OpGaugeSet x => Gauge (GaugeSet x)
  | OpCounterIncrement n => Counter (CounterIncr n)
  | OpCounterAbsolute n => Counter (CounterAbsolute n)
  end.

Definition key_labels_to_hash_map (labels : list (string * string)) : gmap string string :=
  fold_left (λ m kv, <[kv.1 := kv.2]> m) labels ∅.

Section metrics.
Context `{Calendar} `{!HashOrder string} `{FloatArith}.

Definition send_metric_event (k : Key) (o : MetricOp) : WorkerMessage :=
  Metric (k_name k) (metric_event o) (hiter (key_labels_to_hash_map (k_labels k))).

(** * The recorder *)

Record Value := mkValue { v_gauge : f64; v_counter : Z }.

(** What a recorder does to a metric's value; a counter is a wrapping [u64], and [absolute] never
    lowers it. *)
Definition apply_op (o : MetricOp) (v : Value) : Value :=
  match o with
  | OpGaugeIncrement x => mkValue (f64_add (v_gauge v) x) (v_counter v)
  | OpGaugeDecrement x => mkValue (f64_sub (v_gauge v) x) (v_counter v)
  | OpGaugeSet x => mkValue x (v_counter v)
  | OpCounterIncrement n => mkValue (v_gauge v) ((v_counter v + n) mod 2 ^ 64)
  | OpCounterAbsolute n => mkValue (v_gauge v) (v_counter v `max` n)
  end.

(** The end of [handle_metric]: the event is an operation on the scheduler's recorder. *)
Definition event_op (m : MetricEvent) : MetricOp :=
  match m with
  | Gauge (GaugeSet x) => OpGaugeSet x
  | Gauge (GaugeIncr x) => OpGaugeIncrement x
  | Counter (CounterIncr n) => OpCounterIncrement n
  | Counter (CounterAbsolute n) => OpCounterAbsolute n
  end.

Definition record_call (e : Ev) (v : Value) : Value :=
  match e with EMetric _ m _ => apply_op (event_op m) v | _ => v end.

(** The labels under which the scheduler records. *)
Definition guild_labels (s : Session) (k : Key) : list (string * string) :=
  hiter (key_labels_to_hash_map (k_labels k)) ++ [("guild_id", pretty (s_guild_id s))].

(** * Facts *)

Lemma replay `{!FloatLaws} s k ops tape :
  ∃ calls, afold handle_worker_msg (send_metric_event k <$> ops) s tape = Done s tape calls ∧
    calls = (λ o, EMetric (k_name k) (metric_event o) (guild_labels s k)) <$> ops ∧
    ∀ v, fold_left (λ v e, record_call e v) calls v = fold_left (λ v o, apply_op o v) ops v.
Proof.
  induction ops as [|o ops IH]; [by eexists|]. destruct IH as (calls & Hrun & -> & Hv).
  eexists. split; [|split; [reflexivity|]].
  - cbn [fmap list_fmap afold]. unfold abind at 1. cbn [handle_worker_msg send_metric_event]. unfold handle_metric, emit, abind at 1, aret at 1.
    simpl. rewrite Hrun. done.
  - intros v. simpl. rewrite <- Hv. f_equal. by destruct o; simpl; rewrite ?sub_is_add.
Qed.

Lemma increments_sum (l : list Z) v :
  v_counter (fold_left (λ v o, apply_op o v) (OpCounterIncrement <$> l) v) mod 2 ^ 64 =
  (v_counter v + foldr Z.add 0 l) mod 2 ^ 64.
Proof.
  revert v. induction l as [|n l IH]; intros v; simpl; [by rewrite Z.add_0_r|]. rewrite IH. simpl.
  rewrite Zplus_mod_idemp_l. f_equal. lia.
Qed.

(** * Properties *)

(** What the scheduler records for a guild's worker is what the worker did: every operation
    on a metric becomes one call of the scheduler's recorder, in order, under the same name and
    the guild's label, and the value there is the one a recorder of the worker would have. *)
Theorem metrics_replayed `{!FloatLaws} s k ops v tape :
  ∃ calls, afold handle_worker_msg (send_metric_event k <$> ops) s tape = Done s tape calls ∧
    calls = (λ o, EMetric (k_name k) (metric_event o) (guild_labels s k)) <$> ops ∧
    fold_left (λ v e, record_call e v) calls v = fold_left (λ v o, apply_op o v) ops v.
Proof. destruct (replay s k ops tape) as (calls & ? & ? & ?). by exists calls. Qed.

(** The tracker callback of the vm thread's cell: [dur.as_micros()]. *)
Definition cpu_message (dur : Z) : WorkerMessage :=
  send_metric_event (mkKey "bl.vm.cpu_microseconds_total" []) (OpCounterIncrement (dur / 1000)).

(** The cpu time of a guild's scripts: isolate guards that do not overlap add the whole
    microseconds each of them was held to the guild's counter. *)
Theorem cpu_time_counted `{!FloatLaws} s ts c tape :
  entered c = false →
  ∃ c' durs calls, with_guards ts c = Ret c' ∧ reported c' = reported c ++ durs ∧
    afold handle_worker_msg (cpu_message <$> durs) s tape = Done s tape calls ∧
    ∀ v, v_counter (fold_left (λ v e, record_call e v) calls v) mod 2 ^ 64 =
      (v_counter v + foldr Z.add 0 ((λ t, (t.2 - t.1) / 1000) <$> ts)) mod 2 ^ 64.
Proof.
  intros Hc. destruct (with_guards_spec ts c Hc) as (c' & Hrun & _ & Hr).
  destruct (replay s (mkKey "bl.vm.cpu_microseconds_total" []) (OpCounterIncrement <$> ((λ t, (t.2 - t.1) / 1000) <$> ts)) tape)
    as (calls & Hcalls & _ & Hv).
  exists c', ((λ t, t.2 - t.1) <$> ts), calls. split_and!; [done|done| |].
  - rewrite <- Hcalls. f_equal. rewrite <- !list_fmap_compose. done.
  - intros v. by rewrite Hv, increments_sum.
Qed.
End metrics.
