(* ===== verification/SimpleProto.v ===== *)
(** The wire protocol between broker, scheduler and workers ([components/simpleproto/src/lib.rs]):
    every message is its JSON text, preceded by its length as four big-endian bytes.

    A stream is the list of its bytes. serde_json is an interface, [Serde]. *)
From stdpp Require Import base list.
From S2P Require Import Prelude.

Class Serde (T : Type) := {
  to_json : T → option (list Z);
  from_json : list Z → option T;
}.

(** What the protocol relies on: what serde writes it reads back. *)
Class SerdeLaws (T : Type) `{Serde T} : Prop := {
  json_roundtrip : ∀ (m : T) l, to_json m = Some l → from_json l = Some m;
}.

Definition u32_to_be (n : Z) : list Z :=
  [(n / 2 ^ 24) mod 256; (n / 2 ^ 16) mod 256; (n / 2 ^ 8) mod 256; n mod 256].

Definition u32_of_be (a b c d : Z) : Z := a * 2 ^ 24 + b * 2 ^ 16 + c * 2 ^ 8 + d.

Section proto.
Context {T : Type} `{Serde T}.

(** [None] is an [io::Error]. *)
Definition write_message (msg : T) : outcome (option (list Z)) :=
  match to_json msg with
  | None => Ret None
  | Some encoded =>
      if Z.of_nat (length encoded) <? 0xffffffff
      then Ret (Some (u32_to_be (Z.of_nat (length encoded)) ++ encoded))
      else Panic
  end.

(** [None]: the stream ended early or the payload does not decode. *)
Definition read_message (src : list Z) : option (T * list Z) :=
  match src with
  | a :: b :: c :: d :: src =>
      let len := Z.to_nat (u32_of_be a b c d) in
      if bool_decide (len ≤ length src)%nat
      then decoded ← from_json (take len src); Some (decoded, drop len src)
      else None
  | _ => None
  end.

(** [message_writer]: writes the messages of its channel up to the first error. *)
Fixpoint message_writer (msgs : list T) : outcome (list Z * bool) :=
  match msgs with
  | [] => Ret ([], true)
  | next :: msgs =>
      do! r := write_message next in
      match r with
      | None => Ret ([], false)
      | Some bytes => do! (rest, ok) := message_writer msgs in Ret (bytes ++ rest, ok)
      end
  end.

(** [message_reader]: sends on what it reads, up to the first error; every message takes at
    least its four length bytes, so the stream's length bounds their number. *)
Fixpoint read_all (fuel : nat) (src : list Z) : list T :=
  match fuel with
  | O => []
  | S fuel =>
      match read_message src with
      | Some (msg, src) => msg :: read_all fuel src
      | None => []
      end
  end.

Definition message_reader (src : list Z) : list T := read_all (length src) src.

(** * Facts *)

Lemma u32_be_roundtrip n :
  0 ≤ n < 2 ^ 32 →
  u32_of_be ((n / 2 ^ 24) mod 256) ((n / 2 ^ 16) mod 256) ((n / 2 ^ 8) mod 256) (n mod 256) = n.
Proof.
  intros Hn. unfold u32_of_be. change (2 ^ 24) with (256 * (256 * 256)). change (2 ^ 16) with (256 * 256).
  change (2 ^ 8) with 256. change (2 ^ 32) with (256 * (256 * (256 * 256))) in Hn.
  rewrite <- !Z.div_div by lia.
  pose proof (Z.div_mod n 256). pose proof (Z.div_mod (n / 256) 256). pose proof (Z.div_mod (n / 256 / 256) 256).
  assert (0 ≤ n / 256 / 256 / 256 < 256) as Hlt.
  { split; [repeat apply Z.div_pos; lia|]. repeat (apply Z.div_lt_upper_bound; [lia|]). lia. }
  rewrite (Z.mod_small (n / 256 / 256 / 256) 256) by done. lia.
Qed.

Lemma write_message_Some msg bytes :
  write_message msg = Ret (Some bytes) →
  ∃ encoded, to_json msg = Some encoded ∧ Z.of_nat (length encoded) < 0xffffffff ∧
    bytes = u32_to_be (Z.of_nat (length encoded)) ++ encoded.
Proof.
  unfold write_message. destruct (to_json msg) as [encoded|]; [|done].
  destruct (Z.ltb_spec (Z.of_nat (length encoded)) 0xffffffff); [|done]. intros [= <-]. eauto.
Qed.

Context `{!SerdeLaws T}.

Lemma read_written msg bytes rest :
  write_message msg = Ret (Some bytes) → read_message (bytes ++ rest) = Some (msg, rest).
Proof.
  intros (encoded & Hj & Hlen & ->)%write_message_Some. unfold u32_to_be. cbn [app read_message].
  rewrite u32_be_roundtrip by lia. rewrite Nat2Z.id, length_app, bool_decide_true by lia.
  rewrite take_app_length, drop_app_length, (json_roundtrip msg encoded Hj). done.
Qed.

Lemma write_message_length msg bytes : write_message msg = Ret (Some bytes) → (4 ≤ length bytes)%nat.
Proof. intros (encoded & _ & _ & ->)%write_message_Some. rewrite length_app. simpl. lia. Qed.

Lemma read_all_written msgs bytes fuel :
  message_writer msgs = Ret (bytes, true) → (length bytes ≤ fuel)%nat → read_all fuel bytes = msgs.
Proof.
  revert bytes fuel. induction msgs as [|msg msgs IH]; intros bytes fuel; simpl.
  - intros [= <-] _. by destruct fuel.
  - destruct (write_message msg) as [[b|]|] eqn:Hw; [|done..]. simpl.
    destruct (message_writer msgs) as [[rest ok]|]; [|done]. simpl. intros [= <- ->] Hf.
    pose proof (write_message_length msg b Hw). rewrite length_app in Hf. destruct fuel as [|fuel]; [lia|].
    simpl. rewrite (read_written msg b rest Hw). f_equal. apply IH; [done|lia].
Qed.

(** * Properties *)

(** C31: The protocol is lossless: what [message_writer] has put on the stream, [message_reader]
    takes off it, all messages and in order; and reading takes exactly one message's bytes, so
    what follows on the stream is read next. *)
Theorem stream_roundtrip msgs bytes msg b rest :
  message_writer msgs = Ret (bytes, true) → write_message msg = Ret (Some b) →
  message_reader bytes = msgs ∧ read_message (b ++ rest) = Some (msg, rest).
Proof. intros Hm Hw. split; [by apply read_all_written|by apply read_written]. Qed.

(** A stream that was cut off yields no message that was not sent whole: of a truncated
    message nothing is read. *)
Theorem truncated_message_rejected msg b k :
  write_message msg = Ret (Some b) → (k < length b)%nat → read_message (take k b) = None.
Proof.
  intros (encoded & Hj & Hlen & ->)%write_message_Some Hk. unfold u32_to_be in *. cbn [app] in *.
  destruct k as [|[|[|[|k]]]]; [done..|]. cbn [take read_message].
  rewrite u32_be_roundtrip by lia. rewrite Nat2Z.id, bool_decide_false; [done|].
  rewrite length_take. simpl in Hk. lia.
Qed.
End proto.

(** Messages that are bytes already. *)
#[global] Instance ex_serde : Serde (list bool) :=
  {| to_json l := Some ((λ b : bool, if b then 1 else 0) <$> l); from_json l := Some ((λ z, bool_decide (z = 1)) <$> l) |}.

#[global] Instance ex_serde_laws : SerdeLaws (list bool).
Proof.
  split. intros m l [= <-]. simpl. f_equal. induction m as [|[] m IH]; [done|..]; rewrite !fmap_cons; f_equal; done.
Qed.

Lemma stream_roundtrip_witness :
  message_reader [0; 0; 0; 1; 1; 0; 0; 0; 0; 0; 0; 0; 2; 0; 1] = [[true]; []; [false; true]].
Proof.
  apply (stream_roundtrip [[true]; []; [false; true]] [0; 0; 0; 1; 1; 0; 0; 0; 0; 0; 0; 0; 2; 0; 1] [true] [0; 0; 0; 1; 1] []);
    reflexivity.
Defined.

Lemma truncated_message_rejected_witness :
  read_message (T := list bool) (take 4 [0; 0; 0; 1; 1]) = None.
Proof. apply (truncated_message_rejected [true] [0; 0; 0; 1; 1] 4); [reflexivity|simpl; lia]. Defined.
