(* ===== verification/Startup.v ===== *)
(** How the processes come up: what the scheduler and the workers fetch from Discord
    ([components/common/src/discord.rs]), the workers the scheduler starts
    ([cmd/scheduler/src/main.rs]), and the socket on which they announce themselves
    ([cmd/vmworker/src/main.rs], [connect_scheduler]; [cmd/scheduler/src/worker_listener.rs]).

    A connection is the bytes the worker writes first, in the wire protocol of [SimpleProto]. *)
From stdpp Require Import base gmap sets list strings.
From S2P Require Import Prelude Models WorkerPool SimpleProto.

(** * components/common/src/discord.rs *)

Section discord.
(** twilight's types of the answers, and its errors. *)
Context {CurrentUser User HttpError : Type}.

Record Application := mkApplication { ap_id : Z; ap_team : option (list User); ap_owner : option User }.

Record DiscordConfig := mkDiscordConfig {
  dc_bot_user : CurrentUser;
  dc_application : Application;
  dc_owners : list User;
}.

(** An answer of the API: an error of the request, or a body, decoded if it can be. *)
Definition Answer (A : Type) : Type := result HttpError (option A).

Definition owners_of (application : Application) : list User :=
  match ap_team application with
  | Some members => members
  | None => match ap_owner application with Some owner => [owner] | None => [] end
  end.

Definition fetch_discord_config (current_user : Answer CurrentUser) (current_application : Answer Application)
    : outcome (result HttpError DiscordConfig) :=
  match current_user with
  | Err e => Ret (Err e)
  | Ok body =>
      do! bot_user := unwrap body in
      match current_application with
      | Err e => Ret (Err e)
      | Ok body =>
          do! application := unwrap body in
          Ret (Ok (mkDiscordConfig bot_user application (owners_of application)))
      end
  end.
End discord.

(** * Starting the workers *)

Section workers.
Context `{Serde WorkerMessage}.

(** [connect_scheduler], up to the two tasks it leaves: the bytes of its greeting. *)
Definition connect_scheduler (worker_id : Z) : outcome (list Z) :=
  do! r := write_message (Hello worker_id) in unwrap r.

(** [handle_stream]: a first message that is not a greeting, or cannot be read, ends the
    connection. *)
Definition handle_stream (alive : nat → bool) (t1 t2 : Z) (stream : list Z) (st : PoolInner)
    : outcome (option (AddWorker * WorkerHandle) * PoolInner) :=
  match read_message stream with
  | Some (Hello id, _) => worker_connected alive t1 t2 id st
  | _ => Ret (None, st)
  end.

(** The connections that [listen_for_workers] accepts, with the clock's readings for each. *)
Fixpoint handle_streams (alive : nat → bool) (conns : list (Z * Z * list Z)) (st : PoolInner) : outcome PoolInner :=
  match conns with
  | [] => Ret st
  | (t1, t2, stream) :: conns =>
      do! (_, st) := handle_stream alive t1 t2 stream st in handle_streams alive conns st
  end.

(** The numbers of workers of [SchedulerConfig], [u16]s. *)
Record NumWorkers := mkNumWorkers { num_workers_free : nat; num_workers_lite : nat; num_workers_premium : nat }.

(** The part of [main] that starts them. *)
Definition start_workers (c : NumWorkers) (st : PoolInner) : outcome PoolInner :=
  do! st := spawn_workers None (num_workers_free c) st in
  do! st := spawn_workers (Some Lite) (num_workers_lite c) st in
  spawn_workers (Some Premium) (num_workers_premium c) st.

Definition num_workers (c : NumWorkers) (tier : nat) : nat :=
  match tier with
  | O => num_workers_free c
  | S O => num_workers_lite c
  | S (S O) => num_workers_premium c
  | _ => O
  end.

(** * Facts *)

Definition pending_of (i : nat) (m : gmap Z PendingWorkerHandle) : gmap Z PendingWorkerHandle :=
  filter (λ kp : Z * PendingWorkerHandle, pw_priority_index kp.2 = i) m.

(** The workers of a tier, connected or not. *)
Definition tier_count (i : nat) (st : PoolInner) : nat :=
  length (pool_at (pools st) i) + size (pending_of i (pending_starts st)).

(** A pool in which nobody waits and nobody has asked for a worker yet. *)
Record starting (st : PoolInner) : Prop := {
  sg_pools : length (pools st) = 3%nat;
  sg_queues : req_queues st = replicate 3 [];
  sg_gen : 0 < worker_id_gen st;
  sg_ids id p : pending_starts st !! id = Some p → id ≤ worker_id_gen st ∧ pw_worker_id p = id ∧ (pw_priority_index p ≤ 2)%nat;
}.

Lemma pending_insert i id p m :
  m !! id = None → size (pending_of i (<[id := p]> m)) = ((if decide (pw_priority_index p = i) then 1 else 0) + size (pending_of i m))%nat.
Proof.
  intros Hm. unfold pending_of. case_decide as Hi.
  - rewrite map_filter_insert_True by done. rewrite map_size_insert_None; [done|]. rewrite map_lookup_filter, Hm. done.
  - rewrite map_filter_insert_False by done. by rewrite delete_id.
Qed.

Lemma pending_delete i id p m :
  m !! id = Some p → size (pending_of i m) = ((if decide (pw_priority_index p = i) then 1 else 0) + size (pending_of i (delete id m)))%nat.
Proof.
  intros Hm. rewrite <- (insert_delete_id m id p Hm) at 1. apply pending_insert, lookup_delete_eq.
Qed.

Lemma spawn_one tier st :
  (tier ≤ 2)%nat → starting st → worker_id_gen st < u64_max →
  ∃ st', spawn_worker tier st = Ret st' ∧ starting st' ∧ worker_id_gen st' = worker_id_gen st + 1 ∧
    ∀ i, tier_count i st' = ((if decide (tier = i) then 1 else 0) + tier_count i st)%nat.
Proof.
  intros Ht Hst Hg. destruct (Hst) as [Hp Hq Hpos Hids]. unfold spawn_worker, gen_id, u64_incr.
  rewrite (proj2 (Z.ltb_lt _ _) Hg). simpl. eexists. split; [done|]. split_and!; [|done|].
  - constructor; simpl; [done|done|lia|]. intros id p [[<- <-]|[_ Hl]]%lookup_insert_Some; [simpl; by split_and!|].
    destruct (Hids id p Hl) as (? & ? & ?). split_and!; [lia|done|done].
  - intros i. unfold tier_count. simpl. rewrite pending_insert; [simpl; lia|].
    destruct (pending_starts st !! _) eqn:Hl; [|done]. destruct (Hids _ _ Hl). lia.
Qed.

Lemma spawn_many n tier st :
  (tier ≤ 2)%nat → starting st → worker_id_gen st + Z.of_nat n ≤ u64_max →
  ∃ st', spawn_n n tier st = Ret st' ∧ starting st' ∧ worker_id_gen st' = worker_id_gen st + Z.of_nat n ∧
    ∀ i, tier_count i st' = ((if decide (tier = i) then n else 0) + tier_count i st)%nat.
Proof.
  intros Ht. revert st. induction n as [|n IH]; intros st Hst Hg; cbn [spawn_n].
  { exists st. split_and!; [done|done|lia|]. intros i. by case_decide. }
  destruct (spawn_one tier st Ht Hst ltac:(lia)) as (st1 & -> & Hst1 & Hg1 & Hc1). cbn [outcome_bind].
  destruct (IH st1 Hst1 ltac:(lia)) as (st2 & -> & Hst2 & Hg2 & Hc2). exists st2. split_and!; [done|done|lia|].
  intros i. rewrite Hc2, Hc1. case_decide; lia.
Qed.

Lemma pool_new_starting : starting pool_new.
Proof. constructor; simpl; [done|done|lia|]. intros id p. by rewrite lookup_empty. Qed.

Lemma start_workers_spec c :
  2 + Z.of_nat (num_workers_free c + num_workers_lite c + num_workers_premium c) ≤ u64_max →
  ∃ st, start_workers c pool_new = Ret st ∧ starting st ∧ ∀ i, tier_count i st = num_workers c i.
Proof.
  intros Hn. unfold start_workers, spawn_workers. cbn [premium_tier_index].
  destruct (spawn_many (num_workers_free c) 0 pool_new) as (st1 & -> & Hst1 & Hg1 & Hc1);
    [lia|exact pool_new_starting|simpl; lia|]. cbn [outcome_bind]. simpl in Hg1.
  destruct (spawn_many (num_workers_lite c) 1 st1) as (st2 & -> & Hst2 & Hg2 & Hc2); [lia|done|lia|]. cbn [outcome_bind].
  destruct (spawn_many (num_workers_premium c) 2 st2) as (st3 & Hr & Hst3 & Hg3 & Hc3); [lia|done|lia|].
  exists st3. split_and!; [done|done|]. intros i. rewrite Hc3, Hc2, Hc1.
  assert (tier_count i pool_new = 0%nat) as -> by (unfold tier_count; simpl; by destruct i as [|[|[|i]]]).
  destruct i as [|[|[|i]]]; simpl; lia.
Qed.

(** Nobody waits: a worker that connects goes to the pool of its tier. *)
Lemma connected_pools alive t1 t2 id p st :
  starting st → pending_starts st !! id = Some p →
  ∃ w st', worker_connected alive t1 t2 id st = Ret (Some (Pooled, w), st') ∧ starting st' ∧
    pending_starts st' = delete id (pending_starts st) ∧ ∀ i, tier_count i st' = tier_count i st.
Proof.
  intros [Hp Hq Hpos Hids] Hid. destruct (Hids id p Hid) as (_ & _ & Hi). unfold worker_connected. rewrite Hid.
  set (w := init_worker_handles p t1 t2).
  assert (hand_over alive w (replicate 3 []) MAX_PREMIUM_SLOT_TIER = Ret (None, replicate 3 [])) as Hh.
  { unfold w. simpl. destruct (pw_priority_index p) as [|[|[|i]]]; [done..|lia]. }
  unfold add_worker_to_pool. cbn [set_pending req_queues]. rewrite Hq, Hh. cbn [outcome_bind].
  destruct (lookup_lt_is_Some_2 (pools st) (priority_index w)) as [l Hl]; [unfold w; simpl; lia|].
  cbn [set_pending pools]. rewrite Hl. simpl. eexists w, _. split; [done|]. split_and!; [|done|].
  - constructor; simpl; [by rewrite length_insert|done|done|]. intros id' p' [_ Hl']%lookup_delete_Some. by apply Hids.
  - intros i. unfold tier_count, pool_at. simpl. rewrite (pending_delete i id p _ Hid).
    change (pw_priority_index p) with (priority_index w). case_decide as He.
    + subst i. rewrite list_lookup_insert_eq by (eapply lookup_lt_Some; exact Hl). rewrite Hl. simpl. rewrite length_app. simpl. lia.
    + rewrite list_lookup_insert_ne by done. lia.
Qed.

Lemma read_greeting `{!SerdeLaws WorkerMessage} id greeting rest :
  connect_scheduler id = Ret greeting → read_message (greeting ++ rest) = Some (Hello id, rest).
Proof.
  unfold connect_scheduler. destruct (write_message (Hello id)) as [[b|]|] eqn:Hw; simpl; [|done..].
  intros [= <-]. by apply read_written.
Qed.

(** Who is at the other end: a worker that greets with its id, or somebody whose first message
    is no greeting of a worker in [known]. *)
Definition announces (known : gset Z) (who : option Z) (conn : Z * Z * list Z) : Prop :=
  match who with
  | Some id => ∃ greeting rest, connect_scheduler id = Ret greeting ∧ conn.2 = greeting ++ rest
  | None => ∀ id rest, read_message conn.2 = Some (Hello id, rest) → id ∉ known
  end.

Lemma stray_ignored known alive conn st :
  announces known None conn → dom (pending_starts st) ⊆ known →
  handle_stream alive conn.1.1 conn.1.2 conn.2 st = Ret (None, st).
Proof.
  intros Ha Hd. unfold handle_stream. destruct (read_message conn.2) as [[m rest]|] eqn:Hr; [|done].
  destruct m; try done. unfold worker_connected. destruct (pending_starts st !! _) eqn:Hl; [|done].
  exfalso. apply (Ha _ _ Hr), Hd. by apply elem_of_dom_2 in Hl.
Qed.

Lemma connections `{!SerdeLaws WorkerMessage} known alive who conns st :
  starting st → dom (pending_starts st) ⊆ known → Forall2 (announces known) who conns →
  NoDup (omap id who) → (∀ wid, wid ∈ omap id who → is_Some (pending_starts st !! wid)) →
  ∃ st', handle_streams alive conns st = Ret st' ∧
    dom (pending_starts st') = dom (pending_starts st) ∖ list_to_set (omap id who) ∧
    ∀ i, tier_count i st' = tier_count i st.
Proof.
  intros Hst Hd Hall. revert st Hst Hd. induction Hall as [|w conn who conns Ha Hall IH]; intros st Hst Hd Hnd Hin; simpl.
  { exists st. split_and!; [done| |done]. simpl. set_solver. }
  destruct conn as [[t1 t2] stream]. destruct w as [wid|]; simpl in Hnd, Hin |- *.
  - apply NoDup_cons in Hnd as [Hni Hnd]. destruct (Hin wid ltac:(by left)) as [p Hp].
    destruct Ha as (greeting & rest & Hg & Hs). simpl in Hs. subst stream.
    unfold handle_stream. rewrite (read_greeting _ _ _ Hg).
    destruct (connected_pools alive t1 t2 wid p st Hst Hp) as (w & st1 & -> & Hst1 & Hp1 & Hc1). cbn [outcome_bind].
    destruct (IH st1 Hst1) as (st2 & Hr2 & Hd2 & Hc2); [rewrite Hp1, dom_delete_L; set_solver|done| |].
    { intros id Hid. rewrite Hp1, lookup_delete_ne; [apply Hin; by right|]. by intros <-. }
    exists st2. split_and!; [done| |]; [|by intros i; rewrite Hc2]. rewrite Hd2, Hp1, dom_delete_L. set_solver.
  - pose proof (stray_ignored known alive (t1, t2, stream) st Ha Hd) as Hs. simpl in Hs. rewrite Hs. cbn [outcome_bind]. by apply IH.
Qed.

(** * Properties *)

(** The workers come up: after the scheduler has started its workers and each of them has
    announced itself once, in whatever order and whoever else connects in between, no worker is
    awaited any more and the pool of every tier holds the number of workers configured for it. *)
Theorem startup_fills_pools `{!SerdeLaws WorkerMessage} alive c :
  Z.of_nat (num_workers_free c) ≤ 65535 → Z.of_nat (num_workers_lite c) ≤ 65535 → Z.of_nat (num_workers_premium c) ≤ 65535 →
  ∃ st, start_workers c pool_new = Ret st ∧
    ∀ who conns, omap id who ≡ₚ (map_to_list (pending_starts st)).*1 →
      Forall2 (announces (dom (pending_starts st))) who conns →
      ∃ st', handle_streams alive conns st = Ret st' ∧ pending_starts st' = ∅ ∧
        ∀ i, length (pool_at (pools st') i) = num_workers c i.
Proof.
  intros Hf Hl Hp. destruct (start_workers_spec c) as (st & Hrun & Hst & Hc); [unfold u64_max; lia|].
  exists st. split; [done|]. intros who conns Hids Hall.
  assert (∀ wid, wid ∈ omap id who ↔ is_Some (pending_starts st !! wid)) as Hin.
  { intros wid. rewrite Hids. split.
    - intros ([k p] & -> & Hk)%list_elem_of_fmap. apply elem_of_map_to_list in Hk. by eexists.
    - intros [p Hk]. apply list_elem_of_fmap. exists (wid, p). split; [done|]. by apply elem_of_map_to_list. }
  destruct (connections (dom (pending_starts st)) alive who conns st Hst) as (st' & Hrun' & Hd & Hc'); [done|done| |by intros id ?%Hin|].
  { rewrite Hids. apply NoDup_fst_map_to_list. }
  assert (pending_starts st' = ∅) as He.
  { apply (dom_empty_inv_L (D := gset Z)). rewrite Hd. apply elem_of_equiv_empty_L. intros wid [Hid Hn]%elem_of_difference.
    apply Hn, elem_of_list_to_set, Hin. by apply elem_of_dom. }
  exists st'. split_and!; [done|done|]. intros i. rewrite <- Hc, <- (Hc' i). unfold tier_count. rewrite He.
  unfold pending_of. rewrite map_filter_empty, map_size_empty. lia.
Qed.
End workers.

(** ** Instances *)

(** A serde of greetings. *)
Definition ex_hello : Serde WorkerMessage := {|
  to_json m := match m with Hello id => Some [id] | _ => None end;
  from_json l := match l with [id] => Some (Hello id) | _ => None end;
|}.
#[global] Instance ex_hello_laws : SerdeLaws (H := ex_hello) WorkerMessage.
Proof. constructor. intros m l. destruct m; try done. by intros [= <-]. Qed.

(** Two free workers and a premium one; they connect in reverse, with a stranger among them. *)
Definition ex_numbers : NumWorkers := mkNumWorkers 2 0 1.
Definition ex_conns : list (Z * Z * list Z) :=
  [(5, 6, [0; 0; 0; 1; 4]); (6, 7, [0; 0; 0; 9]); (7, 8, [0; 0; 0; 1; 3]); (8, 9, [0; 0; 0; 1; 2; 77])].

Lemma startup_fills_pools_witness :
  ∃ st st', start_workers ex_numbers pool_new = Ret st ∧ handle_streams (H := ex_hello) (λ _, true) ex_conns st = Ret st' ∧
    (∀ i, length (pool_at (pools st') i) = num_workers ex_numbers i) ∧ worker_id <$> pool_at (pools st') 0 = [3; 2].
Proof.
  destruct (startup_fills_pools (H := ex_hello) (λ _, true) ex_numbers) as (st & Hst & Hall); [simpl; lia..|].
  assert (st = mkPool 4 (<[4 := mkPending 4 2]> (<[3 := mkPending 3 0]> (<[2 := mkPending 2 0]> ∅))) (replicate 3 []) (replicate 3 [])) as ->
    by (vm_compute in Hst; injection Hst as <-; reflexivity).
  destruct (Hall [Some 4; None; Some 3; Some 2] ex_conns) as (st' & Hrun & _ & Hp).
  - vm_compute. apply perm_swap.
  - repeat constructor.
    + eexists _, []. by split.
    + intros id rest Hr. vm_compute in Hr. discriminate Hr.
    + eexists _, []. by split.
    + eexists _, [77]. by split.
  - exists (mkPool 4 (<[4 := mkPending 4 2]> (<[3 := mkPending 3 0]> (<[2 := mkPending 2 0]> ∅))) (replicate 3 []) (replicate 3 [])), st'.
    split_and!; [exact Hst|exact Hrun|exact Hp|]. vm_compute in Hrun. injection Hrun as <-. reflexivity.
Defined.
