(* ===== verification/Broker.v ===== *)
(** The broker ([cmd/discordbroker/src/broker.rs]): it receives all events from Discord's
    gateway and forwards the guild events to the scheduler that is connected, queueing them
    while none is.

    An event of the gateway is its kind and guild; what the stores and the connection answer
    comes from the environment. The in-memory cache of Discord's state is an interface,
    [GuildCache]: the broker feeds it every event and reads the guilds from it. *)
From stdpp Require Import base list strings.
From S2P Require Import Prelude.

(** [twilight_gateway::Event], as far as the broker distinguishes it: the events of a guild
    that always name it, the ones that may not (a direct message), and the rest. *)
Inductive GuildEventName :=
| MemberAdd | MemberRemove | MemberUpdate | ReactionRemoveEmoji | ThreadDelete.
Inductive MaybeGuildEventName :=
| MessageCreate | MessageDelete | MessageDeleteBulk | MessageUpdate
| ReactionAdd | ReactionRemove | ReactionRemoveAll | InteractionCreate
| ChannelCreate | ChannelUpdate | ChannelDelete | ThreadCreate | ThreadUpdate.

(** [payload] identifies the event. *)
Inductive Event :=
| EvReady
| EvGuildDelete (id : Z) (unavailable : bool) (payload : nat)
| EvGuildCreate (id : Z) (payload : nat)
| EvGuild (n : GuildEventName) (guild : Z) (payload : nat)
| EvMaybeGuild (n : MaybeGuildEventName) (guild : option Z) (payload : nat)
| EvOther (payload : nat).

(** [twilight_cache_inmemory::InMemoryCache]. *)
Class GuildCache := {
  CacheState : Type;
  cache_update : Event → CacheState → CacheState;
  cached_guilds : CacheState → list Z;
}.

Inductive BResp :=
| BNow (t : Z)
| BWritten (ok : bool)
| BAcked (ok : bool)
| BStored (ok : bool).

(** Messages written and acknowledgements read, the queue given up with the event that comes too
    late (how long after the disconnection, and what is lost), and calls of the stores. *)
Inductive BEv :=
| BWriteHello (guilds : list Z)
| BWriteEvent (guild : Z) (e : Event)
| BGotAck
| BCleared (after : Z) (lost : list (Z * Event))
| BSetLeft (guild : Z)
| BAddGuild (guild : Z).

Notation bio := (async BResp BEv).

Section broker.
Context `{GuildCache}.

(** [Broker]; [cache] is [discord_state]. *)
Record Broker := mkBroker {
  connected : bool;
  b_queue : list (Z * Event);
  disconnected_at : Z;
  b_ready : bool;
  cache : CacheState;
}.

Definition set_connected (b : Broker) (c : bool) : Broker :=
  mkBroker c (b_queue b) (disconnected_at b) (b_ready b) (cache b).
Definition set_queue (b : Broker) (q : list (Z * Event)) : Broker :=
  mkBroker (connected b) q (disconnected_at b) (b_ready b) (cache b).
Definition disconnect (b : Broker) (now : Z) : Broker :=
  mkBroker false (b_queue b) now (b_ready b) (cache b).

Definition broker_now : bio Z := await (λ r, match r with BNow t => Some t | _ => None end).

(** [send_event] and [wait_for_ack]. *)
Definition send_event (b : Broker) (e : BEv) : bio bool :=
  if connected b then
    let! _ := emit e in
    let! ok := await (λ r, match r with BWritten b => Some b | _ => None end) in
    if ok then
      let! acked := await (λ r, match r with BAcked b => Some b | _ => None end) in
      if acked : bool then emit BGotAck ;;; aret true else aret false
    else aret false
  else aret true.

Definition queue_event (guild_id : Z) (evt : Event) (b : Broker) : bio Broker :=
  let! now := broker_now in
  if bool_decide (from_secs 60 < elapsed now (disconnected_at b))
  then emit (BCleared (elapsed now (disconnected_at b)) (b_queue b ++ [(guild_id, evt)])) ;;; aret (set_queue b [])
  else aret (set_queue b (b_queue b ++ [(guild_id, evt)])).

Definition dispatch_or_queue_event (guild_id : Z) (evt : Event) (b : Broker) : bio Broker :=
  if connected b then
    let! ok := send_event b (BWriteEvent guild_id evt) in
    if ok then aret b
    else
      let! now := broker_now in
      queue_event guild_id evt (disconnect b now)
  else queue_event guild_id evt b.

(** One event of the old queue. *)
Definition resend (b : Broker) (ge : Z * Event) : bio Broker :=
  if connected b then
    let! ok := send_event b (BWriteEvent ge.1 ge.2) in
    if ok then aret b
    else
      let! now := broker_now in
      aret (disconnect (set_queue b (b_queue b ++ [ge])) now)
  else aret (set_queue b (b_queue b ++ [ge])).

Definition handle_new_scheduler_connected (b : Broker) : bio Broker :=
  let! ok := send_event b (BWriteHello (cached_guilds (cache b))) in
  let b := if ok then b else set_connected b false in
  afold resend (b_queue b) (set_queue b []).

(** [handle_cmd]: [SchedulerConnected], which replaces a connection that may be there. *)
Definition scheduler_connected (b : Broker) : bio Broker :=
  handle_new_scheduler_connected (set_connected b true).

(** [self.discord_state.update(&evt)] *)
Definition update_cache (evt : Event) (b : Broker) : Broker :=
  mkBroker (connected b) (b_queue b) (disconnected_at b) (b_ready b) (cache_update evt (cache b)).

Definition store_call (e : BEv) : bio unit :=
  let! _ := emit e in
  let! _ := await (λ r, match r with BStored b => Some b | _ => None end) in aret tt.

(** [DispatchEvent::try_from] succeeds for the events that name a guild, which are all
    dispatch events. *)
Definition handle_event (evt : Event) (b : Broker) : bio Broker :=
  let b := update_cache evt b in
  match evt with
  | EvReady => aret (mkBroker (connected b) (b_queue b) (disconnected_at b) true (cache b))
  | EvGuildDelete id unavailable _ =>
      let! _ := if unavailable then aret tt else store_call (BSetLeft id) in
      dispatch_or_queue_event id evt b
  | EvGuildCreate id _ =>
      let! _ := store_call (BAddGuild id) in
      dispatch_or_queue_event id evt b
  | EvGuild _ guild _ => dispatch_or_queue_event guild evt b
  | EvMaybeGuild _ (Some guild) _ => dispatch_or_queue_event guild evt b
  | EvMaybeGuild _ None _ => aret b
  | EvOther _ => aret b
  end.

(** [run_broker]: the state the broker starts with. *)
Definition broker_new (now : Z) (discord_state : CacheState) : Broker := mkBroker false [] now false discord_state.

(** What [run] selects: the gateway's next event or a command, [None] when the stream or channel
    has ended. *)
Inductive BrokerInput := InEvent (evt : option Event) | InCommand (cmd : option unit).

Definition broker_round (i : BrokerInput) (b : Broker) : bio Broker :=
  match i with
  | InEvent (Some evt) => handle_event evt b
  | InCommand (Some _) => scheduler_connected b
  | InEvent None | InCommand None => apanic
  end.

(** * Facts *)

(** The answers for [n] events that get through. *)
Definition delivered (n : nat) : list BResp := concat (replicate n [BWritten true; BAcked true]).

Definition exchanges (q : list (Z * Event)) : list BEv := concat ((λ ge, [BWriteEvent ge.1 ge.2; BGotAck]) <$> q).

Lemma resend_delivered q b tape :
  connected b = true →
  afold resend q b (delivered (length q) ++ tape) = Done b tape (exchanges q).
Proof.
  intros Hc. revert tape. induction q as [|ge q IH]; intros tape; [done|].
  cbn [afold length]. unfold resend at 1, send_event. rewrite Hc. cbn. unfold prepend.
  unfold delivered in IH. rewrite IH. done.
Qed.

Lemma resend_disconnected q b tape :
  connected b = false → afold resend q b tape = Done (set_queue b (b_queue b ++ q)) tape [].
Proof.
  revert b. induction q as [|ge q IH]; intros b Hc.
  - cbn. rewrite app_nil_r. by destruct b.
  - cbn [afold]. unfold resend at 1. rewrite Hc, abind_ret, IH by done. simpl. by rewrite <- app_assoc.
Qed.

Lemma afold_app {Resp Ev A St} (f : St → A → async Resp Ev St) l l' s tape :
  afold f (l ++ l') s tape = abind (afold f l s) (afold f l') tape.
Proof.
  revert s tape. induction l as [|x l IH]; intros s tape; [cbn [app afold]; by rewrite abind_ret|].
  cbn [app afold]. rewrite abind_assoc. unfold abind. destruct (f s x tape) as [a rest tr| |]; [|done..].
  f_equal. apply IH.
Qed.

Lemma hello_acked b tape :
  scheduler_connected b (BWritten true :: BAcked true :: tape) =
  prepend [BWriteHello (cached_guilds (cache b)); BGotAck]
    (afold resend (b_queue b) (mkBroker true [] (disconnected_at b) (b_ready b) (cache b)) tape).
Proof. done. Qed.

Lemma hello_failed b tape :
  scheduler_connected b (BWritten false :: tape) =
  prepend [BWriteHello (cached_guilds (cache b))]
    (afold resend (b_queue b) (mkBroker false [] (disconnected_at b) (b_ready b) (cache b)) tape).
Proof. done. Qed.

(** * Properties *)

(** A scheduler that connects first gets the connected guilds and then the queued events,
    oldest first. If the connection fails after any number of them, the events not yet
    acknowledged, and only those, are queued again in their order, and the time of the
    disconnection is now; if it does not, the queue is empty. *)
Theorem reconnect_flushes_in_order b pre ge post ok now tape :
  b_queue b = pre ++ ge :: post →
  scheduler_connected b ([BWritten true; BAcked true] ++ delivered (length pre) ++
      (if ok : bool then delivered (S (length post)) else [BWritten true; BAcked false; BNow now]) ++ tape) =
  let hello := [BWriteHello (cached_guilds (cache b)); BGotAck] in
  if ok then Done (mkBroker true [] (disconnected_at b) (b_ready b) (cache b)) tape (hello ++ exchanges (b_queue b))
  else Done (mkBroker false (ge :: post) now (b_ready b) (cache b)) tape (hello ++ exchanges pre ++ [BWriteEvent ge.1 ge.2]).
Proof.
  intros Hq. cbn [app]. rewrite hello_acked, Hq. destruct ok.
  - rewrite app_assoc. assert (delivered (length pre) ++ delivered (S (length post)) = delivered (length (pre ++ ge :: post))) as ->.
    { unfold delivered. by rewrite <- concat_app, <- replicate_add, length_app. }
    by rewrite resend_delivered.
  - rewrite afold_app. unfold abind. rewrite resend_delivered by done. cbn [app afold].
    unfold resend at 1, send_event. cbn. unfold abind. rewrite resend_disconnected by done. simpl.
    done.
Qed.

(** While no scheduler is connected, events are kept in order, for at most 60 seconds
    since the disconnection: an event that comes later drops the whole queue, itself included. *)
Theorem queue_expires guild evt b now tape :
  connected b = false →
  dispatch_or_queue_event guild evt b (BNow now :: tape) =
  Done (set_queue b (if bool_decide (now - disconnected_at b ≤ 60000000000)
                     then b_queue b ++ [(guild, evt)] else [])) tape
       (if bool_decide (now - disconnected_at b ≤ 60000000000) then [] else [BCleared (now - disconnected_at b) (b_queue b ++ [(guild, evt)])]).
Proof.
  intros Hc. unfold dispatch_or_queue_event. rewrite Hc. unfold queue_event. cbn. unfold elapsed, from_secs, nanos_per_sec.
  repeat case_bool_decide; try done; try lia. by rewrite Z.max_r by lia.
Qed.

(** An event that a connected scheduler acknowledges is sent once; one that it does not is
    queued, with the disconnection dated now, so it is not dropped. *)
Lemma unacknowledged_event_queued guild evt b now now' tape :
  connected b = true → now ≤ now' ≤ now + 60000000000 →
  dispatch_or_queue_event guild evt b (BWritten false :: BNow now :: BNow now' :: tape) =
  Done (mkBroker false (b_queue b ++ [(guild, evt)]) now (b_ready b) (cache b)) tape [BWriteEvent guild evt].
Proof.
  intros Hc Hn. unfold dispatch_or_queue_event, send_event. rewrite Hc. cbn. unfold elapsed, from_secs, nanos_per_sec.
  rewrite bool_decide_false by lia. done.
Qed.

(** A connection that fails with the hello does not date the disconnection: the next event is
    judged by the previous disconnection, and drops the queue when that is a minute ago. *)
Lemma failed_hello_keeps_old_date b guild evt now tape :
  60000000000 < now - disconnected_at b →
  (let! b := scheduler_connected b in dispatch_or_queue_event guild evt b)
    (BWritten false :: BNow now :: tape) =
  Done (mkBroker false [] (disconnected_at b) (b_ready b) (cache b)) tape
    [BWriteHello (cached_guilds (cache b)); BCleared (now - disconnected_at b) (b_queue b ++ [(guild, evt)])].
Proof.
  intros Hn. unfold abind. rewrite hello_failed, resend_disconnected by done. cbn. unfold elapsed, from_secs, nanos_per_sec. rewrite bool_decide_true, Z.max_r by lia. done.
Qed.

End broker.

(** A cache of the guilds' ids. *)
Definition ex_cache : GuildCache :=
  {| CacheState := list Z;
     cache_update e l := match e with EvGuildCreate id _ => l ++ [id] | _ => l end;
     cached_guilds l := l |}.
#[local] Existing Instance ex_cache.

Definition ex_broker : Broker := mkBroker false [(7, EvGuildCreate 7 0); (8, EvGuildCreate 8 1)] 0 true ([7; 8] : list Z).

Lemma reconnect_flushes_in_order_witness :
  scheduler_connected ex_broker [BWritten true; BAcked true; BWritten true; BAcked true; BWritten true; BAcked false; BNow 5] =
  Done (mkBroker false [(8, EvGuildCreate 8 1)] 5 true ([7; 8] : list Z)) []
    [BWriteHello [7; 8]; BGotAck; BWriteEvent 7 (EvGuildCreate 7 0); BGotAck; BWriteEvent 8 (EvGuildCreate 8 1)].
Proof.
  apply (reconnect_flushes_in_order ex_broker [(7, EvGuildCreate 7 0)] (8, EvGuildCreate 8 1) [] false 5 []). reflexivity.
Defined.

Lemma queue_expires_witness :
  dispatch_or_queue_event 7 (EvOther 3) ex_broker [BNow 60000000001] = 
  Done (set_queue ex_broker []) [] [BCleared 60000000001 (b_queue ex_broker ++ [(7, EvOther 3)])].
Proof. apply (queue_expires 7 (EvOther 3) ex_broker 60000000001 []). reflexivity. Defined.
