(* ===== verification/Validation.v ===== *)
(** Validation of what users and scripts submit ([components/validation/src/lib.rs],
    [runtime.rs], [web.rs]).

    A string is its UTF-8 bytes; [chars().count()] counts the bytes that begin a character.
    The regex engine and Unicode lower-casing are an interface, [Text]. *)
From stdpp Require Import base list strings.
From S2P Require Import Prelude Models.

Class Text := {
  (** [^[\w-]+$] and [^[\w_-]*$] *)
  re_command_name : string → bool;
  re_script_name : string → bool;
  to_lowercase : string → string;
}.

Record ValidationError := mkError {
  ve_field : string;
  ve_msg : string;
}.

Record ValidationContext := mkCtx {
  errs : list ValidationError;
  field_stack : list string;
}.

Definition ctx_new : ValidationContext := mkCtx [] [].

(** [join(".")] *)
Fixpoint join_dots (l : list string) : string :=
  match l with
  | [] => ""
  | [x] => x
  | x :: l => (x +:+ "." +:+ join_dots l)%string
  end.

Definition push_error (field msg : string) (ctx : ValidationContext) : ValidationContext :=
  let prefix := join_dots (field_stack ctx) in
  let prefix := if bool_decide (prefix = "") then prefix else (prefix +:+ ".")%string in
  mkCtx (errs ctx ++ [mkError field (prefix +:+ msg)%string]) (field_stack ctx).

Definition push_field (field : string) (ctx : ValidationContext) : ValidationContext :=
  mkCtx (errs ctx) (field_stack ctx ++ [field]).

Definition pop_field (ctx : ValidationContext) : ValidationContext :=
  mkCtx (errs ctx) (take (length (field_stack ctx) - 1) (field_stack ctx)).

(** [Validator] *)
Class Validator (T : Type) := validate_in : T → ValidationContext → ValidationContext.

Definition validate {T} `{Validator T} (val : T) : result (list ValidationError) unit :=
  let ctx := validate_in val ctx_new in
  match errs ctx with
  | [] => Ok tt
  | l => Err l
  end.

(** [if c { ctx.push_error(field, msg) }] *)
Definition check (c : bool) (field msg : string) (ctx : ValidationContext) : ValidationContext :=
  if c then push_error field msg ctx else ctx.

(** A byte that is not a continuation byte [10xxxxxx]. *)
Definition starts_char (a : Ascii.ascii) : bool := negb (Z.land (Z.of_N (Ascii.N_of_ascii a)) 0xC0 =? 0x80).

Fixpoint chars_count (s : string) : Z :=
  match s with
  | EmptyString => 0
  | String a s => (if starts_char a then 1 else 0) + chars_count s
  end.

Section validation.
Context `{Text}.

(** * runtime.rs *)

Definition check_name_field (field value : string) (ctx : ValidationContext) : ValidationContext :=
  let ctx := check (chars_count value <? 1) field "has to be atleast 1 character" ctx in
  let ctx := check (32 <? chars_count value) field "can be max 32 characters long" ctx in
  let ctx := check (negb (re_command_name value)) field "can only contain 'word' characters" ctx in
  check (negb (bool_decide (to_lowercase value = value))) field "has to be lower-case" ctx.

Definition check_description_field (field value : string) (ctx : ValidationContext) : ValidationContext :=
  let ctx := check (chars_count value <? 1) field "has to be atleast 1 character" ctx in
  check (100 <? chars_count value) field "can be max 100 characters long" ctx.

#[global] Instance option_validator : Validator CommandOption := λ o ctx,
  let ctx := check_name_field "name" (co_name o) ctx in
  check_description_field "description" (co_description o) ctx.

#[global] Instance sub_group_validator : Validator CommandSubGroup := λ g ctx,
  let ctx := check_name_field "name" (sg_name g) ctx in
  check_description_field "description" (sg_description g) ctx.

#[global] Instance group_validator : Validator CommandGroup := λ g ctx,
  let ctx := check_name_field "name" (cg_name g) ctx in
  let ctx := check_description_field "description" (cg_description g) ctx in
  fold_left (λ ctx sub_group, pop_field (validate_in sub_group (push_field "sub_groups" ctx))) (cg_sub_groups g) ctx.

(** The loop over the options; the flag is [found_optional]. *)
Definition validate_option (st : bool * ValidationContext) (o : CommandOption) : bool * ValidationContext :=
  let '(found_optional, ctx) := st in
  let ctx := pop_field (validate_in o (push_field "options" ctx)) in
  if negb (co_required o) then (true, ctx)
  else (found_optional, check found_optional "options" "optional options has to be last" ctx).

#[global] Instance command_validator : Validator Command := λ c ctx,
  let ctx := check_name_field "name" (c_name c) ctx in
  let ctx := match c_kind c with
             | Chat => check_description_field "description" (c_description c) ctx
             | _ => check (negb (bool_decide (c_description c = ""))) "description"
                      "description has to be empty for user and message commands" ctx
             end in
  let ctx := match c_group c with Some g => check_name_field "group" g ctx | None => ctx end in
  let ctx := match c_sub_group c with Some g => check_name_field "sub_group" g ctx | None => ctx end in
  let ctx := check (25 <? Z.of_nat (length (c_options c))) "options" "max 25 options" ctx in
  (fold_left validate_option (c_options c) (false, ctx)).2.

(** * web.rs *)

Definition check_script_name (name : string) (ctx : ValidationContext) : ValidationContext :=
  let ctx := check (32 <? chars_count name) "name" "name can be max 32 characters long" ctx in
  check (negb (re_script_name name)) "name" "name can only contain 'a-z', '-' and '_'" ctx.

Definition check_plugin_name (name : string) (ctx : ValidationContext) : ValidationContext :=
  let ctx := check (32 <? chars_count name) "name" "name can be max 32 characters long" ctx in
  check (negb (re_script_name name)) "name" "name can only contain 'a-z', '-' and '_'" ctx.

Definition check_plugin_short_description (d : string) (ctx : ValidationContext) : ValidationContext :=
  check (150 <? chars_count d) "short_description" "short description can be max 150 characters long" ctx.

Definition check_plugin_long_description (d : string) (ctx : ValidationContext) : ValidationContext :=
  check (4000 <? chars_count d) "long_description" "long description can be max 4000 characters long" ctx.

(** [source.len()] counts bytes. *)
Definition check_script_source (field_name source : string) (ctx : ValidationContext) : ValidationContext :=
  check (100000 <? Z.of_nat (String.length source)) field_name "source can be max 100KiB" ctx.

Definition when {A} (o : option A) (f : A → ValidationContext → ValidationContext) (ctx : ValidationContext) : ValidationContext :=
  match o with Some a => f a ctx | None => ctx end.

(** The fields of [CreateScript], [UpdateScript], [CreatePlugin] and [UpdatePluginMeta] that are
    validated. *)
Record CreateScript := mkCreateScript { cs_name : string; cs_original_source : string }.
Record UpdateScript := mkUpdateScript { us_name : option string; us_original_source : option string }.
Record CreatePlugin := mkCreatePlugin { cp_name : string; cp_short_description : string; cp_long_description : string }.
Record UpdatePluginMeta := mkUpdatePlugin { up_name : option string; up_short_description : option string; up_long_description : option string }.

#[global] Instance create_script_validator : Validator CreateScript := λ s ctx,
  check_script_source "original_source" (cs_original_source s) (check_script_name (cs_name s) ctx).

#[global] Instance update_script_validator : Validator UpdateScript := λ s ctx,
  when (us_original_source s) (check_script_source "original_source") (when (us_name s) check_script_name ctx).

#[global] Instance create_plugin_validator : Validator CreatePlugin := λ p ctx,
  let ctx := check_plugin_name (cp_name p) ctx in
  let ctx := check_plugin_short_description (cp_short_description p) ctx in
  check_plugin_long_description (cp_long_description p) ctx.

#[global] Instance update_plugin_validator : Validator UpdatePluginMeta := λ p ctx,
  let ctx := when (up_name p) check_plugin_name ctx in
  let ctx := when (up_short_description p) check_plugin_short_description ctx in
  when (up_long_description p) check_plugin_long_description ctx.

(** * What is valid *)

Definition name_ok (n : string) : Prop :=
  1 ≤ chars_count n ≤ 32 ∧ re_command_name n = true ∧ to_lowercase n = n.
Definition description_ok (d : string) : Prop := 1 ≤ chars_count d ≤ 100.
Definition option_ok (o : CommandOption) : Prop := name_ok (co_name o) ∧ description_ok (co_description o).

(** Discord's rules for a command: the required options come first. *)
Definition command_ok (c : Command) : Prop :=
  name_ok (c_name c) ∧
  (match c_kind c with Chat => description_ok (c_description c) | _ => c_description c = "" end) ∧
  (∀ g, c_group c = Some g → name_ok g) ∧ (∀ g, c_sub_group c = Some g → name_ok g) ∧
  Z.of_nat (length (c_options c)) ≤ 25 ∧ Forall option_ok (c_options c) ∧
  ∃ l1 l2, c_options c = l1 ++ l2 ∧ Forall (λ o, co_required o = true) l1 ∧ Forall (λ o, co_required o = false) l2.

Definition group_ok (g : CommandGroup) : Prop :=
  name_ok (cg_name g) ∧ description_ok (cg_description g) ∧
  Forall (λ s, name_ok (sg_name s) ∧ description_ok (sg_description s)) (cg_sub_groups g).

(** * Facts *)

(** [clean ctx]: no error so far. *)
Definition clean (ctx : ValidationContext) : Prop := errs ctx = [].

Lemma clean_check c field msg ctx : clean (check c field msg ctx) ↔ clean ctx ∧ c = false.
Proof.
  unfold clean, check. destruct c; simpl; [|naive_solver]. split; [intros Hn%app_eq_nil; naive_solver|naive_solver].
Qed.

Lemma clean_name field n ctx : clean (check_name_field field n ctx) ↔ clean ctx ∧ name_ok n.
Proof.
  unfold check_name_field, name_ok. rewrite !clean_check, !negb_false_iff, bool_decide_eq_true, !Z.ltb_ge. naive_solver lia.
Qed.

Lemma clean_description field d ctx : clean (check_description_field field d ctx) ↔ clean ctx ∧ description_ok d.
Proof. unfold check_description_field, description_ok. rewrite !clean_check, !Z.ltb_ge. naive_solver lia. Qed.

Lemma clean_push field ctx : clean (push_field field ctx) ↔ clean ctx.
Proof. done. Qed.

Lemma clean_pop ctx : clean (pop_field ctx) ↔ clean ctx.
Proof. done. Qed.

Lemma clean_option o ctx : clean (validate_in (T := CommandOption) o ctx) ↔ clean ctx ∧ option_ok o.
Proof. unfold validate_in, option_validator, option_ok. rewrite clean_description, clean_name. tauto. Qed.

(** The order of the options, given whether an optional one came before. *)
Fixpoint ordered_after (found_optional : bool) (l : list CommandOption) : Prop :=
  match l with
  | [] => True
  | o :: l => if co_required o then found_optional = false ∧ ordered_after found_optional l else ordered_after true l
  end.

Lemma clean_options l found ctx :
  clean (fold_left validate_option l (found, ctx)).2 ↔ clean ctx ∧ Forall option_ok l ∧ ordered_after found l.
Proof.
  revert found ctx. induction l as [|o l IH]; intros found ctx; cbn [fold_left ordered_after]; [naive_solver|].
  rewrite Forall_cons. destruct (validate_option (found, ctx) o) as [found' ctx'] eqn:Hv. rewrite IH.
  unfold validate_option in Hv. destruct (co_required o); injection Hv as <- <-.
  - rewrite clean_check, clean_pop, clean_option, clean_push. tauto.
  - rewrite clean_pop, clean_option, clean_push. tauto.
Qed.

Lemma ordered_after_true l : ordered_after true l ↔ Forall (λ o, co_required o = false) l.
Proof.
  induction l as [|o l IH]; simpl; [naive_solver|]. rewrite Forall_cons. destruct (co_required o); naive_solver.
Qed.

Lemma ordered_after_false l :
  ordered_after false l ↔
  ∃ l1 l2, l = l1 ++ l2 ∧ Forall (λ o, co_required o = true) l1 ∧ Forall (λ o, co_required o = false) l2.
Proof.
  induction l as [|o l IH]; simpl.
  - split; [intros _; by exists [], []|done].
  - destruct (co_required o) eqn:Ho.
    + rewrite IH. split.
      * intros (_ & l1 & l2 & -> & H1 & H2). exists (o :: l1), l2. auto.
      * intros ([|x l1] & l2 & Heq & H1 & H2); simpl in Heq; simplify_eq.
        { apply Forall_cons in H2 as [Hf _]. congruence. }
        apply Forall_cons in H1 as [_ H1]. split; [done|]. eauto.
    + rewrite ordered_after_true. split.
      * intros Hl. exists [], (o :: l). auto.
      * intros ([|x l1] & l2 & Heq & H1 & H2); simpl in Heq; simplify_eq.
        { by apply Forall_cons in H2 as [_ ?]. }
        apply Forall_cons in H1 as [Ht _]. congruence.
Qed.

Lemma clean_sub_groups l ctx :
  clean (fold_left (λ ctx sub_group, pop_field (validate_in (T := CommandSubGroup) sub_group (push_field "sub_groups" ctx))) l ctx) ↔
  clean ctx ∧ Forall (λ s, name_ok (sg_name s) ∧ description_ok (sg_description s)) l.
Proof.
  revert ctx. induction l as [|g l IH]; intros ctx; cbn [fold_left]; [naive_solver|].
  rewrite IH, Forall_cons, clean_pop. unfold validate_in, sub_group_validator.
  rewrite clean_description, clean_name, clean_push. tauto.
Qed.

Lemma validate_clean {T} `{Validator T} (val : T) : validate val = Ok tt ↔ clean (validate_in val ctx_new).
Proof. unfold validate, clean. destruct (errs _); naive_solver. Qed.

(** * Properties *)

(** A command is accepted exactly when it obeys Discord's rules: names of 1 to 32
    characters, of word characters and lower case; a description of 1 to 100 characters for
    chat commands and none for others; at most 25 options, each named and described, the
    required ones before the optional ones. *)
Theorem valid_command_iff c : validate c = Ok tt ↔ command_ok c.
Proof.
  rewrite validate_clean. unfold validate_in at 1, command_validator. rewrite clean_options, clean_check, Z.ltb_ge.
  rewrite ordered_after_false. unfold command_ok.
  assert (∀ f o ctx, clean (match o with Some g => check_name_field f g ctx | None => ctx end) ↔
    clean ctx ∧ ∀ g, o = Some g → name_ok g) as Hopt.
  { intros f [g|] ctx; [rewrite clean_name|]; naive_solver. }
  rewrite !Hopt. destruct (c_kind c); rewrite ?clean_description, ?clean_check, ?negb_false_iff, ?bool_decide_eq_true, clean_name;
    (assert (clean ctx_new) by done); tauto.
Qed.

(** A command group is accepted exactly when it and its sub groups have valid names and
    descriptions. *)
Theorem valid_group_iff g : validate g = Ok tt ↔ group_ok g.
Proof.
  rewrite validate_clean. unfold validate_in at 1, group_validator, group_ok.
  rewrite clean_sub_groups, clean_description, clean_name. assert (clean ctx_new) by done. tauto.
Qed.

(** A script is accepted exactly when its name has at most 32 characters and matches, and
    its source has at most 100000 bytes; an update is checked in the parts it changes. *)
Theorem valid_script_iff s u :
  let name_valid n := chars_count n ≤ 32 ∧ re_script_name n = true in
  let source_valid src := Z.of_nat (String.length src) ≤ 100000 in
  (validate s = Ok tt ↔ name_valid (cs_name s) ∧ source_valid (cs_original_source s)) ∧
  (validate u = Ok tt ↔ (∀ n, us_name u = Some n → name_valid n) ∧ (∀ src, us_original_source u = Some src → source_valid src)).
Proof.
  intros name_valid source_valid. rewrite !validate_clean. assert (clean ctx_new) as Hnew by done.
  unfold validate_in, create_script_validator, update_script_validator, check_script_source, check_script_name, when.
  split.
  - rewrite !clean_check, negb_false_iff, !Z.ltb_ge. unfold name_valid, source_valid. tauto.
  - unfold name_valid, source_valid. destruct (us_original_source u), (us_name u); rewrite ?clean_check, ?negb_false_iff, ?Z.ltb_ge; naive_solver.
Qed.
End validation.

(** Plain names are accepted by this text interface, upper-case ones are not. *)
Definition ex_text : Text :=
  {| re_command_name s := bool_decide (s ≠ ""); re_script_name _ := true; to_lowercase s := if bool_decide (s = "Ban") then "ban" else s |}.

Example ban_accepted : validate (H := command_validator (H := ex_text)) (mkCommand "ban" "bans" [] None None Chat) = Ok tt.
Proof. reflexivity. Qed.

Example upper_case_rejected :
  validate (H := command_validator (H := ex_text)) (mkCommand "Ban" "bans" [] None None Chat) =
  Err [mkError "name" "has to be lower-case"].
Proof. reflexivity. Qed.
