(* ===== verification/Postgres.v ===== *)
(** The database under the postgres stores ([components/stores/src/postgres]).

    A statement is one atomic change of the tables it names, at the transaction time [pg_now];
    the database may refuse it for reasons of its own (a lost connection, a value it cannot
    store), which is the environment's answer [pg_error], and then nothing changes. SQL is the
    language the stores are written in: comparison with NULL, CASE, ON CONFLICT, RETURNING,
    ORDER BY, LIMIT and OFFSET are written out in the operations. The data types of the server
    are not part of the repository and are the interface [Pg]. *)
From stdpp Require Import base gmap list strings sorting.
From S2P Require Import Prelude Models.

Inductive SqlxError :=
| RowNotFound
| UniqueViolation (constraint : string)
| ForeignKeyViolation (constraint : string)
| SqlxOther (msg : string).

#[global] Instance SqlxError_eq_dec : EqDecision SqlxError.
Proof. solve_decision. Defined.

Record PgEnv := mkPgEnv {
  pg_now : Z;
  pg_error : option SqlxError;
}.

(** A statement: the new tables and what it returns, or the error it raises. *)
Definition stmt (T A : Type) : Type := T → result SqlxError (T * A).

Definition exec {T A} (env : PgEnv) (s : stmt T A) (t : T) : T * result SqlxError A :=
  match pg_error env with
  | Some e => (t, Err e)
  | None =>
      match s t with
      | Ok (t', a) => (t', Ok a)
      | Err e => (t, Err e)
      end
  end.

Definition result_map {E A B} (f : A → B) (r : result E A) : result E B :=
  match r with
  | Ok a => Ok (f a)
  | Err e => Err e
  end.

(** The server's types: [timestamptz] keeps microseconds, [jsonb] a normalized value, [text]
    is ordered by the collation of the database and matched by ILIKE, and [double precision]
    addition raises an error on overflow. *)
Class Pg := {
  timestamptz : Z → Z;
  jsonb : JsonValue → JsonValue;
  ilike : string → string → bool;
  text_le : string → string → bool;
  float8_add : f64 → f64 → option f64;
  float8_le : f64 → f64 → bool;
}.

(** What is documented of them: a [timestamptz] drops the digits below the microsecond,
    collation order and float order (with NaN as the greatest
    value) are total preorders, distinct texts are never equal in the order, the empty text is
    the least, and the pattern [%] matches everything. *)
Class PgLaws (P : Pg) : Prop := {
  timestamptz_floor : ∀ t, timestamptz t = t / 1000 * 1000;
  text_le_total : ∀ a b, text_le a b = true ∨ text_le b a = true;
  text_le_trans : ∀ a b c, text_le a b = true → text_le b c = true → text_le a c = true;
  text_le_antisymm : ∀ a b, text_le a b = true → text_le b a = true → a = b;
  text_le_empty : ∀ a, text_le "" a = true;
  ilike_any : ∀ a, ilike a "%" = true;
  float8_le_total : ∀ x y, float8_le x y = true ∨ float8_le y x = true;
  float8_le_trans : ∀ x y z, float8_le x y = true → float8_le y z = true → float8_le x z = true;
}.

Definition text_lt `{Pg} (a b : string) : bool := negb (text_le b a).

(** ORDER BY a boolean comparison. *)
Definition is_le {A} (le : A → A → bool) (x y : A) : Prop := le x y = true.
#[global] Instance is_le_dec {A} (le : A → A → bool) : RelDecision (is_le le).
Proof. intros x y. unfold is_le. apply _. Defined.

Definition order_by {A} (le : A → A → bool) (l : list A) : list A := merge_sort (is_le le) l.

(** LIMIT and OFFSET *)
Definition limit_offset {A} (limit offset : Z) (l : list A) : list A :=
  take (Z.to_nat limit) (drop (Z.to_nat offset) l).

Section order_by.
Context {A : Type} (le : A → A → bool).
Hypothesis le_total : ∀ x y, le x y = true ∨ le y x = true.
Hypothesis le_trans : ∀ x y z, le x y = true → le y z = true → le x z = true.

#[local] Instance is_le_Total : Total (is_le le).
Proof. intros x y. apply le_total. Qed.
#[local] Instance is_le_Transitive : Transitive (is_le le).
Proof. intros x y z. apply le_trans. Qed.

Lemma order_by_sorted l : StronglySorted (is_le le) (order_by le l).
Proof. apply (StronglySorted_merge_sort _). Qed.

Lemma order_by_perm l : order_by le l ≡ₚ l.
Proof. apply (merge_sort_Permutation _). Qed.

(** Where no two elements of the list are equivalent in the order, the result does not depend
    on the order the rows are read in. *)
Lemma order_by_unique l l' :
  (∀ x y, x ∈ l → y ∈ l → le x y = true → le y x = true → x = y) →
  l ≡ₚ l' → order_by le l = order_by le l'.
Proof.
  intros Hanti Hp. apply (StronglySorted_unique_strong (is_le le)).
  - intros x y Hx Hy. rewrite order_by_perm in Hx. rewrite order_by_perm, <- Hp in Hy.
    by apply Hanti.
  - apply order_by_sorted.
  - apply order_by_sorted.
  - by rewrite !order_by_perm.
Qed.
End order_by.

Lemma List_filter_perm {A} (p : A → bool) l l' : l ≡ₚ l' → List.filter p l ≡ₚ List.filter p l'.
Proof.
  induction 1 as [| x l l' _ IH | x y l | l l' l'' _ IH1 _ IH2]; simpl; [done|..].
  - destruct (p x); by rewrite IH.
  - destruct (p x), (p y); by rewrite ?(Permutation_swap x y).
  - by rewrite IH1.
Qed.

(** A server with byte order for text and the pattern [%] as the only wildcard, to run the
    stores on examples: floats are added and compared as the integers of their bits. *)
Definition ex_pg : Pg := {|
  timestamptz t := t / 1000 * 1000;
  jsonb v := v;
  ilike s pat := String.eqb pat "%" || String.eqb s pat;
  text_le := String.leb;
  float8_add x y := Some (F64 (f64_bits x + f64_bits y));
  float8_le x y := f64_bits x <=? f64_bits y;
|}.

Lemma ex_pg_laws : PgLaws ex_pg.
Proof.
  assert (∀ a b, String.le a b → String.le b a → a = b) as Hanti by (intros; by apply (anti_symm String.le)).
  assert (∀ a b c, String.le a b → String.le b c → String.le a c) as Htrans by (intros; by etrans).
  unfold String.le in Hanti, Htrans.
  split; simpl.
  - done.
  - intros a b. apply String.leb_total.
  - intros a b c. rewrite <- !Is_true_true. apply Htrans.
  - intros a b. rewrite <- !Is_true_true. apply Hanti.
  - by intros [].
  - done.
  - intros x y. rewrite !Z.leb_le. lia.
  - intros x y z. rewrite !Z.leb_le. lia.
Qed.
