(* ===== verification/BucketStore.v ===== *)
(** The scripts' key-value storage ([components/stores/src/bucketstore.rs],
    [postgres/bucketstore.rs]): one table with a row per (guild, bucket, key), rows that expire
    at a time and stay in the table until something overwrites or deletes them, and one SQL
    statement per operation.

    [TtlMap] is the abstract store the trait promises: a map whose cells disappear when they
    expire. [bucket_refines_ttl_map] shows that the statements implement it. *)
From stdpp Require Import base gmap list strings sorting.
From S2P Require Import Prelude Models WorkerPool Commands World Postgres.

(** * components/stores/src/bucketstore.rs *)

Inductive SetCondition := IfNotExists | IfExists.
Inductive SortedOrder := Ascending | Descending.

Inductive StoreValue :=
| Json (v : JsonValue)
| Float (x : f64).

Record Entry := mkEntry {
  e_bucket : string;
  e_key : string;
  e_value : StoreValue;
  e_expires_at : option Z;
}.

(** * The table *)

(** The primary key [(guild_id, bucket, key)]. *)
Notation BucketKey := (Z * string * string)%type.

Record DbEntry := mkDbEntry {
  db_created_at : Z;
  db_updated_at : Z;
  db_expires_at : option Z;
  db_value_json : option JsonValue;
  db_value_float : option f64;
}.

Notation BucketTable := (gmap BucketKey DbEntry).

(** [pg_column_size] of a row. *)
Class ColumnSize := pg_column_size : BucketKey → DbEntry → Z.

(** [expires_at IS NULL OR expires_at > now()] *)
Definition live (now : Z) (expires_at : option Z) : bool :=
  match expires_at with
  | None => true
  | Some e => now <? e
  end.

(** [expires_at IS NOT NULL AND expires_at < now()] *)
Definition expired (now : Z) (expires_at : option Z) : bool :=
  match expires_at with
  | None => false
  | Some e => e <? now
  end.

(** [impl From<DbEntry> for Entry] *)
Definition value_of_db (r : DbEntry) : StoreValue :=
  match db_value_float r with
  | Some fv => Float fv
  | None =>
      match db_value_json r with
      | Some sv => Json sv
      | None => Json JNull
      end
  end.

Definition entry_of_db (k : BucketKey) (r : DbEntry) : Entry :=
  mkEntry k.1.2 k.2 (value_of_db r) (db_expires_at r).

(** [chrono::Duration::from_std]: at most [i64::MAX] milliseconds. *)
Definition duration_from_std (ttl : Z) : option Z :=
  if ttl <=? i64_max * 1000000 then Some ttl else None.

Section operations.
Context `{!Calendar, !Pg, !ColumnSize, !HashOrder BucketKey}.
Implicit Types (t : BucketTable) (env : PgEnv).

(** [guild_id.get() as i64] and the two texts *)
Definition row_key (guild_id : GuildId) (bucket key : string) : BucketKey := (u64_as_i64 guild_id, bucket, key).

(** [ttl.and_then(|ttl| chrono::Duration::from_std(ttl).map(|dur| Utc::now() + dur).ok())] *)
Definition ttl_expiry (utc_now : Z) (ttl : option Z) : outcome (option Z) :=
  match ttl with
  | None => Ret None
  | Some ttl =>
      match duration_from_std ttl with
      | None => Ret None
      | Some dur => do! e := dt_add utc_now dur in Ret (Some e)
      end
  end.

(** The two value columns of a parameter, as the server keeps them. *)
Definition value_columns (v : StoreValue) : option f64 * option JsonValue :=
  match v with
  | Json json => (None, Some (jsonb json))
  | Float n => (Some n, None)
  end.

Definition new_row (now : Z) (expires_at : option Z) (v : StoreValue) : DbEntry :=
  let (val_num, val_json) := value_columns v in
  mkDbEntry now now (timestamptz <$> expires_at) val_json val_num.

(** RETURNING the row that was written *)
Definition write (k : BucketKey) (r : DbEntry) t : BucketTable * Entry := (<[k := r]> t, entry_of_db k r).

Definition get env (guild_id : GuildId) (bucket key : string) t : BucketTable * result SqlxError (option Entry) :=
  let k := row_key guild_id bucket key in
  exec env (λ t, Ok (t,
    match t !! k with
    | Some r => if live (pg_now env) (db_expires_at r) then Some (entry_of_db k r) else None
    | None => None
    end)) t.

Definition set env (utc_now : Z) (guild_id : GuildId) (bucket key : string) (value : StoreValue) (ttl : option Z) t
    : outcome (BucketTable * result SqlxError Entry) :=
  do! expires_at := ttl_expiry utc_now ttl in
  let now := pg_now env in
  let k := row_key guild_id bucket key in
  let excluded := new_row now expires_at value in
  Ret (exec env (λ t, Ok (
    match t !! k with
    | None => write k excluded t
    | Some r =>
        write k (mkDbEntry
          (if expired now (db_expires_at r) then now else db_created_at r)
          now (db_expires_at excluded) (db_value_json excluded) (db_value_float excluded)) t
    end)) t).

Definition set_if_exists env (k : BucketKey) (new : DbEntry) : stmt BucketTable (option Entry) := λ t,
  match t !! k with
  | Some r =>
      if live (pg_now env) (db_expires_at r) then
        let (t', e) := write k (mkDbEntry (db_created_at r) (pg_now env)
                                  (db_expires_at new) (db_value_json new) (db_value_float new)) t in
        Ok (t', Some e)
      else Ok (t, None)
  | None => Ok (t, None)
  end.

Definition set_if_not_exists env (k : BucketKey) (excluded : DbEntry) : stmt BucketTable (option Entry) := λ t,
  match t !! k with
  | None => let (t', e) := write k excluded t in Ok (t', Some e)
  | Some r =>
      if expired (pg_now env) (db_expires_at r)
      then let (t', e) := write k excluded t in Ok (t', Some e)
      else Ok (t, None)
  end.

Definition set_if env (utc_now : Z) (guild_id : GuildId) (bucket key : string) (value : StoreValue) (ttl : option Z)
    (cond : SetCondition) t : outcome (BucketTable * result SqlxError (option Entry)) :=
  do! expires_at := ttl_expiry utc_now ttl in
  let k := row_key guild_id bucket key in
  let new := new_row (pg_now env) expires_at value in
  Ret (exec env (match cond with
                 | IfExists => set_if_exists env k new
                 | IfNotExists => set_if_not_exists env k new
                 end) t).

Definition del env (guild_id : GuildId) (bucket key : string) t : BucketTable * result SqlxError (option Entry) :=
  let k := row_key guild_id bucket key in
  exec env (λ t, Ok (
    match t !! k with
    | Some r => if live (pg_now env) (db_expires_at r) then (delete k t, Some (entry_of_db k r)) else (t, None)
    | None => (t, None)
    end)) t.

(** [guild_id = $1 AND bucket = $2 AND (expires_at IS NULL OR expires_at > now())] *)
Definition in_bucket (now : Z) (guild_id : GuildId) (bucket : string) (kr : BucketKey * DbEntry) : bool :=
  bool_decide (kr.1.1 = (u64_as_i64 guild_id, bucket)) && live now (db_expires_at kr.2).

(** ... [AND key ILIKE $3] *)
Definition matching (now : Z) (guild_id : GuildId) (bucket key_pattern : string) (kr : BucketKey * DbEntry) : bool :=
  in_bucket now guild_id bucket kr && ilike kr.1.2 key_pattern.

(** The rows of a table in the order the server happens to read them. *)
Definition select (p : BucketKey * DbEntry → bool) t : list (BucketKey * DbEntry) := List.filter p (hiter t).

Definition del_many env (guild_id : GuildId) (bucket key_pattern : string) t : BucketTable * result SqlxError Z :=
  let p := matching (pg_now env) guild_id bucket key_pattern in
  exec env (λ t, Ok (filter (λ kr, p kr = false) t, Z.of_nat (length (select p t)))) t.

(** [ORDER BY (guild_id, bucket, key)] *)
Definition key_le {V} (a b : BucketKey * V) : bool :=
  let '(ga, ba, ka) := a.1 in
  let '(gb, bb, kb) := b.1 in
  if ga =? gb then
    if bool_decide (ba = bb) then text_le ka kb else text_le ba bb
  else ga <? gb.

Definition entries (l : list (BucketKey * DbEntry)) : list Entry := (λ kr, entry_of_db kr.1 kr.2) <$> l.

Definition get_many env (guild_id : GuildId) (bucket key_pattern after : string) (limit : Z) t
    : BucketTable * result SqlxError (list Entry) :=
  let p kr := matching (pg_now env) guild_id bucket key_pattern kr && text_lt after kr.1.2 in
  exec env (λ t, Ok (t, entries (limit_offset limit 0 (order_by key_le (select p t))))) t.

(** An aggregate count is an [i64], never NULL. *)
Definition count env (guild_id : GuildId) (bucket key_pattern : string) t : BucketTable * result SqlxError Z :=
  exec env (λ t, Ok (t, Z.of_nat (length (select (matching (pg_now env) guild_id bucket key_pattern) t)))) t.

(** [sum] of no rows is NULL, and [unwrap_or_default] makes it 0. *)
Definition guild_storage_usage_bytes env (guild_id : GuildId) t : BucketTable * result SqlxError Z :=
  let p (kr : BucketKey * DbEntry) :=
    (kr.1.1.1 =? u64_as_i64 guild_id) && live (pg_now env) (db_expires_at kr.2) in
  exec env (λ t, Ok (t, foldr (λ kr acc, pg_column_size kr.1 kr.2 + acc) 0 (select p t))) t.

(** [excluded.value_float + bucket_store.value_float]: NULL when the stored value is. *)
Definition float8_plus (x : f64) (y : option f64) : result SqlxError (option f64) :=
  match y with
  | None => Ok None
  | Some y =>
      match float8_add x y with
      | Some z => Ok (Some z)
      | None => Err (SqlxOther "value out of range: overflow")
      end
  end.

Definition incr env (guild_id : GuildId) (bucket key : string) (incr_by : f64) t
    : BucketTable * result SqlxError Entry :=
  let now := pg_now env in
  let k := row_key guild_id bucket key in
  exec env (λ t,
    match t !! k with
    | None => Ok (write k (mkDbEntry now now None None (Some incr_by)) t)
    | Some r =>
        let created_at := if expired now (db_expires_at r) then now else db_created_at r in
        match (if expired now (db_expires_at r) then Ok (Some incr_by)
               else float8_plus incr_by (db_value_float r)) with
        | Ok value_float => Ok (write k (mkDbEntry created_at now None None value_float) t)
        | Err e => Err e
        end
    end) t.

(** [ORDER BY value_float ASC, updated_at ASC]: NULL comes after every number. *)
Definition float_asc_le (a b : BucketKey * DbEntry) : bool :=
  let later := db_updated_at a.2 <=? db_updated_at b.2 in
  match db_value_float a.2, db_value_float b.2 with
  | Some x, Some y => float8_le x y && (negb (float8_le y x) || later)
  | Some _, None => true
  | None, Some _ => false
  | None, None => later
  end.

(** [ORDER BY value_float DESC, updated_at DESC]: NULL comes first. *)
Definition float_desc_le (a b : BucketKey * DbEntry) : bool := float_asc_le b a.

Definition sorted_entries env (guild_id : GuildId) (bucket : string) (order : SortedOrder) (offset limit : Z) t
    : BucketTable * result SqlxError (list Entry) :=
  let le := match order with Ascending => float_asc_le | Descending => float_desc_le end in
  exec env (λ t, Ok (t,
    entries (limit_offset limit offset (order_by le (select (in_bucket (pg_now env) guild_id bucket) t))))) t.

Definition delete_guild_bucket_store_data env (id : GuildId) t : BucketTable * result SqlxError unit :=
  exec env (λ t, Ok (filter (λ kr : BucketKey * DbEntry, kr.1.1.1 ≠ u64_as_i64 id) t, tt)) t.
End operations.

(** * The abstract store *)

(** A cell: its value, which is lost when a number is added to a JSON value, and its times. *)
Record Cell := mkCell {
  cell_value : option StoreValue;
  cell_created_at : Z;
  cell_updated_at : Z;
  cell_expires_at : option Z;
}.

Notation TtlMap := (gmap BucketKey Cell).

(** What has expired is gone. *)
Definition expire (now : Z) (m : TtlMap) : TtlMap :=
  filter (λ kc : BucketKey * Cell, expired now (cell_expires_at kc.2) = false) m.

(** A cell is shown before its instant of expiry. At that instant it is hidden but not gone. *)
Definition shown (now : Z) (o : option Cell) : option Cell :=
  o ≫= λ c, if live now (cell_expires_at c) then Some c else None.

(** The operations of the trait. *)
Inductive BucketOp :=
| OpGet (guild_id : GuildId) (bucket key : string)
| OpSet (utc_now : Z) (guild_id : GuildId) (bucket key : string) (value : StoreValue) (ttl : option Z)
| OpSetIf (utc_now : Z) (guild_id : GuildId) (bucket key : string) (value : StoreValue) (ttl : option Z) (cond : SetCondition)
| OpDel (guild_id : GuildId) (bucket key : string)
| OpDelMany (guild_id : GuildId) (bucket key_pattern : string)
| OpGetMany (guild_id : GuildId) (bucket key_pattern after : string) (limit : Z)
| OpCount (guild_id : GuildId) (bucket key_pattern : string)
| OpUsage (guild_id : GuildId)
| OpIncr (guild_id : GuildId) (bucket key : string) (incr_by : f64)
| OpSorted (guild_id : GuildId) (bucket : string) (order : SortedOrder) (offset limit : Z)
| OpDeleteGuild (guild_id : GuildId).

Inductive BucketRes :=
| ResEntry (e : option Entry)
| ResEntries (l : list Entry)
| ResCount (n : Z)
| ResUnit.

(** At most one of the two value columns is set. *)
Definition one_value (r : DbEntry) : Prop := db_value_float r = None ∨ db_value_json r = None.

Section spec.
Context `{!Calendar, !Pg, !ColumnSize, !HashOrder BucketKey}.
Implicit Types (t : BucketTable) (m : TtlMap) (env : PgEnv).

Definition bucket_step env (op : BucketOp) t : outcome (BucketTable * result SqlxError BucketRes) :=
  match op with
  | OpGet g b k => let (t, r) := get env g b k t in Ret (t, result_map ResEntry r)
  | OpSet u g b k v ttl =>
      do! (t, r) := set env u g b k v ttl t in Ret (t, result_map (λ e, ResEntry (Some e)) r)
  | OpSetIf u g b k v ttl c =>
      do! (t, r) := set_if env u g b k v ttl c t in Ret (t, result_map ResEntry r)
  | OpDel g b k => let (t, r) := del env g b k t in Ret (t, result_map ResEntry r)
  | OpDelMany g b pat => let (t, r) := del_many env g b pat t in Ret (t, result_map ResCount r)
  | OpGetMany g b pat a n => let (t, r) := get_many env g b pat a n t in Ret (t, result_map ResEntries r)
  | OpCount g b pat => let (t, r) := count env g b pat t in Ret (t, result_map ResCount r)
  | OpUsage g => let (t, r) := guild_storage_usage_bytes env g t in Ret (t, result_map ResCount r)
  | OpIncr g b k x => let (t, r) := incr env g b k x t in Ret (t, result_map (λ e, ResEntry (Some e)) r)
  | OpSorted g b o off n => let (t, r) := sorted_entries env g b o off n t in Ret (t, result_map ResEntries r)
  | OpDeleteGuild g =>
      let (t, r) := delete_guild_bucket_store_data env g t in Ret (t, result_map (λ _, ResUnit) r)
  end.

Definition cell_entry (k : BucketKey) (c : Cell) : Entry :=
  mkEntry k.1.2 k.2 (default (Json JNull) (cell_value c)) (cell_expires_at c).

Definition stored (v : StoreValue) : StoreValue :=
  match v with
  | Json json => Json (jsonb json)
  | Float x => Float x
  end.

(** A write keeps the time of creation of a cell that is not gone. *)
Definition put (now : Z) (k : BucketKey) (v : option StoreValue) (expires_at : option Z) m : TtlMap * BucketRes :=
  let created := match m !! k with Some c => cell_created_at c | None => now end in
  let c := mkCell v created now (timestamptz <$> expires_at) in
  (<[k := c]> m, ResEntry (Some (cell_entry k c))).

Definition key_matches (guild_id : GuildId) (bucket key_pattern : string) (k : BucketKey) : bool :=
  bool_decide (k.1 = (u64_as_i64 guild_id, bucket)) && ilike k.2 key_pattern.

(** The cells shown at a time. *)
Definition cells (now : Z) (p : BucketKey → bool) m : list (BucketKey * Cell) :=
  List.filter (λ kc, p kc.1 && live now (cell_expires_at kc.2)) (map_to_list m).

Definition cell_number (c : Cell) : option f64 := match cell_value c with Some (Float x) => Some x | _ => None end.

(** The order of a listing by value: numbers by size and the rest after them, each by the time of
    its last write. *)
Definition cell_le (a b : BucketKey * Cell) : bool :=
  let later := cell_updated_at a.2 <=? cell_updated_at b.2 in
  match cell_number a.2, cell_number b.2 with
  | Some x, Some y => float8_le x y && (negb (float8_le y x) || later)
  | Some _, None => true
  | None, Some _ => false
  | None, None => later
  end.

Definition cell_order (o : SortedOrder) (a b : BucketKey * Cell) : bool :=
  match o with Ascending => cell_le a b | Descending => cell_le b a end.

(** What a cell takes: the size of its row. *)
Definition row_of_cell (c : Cell) : DbEntry :=
  mkDbEntry (cell_created_at c) (cell_updated_at c) (cell_expires_at c)
    (match cell_value c with Some (Json j) => Some j | _ => None end) (cell_number c).

(** The results an operation may have: one, or, for a listing by value, one for each arrangement
    of what ties. *)
Definition only (r : BucketRes) (r' : result SqlxError BucketRes) : Prop := r' = Ok r.
Definition listing (o : SortedOrder) (offset limit : Z) (l : list (BucketKey * Cell)) (r : result SqlxError BucketRes) : Prop :=
  ∃ l', l' ≡ₚ l ∧ StronglySorted (is_le (cell_order o)) l' ∧
        r = Ok (ResEntries ((λ kc, cell_entry kc.1 kc.2) <$> limit_offset limit offset l')).

Definition answer (x : TtlMap * BucketRes) : TtlMap * (result SqlxError BucketRes → Prop) := (x.1, only x.2).

(** What an operation does at a time to a store in which nothing is left that has expired. *)
Definition spec_op (now : Z) (op : BucketOp) m : outcome (TtlMap * (result SqlxError BucketRes → Prop)) :=
  match op with
  | OpGet g b k =>
      let k := row_key g b k in Ret (answer (m, ResEntry (cell_entry k <$> shown now (m !! k))))
  | OpSet u g b k v ttl =>
      do! e := ttl_expiry u ttl in Ret (answer (put now (row_key g b k) (Some (stored v)) e m))
  | OpSetIf u g b k v ttl cond =>
      do! e := ttl_expiry u ttl in
      let k := row_key g b k in
      let free := match m !! k with None => true | Some _ => false end in
      let there := match shown now (m !! k) with Some _ => true | None => false end in
      Ret (answer (if match cond with IfNotExists => free | IfExists => there end
                   then put now k (Some (stored v)) e m else (m, ResEntry None)))
  | OpDel g b k =>
      let k := row_key g b k in
      Ret (answer (match shown now (m !! k) with
                   | Some c => (delete k m, ResEntry (Some (cell_entry k c)))
                   | None => (m, ResEntry None)
                   end))
  | OpDelMany g b pat =>
      let p := key_matches g b pat in
      Ret (answer (filter (λ kc : BucketKey * Cell, p kc.1 && live now (cell_expires_at kc.2) = false) m,
                   ResCount (Z.of_nat (length (cells now p m)))))
  | OpGetMany g b pat after limit =>
      let p k := key_matches g b pat k && text_lt after k.2 in
      Ret (answer (m, ResEntries ((λ kc, cell_entry kc.1 kc.2) <$> limit_offset limit 0 (order_by key_le (cells now p m)))))
  | OpCount g b pat => Ret (answer (m, ResCount (Z.of_nat (length (cells now (key_matches g b pat) m)))))
  | OpUsage g =>
      Ret (answer (m, ResCount (foldr (λ kc acc, pg_column_size kc.1 (row_of_cell kc.2) + acc) 0
                                  (cells now (λ k, k.1.1 =? u64_as_i64 g) m))))
  | OpIncr g b k x =>
      let k := row_key g b k in
      match m !! k with
      | None => Ret (answer (put now k (Some (Float x)) None m))
      | Some c =>
          Ret (match cell_number c with
               | Some y =>
                   match float8_add x y with
                   | Some z => answer (put now k (Some (Float z)) None m)
                   | None => (m, eq (Err (SqlxOther "value out of range: overflow")))
                   end
               | None => answer (put now k None None m)
               end)
      end
  | OpSorted g b o offset limit =>
      Ret (m, listing o offset limit (cells now (λ k, bool_decide (k.1 = (u64_as_i64 g, b))) m))
  | OpDeleteGuild g => Ret (answer (filter (λ kc : BucketKey * Cell, kc.1.1.1 ≠ u64_as_i64 g) m, ResUnit))
  end.

(** An operation at a time: what has expired is gone; a refused one changes nothing. *)
Definition spec_step env (op : BucketOp) m : outcome (TtlMap * (result SqlxError BucketRes → Prop)) :=
  let m := expire (pg_now env) m in
  do! (m', Q) := spec_op (pg_now env) op m in
  Ret (match pg_error env with
       | Some e => (m, eq (Err e))
       | None => (m', Q)
       end).

(** A sequence of operations with their results, and whether one of them panicked. *)
Fixpoint run_ops (ops : list (PgEnv * BucketOp)) t : list (result SqlxError BucketRes) * bool :=
  match ops with
  | [] => ([], false)
  | (env, op) :: ops =>
      match bucket_step env op t with
      | Panic => ([], true)
      | Ret (t', r) => let (rs, p) := run_ops ops t' in (r :: rs, p)
      end
  end.

(** The results the abstract store may give to a sequence. *)
Fixpoint permits (ops : list (PgEnv * BucketOp)) m (rs : list (result SqlxError BucketRes)) (panicked : bool) : Prop :=
  match ops with
  | [] => rs = [] ∧ panicked = false
  | (env, op) :: ops =>
      match spec_step env op m with
      | Panic => rs = [] ∧ panicked = true
      | Ret (m', Q) => match rs with [] => False | r :: rs => Q r ∧ permits ops m' rs panicked end
      end
  end.

(** The clock of the database does not go back along the run. *)
Fixpoint timely (since : Z) (ops : list (PgEnv * BucketOp)) : Prop :=
  match ops with
  | [] => True
  | (env, _) :: ops => since ≤ pg_now env ∧ timely (pg_now env) ops
  end.
End spec.

(** * The statements implement the abstract store *)

Definition db_value (r : DbEntry) : option StoreValue :=
  match db_value_float r with
  | Some fv => Some (Float fv)
  | None => Json <$> db_value_json r
  end.

Definition cell_of_db (r : DbEntry) : Cell := mkCell (db_value r) (db_created_at r) (db_updated_at r) (db_expires_at r).

(** A cell that is not gone at a time. *)
Definition present (now : Z) (o : option Cell) : option Cell :=
  o ≫= λ c, if expired now (cell_expires_at c) then None else Some c.

(** From [since] on, table and abstract store have the same cells. *)
Record bucket_sim (since : Z) (t : BucketTable) (m : TtlMap) : Prop := {
  sim_values : map_Forall (λ _, one_value) t;
  sim_cells : ∀ k now, since ≤ now → present now (cell_of_db <$> t !! k) = present now (m !! k);
}.

Section refinement.
Context `{!Calendar, !Pg, !ColumnSize, !HashOrder BucketKey, !PgLaws _}.
Implicit Types (t : BucketTable) (m : TtlMap) (env : PgEnv) (k : BucketKey).

Lemma expired_later n n' e : expired n e = true → n ≤ n' → expired n' e = true.
Proof. destruct e as [e|]; simpl; [|done]. rewrite !Z.ltb_lt. lia. Qed.

Lemma live_later n n' e : live n' e = true → n ≤ n' → live n e = true.
Proof. destruct e as [e|]; simpl; [|done]. rewrite !Z.ltb_lt. lia. Qed.

Lemma live_not_expired n e : live n e = true → expired n e = false.
Proof. destruct e as [e|]; simpl; [|done]. rewrite Z.ltb_lt, Z.ltb_ge. lia. Qed.

Lemma present_present n n' o : n ≤ n' → present n' (present n o) = present n' o.
Proof.
  intros Hn. destruct o as [c|]; [|done]. simpl. destruct (expired n (cell_expires_at c)) eqn:He; [|done]. simpl.
  by rewrite (expired_later _ _ _ He Hn).
Qed.

Lemma lookup_expire n m k : expire n m !! k = present n (m !! k).
Proof.
  unfold expire. rewrite map_lookup_filter. destruct (m !! k) as [c|]; [|done]. simpl.
  destruct (expired n (cell_expires_at c)); by case_guard.
Qed.

Lemma bucket_sim_expire since n t m : bucket_sim since t m → since ≤ n → bucket_sim n t (expire n m).
Proof.
  intros [Hv Hs] Hn. split; [done|]. intros k n' Hn'. rewrite lookup_expire, present_present by done. apply Hs. lia.
Qed.

Lemma bucket_sim_insert n t m k r c :
  bucket_sim n t m → one_value r → cell_of_db r = c → bucket_sim n (<[k := r]> t) (<[k := c]> m).
Proof.
  intros [Hv Hs] Hr Hc. split; [by apply map_Forall_insert_2|]. intros k' n' Hn'. destruct (decide (k = k')) as [->|Hk].
  - by rewrite !lookup_insert_eq, <- Hc.
  - rewrite !lookup_insert_ne by done. by apply Hs.
Qed.

(** Removing the same rows and cells; rows that are gone may stay. *)
Lemma bucket_sim_remove n t t' m m' :
  bucket_sim n t m → t' ⊆ t →
  (∀ k, (t' !! k = t !! k ∧ m' !! k = m !! k) ∨ (present n (cell_of_db <$> t' !! k) = None ∧ m' !! k = None)) →
  bucket_sim n t' m'.
Proof.
  intros [Hv Hs] Hsub Hk. split; [intros k r Hr; eapply Hv, lookup_weaken; done|]. intros k n' Hn'.
  destruct (Hk k) as [[-> ->]|[Hp ->]]; [by apply Hs|]. by rewrite <- (present_present n n'), Hp by lia.
Qed.

Definition with_cell (kr : BucketKey * DbEntry) : BucketKey * Cell := (kr.1, cell_of_db kr.2).

Lemma row_of_cell_of_db r : one_value r → row_of_cell (cell_of_db r) = r.
Proof.
  destruct r as [c u e [j|] [f|]]; unfold row_of_cell, cell_of_db, cell_number, db_value; intros [?|?]; done.
Qed.

Lemma elem_of_List_filter {A} (p : A → bool) l x : x ∈ List.filter p l ↔ x ∈ l ∧ p x = true.
Proof. rewrite !list_elem_of_In, filter_In. done. Qed.

Lemma NoDup_fst_List_filter {A B} (p : A * B → bool) l : NoDup l.*1 → NoDup (List.filter p l).*1.
Proof.
  induction l as [|x l IH]; simpl; [done|]. rewrite NoDup_cons. intros [Hx Hl].
  destruct (p x); [|by apply IH]. simpl. apply NoDup_cons. split; [|by apply IH].
  contradict Hx. rewrite list_elem_of_fmap in Hx |- *. destruct Hx as (y & ? & Hy).
  apply elem_of_List_filter in Hy as [Hy _]. eauto.
Qed.

(** [key_le] is a total order on rows of distinct keys. *)
Lemma key_le_total {V} (a b : BucketKey * V) : key_le a b = true ∨ key_le b a = true.
Proof.
  destruct a as [[[ga ba] ka] va], b as [[[gb bb] kb] vb]. unfold key_le. simpl.
  rewrite (Z.eqb_sym gb ga). destruct (Z.eqb_spec ga gb).
  - rewrite (bool_decide_ext (bb = ba) (ba = bb)) by naive_solver. case_bool_decide; apply text_le_total.
  - rewrite !Z.ltb_lt. lia.
Qed.

Lemma key_le_trans {V} (a b c : BucketKey * V) : key_le a b = true → key_le b c = true → key_le a c = true.
Proof.
  destruct a as [[[ga ba] ka] va], b as [[[gb bb] kb] vb], c as [[[gc bc] kc] vc]. unfold key_le. simpl.
  destruct (Z.eqb_spec ga gb), (Z.eqb_spec gb gc), (Z.eqb_spec ga gc);
    rewrite ?Z.ltb_lt; try lia; try done.
  do 3 case_bool_decide; simplify_eq/=; eauto using text_le_trans; try done.
  intros H1' H2'. by pose proof (text_le_antisymm _ _ H1' H2').
Qed.

Lemma key_le_antisymm {V} (a b : BucketKey * V) : key_le a b = true → key_le b a = true → a.1 = b.1.
Proof.
  destruct a as [[[ga ba] ka] va], b as [[[gb bb] kb] vb]. unfold key_le. simpl.
  rewrite (Z.eqb_sym gb ga). destruct (Z.eqb_spec ga gb); [|rewrite !Z.ltb_lt; lia].
  rewrite (bool_decide_ext (bb = ba) (ba = bb)) by naive_solver. case_bool_decide; intros H1' H2'.
  - pose proof (text_le_antisymm _ _ H1' H2'). by subst.
  - by pose proof (text_le_antisymm _ _ H1' H2').
Qed.

(** What relates the outcome of a statement to the outcome of the abstract operation. *)
Definition step_rel (now : Z) (x : outcome (BucketTable * result SqlxError BucketRes))
    (y : outcome (TtlMap * (result SqlxError BucketRes → Prop))) : Prop :=
  match x, y with
  | Ret (t, r), Ret (m, Q) => Q r ∧ bucket_sim now t m
  | Panic, Panic => True
  | _, _ => False
  end.

Lemma entries_cells l : entries l = (λ kc, cell_entry kc.1 kc.2) <$> (with_cell <$> l).
Proof.
  unfold entries. rewrite <- list_fmap_compose. apply list_fmap_ext. intros _ [k r] _. unfold compose, entry_of_db, cell_entry, value_of_db, db_value.
  simpl. unfold db_value. by destruct (db_value_float r), (db_value_json r).
Qed.

Lemma entry_of_cell k r : entry_of_db k r = cell_entry k (cell_of_db r).
Proof. unfold entry_of_db, cell_entry, value_of_db, cell_of_db, db_value. simpl. by destruct (db_value_float r), (db_value_json r). Qed.

Lemma matching_live n g b pat kr :
  matching n g b pat kr = key_matches g b pat kr.1 && live n (db_expires_at kr.2).
Proof. unfold matching, in_bucket, key_matches. rewrite <- !andb_assoc. f_equal. apply andb_comm. Qed.

Lemma one_value_new now e v : one_value (new_row now e v).
Proof. destruct v; [by left|by right]. Qed.

Lemma db_value_new now e v : db_value (new_row now e v) = Some (stored v).
Proof. by destruct v. Qed.

Lemma float_asc_le_total a b : float_asc_le a b = true ∨ float_asc_le b a = true.
Proof.
  unfold float_asc_le. destruct (db_value_float a.2) as [x|], (db_value_float b.2) as [y|]; auto.
  - pose proof (float8_le_total x y) as Ht.
    destruct (float8_le x y), (float8_le y x); simpl; [|by left|by right|by destruct Ht].
    rewrite !Z.leb_le. lia.
  - rewrite !Z.leb_le. lia.
Qed.

Lemma float_asc_le_trans a b c : float_asc_le a b = true → float_asc_le b c = true → float_asc_le a c = true.
Proof.
  unfold float_asc_le.
  destruct (db_value_float a.2) as [x|], (db_value_float b.2) as [y|], (db_value_float c.2) as [z|]; try done.
  - rewrite !andb_true_iff, !orb_true_iff, !negb_true_iff, !Z.leb_le. intros [Hxy Hab] [Hyz Hbc].
    split; [by eapply float8_le_trans|].
    destruct (float8_le z x) eqn:Hzx; [right|by left].
    pose proof (float8_le_trans _ _ _ Hyz Hzx). pose proof (float8_le_trans _ _ _ Hzx Hxy).
    destruct Hab; [congruence|]. destruct Hbc; [congruence|]. lia.
  - rewrite !Z.leb_le. lia.
Qed.

Section step.
Context (env : PgEnv) (t : BucketTable) (m : TtlMap).
Let n := pg_now env.
Hypothesis Hok : pg_error env = None.
Hypothesis Hsim : bucket_sim n t m.
Hypothesis Hexp : expire n m = m.

(** What the WHERE clauses see of a key is what the abstract store holds. *)
Lemma seen k :
  m !! k = match t !! k with
           | Some r => if expired n (db_expires_at r) then None else Some (cell_of_db r)
           | None => None
           end.
Proof.
  rewrite <- Hexp, lookup_expire, <- (sim_cells _ _ _ Hsim) by lia. by destruct (t !! k).
Qed.

Lemma seen_shown k :
  shown n (m !! k) = match t !! k with
                     | Some r => if live n (db_expires_at r) then Some (cell_of_db r) else None
                     | None => None
                     end.
Proof.
  rewrite seen. destruct (t !! k) as [r|]; [|done]. destruct (expired n (db_expires_at r)) eqn:He; simpl; [|done].
  destruct (live n (db_expires_at r)) eqn:Hl; [|done]. by rewrite (live_not_expired _ _ Hl) in He.
Qed.

(** The selected rows, as a set of cells. *)
Lemma select_cells (q : BucketKey → bool) (p : BucketKey * DbEntry → bool) :
  (∀ kr, p kr = q kr.1 && live n (db_expires_at kr.2)) → with_cell <$> select p t ≡ₚ cells n q m.
Proof.
  intros Hp. apply NoDup_Permutation.
  - apply (NoDup_fmap_1 fst). rewrite <- list_fmap_compose. apply NoDup_fst_List_filter, NoDup_hiter.
  - apply (NoDup_fmap_1 fst), NoDup_fst_List_filter, NoDup_fst_map_to_list.
  - intros [k c]. unfold cells, select. rewrite list_elem_of_fmap, elem_of_List_filter, elem_of_map_to_list.
    rewrite seen. simpl. split.
    + intros ([k' r] & [= -> ->] & Hkr). apply elem_of_List_filter in Hkr as [Hr Hpr].
      apply elem_of_hiter in Hr. rewrite Hp in Hpr. simpl in Hpr. apply andb_prop in Hpr as [Hq Hl].
      rewrite Hr, (live_not_expired _ _ Hl). simpl. by rewrite Hq, Hl.
    + destruct (t !! k) as [r|] eqn:Hr; [|naive_solver]. intros [Hc Hq].
      destruct (expired n (db_expires_at r)); [done|]. injection Hc as <-.
      exists (k, r). split; [done|]. apply elem_of_List_filter. rewrite elem_of_hiter, Hp. done.
Qed.

(** Rows in key order and cells in key order. *)
Lemma order_by_cells (q : BucketKey → bool) (p : BucketKey * DbEntry → bool) :
  (∀ kr, p kr = q kr.1 && live n (db_expires_at kr.2)) →
  with_cell <$> order_by key_le (select p t) = order_by key_le (cells n q m).
Proof.
  intros Hp. pose proof (select_cells q p Hp) as Hperm.
  apply (StronglySorted_unique_strong (is_le key_le)).
  - intros x y Hx Hy Hle Hge. rewrite order_by_perm, Hperm in Hx. rewrite order_by_perm in Hy.
    pose proof (key_le_antisymm _ _ Hle Hge) as Heq. destruct x as [k c], y as [k' c']. simpl in Heq. subst k'.
    apply elem_of_List_filter in Hx as [Hx%elem_of_map_to_list _].
    apply elem_of_List_filter in Hy as [Hy%elem_of_map_to_list _]. congruence.
  - eapply StronglySorted_fmap; [|apply order_by_sorted; [apply key_le_total|apply key_le_trans]]. done.
  - apply order_by_sorted; [apply key_le_total|apply key_le_trans].
  - by rewrite !order_by_perm.
Qed.

(** A row written over one that is not gone keeps its time of creation, as its cell does. *)
Lemma step_put k r v e :
  one_value r → db_value r = v → db_updated_at r = n → db_expires_at r = timestamptz <$> e →
  db_created_at r = match t !! k with Some r0 => if expired n (db_expires_at r0) then n else db_created_at r0 | None => n end →
  step_rel n (Ret (<[k := r]> t, Ok (ResEntry (Some (entry_of_db k r))))) (Ret (answer (put n k v e m))).
Proof.
  intros Hone Hv Hu He Hc. assert (cell_of_db r = mkCell v (match m !! k with Some c => cell_created_at c | None => n end) n (timestamptz <$> e)) as Hcell.
  { unfold cell_of_db. rewrite Hv, Hu, He, Hc, seen. destruct (t !! k) as [r0|]; [|done]. by destruct (expired n _). }
  split; simpl; [unfold only; by rewrite entry_of_cell, Hcell|by apply bucket_sim_insert].
Qed.

Lemma step_read r (Q : result SqlxError BucketRes → Prop) : Q r → step_rel n (Ret (t, r)) (Ret (m, Q)).
Proof. done. Qed.

Definition one_step (op : BucketOp) : Prop := step_rel n (bucket_step env op t) (spec_op n op m).

Ltac run := unfold one_step, bucket_step, spec_op.

Lemma step_get g b (k : string) : one_step (OpGet g b k).
Proof.
  run. unfold get, exec. rewrite Hok. apply step_read. unfold only. simpl. fold n. rewrite seen_shown.
  destruct (t !! _) as [r|]; [|done]. destruct (live n _); [|done]. simpl. by rewrite entry_of_cell.
Qed.

Lemma step_set u g b (k : string) v ttl : one_step (OpSet u g b k v ttl).
Proof.
  run. unfold set, exec. destruct (ttl_expiry u ttl) as [e|]; simpl; [|done]. rewrite Hok. fold n.
  destruct (t !! _) as [r|] eqn:Hr; simpl; apply step_put; rewrite ?Hr; try done; try apply one_value_new; try apply db_value_new; by destruct v; try left; try right.
Qed.

Lemma step_set_if u g b (k : string) v ttl c : one_step (OpSetIf u g b k v ttl c).
Proof.
  run. unfold set_if, exec. destruct (ttl_expiry u ttl) as [e|]; simpl; [|done]. rewrite Hok. fold n.
  unfold set_if_exists, set_if_not_exists. fold n. destruct c.
  - rewrite seen. destruct (t !! _) as [r|] eqn:Hr; simpl; [destruct (expired n _) eqn:He|]; simpl; try done;
      apply step_put; rewrite ?Hr, ?He; try done; try apply one_value_new; try apply db_value_new; by destruct v.
  - rewrite seen_shown. destruct (t !! _) as [r|] eqn:Hr; simpl; [|done]. destruct (live n _) eqn:Hl; simpl; [|done].
    apply step_put; rewrite ?Hr, ?(live_not_expired _ _ Hl); try done; try apply one_value_new; try apply db_value_new; by destruct v; try left; try right.
Qed.

Lemma step_del g b (k : string) : one_step (OpDel g b k).
Proof.
  run. unfold del, exec. rewrite Hok. fold n. rewrite seen_shown. set (K := row_key g b k).
  destruct (t !! K) as [r|] eqn:Hr; simpl; [|done]. destruct (live n _); simpl; [|done].
  split; [unfold only; by rewrite entry_of_cell|]. apply (bucket_sim_remove n t _ m _ Hsim); [apply delete_subseteq|].
  intros k'. destruct (decide (K = k')) as [<-|Hne]; [right|left]; by rewrite ?lookup_delete_eq, ?lookup_delete_ne.
Qed.

Lemma step_del_many g b pat : one_step (OpDelMany g b pat).
Proof.
  run. unfold del_many, exec. rewrite Hok. fold n. simpl. split.
  - unfold only. do 2 f_equal. by rewrite <- (select_cells _ _ (matching_live n g b pat)), length_fmap.
  - apply (bucket_sim_remove n t _ m _ Hsim); [apply map_filter_subseteq|]. intros k.
    rewrite !map_lookup_filter, seen. destruct (t !! k) as [r|]; simpl; [|by left]. rewrite matching_live. simpl.
    destruct (expired n (db_expires_at r)) eqn:He; simpl.
    + right. split; [|done]. case_guard; simpl; [by rewrite He|done].
    + repeat case_guard; simpl; first [done | by left | by right].
Qed.

Lemma step_get_many g b pat a lim : one_step (OpGetMany g b pat a lim).
Proof.
  run. unfold get_many, exec. rewrite Hok. fold n. apply step_read. unfold only. simpl. do 2 f_equal.
  rewrite entries_cells. f_equal. unfold limit_offset. rewrite fmap_take, fmap_drop. do 2 f_equal. apply order_by_cells.
  intros kr. rewrite matching_live, <- !andb_assoc. f_equal. apply andb_comm.
Qed.

Lemma step_count g b pat : one_step (OpCount g b pat).
Proof.
  run. unfold count, exec. rewrite Hok. fold n. apply step_read. unfold only. simpl. do 2 f_equal.
  by rewrite <- (select_cells _ _ (matching_live n g b pat)), length_fmap.
Qed.

Lemma step_usage g : one_step (OpUsage g).
Proof.
  run. unfold guild_storage_usage_bytes, exec. rewrite Hok. fold n. apply step_read. unfold only. simpl. do 2 f_equal.
  transitivity (foldr (λ kc acc, pg_column_size kc.1 (row_of_cell kc.2) + acc) 0
    (with_cell <$> select (λ kr : BucketKey * DbEntry, (kr.1.1.1 =? u64_as_i64 g) && live n (db_expires_at kr.2)) t));
    [|apply (foldr_permutation eq _ 0); [intros; simpl; lia|by apply (select_cells (λ k, k.1.1 =? u64_as_i64 g))]].
  assert (Forall (λ kr : BucketKey * DbEntry, one_value kr.2) (select (λ kr : BucketKey * DbEntry, (kr.1.1.1 =? u64_as_i64 g) && live n (db_expires_at kr.2)) t)) as Hall.
  { apply Forall_forall. intros [k r] Hin. apply elem_of_List_filter in Hin as [Hin _]. apply elem_of_hiter in Hin.
    by apply (sim_values _ _ _ Hsim k). }
  induction Hall as [|kr l Hkr _ IH]; [done|]. simpl. by rewrite row_of_cell_of_db, IH.
Qed.

Lemma cell_number_row r : cell_number (cell_of_db r) = db_value_float r.
Proof. unfold cell_number, cell_of_db, db_value. simpl. by destruct (db_value_float r), (db_value_json r). Qed.

Lemma step_incr g b (k : string) x : one_step (OpIncr g b k x).
Proof.
  run. unfold incr, exec. rewrite Hok. fold n. rewrite seen. destruct (t !! _) as [r|] eqn:Hr.
  - destruct (expired n _) eqn:He; [apply step_put; rewrite ?Hr, ?He; try done; by right|].
    rewrite cell_number_row. unfold float8_plus. destruct (db_value_float r) as [y|]; [destruct (float8_add x y); [|done]|];
      apply step_put; rewrite ?Hr, ?He; try done; by right.
  - apply step_put; rewrite ?Hr; try done. by right.
Qed.

Lemma cell_le_row a b : cell_le (with_cell a) (with_cell b) = float_asc_le a b.
Proof.
  unfold cell_le, float_asc_le. simpl. by rewrite !cell_number_row.
Qed.

Lemma sorted_rows o l :
  StronglySorted (is_le (cell_order o)) (with_cell <$> order_by (match o with Ascending => float_asc_le | Descending => float_desc_le end) l).
Proof.
  eapply (StronglySorted_fmap _ (is_le (match o with Ascending => float_asc_le | Descending => float_desc_le end))).
  - intros x y. unfold is_le. destruct o; unfold cell_order, float_desc_le; by rewrite cell_le_row.
  - destruct o; apply order_by_sorted; unfold float_desc_le; eauto using float_asc_le_total, float_asc_le_trans.
Qed.

Lemma step_sorted g b o off lim : one_step (OpSorted g b o off lim).
Proof.
  run. unfold sorted_entries, exec. rewrite Hok. fold n. apply step_read. simpl.
  exists (with_cell <$> order_by (match o with Ascending => float_asc_le | Descending => float_desc_le end) (select (in_bucket n g b) t)).
  split_and!; [by rewrite order_by_perm, (select_cells (λ k, bool_decide (k.1 = (u64_as_i64 g, b))))|apply sorted_rows|].
  rewrite entries_cells. unfold limit_offset. by rewrite fmap_take, fmap_drop.
Qed.

Lemma step_delete_guild g : one_step (OpDeleteGuild g).
Proof.
  run. unfold delete_guild_bucket_store_data, exec. rewrite Hok. simpl. split; [done|].
  apply (bucket_sim_remove n t _ m _ Hsim); [apply map_filter_subseteq|]. intros k. rewrite !map_lookup_filter, seen.
  destruct (t !! k) as [r|]; simpl; [|by left]. destruct (expired n _) eqn:He; simpl; case_guard; simpl; rewrite ?He; auto.
Qed.

Lemma step_one op : one_step op.
Proof.
  destruct op; auto using step_get, step_set, step_set_if, step_del, step_del_many, step_get_many, step_count, step_usage,
    step_incr, step_sorted, step_delete_guild.
Qed.
End step.

Lemma expire_idem n m : expire n (expire n m) = expire n m.
Proof. apply map_eq. intros k. rewrite !lookup_expire. by apply present_present. Qed.

Lemma spec_op_panic n n' op m m' : spec_op n op m = Panic ↔ spec_op n' op m' = Panic.
Proof.
  destruct op; simpl; try done; try (by destruct (ttl_expiry _ _)). by destruct (m !! _), (m' !! _).
Qed.

Lemma bucket_step_error env op t e :
  pg_error env = Some e →
  bucket_step env op t = match spec_op 0 op ∅ with Panic => Panic | Ret _ => Ret (t, Err e) end.
Proof.
  intros Herr. unfold bucket_step, spec_op.
  destruct op; unfold get, set, set_if, del, del_many, get_many, count, guild_storage_usage_bytes, incr, sorted_entries,
    delete_guild_bucket_store_data, exec; rewrite ?Herr; try done;
    try (destruct (ttl_expiry _ _); simpl; rewrite ?Herr; done).
Qed.

Lemma bucket_step_sim since env op t m :
  bucket_sim since t m → since ≤ pg_now env →
  step_rel (pg_now env) (bucket_step env op t) (spec_step env op m).
Proof.
  intros Hs Hn. pose proof (bucket_sim_expire _ _ _ _ Hs Hn) as Hs'. unfold spec_step.
  destruct (pg_error env) as [e|] eqn:Herr.
  - rewrite (bucket_step_error _ _ _ _ Herr). pose proof (spec_op_panic 0 (pg_now env) op ∅ (expire (pg_now env) m)) as Hp.
    destruct (spec_op 0 op ∅) as [x|], (spec_op (pg_now env) op (expire (pg_now env) m)) as [[m' Q]|]; simpl; try done; naive_solver.
  - pose proof (step_one env t _ Herr Hs' (expire_idem _ _) op) as Hone. unfold one_step in Hone.
    by destruct (spec_op (pg_now env) op (expire (pg_now env) m)) as [[m' Q]|].
Qed.

(** C3: The key-value store of the trait refines a map with expiring cells. Any sequence of the
    trait's eleven operations, with database errors wherever they happen, on a database whose
    clock does not go back, gives results that the map permits: a cell is shown until its instant
    of expiry and gone after it, and at that very instant it is not shown but still in the way of
    a write that wants its key to be free. *)
Theorem bucket_refines_ttl_map since ops t m :
  bucket_sim since t m → timely since ops → let (rs, panicked) := run_ops ops t in permits ops m rs panicked.
Proof.
  revert since t m. induction ops as [|[env op] ops IH]; intros since t m Hs Ht; simpl; [done|].
  destruct Ht as [Hn Ht]. pose proof (bucket_step_sim since env op t m Hs Hn) as Hstep.
  destruct (bucket_step env op t) as [[t' r]|], (spec_step env op m) as [[m' Q]|]; try done.
  destruct Hstep as [HQ Hs']. specialize (IH _ _ _ Hs' Ht). by destruct (run_ops ops t').
Qed.
End refinement.

(** * Listing a bucket page by page *)

Section paging.
Context `{!Calendar, !Pg, !ColumnSize, !HashOrder BucketKey, !PgLaws _}.
Context (env : PgEnv) (g : GuildId) (b pat : string) (limit : Z) (t : BucketTable).

(** A caller that asks for the entries after the last key it got, until a page is empty. *)
Fixpoint list_pages (fuel : nat) (after : string) : list Entry :=
  match fuel with
  | O => []
  | S fuel =>
      match (get_many env g b pat after limit t).2 with
      | Ok page =>
          match last page with
          | Some e => page ++ list_pages fuel (e_key e)
          | None => []
          end
      | Err _ => []
      end
  end.

Definition after_key (after : string) (kr : BucketKey * DbEntry) : bool :=
  matching (pg_now env) g b pat kr && text_lt after kr.1.2.

(** Every matching live row after a key, in key order. *)
Definition rows_after (after : string) : list (BucketKey * DbEntry) :=
  order_by key_le (select (after_key after) t).

Lemma text_lt_trans x y z : text_lt x y = true → text_lt y z = true → text_lt x z = true.
Proof.
  unfold text_lt. rewrite !negb_true_iff. intros Hxy Hyz. destruct (text_le z x) eqn:Hzx; [|done].
  destruct (text_le_total x y) as [H'|H']; [|congruence].
  pose proof (text_le_trans _ _ _ Hzx H'). congruence.
Qed.

Lemma in_rows_after after k r :
  (k, r) ∈ rows_after after ↔ t !! k = Some r ∧ after_key after (k, r) = true.
Proof. unfold rows_after, select. by rewrite order_by_perm, elem_of_List_filter, elem_of_hiter. Qed.

(** Within a bucket the order is the order of the keys, and keys do not repeat. *)
Lemma rows_after_sorted after :
  StronglySorted (λ x y : BucketKey * DbEntry, text_lt x.1.2 y.1.2 = true) (rows_after after).
Proof.
  assert (NoDup (rows_after after).*1) as Hnd
    by (unfold rows_after; rewrite order_by_perm; apply NoDup_fst_List_filter, NoDup_hiter).
  assert (StronglySorted (is_le key_le) (rows_after after)) as Hs
    by (apply order_by_sorted; [apply key_le_total|apply key_le_trans]).
  assert (∀ x, x ∈ rows_after after → x.1.1 = (u64_as_i64 g, b)) as Hb.
  { intros [k r] [_ Hk]%in_rows_after. unfold after_key, matching, in_bucket in Hk.
    rewrite !andb_true_iff, bool_decide_eq_true in Hk. naive_solver. }
  induction (rows_after after) as [|x l IH]; [constructor|].
  apply StronglySorted_cons in Hs as [Hx Hs]. apply NoDup_cons in Hnd as [Hni Hnd].
  apply StronglySorted_cons. split; [|apply IH; auto; intros; apply Hb; by constructor].
  rewrite Forall_forall in Hx |- *. intros y Hy. specialize (Hx y Hy).
  pose proof (Hb x ltac:(constructor)) as Hbx. pose proof (Hb y ltac:(by constructor)) as Hby.
  destruct x as [[[gx bx] kx] rx], y as [[[gy by'] ky] ry]. simpl in *. simplify_eq.
  unfold is_le, key_le in Hx. simpl in Hx. rewrite Z.eqb_refl, bool_decide_eq_true_2 in Hx by done.
  unfold text_lt. apply negb_true_iff, not_true_is_false. intros Hge. apply Hni.
  pose proof (text_le_antisymm _ _ Hx Hge). subst ky. apply list_elem_of_fmap. by exists (u64_as_i64 g, b, kx, ry).
Qed.

Lemma text_lt_irrefl x : text_lt x x = false.
Proof. unfold text_lt. apply negb_false_iff. by destruct (text_le_total x x). Qed.

(** The rows after the last one of a page are those the page left out. *)
Lemma rows_after_page after n x :
  last (take n (rows_after after)) = Some x → rows_after x.1.2 = drop n (rows_after after).
Proof.
  intros Hlast. pose proof (rows_after_sorted after) as Hs.
  pose proof (take_drop n (rows_after after)) as Htd. rewrite <- Htd in Hs.
  apply StronglySorted_app in Hs as (Hlt & Hs1 & Hs2).
  pose proof Hlast as [l0 Hl0]%last_Some.
  assert (x ∈ take n (rows_after after)) as Hx by (rewrite Hl0; apply elem_of_app; right; by constructor).
  assert (∀ k r, (k, r) ∈ rows_after x.1.2 ↔ (k, r) ∈ drop n (rows_after after)) as Hmem.
  { intros k r. rewrite in_rows_after. split.
    - intros [Hk Ha]. unfold after_key in Ha. apply andb_prop in Ha as [Hm Hkx]. simpl in Hkx.
      assert ((k, r) ∈ take n (rows_after after) ++ drop n (rows_after after)) as Hin.
      { rewrite Htd. apply in_rows_after. split; [done|]. unfold after_key. rewrite Hm. simpl.
        eapply text_lt_trans; [|done]. apply elem_of_take in Hx as (i & Hx & _).
        destruct x as [kx rx]. apply list_elem_of_lookup_2, in_rows_after in Hx as [_ Hx].
        unfold after_key in Hx. by apply andb_prop in Hx as [_ ?]. }
      apply elem_of_app in Hin as [Hin|]; [exfalso|done]. rewrite Hl0 in Hin, Hs1.
      apply elem_of_app in Hin as [Hin|Hin].
      + apply StronglySorted_app in Hs1 as (Hb & _). specialize (Hb _ x Hin ltac:(by constructor)). simpl in Hb.
        pose proof (text_lt_trans _ _ _ Hkx Hb) as Hc. by rewrite text_lt_irrefl in Hc.
      + apply list_elem_of_singleton in Hin. subst x. simpl in Hkx. by rewrite text_lt_irrefl in Hkx.
    - intros Hin. specialize (Hlt x (k, r) Hx Hin).
      assert ((k, r) ∈ rows_after after) as [Hk Ha]%in_rows_after by (rewrite <- Htd; apply elem_of_app; by right).
      split; [done|].
      unfold after_key in *. apply andb_prop in Ha as [-> _]. done. }
  apply (StronglySorted_unique_strong (λ x y : BucketKey * DbEntry, text_lt x.1.2 y.1.2 = true));
    [|apply rows_after_sorted|done|].
  - intros y z _ _ Hyz Hzy. pose proof (text_lt_trans _ _ _ Hyz Hzy) as Hc. by rewrite text_lt_irrefl in Hc.
  - apply NoDup_Permutation.
    + apply (NoDup_fmap_1 fst). unfold rows_after. rewrite order_by_perm. apply NoDup_fst_List_filter, NoDup_hiter.
    + eapply sublist_NoDup; [|apply sublist_drop].
      apply (NoDup_fmap_1 fst). unfold rows_after. rewrite order_by_perm. apply NoDup_fst_List_filter, NoDup_hiter.
    + intros [k r]. apply Hmem.
Qed.

Lemma get_many_page after :
  pg_error env = None →
  (get_many env g b pat after limit t).2 = Ok (entries (take (Z.to_nat limit) (rows_after after))).
Proof. intros Hok. unfold get_many, exec, limit_offset. by rewrite Hok. Qed.

(** C25: A caller that pages through a bucket gets every matching live entry after its starting
    point once, in key order. *)
Theorem paging_complete fuel after :
  pg_error env = None → 0 < limit → (length (rows_after after) < fuel)%nat →
  list_pages fuel after = entries (rows_after after).
Proof.
  intros Hok Hlim. revert after. induction fuel as [|fuel IH]; intros after Hf; [lia|]. simpl.
  rewrite get_many_page by done. unfold entries at 1. rewrite fmap_last.
  destruct (last (take (Z.to_nat limit) (rows_after after))) as [x|] eqn:Hx; simpl.
  - rewrite IH; rewrite (rows_after_page after _ x Hx).
    + unfold entries. by rewrite <- fmap_app, take_drop.
    + rewrite length_drop. destruct (rows_after after); [by rewrite take_nil in Hx|]. simpl in *. lia.
  - apply last_None in Hx. destruct (rows_after after) as [|y l]; [done|].
    destruct (Z.to_nat limit) eqn:?; [lia|done].
Qed.
End paging.

(** * Further properties of the statements *)

Definition op_guild (op : BucketOp) : GuildId :=
  match op with
  | OpGet g _ _ | OpSet _ g _ _ _ _ | OpSetIf _ g _ _ _ _ _ | OpDel g _ _ | OpDelMany g _ _
  | OpGetMany g _ _ _ _ | OpCount g _ _ | OpUsage g | OpIncr g _ _ _ | OpSorted g _ _ _ _ | OpDeleteGuild g => g
  end.

Definition has_value (r : DbEntry) : Prop := is_Some (db_value_float r) ∨ is_Some (db_value_json r).

Section facts.
Context `{!Calendar, !Pg, !ColumnSize, !HashOrder BucketKey}.
Implicit Types (t : BucketTable) (env : PgEnv).

(** Every statement writes at most rows of the form below, under keys of its own guild. *)
Inductive row_change env (g : GuildId) t : BucketTable → Prop :=
| change_none : row_change env g t t
| change_write k r : k.1.1 = u64_as_i64 g → one_value r → db_updated_at r = pg_now env → row_change env g t (<[k := r]> t)
| change_remove (p : BucketKey * DbEntry → Prop) `{!∀ x, Decision (p x)} :
    (∀ k r, k.1.1 ≠ u64_as_i64 g → p (k, r)) → row_change env g t (filter p t)
| change_delete k : k.1.1 = u64_as_i64 g → row_change env g t (delete k t).

Lemma new_row_updated now e v : db_updated_at (new_row now e v) = now.
Proof. by destruct v. Qed.

Lemma bucket_step_change env op t t' r :
  bucket_step env op t = Ret (t', r) → row_change env (op_guild op) t t'.
Proof.
  assert (∀ now e v c u, let r := new_row now e v in
    one_value (mkDbEntry c u (db_expires_at r) (db_value_json r) (db_value_float r))) as Hupd
    by (intros; apply (one_value_new now e v)).
  destruct op as [g b k|u g b k v ttl|u g b k v ttl c|g b k|g b pat|g b pat a n|g b pat|g|g b k x|g b o off n|g];
    unfold bucket_step, get, set, set_if, set_if_exists, set_if_not_exists, del, del_many, get_many, count, guild_storage_usage_bytes, incr, sorted_entries,
      delete_guild_bucket_store_data, exec, write; simpl;
    try (destruct (ttl_expiry _ _) as [e|]; simpl; [|done]);
    (destruct (pg_error env); [by intros [= <- _]; constructor|]); try (destruct c); simpl;
    try (destruct (t !! _) as [r0|]); simpl; repeat (case_match; simplify_eq/=);
    intros; simplify_eq/=; try (by constructor); 
    try (apply change_write; [done|first [apply one_value_new|apply Hupd|by right]|first [done|apply new_row_updated]]).
  - apply change_remove. intros [[g' b'] k'] r' Hne. unfold matching, in_bucket. simpl.
    rewrite bool_decide_eq_false_2; [done|]. simpl in Hne. congruence.
Qed.

(** No operation touches the rows of another guild. *)
Theorem bucket_guild_isolation env op t t' r k :
  bucket_step env op t = Ret (t', r) →
  (0 ≤ op_guild op ≤ u64_max) → (∃ g', 0 ≤ g' ≤ u64_max ∧ g' ≠ op_guild op ∧ k.1.1 = u64_as_i64 g') →
  t' !! k = t !! k.
Proof.
  intros Hstep%bucket_step_change Hg (g' & Hg' & Hne & Hk).
  assert (k.1.1 ≠ u64_as_i64 (op_guild op)) as Hk'.
  { rewrite Hk. unfold u64_as_i64, i64_max, u64_max in *.
    destruct (Z.leb_spec g' (2 ^ 63 - 1)), (Z.leb_spec (op_guild op) (2 ^ 63 - 1)); lia. }
  destruct Hstep as [|k0 r0 Hk0| p Hdec Hp|k0 Hk0]; [done|..].
  - apply lookup_insert_ne. congruence.
  - rewrite map_lookup_filter. destruct (t !! k) as [r1|]; [|done]. simpl.
    case_guard as Hn; [done|]. by destruct Hn; apply Hp.
  - apply lookup_delete_ne. congruence.
Qed.

(** A row never holds a number and a JSON value at once. *)
Theorem bucket_one_value env op t t' r :
  bucket_step env op t = Ret (t', r) →
  map_Forall (λ _, one_value) t → map_Forall (λ _, one_value) t'.
Proof.
  intros Hstep%bucket_step_change Ht. destruct Hstep as [|k0 r0 Hk0 Hv| p Hdec Hp|k0 Hk0]; [done|..].
  - by apply map_Forall_insert_2.
  - intros k r0 [H' _]%map_lookup_filter_Some. by eapply Ht.
  - by apply map_Forall_delete.
Qed.

(** At the instant a row expires it is neither there nor free: a conditional write is refused
    under both conditions. *)
Theorem expiry_instant_refuses_both env u g b k v ttl c t r0 t' r :
  t !! row_key g b k = Some r0 → db_expires_at r0 = Some (pg_now env) →
  set_if env u g b k v ttl c t = Ret (t', r) →
  t' = t ∧ (r = Ok None ∨ ∃ e, r = Err e).
Proof.
  intros Hk He. unfold set_if, exec. destruct (ttl_expiry u ttl); simpl; [|done].
  destruct (pg_error env); [intros [= <- <-]; eauto|].
  destruct c; simpl; unfold set_if_exists, set_if_not_exists; rewrite Hk, He; simpl; rewrite Z.ltb_irrefl;
    intros [= <- <-]; eauto.
Qed.

(** [incr] on a live key that holds a JSON value destroys the value: both columns become NULL. *)
Theorem incr_loses_json env g b k x t r0 :
  t !! row_key g b k = Some r0 → live (pg_now env) (db_expires_at r0) = true → db_value_float r0 = None →
  pg_error env = None →
  let (t', r) := incr env g b k x t in
  r = Ok (mkEntry b k (Json JNull) None) ∧
  ∃ r', t' !! row_key g b k = Some r' ∧ ¬ has_value r'.
Proof.
  intros Hk Hl Hf Hok. unfold incr, exec. rewrite Hok, Hk.
  assert (expired (pg_now env) (db_expires_at r0) = false) as ->.
  { destruct (db_expires_at r0); simpl in *; [|done]. rewrite Z.ltb_lt in Hl. apply Z.ltb_ge. lia. }
  rewrite Hf. simpl. split; [done|]. eexists. rewrite lookup_insert_eq. split; [done|].
  intros [[? [=]]|[? [=]]].
Qed.
End facts.

(** ** Sorted listings *)

Section sorted.
Context `{!Calendar, !Pg, !ColumnSize, !HashOrder BucketKey, !PgLaws _}.

(** [sorted_entries] returns a window of the live rows of the bucket ordered by value and then
    by update time. In descending order, values that are not numbers come before all others. *)
Theorem sorted_entries_window env g b order offset limit t :
  pg_error env = None →
  ∃ l, l ≡ₚ select (in_bucket (pg_now env) g b) t ∧
       StronglySorted (is_le (match order with Ascending => float_asc_le | Descending => float_desc_le end)) l ∧
       sorted_entries env g b order offset limit t =
         (t, Ok (entries (take (Z.to_nat limit) (drop (Z.to_nat offset) l)))).
Proof.
  intros Hok. unfold sorted_entries, exec, limit_offset. rewrite Hok. eexists. split_and!; [|  |done].
  - apply order_by_perm.
  - destruct order; apply order_by_sorted.
    + apply float_asc_le_total.
    + apply float_asc_le_trans.
    + intros x y. apply float_asc_le_total.
    + intros x y z H1' H2'. by eapply float_asc_le_trans.
Qed.

Lemma descending_null_first a b :
  db_value_float a.2 = None → is_Some (db_value_float b.2) → float_desc_le a b = true ∧ float_desc_le b a = false.
Proof. unfold float_desc_le, float_asc_le. intros -> [x ->]. done. Qed.
End sorted.

(** * Examples *)

Definition ex_bucket_calendar : Calendar := {|
  dt_min := -8334632851200 * nanos_per_sec;
  dt_max := 8210298412799 * nanos_per_sec;
  Schedule := unit;
  cron_parse _ := None;
  cron_next _ _ := None;
|}.
Definition ex_column_size : ColumnSize := λ k r, 100.
#[local] Existing Instance ex_bucket_calendar.
#[local] Existing Instance ex_pg.
#[local] Existing Instance ex_pg_laws.
#[local] Existing Instance ex_column_size.
#[local] Existing Instance list_order.

Definition ex_env (now : Z) : PgEnv := mkPgEnv now None.
Definition ex_x : f64 := F64 7.

(** Set with a time to live of 1 s, read it, read it after it expired, set it again if absent,
    add to it, list and delete. *)
Definition ex_ops : list (PgEnv * BucketOp) :=
  [ (ex_env 1000000000, OpSet 1000000000 1 "b" "k1" (Float ex_x) (Some nanos_per_sec));
    (ex_env 1500000000, OpGet 1 "b" "k1");
    (ex_env 2500000000, OpGet 1 "b" "k1");
    (ex_env 2600000000, OpSetIf 2600000000 1 "b" "k1" (Json (JBool true)) None IfNotExists);
    (ex_env 2600000000, OpSet 2600000000 1 "b" "k0" (Float ex_x) None);
    (ex_env 2700000000, OpIncr 1 "b" "k0" ex_x);
    (mkPgEnv 2800000000 (Some (SqlxOther "closed")), OpDel 1 "b" "k0");
    (ex_env 2900000000, OpGetMany 1 "b" "%" "" 10);
    (ex_env 2900000000, OpSorted 1 "b" Descending 0 10);
    (ex_env 2900000000, OpUsage 1);
    (ex_env 3000000000, OpDelMany 1 "b" "%");
    (ex_env 3100000000, OpCount 1 "b" "%") ].

Lemma bucket_refines_ttl_map_witness :
  (let (rs, panicked) := run_ops ex_ops ∅ in permits ex_ops ∅ rs panicked) ∧
  (run_ops ex_ops ∅).1 !! 7%nat =
    Some (Ok (ResEntries [mkEntry "b" "k0" (Float (F64 14)) None; mkEntry "b" "k1" (Json (JBool true)) None])) ∧
  (run_ops ex_ops ∅).1 !! 9%nat = Some (Ok (ResCount 200)).
Proof.
  split; [|split; vm_compute; reflexivity].
  apply (bucket_refines_ttl_map 0 ex_ops ∅ ∅); [split; [apply map_Forall_empty|intros k now _; by rewrite !lookup_empty]|].
  vm_compute. repeat split; discriminate.
Defined.

Definition ex_table : BucketTable :=
  <[(1, "b", "k1") := mkDbEntry 0 0 None None (Some ex_x)]>
  (<[(1, "b", "k2") := mkDbEntry 0 5 None (Some JNull) None]>
  (<[(1, "b", "k3") := mkDbEntry 0 5 (Some 5) (Some JNull) None]>
  (<[(2, "b", "k1") := mkDbEntry 0 5 (Some 100) None (Some ex_x)]> ∅))).

Lemma paging_complete_witness :
  list_pages (ex_env 10) 1 "b" "%" 1 ex_table 5 "" =
  entries (rows_after (ex_env 10) 1 "b" "%" ex_table "") ∧
  length (rows_after (ex_env 10) 1 "b" "%" ex_table "") = 2%nat.
Proof.
  split; [apply paging_complete; [reflexivity|lia|vm_compute; lia] | vm_compute; reflexivity].
Defined.

Lemma bucket_guild_isolation_witness :
  match bucket_step (ex_env 10) (OpDeleteGuild 1) ex_table with
  | Ret (t', _) => t' !! (2, "b", "k1") = ex_table !! (2, "b", "k1")
  | Panic => False
  end.
Proof.
  destruct (bucket_step (ex_env 10) (OpDeleteGuild 1) ex_table) as [[t' r]|] eqn:E; [|done].
  eapply bucket_guild_isolation; [exact E|vm_compute; split; discriminate|].
  exists 2. vm_compute. repeat split; discriminate.
Defined.

Lemma incr_loses_json_witness :
  (incr (ex_env 10) 1 "b" "k2" ex_x ex_table).2 = Ok (mkEntry "b" "k2" (Json JNull) None).
Proof.
  pose proof (incr_loses_json (ex_env 10) 1 "b" "k2" ex_x ex_table (mkDbEntry 0 5 None (Some JNull) None)
    eq_refl eq_refl eq_refl eq_refl) as H.
  destruct (incr (ex_env 10) 1 "b" "k2" ex_x ex_table) as [t' r]. exact (proj1 H).
Defined.

Lemma expiry_instant_refuses_both_witness :
  match set_if (ex_env 5) 5 1 "b" "k3" (Float ex_x) None IfNotExists ex_table with
  | Ret (t', r) => t' = ex_table ∧ r = Ok None
  | Panic => False
  end.
Proof.
  destruct (set_if (ex_env 5) 5 1 "b" "k3" (Float ex_x) None IfNotExists ex_table) as [[t' r]|] eqn:E; [|done].
  pose proof (expiry_instant_refuses_both (ex_env 5) 5 1 "b" "k3" (Float ex_x) None IfNotExists ex_table
      (mkDbEntry 0 5 (Some 5) (Some JNull) None) t' r eq_refl eq_refl E) as [-> [-> |[e ->]]]; [done|].
  discriminate E.
Defined.

Lemma sorted_entries_window_witness :
  (sorted_entries (ex_env 10) 1 "b" Descending 0 10 ex_table).2 =
    Ok [mkEntry "b" "k2" (Json JNull) None; mkEntry "b" "k1" (Float ex_x) None] ∧
  ∃ l, l ≡ₚ select (in_bucket 10 1 "b") ex_table ∧ StronglySorted (is_le float_desc_le) l.
Proof.
  split; [vm_compute; reflexivity|].
  destruct (sorted_entries_window (ex_env 10) 1 "b" Descending 0 10 ex_table eq_refl) as (l & Hp & Hs & _).
  exact (ex_intro _ l (conj Hp Hs)).
Defined.
