(* ===== verification/Storage.v ===== *)
(** The storage operations offered to scripts ([components/runtime/src/extensions/storage.rs],
    [limits.rs], and the argument types of [runtime-models/src/internal/storage.rs]): argument
    limits, the check of the guild's storage quota, and the call of the bucket store.

    The operations of a vm are futures on one thread, so a call is a sequence of phases between
    which the other calls run: [storage_op_step] runs one call from one await to the next, and
    [sys_step] interleaves any number of calls on the shared [StorageState] and table. *)
From stdpp Require Import base gmap list strings sorting.
From S2P Require Import Prelude Models WorkerPool Commands World Postgres BucketStore.

(** * components/runtime/src/limits.rs *)

Definition numeric_limit (none lite premium : Z) (tier : option PremiumSlotTier) : Z :=
  match tier with
  | None => none
  | Some Lite => lite
  | Some Premium => premium
  end.

Definition storage_total_size : option PremiumSlotTier → Z := numeric_limit 1000000 10000000 100000000.
Definition tasks_data_size : option PremiumSlotTier → Z := numeric_limit 1000 10000 10000.
Definition tasks_scheduled_count : option PremiumSlotTier → Z := numeric_limit 10000 100000 100000.

(** [RateLimiters::new]: the quotas per second of the two rate limiters. *)
Definition user_http_quota : option PremiumSlotTier → Z := numeric_limit 1 2 2.
Definition task_ops_quota : option PremiumSlotTier → Z := numeric_limit 1 2 3.

(** * components/runtime-models/src/internal/storage.rs *)

Inductive OpStorageBucketValue :=
| OJson (v : JsonValue)
| ODouble (x : f64).

Definition op_value_of_store (v : StoreValue) : OpStorageBucketValue :=
  match v with
  | Json s => OJson s
  | Float f => ODouble f
  end.

Definition store_value_of_op (v : OpStorageBucketValue) : StoreValue :=
  match v with
  | OJson s => Json s
  | ODouble f => Float f
  end.

Inductive OpStorageBucketListOrder := OAscending | ODescending.
Inductive OpStorageBucketSetCondition := OIfExists | OIfNotExists.

Definition order_of_op (v : OpStorageBucketListOrder) : SortedOrder :=
  match v with
  | OAscending => Ascending
  | ODescending => Descending
  end.

Definition cond_of_op (v : OpStorageBucketSetCondition) : SetCondition :=
  match v with
  | OIfExists => IfExists
  | OIfNotExists => IfNotExists
  end.

Record OpStorageBucketEntry := mkOpEntry {
  oe_bucket_name : string;
  oe_key : string;
  oe_value : OpStorageBucketValue;
  oe_expires_at : option Z;
}.

(** [NotBigU64(e.timestamp_millis() as u64)] *)
Definition timestamp_millis_u64 (e : Z) : Z := (e / 1000000) mod 2 ^ 64.

Definition op_entry_of_entry (v : Entry) : OpStorageBucketEntry :=
  mkOpEntry (e_bucket v) (e_key v) (op_value_of_store (e_value v)) (timestamp_millis_u64 <$> e_expires_at v).

(** The arguments of the operations: [OpStorageBucketSetValue], [OpStorageBucketSetIf],
    [OpStorageBucketEntryId], [OpStorageBucketList], [OpStorageBucketIncr] and
    [OpStorageBucketSortedList]. A [ttl] is a [u32] of seconds. *)
Inductive StorageReq :=
| RqSet (bucket_name key : string) (value : OpStorageBucketValue) (ttl : option Z)
| RqSetIf (bucket_name key : string) (value : OpStorageBucketValue) (ttl : option Z) (cond : OpStorageBucketSetCondition)
| RqGet (bucket_name key : string)
| RqDel (bucket_name key : string)
| RqDelMany (bucket_name key_pattern : string)
| RqList (bucket_name : string) (key_pattern after : option string) (limit : option Z)
| RqCount (bucket_name key_pattern : string)
| RqIncr (bucket_name key : string) (amount : f64)
| RqSortedList (bucket_name : string) (offset limit : option Z) (order : OpStorageBucketListOrder).

(** * components/runtime/src/extensions/storage.rs *)

Record StorageState := mkStorageState {
  requests_until_limit_check : Z;
  doing_limit_check : bool;
  hit_limit : bool;
}.

(** The state [extension()] puts in place. *)
Definition storage_init : StorageState := mkStorageState 0 false false.

Inductive AnyError :=
| AnyMsg (msg : string)
| AnySqlx (e : SqlxError).
#[global] Instance AnyError_eq_dec : EqDecision AnyError.
Proof. solve_decision. Defined.

Definition hit_storage_limit : AnyError := AnyMsg "hit storage limit, delete some entries".

(** The length in bytes of [serde_json::to_string]. *)
Class JsonLen := json_len : JsonValue → Z.

Section checks.
Context `{!JsonLen}.

Definition check_validate_value_len (val : OpStorageBucketValue) : result AnyError unit :=
  match val with
  | OJson json =>
      if 1000000 <? json_len json then Err (AnyMsg "value too big, max value size is 1MB") else Ok tt
  | ODouble _ => Ok tt
  end.

Definition check_validate_key_len (key : string) : result AnyError unit :=
  if 256 <? Z.of_nat (String.length key) then Err (AnyMsg "key too long (max 256 bytes)") else Ok tt.

(** What [check_validate_storage_usage] does until its first await: the result of the fast
    path, or whether to do the check or to wait for the one in progress. *)
Inductive CheckStart :=
| CheckNow (r : result AnyError unit)
| DoCheck
| WaitForCheck.

Definition check_start (st : StorageState) : CheckStart * StorageState :=
  if negb (doing_limit_check st) then
    if hit_limit st then (CheckNow (Err hit_storage_limit), st)
    else if 1 <=? requests_until_limit_check st then
      (CheckNow (Ok tt), mkStorageState (requests_until_limit_check st - 1) (doing_limit_check st) (hit_limit st))
    else (DoCheck, mkStorageState (requests_until_limit_check st) true (hit_limit st))
  else (WaitForCheck, st).

(** ... when the usage has been queried ... *)
Definition check_finish (limit : Z) (used_storage : result SqlxError Z) (st : StorageState)
    : result AnyError unit * StorageState :=
  let st := mkStorageState (requests_until_limit_check st) false (hit_limit st) in
  match used_storage with
  | Err e => (Err (AnySqlx e), st)
  | Ok used =>
      if limit <=? used then (Err hit_storage_limit, mkStorageState (requests_until_limit_check st) false true)
      else (Ok tt, mkStorageState 10 false (hit_limit st))
  end.

(** ... and when a sleep of the waiting loop ends: [None] sleeps again. *)
Definition check_poll (st : StorageState) : option (result AnyError unit) :=
  if negb (doing_limit_check st) then
    Some (if hit_limit st then Err hit_storage_limit else Ok tt)
  else None.
End checks.

Definition list_limit (limit : option Z) : Z :=
  match limit with
  | Some limit => if limit <? 100 then limit else 100
  | None => 25
  end.

(** What the bucket store answers and what the script gets. *)
Inductive StoreAnswer :=
| SaEntry (e : Entry)
| SaOptEntry (e : option Entry)
| SaCount (n : Z)
| SaEntries (l : list Entry).

Inductive StorageRes :=
| SrEntry (e : OpStorageBucketEntry)
| SrOptEntry (e : option OpStorageBucketEntry)
| SrCount (n : Z)
| SrEntries (l : list OpStorageBucketEntry).

Definition storage_res (a : StoreAnswer) : StorageRes :=
  match a with
  | SaEntry e => SrEntry (op_entry_of_entry e)
  | SaOptEntry e => SrOptEntry (op_entry_of_entry <$> e)
  | SaCount n => SrCount n
  | SaEntries l => SrEntries (op_entry_of_entry <$> l)
  end.

Inductive OpPhase :=
| PCalled
| PUsageQuery
| PUsageKnown (used : result SqlxError Z)
| PSleeping
| PStoreCall
| PStoreDone (a : result SqlxError StoreAnswer)
| PFinished (r : result AnyError StorageRes).

(** How the quota check of a call went, and the writes that were let through. *)
Inductive StorageEv :=
| EvFastAdmit
| EvFastReject
| EvCheckStarted
| EvCheckPassed
| EvCheckRejected
| EvCheckError
| EvWaitStarted
| EvWaiterAdmit
| EvWaiterReject
| EvUnblocked
| EvWrite.
#[global] Instance StorageEv_eq_dec : EqDecision StorageEv.
Proof. solve_decision. Defined.

Section operations.
Context `{!Calendar, !Pg, !ColumnSize, !HashOrder BucketKey, !JsonLen}.
Context (guild_id : GuildId) (premium_tier : option PremiumSlotTier).
Implicit Types (t : BucketTable) (st : StorageState) (env : PgEnv).

(** The call of the store each operation ends with; [utc_now] is the process clock. *)
Definition store_call env (utc_now : Z) (req : StorageReq) t : outcome (BucketTable * result SqlxError StoreAnswer) :=
  match req with
  | RqSet b k v ttl =>
      do! (t, r) := set env utc_now guild_id b k (store_value_of_op v) (from_secs <$> ttl) t in
      Ret (t, result_map SaEntry r)
  | RqSetIf b k v ttl c =>
      do! (t, r) := set_if env utc_now guild_id b k (store_value_of_op v) (from_secs <$> ttl) (cond_of_op c) t in
      Ret (t, result_map SaOptEntry r)
  | RqGet b k => let (t, r) := get env guild_id b k t in Ret (t, result_map SaOptEntry r)
  | RqDel b k => let (t, r) := del env guild_id b k t in Ret (t, result_map SaOptEntry r)
  | RqDelMany b pat => let (t, r) := del_many env guild_id b pat t in Ret (t, result_map SaCount r)
  | RqList b pat after limit =>
      let (t, r) := get_many env guild_id b (default "%" pat) (default "" after) (list_limit limit) t in
      Ret (t, result_map SaEntries r)
  | RqCount b pat => let (t, r) := count env guild_id b pat t in Ret (t, result_map SaCount r)
  | RqIncr b k amount => let (t, r) := incr env guild_id b k amount t in Ret (t, result_map SaEntry r)
  | RqSortedList b offset limit order =>
      let (t, r) := sorted_entries env guild_id b (order_of_op order) (default 0 offset) (list_limit limit) t in
      Ret (t, result_map SaEntries r)
  end.

(** The argument checks of the operations that write; the others go to the store directly. *)
Definition argument_checks (req : StorageReq) : option (result AnyError unit) :=
  match req with
  | RqSet _ k v _ | RqSetIf _ k v _ _ =>
      Some (match check_validate_value_len v with Ok _ => check_validate_key_len k | Err e => Err e end)
  | RqIncr _ k _ => Some (check_validate_key_len k)
  | _ => None
  end.

(** After the store answered: a deletion that removed something lifts the limit. *)
Definition after_store (req : StorageReq) (a : result SqlxError StoreAnswer) st : StorageState :=
  let unblocked := mkStorageState (requests_until_limit_check st) (doing_limit_check st) false in
  match req, a with
  | RqDel _ _, Ok (SaOptEntry (Some _)) => unblocked
  | RqDelMany _ _, Ok (SaCount res) => if 0 <? res then unblocked else st
  | _, _ => st
  end.

Definition gate (r : result AnyError unit) : OpPhase :=
  match r with
  | Ok _ => PStoreCall
  | Err e => PFinished (Err e)
  end.

(** One call from one await to the next, with the calls to the quota check it completes. *)
Definition storage_op_step env (utc_now : Z) (req : StorageReq) (ph : OpPhase) st t
    : outcome (OpPhase * StorageState * BucketTable * list StorageEv) :=
  match ph with
  | PCalled =>
      match argument_checks req with
      | None => Ret (PStoreCall, st, t, [])
      | Some (Err e) => Ret (PFinished (Err e), st, t, [])
      | Some (Ok _) =>
          match check_start st with
          | (CheckNow r, st) => Ret (gate r, st, t, [match r with Ok _ => EvFastAdmit | Err _ => EvFastReject end])
          | (DoCheck, st) => Ret (PUsageQuery, st, t, [EvCheckStarted])
          | (WaitForCheck, st) => Ret (PSleeping, st, t, [EvWaitStarted])
          end
      end
  | PUsageQuery =>
      let (t, used) := guild_storage_usage_bytes env guild_id t in Ret (PUsageKnown used, st, t, [])
  | PUsageKnown used =>
      let (r, st) := check_finish (storage_total_size premium_tier) used st in
      Ret (gate r, st, t, [match used, r with
                           | Err _, _ => EvCheckError
                           | Ok _, Ok _ => EvCheckPassed
                           | Ok _, Err _ => EvCheckRejected
                           end])
  | PSleeping =>
      match check_poll st with
      | None => Ret (PSleeping, st, t, [])
      | Some r => Ret (gate r, st, t, [match r with Ok _ => EvWaiterAdmit | Err _ => EvWaiterReject end])
      end
  | PStoreCall =>
      do! (t, a) := store_call env utc_now req t in
      Ret (PStoreDone a, st, t, match argument_checks req with Some _ => [EvWrite] | None => [] end)
  | PStoreDone a =>
      let st' := after_store req a st in
      Ret (PFinished (match a with Ok a => Ok (storage_res a) | Err e => Err (AnySqlx e) end), st', t,
           if bool_decide (hit_limit st = true ∧ hit_limit st' = false) then [EvUnblocked] else [])
  | PFinished r => Ret (PFinished r, st, t, [])
  end.

(** ** The calls of a vm *)

Record StorageSys := mkSys {
  sys_state : StorageState;
  sys_table : BucketTable;
  sys_calls : list (StorageReq * OpPhase);
  sys_log : list StorageEv;
}.

Inductive SysAction :=
| ACall (req : StorageReq)
| AResume (i : nat) (env : PgEnv) (utc_now : Z).

Definition sys_init t : StorageSys := mkSys storage_init t [] [].

Definition sys_step (a : SysAction) (s : StorageSys) : outcome StorageSys :=
  match a with
  | ACall req => Ret (mkSys (sys_state s) (sys_table s) (sys_calls s ++ [(req, PCalled)]) (sys_log s))
  | AResume i env utc_now =>
      match sys_calls s !! i with
      | None => Ret s
      | Some (req, ph) =>
          do! (ph, st, t, evs) := storage_op_step env utc_now req ph (sys_state s) (sys_table s) in
          Ret (mkSys st t (<[i := (req, ph)]> (sys_calls s)) (sys_log s ++ evs))
      end
  end.

Fixpoint sys_run (acts : list SysAction) (s : StorageSys) : outcome StorageSys :=
  match acts with
  | [] => Ret s
  | a :: acts => do! s := sys_step a s in sys_run acts s
  end.

Inductive storage_reachable t0 : StorageSys → Prop :=
| sr_init : storage_reachable t0 (sys_init t0)
| sr_step a s s' : storage_reachable t0 s → sys_step a s = Ret s' → storage_reachable t0 s'.
End operations.

(** * The quota check under interleaving *)

Definition is_checking (c : StorageReq * OpPhase) : bool :=
  match c.2 with
  | PUsageQuery | PUsageKnown _ => true
  | _ => false
  end.

(** A write that has been let through and one that waits. *)
Definition is_write (req : StorageReq) : bool :=
  match req with RqSet _ _ _ _ | RqSetIf _ _ _ _ _ | RqIncr _ _ _ => true | _ => false end.
Definition is_admitted (c : StorageReq * OpPhase) : bool := match c.2 with PStoreCall => is_write c.1 | _ => false end.
Definition is_waiting (c : StorageReq * OpPhase) : bool := match c.2 with PSleeping => true | _ => false end.

Definition calls_that (p : StorageReq * OpPhase → bool) (l : list (StorageReq * OpPhase)) : Z := Z.of_nat (length (List.filter p l)).

Definition checkers (l : list (StorageReq * OpPhase)) : nat := length (List.filter is_checking l).
Definition occurs (e : StorageEv) (log : list StorageEv) : Z := Z.of_nat (length (filter (e =.) log)).

(** The writes that passed the quota check. *)
Definition admitted (log : list StorageEv) : Z :=
  occurs EvFastAdmit log + occurs EvCheckPassed log + occurs EvWaiterAdmit log.
(** The checks that ended. *)
Definition ended (log : list StorageEv) : Z :=
  occurs EvCheckPassed log + occurs EvCheckRejected log + occurs EvCheckError log.

Section interleaving.
Context `{!Calendar, !Pg, !ColumnSize, !HashOrder BucketKey, !JsonLen}.
Context (guild_id : GuildId) (premium_tier : option PremiumSlotTier).
Implicit Types (s : StorageSys) (st : StorageState).

Record sys_inv s : Prop := {
  inv_one_check : checkers (sys_calls s) = if doing_limit_check (sys_state s) then 1%nat else 0%nat;
  inv_budget : 0 ≤ requests_until_limit_check (sys_state s) ≤ 10;
  inv_check_when_spent : doing_limit_check (sys_state s) = true →
    requests_until_limit_check (sys_state s) = 0 ∧ hit_limit (sys_state s) = false;
  inv_accounting : occurs EvFastAdmit (sys_log s) + requests_until_limit_check (sys_state s) =
    10 * occurs EvCheckPassed (sys_log s);
}.

Lemma calls_that_insert p l i c c' :
  l !! i = Some c → calls_that p (<[i := c']> l) + Z.b2z (p c) = calls_that p l + Z.b2z (p c').
Proof.
  unfold calls_that. revert i. induction l as [|x l IH]; intros [|i] Hi; simplify_eq/=.
  - destruct (p c), (p c'); simpl; lia.
  - specialize (IH i Hi). destruct (p x); simpl; lia.
Qed.

Lemma checkers_insert l i c c' :
  l !! i = Some c →
  (checkers (<[i := c']> l) + Nat.b2n (is_checking c) = checkers l + Nat.b2n (is_checking c'))%nat.
Proof.
  unfold checkers. revert i. induction l as [|x l IH]; intros [|i] Hi; simplify_eq/=.
  - destruct (is_checking c), (is_checking c'); simpl; lia.
  - specialize (IH i Hi). destruct (is_checking x); simpl; lia.
Qed.

Lemma occurs_app e l l' : occurs e (l ++ l') = occurs e l + occurs e l'.
Proof. unfold occurs. rewrite filter_app, length_app. lia. Qed.

Lemma after_store_keeps req a st :
  requests_until_limit_check (after_store req a st) = requests_until_limit_check st ∧
  doing_limit_check (after_store req a st) = doing_limit_check st ∧
  (hit_limit st = false → hit_limit (after_store req a st) = false).
Proof. unfold after_store. repeat case_match; naive_solver. Qed.

Ltac acct := unfold occurs in *; simpl in *; split_and!; try done; try lia; try naive_solver.

Lemma storage_op_step_inv env utc req ph st t ph' st' t' evs log :
  storage_op_step guild_id premium_tier env utc req ph st t = Ret (ph', st', t', evs) →
  (is_checking (req, ph) = true → doing_limit_check st = true) →
  (0 ≤ requests_until_limit_check st ≤ 10) →
  (doing_limit_check st = true → requests_until_limit_check st = 0 ∧ hit_limit st = false) →
  occurs EvFastAdmit log + requests_until_limit_check st = 10 * occurs EvCheckPassed log →
  (Nat.b2n (is_checking (req, ph')) + Nat.b2n (doing_limit_check st) =
   Nat.b2n (is_checking (req, ph)) + Nat.b2n (doing_limit_check st'))%nat ∧
  (0 ≤ requests_until_limit_check st' ≤ 10) ∧
  (doing_limit_check st' = true → requests_until_limit_check st' = 0 ∧ hit_limit st' = false) ∧
  occurs EvFastAdmit (log ++ evs) + requests_until_limit_check st' = 10 * occurs EvCheckPassed (log ++ evs).
Proof.
  intros Hstep Hdo Hbud Hspent Hacc. rewrite !occurs_app.
  destruct ph as [| |used| | |ans|r]; simpl in Hstep.
  - destruct (argument_checks req) as [[[]|]|]; simplify_eq/=; [|acct..].
    unfold check_start in Hstep. destruct st as [until [] hit]; simplify_eq/=; [acct|].
    destruct hit; simplify_eq/=; [acct|].
    destruct (Z.leb_spec 1 until); simplify_eq/=; acct.
  - destruct (guild_storage_usage_bytes _ _ _); simplify_eq/=. acct.
  - specialize (Hdo eq_refl). unfold check_finish in Hstep. destruct (Hspent Hdo) as [Hu Hh].
    destruct st as [until doing hit]; simplify_eq/=.
    destruct used as [used|e]; [destruct (_ <=? used)|]; simplify_eq/=; acct.
  - unfold check_poll in Hstep. destruct st as [until [] []]; simplify_eq/=; acct.
  - destruct (store_call _ _ _ _ _) as [[t1 a]|]; simplify_eq/=. destruct (argument_checks req); acct.
  - destruct (after_store_keeps req ans st) as (Hu & Hd & Hh). simplify_eq/=. rewrite Hu, Hd.
    case_bool_decide; acct.
  - simplify_eq/=. acct.
Qed.

Lemma checking_while s i req ph :
  checkers (sys_calls s) = (if doing_limit_check (sys_state s) then 1%nat else 0%nat) → sys_calls s !! i = Some (req, ph) → is_checking (req, ph) = true → doing_limit_check (sys_state s) = true.
Proof.
  intros Hone Hi Hc. apply list_elem_of_lookup_2, list_elem_of_In in Hi.
  pose proof (proj2 (filter_In is_checking (req, ph) (sys_calls s)) (conj Hi Hc)) as Hin.
  unfold checkers in Hone. destruct (doing_limit_check _); [done|].
  destruct (List.filter is_checking (sys_calls s)); done.
Qed.

Lemma sys_inv_step a s s' : sys_inv s → sys_step guild_id premium_tier a s = Ret s' → sys_inv s'.
Proof.
  intros [Hone Hbud Hspent Hacc]. destruct a as [req|i env utc]; simpl.
  { intros [= <-]. split; simpl; try done. unfold checkers in *. rewrite List.filter_app, length_app. simpl. lia. }
  destruct (sys_calls s !! i) as [[req ph]|] eqn:Hi; [|by intros [= <-]].
  destruct (storage_op_step _ _ _ _ _ _ _ _) as [[[[ph' st'] t'] evs]|] eqn:Hstep; [|done]. simpl. intros [= <-].
  pose proof (checkers_insert _ _ _ (req, ph') Hi) as Hch.
  pose proof (checking_while s i req ph Hone Hi) as Hdo.
  destruct (storage_op_step_inv _ _ _ _ _ _ _ _ _ _ (sys_log s) Hstep Hdo Hbud Hspent Hacc) as (Hd & ? & ? & ?).
  split; simpl; try done. destruct (doing_limit_check (sys_state s)), (doing_limit_check st'); simpl in *; lia.
Qed.

Lemma sys_inv_reachable t0 s : storage_reachable guild_id premium_tier t0 s → sys_inv s.
Proof.
  induction 1 as [|a s s' _ IH Hstep]; [by split|]. by eapply sys_inv_step.
Qed.

(** ** What is written *)

(** Only writes are checked. *)
Definition gated (c : StorageReq * OpPhase) : Prop :=
  match c.2 with PUsageQuery | PUsageKnown _ | PSleeping => is_write c.1 = true | _ => True end.

Record write_inv s : Prop := {
  wi_gated : Forall gated (sys_calls s);
  wi_open : occurs EvCheckStarted (sys_log s) = ended (sys_log s) + Z.b2z (doing_limit_check (sys_state s));
  wi_writes : occurs EvWrite (sys_log s) + calls_that is_admitted (sys_calls s) = admitted (sys_log s);
  wi_waits : occurs EvWaiterAdmit (sys_log s) + occurs EvWaiterReject (sys_log s) + calls_that is_waiting (sys_calls s) =
    occurs EvWaitStarted (sys_log s);
  wi_when : ∀ pre post, sys_log s = pre ++ EvWaitStarted :: post → occurs EvCheckStarted pre = ended pre + 1;
}.

Lemma argument_checks_write req : is_write req = match argument_checks req with Some _ => true | None => false end.
Proof. by destruct req. Qed.

Ltac writes := repeat split; try done; try lia; try (intros; set_solver).

Lemma storage_op_step_writes env utc req ph st t ph' st' t' evs :
  storage_op_step guild_id premium_tier env utc req ph st t = Ret (ph', st', t', evs) →
  gated (req, ph) → (is_checking (req, ph) = true → doing_limit_check st = true) →
  gated (req, ph') ∧
  occurs EvCheckStarted evs + Z.b2z (doing_limit_check st) = ended evs + Z.b2z (doing_limit_check st') ∧
  occurs EvWrite evs + Z.b2z (is_admitted (req, ph')) = admitted evs + Z.b2z (is_admitted (req, ph)) ∧
  occurs EvWaiterAdmit evs + occurs EvWaiterReject evs + Z.b2z (is_waiting (req, ph')) =
    occurs EvWaitStarted evs + Z.b2z (is_waiting (req, ph)) ∧
  (EvWaitStarted ∈ evs → evs = [EvWaitStarted] ∧ doing_limit_check st = true).
Proof.
  intros Hstep Hg Hdo. pose proof (argument_checks_write req) as Hw. unfold gated, is_admitted in *. unfold admitted, ended, occurs.
  destruct ph as [| |used| | |ans|r]; simpl in Hstep, Hg.
  - destruct (argument_checks req) as [[[]|]|] eqn:Ha; simplify_eq/=; [|writes|rewrite ?Hw; writes].
    unfold check_start in Hstep. destruct st as [until [] []]; simplify_eq/=; rewrite ?Hw; try (writes; fail).
    destruct (1 <=? until); simplify_eq/=; rewrite ?Hw; writes.
  - destruct (guild_storage_usage_bytes _ _ _); simplify_eq/=. writes.
  - specialize (Hdo eq_refl). unfold check_finish in Hstep. destruct st as [until doing hit]; simplify_eq/=.
    destruct used as [used|e]; [destruct (_ <=? used)|]; simplify_eq/=; rewrite ?Hg; writes.
  - unfold check_poll in Hstep. destruct st as [until [] []]; simplify_eq/=; rewrite ?Hg; writes.
  - destruct (store_call _ _ _ _ _) as [[t1 a]|]; simplify_eq/=. rewrite Hw. destruct (argument_checks req); writes.
  - destruct (after_store_keeps req ans st) as (_ & Hd & _). simplify_eq/=. rewrite Hd. case_bool_decide; writes.
  - simplify_eq/=. writes.
Qed.

Lemma waits_app log evs pre post :
  (EvWaitStarted ∈ evs → evs = [EvWaitStarted]) → log ++ evs = pre ++ EvWaitStarted :: post →
  (∃ post', log = pre ++ EvWaitStarted :: post') ∨ (pre = log ∧ EvWaitStarted ∈ evs).
Proof.
  intros Hevs Heq. destruct (decide (EvWaitStarted ∈ evs)) as [Hin|Hout].
  - specialize (Hevs Hin) as ->. destruct post as [|e post _] using rev_ind.
    + apply app_inj_2 in Heq as [<- _]; [by right|done].
    + left. rewrite app_comm_cons, app_assoc in Heq. apply app_inj_2 in Heq as [-> _]; [by eexists|done].
  - left. apply app_eq_inv in Heq as [(k & -> & Hk)|(k & -> & Hk)]; [|set_solver].
    destruct k as [|e k]; simpl in Hk; [set_solver|]. simplify_eq. by eexists.
Qed.

Lemma write_inv_step a s s' : sys_inv s → write_inv s → sys_step guild_id premium_tier a s = Ret s' → write_inv s'.
Proof.
  intros Hinv [Hg Ho Hwr Hwa Hwh]. destruct a as [req|i env utc]; simpl.
  { assert (∀ p, p (req, PCalled) = false → calls_that p (sys_calls s ++ [(req, PCalled)]) = calls_that p (sys_calls s)) as Hc.
    { intros p Hp. unfold calls_that. rewrite List.filter_app. simpl. by rewrite Hp, app_nil_r. }
    intros [= <-]. split; simpl; rewrite ?Hc by done; try done. by apply Forall_app; split; [|repeat constructor]. }
  destruct (sys_calls s !! i) as [[req ph]|] eqn:Hi; [|by intros [= <-]].
  destruct (storage_op_step _ _ _ _ _ _ _ _) as [[[[ph' st'] t'] evs]|] eqn:Hstep; [|done]. simpl. intros [= <-].
  destruct (storage_op_step_writes _ _ _ _ _ _ _ _ _ _ Hstep (proj1 (Forall_lookup _ _) Hg _ _ Hi) (checking_while _ _ _ _ (inv_one_check s Hinv) Hi))
    as (Hg' & Ho' & Hw' & Hwa' & Hev).
  pose proof (calls_that_insert is_admitted _ _ _ (req, ph') Hi). pose proof (calls_that_insert is_waiting _ _ _ (req, ph') Hi).
  unfold ended, admitted in *. split; simpl; unfold ended, admitted; rewrite ?occurs_app; [by apply Forall_insert|lia..|].
  intros pre post Hl. destruct (waits_app _ _ _ _ (λ H, proj1 (Hev H)) Hl) as [[post' Hl']|[-> Hin]]; [by eapply Hwh|].
  destruct (Hev Hin) as [_ Hd]. rewrite Hd in Ho. simpl in Ho. lia.
Qed.

Lemma write_inv_reachable t0 s : storage_reachable guild_id premium_tier t0 s → write_inv s.
Proof.
  induction 1 as [|a s s' Hr IH Hstep]; [split; try done; by intros [] ?|].
  eapply write_inv_step; [by eapply sys_inv_reachable|done|done].
Qed.


(** A call that waits for a check is never left waiting: when its sleep ends and it goes back to
    sleep, the check it waits for is still being made by another call. *)
Theorem waiting_call_has_checker t0 s i req :
  storage_reachable guild_id premium_tier t0 s → sys_calls s !! i = Some (req, PSleeping) →
  check_poll (sys_state s) = None → ∃ j req' ph', sys_calls s !! j = Some (req', ph') ∧ j ≠ i ∧ is_checking (req', ph') = true.
Proof.
  intros [Hone _ _ _]%sys_inv_reachable Hi. unfold check_poll.
  destruct (doing_limit_check (sys_state s)); [intros _|done]. unfold checkers in Hone.
  destruct (List.filter is_checking (sys_calls s)) as [|[req' ph'] l] eqn:Hf; [done|].
  assert (In (req', ph') (List.filter is_checking (sys_calls s))) as Hin by (rewrite Hf; by left).
  apply filter_In in Hin as [Hin Hc]. apply list_elem_of_In, list_elem_of_lookup in Hin as [j Hj].
  exists j, req', ph'. split_and!; [done| |done]. intros ->. rewrite Hi in Hj. by simplify_eq.
Qed.

Lemma admitted_app l l' : admitted (l ++ l') = admitted l + admitted l'.
Proof. unfold admitted. rewrite !occurs_app. lia. Qed.

Ltac full := repeat split; intros; try done; lia.

Lemma full_step a s s' :
  sys_inv s → hit_limit (sys_state s) = true → sys_step guild_id premium_tier a s = Ret s' →
  occurs EvUnblocked (sys_log s) ≤ occurs EvUnblocked (sys_log s') ∧
  (occurs EvUnblocked (sys_log s') = occurs EvUnblocked (sys_log s) →
   hit_limit (sys_state s') = true ∧ admitted (sys_log s') = admitted (sys_log s)).
Proof.
  intros Hinv Hhit. destruct a as [req|i env utc]; simpl; [by intros [= <-]|].
  destruct (sys_calls s !! i) as [[req ph]|] eqn:Hi; [|by intros [= <-]].
  destruct (storage_op_step _ _ _ _ _ _ _ _) as [[[[ph' st'] t'] evs]|] eqn:Hstep; [|done]. simpl. intros [= <-].
  assert (doing_limit_check (sys_state s) = false) as Hd.
  { destruct (doing_limit_check _) eqn:Hd; [|done]. destruct (inv_check_when_spent s Hinv Hd). congruence. }
  assert (is_checking (req, ph) = false) as Hph.
  { destruct (is_checking (req, ph)) eqn:Hc; [|done]. by rewrite (checking_while _ _ _ _ (inv_one_check s Hinv) Hi Hc) in Hd. }
  simpl. rewrite occurs_app, admitted_app. destruct s as [[until doing hit] t calls log]. simpl in *. subst doing hit.
  unfold admitted, occurs. destruct ph as [| |used| | |ans|r]; simpl in *; try done.
  - destruct (argument_checks req) as [[[]|]|]; simplify_eq/=; full.
  - simplify_eq/=; full.
  - destruct (store_call _ _ _ _ _) as [[t1 a]|]; simplify_eq/=. destruct (argument_checks req); simpl; full.
  - simplify_eq/=. case_bool_decide as Hb; simpl; (split; [lia|]); intros Heq; [lia|]. split; [|lia].
    destruct (hit_limit (after_store _ _ _)); naive_solver.
  - simplify_eq/=; full.
Qed.

(** Once the limit is hit, no write is let through until a deletion removes an entry, however
    the calls interleave and however much of the storage expires in the meantime. *)
Theorem full_storage_rejects_until_delete t0 s acts s' :
  storage_reachable guild_id premium_tier t0 s → hit_limit (sys_state s) = true →
  sys_run guild_id premium_tier acts s = Ret s' →
  occurs EvUnblocked (sys_log s') = occurs EvUnblocked (sys_log s) →
  hit_limit (sys_state s') = true ∧ admitted (sys_log s') = admitted (sys_log s).
Proof.
  intros Hr%sys_inv_reachable Hhit Hrun Hun.
  assert (∀ acts s s', sys_inv s → sys_run guild_id premium_tier acts s = Ret s' →
    occurs EvUnblocked (sys_log s) ≤ occurs EvUnblocked (sys_log s')) as Hmono.
  { clear. induction acts as [|a acts IH]; simpl; intros s s' Hinv; [by intros [= <-]|].
    destruct (sys_step _ _ a s) as [s1|] eqn:Hs; [|done]. simpl. intros Hrun.
    transitivity (occurs EvUnblocked (sys_log s1)).
    - destruct a as [|i env utc]; simpl in Hs; [by simplify_eq|]. repeat case_match; simplify_eq/=; try done.
      destruct (storage_op_step _ _ _ _ _ _ _ _) as [[[[]]]|]; simplify_eq/=. rewrite occurs_app. unfold occurs. lia.
    - eapply IH; [|done]. by eapply sys_inv_step. }
  revert s Hr Hhit Hrun Hun. induction acts as [|a acts IH]; simpl; intros s Hinv Hhit; [by intros [= <-]|].
  destruct (sys_step _ _ a s) as [s1|] eqn:Hs; [|done]. simpl. intros Hrun Hun.
  pose proof (sys_inv_step _ _ _ Hinv Hs) as Hinv1.
  destruct (full_step a s s1 Hinv Hhit Hs) as [Hle Hkeep]. pose proof (Hmono _ _ _ Hinv1 Hrun).
  destruct Hkeep as [Hhit1 Hadm]; [lia|]. destruct (IH s1 Hinv1 Hhit1 Hrun) as [? Hadm']; [lia|].
  split; [done|lia].
Qed.
End interleaving.

(** * The quota for calls made one after the other *)

Section sequential.
Context `{!Calendar, !Pg, !ColumnSize, !HashOrder BucketKey, !JsonLen}.
Context (guild_id : GuildId) (premium_tier : option PremiumSlotTier).
Implicit Types (t : BucketTable) (st : StorageState).

(** A call driven to its end with no other call in between. *)
Fixpoint drive (fuel : nat) (env : PgEnv) (utc_now : Z) (req : StorageReq) (ph : OpPhase) st t
    : outcome (option (result AnyError StorageRes) * StorageState * BucketTable) :=
  match ph, fuel with
  | PFinished r, _ => Ret (Some r, st, t)
  | _, O => Ret (None, st, t)
  | _, S fuel =>
      do! (ph, st, t, _) := storage_op_step guild_id premium_tier env utc_now req ph st t in
      drive fuel env utc_now req ph st t
  end.

Lemma drive_step n env utc_now req ph st t :
  match ph with PFinished _ => False | _ => True end →
  drive (S n) env utc_now req ph st t =
  do! (ph, st, t, _) := storage_op_step guild_id premium_tier env utc_now req ph st t in
  drive n env utc_now req ph st t.
Proof. by destruct ph. Qed.

Lemma drive_finished n env utc_now req r st t : drive n env utc_now req (PFinished r) st t = Ret (Some r, st, t).
Proof. by destruct n. Qed.

Definition call_alone (env : PgEnv) (utc_now : Z) (req : StorageReq) st t := drive 5 env utc_now req PCalled st t.

Fixpoint calls_alone (calls : list (PgEnv * Z * StorageReq)) st t : outcome (StorageState * BucketTable) :=
  match calls with
  | [] => Ret (st, t)
  | (env, utc_now, req) :: calls =>
      do! (_, st, t) := call_alone env utc_now req st t in calls_alone calls st t
  end.

(** ** The bytes a guild uses *)

Definition row_bytes (now : Z) (kr : BucketKey * DbEntry) : Z :=
  if (kr.1.1.1 =? u64_as_i64 guild_id) && live now (db_expires_at kr.2) then pg_column_size kr.1 kr.2 else 0.

Definition zsum (l : list Z) : Z := foldr Z.add 0 l.

Definition used_bytes (now : Z) t : Z := zsum (row_bytes now <$> map_to_list t).

Lemma zsum_fmap_cons {A} (f : A → Z) x l : zsum (f <$> x :: l) = f x + zsum (f <$> l).
Proof. done. Qed.

#[local] Instance zsum_perm : Proper ((≡ₚ) ==> (=)) zsum.
Proof. induction 1; simpl; lia. Qed.

Lemma usage_is_used_bytes env t :
  pg_error env = None → guild_storage_usage_bytes env guild_id t = (t, Ok (used_bytes (pg_now env) t)).
Proof.
  intros Hok. unfold guild_storage_usage_bytes, exec, used_bytes. rewrite Hok. do 2 f_equal.
  rewrite <- (hiter_perm t). unfold select, zsum. induction (hiter t) as [|kr l IH]; [done|]. simpl.
  unfold row_bytes at 1. destruct (_ && _); simpl; by rewrite IH.
Qed.

Hypothesis size_nonneg : ∀ k r, 0 ≤ pg_column_size k r.

Lemma row_bytes_nonneg now kr : 0 ≤ row_bytes now kr.
Proof. unfold row_bytes. destruct (_ && _); [apply size_nonneg|done]. Qed.

Lemma used_bytes_delete now t k r :
  t !! k = Some r → used_bytes now t = row_bytes now (k, r) + used_bytes now (delete k t).
Proof.
  intros Hk. unfold used_bytes. rewrite <- (insert_delete_id t k r Hk) at 1.
  rewrite map_to_list_insert by apply lookup_delete_eq. done.
Qed.

Lemma used_bytes_delete_le now t k : used_bytes now (delete k t) ≤ used_bytes now t.
Proof.
  destruct (t !! k) as [r|] eqn:Hk; [|by rewrite delete_id].
  rewrite (used_bytes_delete now t k r Hk). pose proof (row_bytes_nonneg now (k, r)). lia.
Qed.

Lemma used_bytes_insert now t k r : used_bytes now (<[k := r]> t) ≤ used_bytes now t + row_bytes now (k, r).
Proof.
  rewrite (used_bytes_delete now _ k r) by apply lookup_insert_eq. rewrite delete_insert_eq.
  pose proof (used_bytes_delete_le now t k). lia.
Qed.

Lemma used_bytes_subseteq now t t' : t' ⊆ t → used_bytes now t' ≤ used_bytes now t.
Proof.
  revert t. induction t' as [|k r t' Hk IH] using map_ind; intros t Hsub.
  - assert (0 ≤ used_bytes now t); [|done]. unfold used_bytes.
    induction (map_to_list t) as [|kr l IHl]; [done|]. rewrite zsum_fmap_cons. pose proof (row_bytes_nonneg now kr). lia.
  - assert (t !! k = Some r) as Htk by (eapply lookup_weaken; [apply lookup_insert_eq|done]).
    rewrite (used_bytes_delete now t k r Htk), (used_bytes_delete now _ k r) by apply lookup_insert_eq.
    rewrite delete_insert_eq, (delete_id t') by done.
    enough (used_bytes now t' ≤ used_bytes now (delete k t)) by lia. apply IH.
    apply map_subseteq_spec. intros k' r' Hk'. destruct (decide (k = k')) as [->|Hne]; [congruence|].
    rewrite lookup_delete_ne by done. eapply lookup_weaken; [|done]. by rewrite lookup_insert_ne.
Qed.

(** As time passes, rows only drop out. *)
Lemma used_bytes_later now now' t : now ≤ now' → used_bytes now' t ≤ used_bytes now t.
Proof.
  intros Hn. unfold used_bytes. induction (map_to_list t) as [|kr l IH]; [done|]. rewrite !zsum_fmap_cons.
  enough (row_bytes now' kr ≤ row_bytes now kr) by lia. unfold row_bytes.
  destruct (_ =? _); simpl; [|done]. destruct (live now' _) eqn:Hl.
  - by rewrite (live_later now now' _ Hl Hn).
  - destruct (live now _); [apply size_nonneg|done].
Qed.

(** ** What a call writes *)

Definition req_bucket (req : StorageReq) : string :=
  match req with
  | RqSet b _ _ _ | RqSetIf b _ _ _ _ | RqGet b _ | RqDel b _ | RqDelMany b _ | RqList b _ _ _
  | RqCount b _ | RqIncr b _ _ | RqSortedList b _ _ _ => b
  end.

(** A row that passed the argument checks. *)
Definition row_fits (bucket : string) (k : BucketKey) (r : DbEntry) : Prop :=
  k.1.2 = bucket ∧ Z.of_nat (String.length k.2) ≤ 256 ∧
  ∀ j, db_value_json r = Some j → ∃ v, j = jsonb v ∧ json_len v ≤ 1000000.

Lemma argument_checks_ok req :
  argument_checks req = Some (Ok tt) →
  match req with
  | RqSet _ k v _ | RqSetIf _ k v _ _ =>
      Z.of_nat (String.length k) ≤ 256 ∧ match v with OJson j => json_len j ≤ 1000000 | ODouble _ => True end
  | RqIncr _ k _ => Z.of_nat (String.length k) ≤ 256
  | _ => True
  end.
Proof.
  unfold argument_checks, check_validate_value_len, check_validate_key_len.
  destruct req as [b k v ttl|b k v ttl c| | | | | |b k x|]; try done; try destruct v;
    repeat (case_match; try done); intros _; rewrite ?Z.ltb_ge in *; auto.
Qed.

Lemma row_fits_new b k v now e :
  Z.of_nat (String.length k) ≤ 256 → match v with OJson j => json_len j ≤ 1000000 | ODouble _ => True end →
  row_fits b (row_key guild_id b k) (new_row now e (store_value_of_op v)).
Proof. intros Hk Hv. split_and!; [done..|]. destruct v; simpl; [|done]. intros j' [= <-]. eauto. Qed.

Lemma row_fits_value b k r c u e :
  row_fits b k r → row_fits b k (mkDbEntry c u e (db_value_json r) (db_value_float r)).
Proof. done. Qed.

Lemma store_call_writes env utc req t t' a :
  store_call guild_id env utc req t = Ret (t', a) → argument_checks req = Some (Ok tt) →
  t' = t ∨ ∃ k r, t' = <[k := r]> t ∧ row_fits (req_bucket req) k r.
Proof.
  intros Hcall Hargs. pose proof (argument_checks_ok req Hargs) as Hok.
  destruct req as [b k v ttl|b k v ttl c| | | | | |b k x|]; try done; simpl in Hcall.
  - unfold set, exec, write in Hcall. destruct (ttl_expiry _ _); simplify_eq/=. destruct Hok as [Hk Hv].
    destruct (pg_error env); simplify_eq/=; [by left|]. right.
    destruct (t !! _) as [r|]; simplify_eq/=; do 2 eexists; (split; [done|]); try apply row_fits_value;
      by apply row_fits_new.
  - unfold set_if, exec in Hcall. destruct (ttl_expiry _ _) as [e|]; simplify_eq/=. destruct Hok as [Hk Hv].
    destruct (pg_error env); simplify_eq/=; [by left|].
    destruct c; simpl in Hcall; unfold set_if_exists, set_if_not_exists, write in Hcall;
      (destruct (t !! _) as [r|]; [try destruct (live _ _); try destruct (expired _ _)|]); simplify_eq/=;
      try (by left); right; do 2 eexists; (split; [done|]); try apply row_fits_value; by apply row_fits_new.
  - unfold incr, exec, write in Hcall. destruct (pg_error env); simplify_eq/=; [by left|].
    repeat case_match; simplify_eq/=; try (by left); right; do 2 eexists; (split; [done|]); by split_and!.
Qed.

Lemma store_call_reads env utc req t t' a :
  store_call guild_id env utc req t = Ret (t', a) → argument_checks req = None → t' ⊆ t.
Proof.
  destruct req; try done; simpl; unfold get, del, del_many, get_many, count, sorted_entries, exec;
    (destruct (pg_error env); [by intros [= <- _]|]); intros Hcall _;
    repeat case_match; simplify_eq/=; try done.
  - apply delete_subseteq.
  - apply map_filter_subseteq.
Qed.

(** ** The bound *)

Context (max_row : Z) (max_bucket : Z).
Hypothesis size_bound : ∀ b k r,
  Z.of_nat (String.length b) ≤ max_bucket → row_fits b k r → pg_column_size k r ≤ max_row.
Hypothesis max_row_nonneg : 0 ≤ max_row.

Definition within_budget (now : Z) st t : Prop :=
  doing_limit_check st = false ∧ 0 ≤ requests_until_limit_check st ≤ 10 ∧
  used_bytes now t ≤ storage_total_size premium_tier + (11 - requests_until_limit_check st) * max_row.

Lemma write_adds env utc req t t' a now :
  store_call guild_id env utc req t = Ret (t', a) → argument_checks req = Some (Ok tt) →
  Z.of_nat (String.length (req_bucket req)) ≤ max_bucket →
  used_bytes now t' ≤ used_bytes now t + max_row.
Proof.
  intros Hcall Hargs Hb. destruct (store_call_writes _ _ _ _ _ _ Hcall Hargs) as [-> |(k & r & -> & Hfit)]; [lia|].
  pose proof (used_bytes_insert now t k r). pose proof (size_bound _ k r Hb Hfit).
  enough (row_bytes now (k, r) ≤ max_row) by lia. unfold row_bytes. by destruct (_ && _).
Qed.

#[local] Arguments drive : simpl never.

Ltac next := rewrite ?drive_finished, ?drive_step by done; simpl.
Ltac budget := intros [= <- <- <-]; split; [done|]; unfold within_budget; split_and!; simpl in *; try done; lia.

(** From the store's answer to the end of the call. *)
Lemma drive_store n env utc req until hit t o st' t' :
  drive (S (S n)) env utc req PStoreCall (mkStorageState until false hit) t = Ret (o, st', t') →
  is_Some o ∧ doing_limit_check st' = false ∧ requests_until_limit_check st' = until ∧
  ∃ a, store_call guild_id env utc req t = Ret (t', a).
Proof.
  next. destruct (store_call _ _ _ _ _) as [[t1 a]|]; [|done]. simpl. next. next. intros [= <- <- <-].
  destruct (after_store_keeps req a (mkStorageState until false hit)) as (-> & -> & _). eauto.
Qed.

Lemma drive_write n now env utc req until hit t o st' t' :
  argument_checks req = Some (Ok tt) → Z.of_nat (String.length (req_bucket req)) ≤ max_bucket →
  0 ≤ until ≤ 10 → used_bytes now t ≤ storage_total_size premium_tier + (10 - until) * max_row →
  drive (S (S n)) env utc req PStoreCall (mkStorageState until false hit) t = Ret (o, st', t') →
  is_Some o ∧ within_budget now st' t'.
Proof.
  intros Hargs Hb Hu Hused (Ho & Hd & Hu' & a & Hcall)%drive_store. split; [done|].
  pose proof (write_adds _ _ _ _ _ _ now Hcall Hargs Hb). unfold within_budget. rewrite Hu'. split_and!; try done; lia.
Qed.

Lemma call_alone_budget now env utc req st t o st' t' :
  within_budget now st t → now ≤ pg_now env → Z.of_nat (String.length (req_bucket req)) ≤ max_bucket →
  call_alone env utc req st t = Ret (o, st', t') → is_Some o ∧ within_budget (pg_now env) st' t'.
Proof.
  intros (Hd & Hu & Hused) Hnow Hb. pose proof (used_bytes_later now (pg_now env) t Hnow) as Hlater.
  destruct st as [until doing hit]. simpl in *. subst doing.
  unfold call_alone. next. destruct (argument_checks req) as [[[]|e]|] eqn:Hargs; simpl.
  - unfold check_start. simpl. destruct hit; simpl; [next; budget|].
    destruct (Z.leb_spec 1 until); simpl.
    { apply drive_write; [done..|lia|lia]. }
    next. destruct (pg_error env) as [e|] eqn:Herr.
    { unfold guild_storage_usage_bytes, exec. rewrite Herr. simpl. next. next. budget. }
    rewrite (usage_is_used_bytes env t Herr). simpl. next. unfold check_finish.
    destruct (Z.leb_spec (storage_total_size premium_tier) (used_bytes (pg_now env) t)); simpl; [next; budget|].
    apply drive_write; [done..|lia|lia].
  - next. budget.
  - intros (Ho & Hd & Hu' & a & Hcall)%drive_store. split; [done|].
    pose proof (used_bytes_subseteq (pg_now env) _ _ (store_call_reads _ _ _ _ _ _ Hcall Hargs)).
    unfold within_budget. rewrite Hu'. split_and!; try done; lia.
Qed.

(** The clock does not go back, and bucket names are of bounded length. *)
Fixpoint calls_ok (now : Z) (calls : list (PgEnv * Z * StorageReq)) : Prop :=
  match calls with
  | [] => True
  | (env, _, req) :: calls =>
      now ≤ pg_now env ∧ Z.of_nat (String.length (req_bucket req)) ≤ max_bucket ∧ calls_ok (pg_now env) calls
  end.

Definition end_time (now : Z) (calls : list (PgEnv * Z * StorageReq)) : Z :=
  default now ((λ c, pg_now c.1.1) <$> last calls).

Lemma calls_alone_budget calls now st t st' t' :
  within_budget now st t → calls_ok now calls → calls_alone calls st t = Ret (st', t') →
  within_budget (end_time now calls) st' t'.
Proof.
  revert now st t. induction calls as [|[[env utc] req] calls IH]; intros now st t Hb Hok; simpl.
  - by intros [= <- <-].
  - destruct Hok as (Hn & Hlen & Hok). destruct (call_alone env utc req st t) as [[[o st1] t1]|] eqn:Hcall; [|done].
    simpl. intros Hrun. destruct (call_alone_budget _ _ _ _ _ _ _ _ _ Hb Hn Hlen Hcall) as [_ Hb1].
    specialize (IH _ _ _ Hb1 Hok Hrun). unfold end_time in *. rewrite last_cons. by destruct (last calls).
Qed.

(** C13: A vm whose calls follow one another never uses more than its quota plus eleven entries:
    one for the call that found room left, ten for those let through before the next check. *)
Theorem storage_quota_sequential calls now t st' t' :
  used_bytes now t ≤ storage_total_size premium_tier + 11 * max_row →
  calls_ok now calls → calls_alone calls storage_init t = Ret (st', t') →
  used_bytes (end_time now calls) t' ≤ storage_total_size premium_tier + 11 * max_row.
Proof.
  intros Hused Hok Hrun.
  assert (within_budget now storage_init t) as Hb by (split_and!; simpl; try done; lia).
  destruct (calls_alone_budget _ _ _ _ _ _ Hb Hok Hrun) as (_ & Hu & Hle). nia.
Qed.
End sequential.

Lemma sys_run_reachable `{!Calendar, !Pg, !ColumnSize, !HashOrder BucketKey, !JsonLen} g tier t0 acts s s' :
  storage_reachable g tier t0 s → sys_run g tier acts s = Ret s' → storage_reachable g tier t0 s'.
Proof.
  revert s. induction acts as [|a acts IH]; intros s Hr; simpl; [by intros [= <-]|].
  destruct (sys_step g tier a s) as [s1|] eqn:Hs; [|done]. simpl. apply IH. by eapply sr_step.
Qed.

(** * Examples *)

Definition ex_json_len : JsonLen := λ v, match v with JString s => Z.of_nat (String.length s) + 2 | _ => 4 end.
#[local] Existing Instance ex_bucket_calendar.
#[local] Existing Instance ex_pg.
#[local] Existing Instance ex_column_size.
#[local] Existing Instance list_order.
#[local] Existing Instance ex_json_len.

Definition ex_set (k : string) : StorageReq := RqSet "b" k (ODouble ex_x) None.
Definition ex_resume (i : nat) : SysAction := AResume i (ex_env 10) 10.

(** Three writes at once: the first one checks, the others wait for it and then pass. *)
Definition ex_acts : list SysAction :=
  [ACall (ex_set "x"); ACall (ex_set "y"); ACall (ex_set "z"); ex_resume 0; ex_resume 1; ex_resume 2; ex_resume 1;
   ex_resume 0; ex_resume 0; ex_resume 1; ex_resume 2; ex_resume 0; ex_resume 1].

Definition ex_run (acts : list SysAction) (t : BucketTable) : StorageSys :=
  match sys_run 1 None acts (sys_init t) with
  | Ret s => s
  | Panic => sys_init t
  end.

Lemma ex_run_reachable acts t : storage_reachable 1 None t (ex_run acts t).
Proof.
  unfold ex_run. destruct (sys_run 1 None acts (sys_init t)) as [s|] eqn:H; [|constructor].
  by eapply sys_run_reachable; [constructor|].
Qed.


Lemma waiting_call_has_checker_witness :
  let s := ex_run (take 7 ex_acts) ∅ in
  ∃ j req ph, sys_calls s !! j = Some (req, ph) ∧ j ≠ 1%nat ∧ is_checking (req, ph) = true.
Proof.
  apply (waiting_call_has_checker 1 None ∅ (ex_run (take 7 ex_acts) ∅) 1 (ex_set "y"));
    [apply ex_run_reachable|vm_compute; reflexivity|vm_compute; reflexivity].
Defined.

(** A table that fills the quota of a guild without premium: one row of a megabyte. *)
Definition ex_full_table : BucketTable := <[(1, "b", "big") := mkDbEntry 0 0 (Some 100) None (Some ex_x)]> ∅.
Definition ex_big_column : ColumnSize := λ k r, if bool_decide (k.2 = "big") then 1000000 else 100.

Definition ex_full_run (acts : list SysAction) : StorageSys :=
  match sys_run (H1 := ex_big_column) 1 None acts (sys_init ex_full_table) with
  | Ret s => s
  | Panic => sys_init ex_full_table
  end.

Lemma ex_full_run_reachable acts : storage_reachable (H1 := ex_big_column) 1 None ex_full_table (ex_full_run acts).
Proof.
  unfold ex_full_run. destruct (sys_run 1 None acts (sys_init ex_full_table)) as [s|] eqn:H; [|constructor].
  by eapply sys_run_reachable; [constructor|].
Qed.

Definition ex_hit : list SysAction := [ACall (ex_set "x"); ex_resume 0; ex_resume 0; ex_resume 0].

(** Once the only row has expired (at 100) the guild still cannot write. *)
Definition ex_retry : list SysAction := [ACall (ex_set "y"); AResume 1 (ex_env 500) 500].

Lemma full_storage_rejects_until_delete_witness :
  match sys_run (H1 := ex_big_column) 1 None ex_retry (ex_full_run ex_hit) with
  | Ret s' => hit_limit (sys_state s') = true ∧ sys_calls s' !! 1%nat = Some (ex_set "y", PFinished (Err hit_storage_limit))
  | Panic => False
  end.
Proof.
  assert (match sys_run (H1 := ex_big_column) 1 None ex_retry (ex_full_run ex_hit) with
          | Ret s' => occurs EvUnblocked (sys_log s') = occurs EvUnblocked (sys_log (ex_full_run ex_hit)) ∧
                      sys_calls s' !! 1%nat = Some (ex_set "y", PFinished (Err hit_storage_limit))
          | Panic => False
          end) as Hrun by (vm_compute; split; reflexivity).
  destruct (sys_run (H1 := ex_big_column) 1 None ex_retry (ex_full_run ex_hit)) as [s'|] eqn:E; [|exact Hrun].
  split; [|exact (proj2 Hrun)].
  refine (proj1 (full_storage_rejects_until_delete (H1 := ex_big_column) 1 None ex_full_table
    (ex_full_run ex_hit) ex_retry s' (ex_full_run_reachable ex_hit) _ E (proj1 Hrun))); vm_compute; reflexivity.
Defined.

(** A deletion that runs while the usage of before is being evaluated is forgotten: the guild
    deletes what filled its storage and is still refused. *)
Example delete_during_check_is_forgotten :
  let s := ex_full_run
    [ACall (ex_set "x"); ex_resume 0; ex_resume 0;
     ACall (RqDel "b" "big"); ex_resume 1; ex_resume 1; ex_resume 1; ex_resume 0;
     ACall (ex_set "y"); ex_resume 2] in
  sys_table s = ∅ ∧ sys_calls s !! 2%nat = Some (ex_set "y", PFinished (Err hit_storage_limit)).
Proof. vm_compute. done. Qed.

(** A failed usage query fails the call that made it and lets the calls that waited for it
    write, whatever the usage. *)
Example failed_check_admits_waiters :
  let s := ex_full_run
    [ACall (ex_set "x"); ACall (ex_set "y"); ex_resume 0; ex_resume 1;
     AResume 0 (mkPgEnv 10 (Some (SqlxOther "timeout"))) 10; ex_resume 0; ex_resume 1; ex_resume 1] in
  size (sys_table s) = 2%nat.
Proof. vm_compute. done. Qed.

Definition ex_calls : list (PgEnv * Z * StorageReq) :=
  [(ex_env 10, 10, ex_set "x"); (ex_env 11, 11, RqIncr "b" "x" ex_x); (ex_env 12, 12, RqDel "b" "nope");
   (ex_env 13, 13, ex_set "y")].

Lemma storage_quota_sequential_witness :
  match calls_alone 1 None ex_calls storage_init ∅ with
  | Ret (_, t') => used_bytes 1 13 t' = 200 ∧ used_bytes 1 13 t' ≤ storage_total_size None + 11 * 100
  | Panic => False
  end.
Proof.
  assert (match calls_alone 1 None ex_calls storage_init ∅ with
          | Ret (_, t') => used_bytes 1 13 t'
          | Panic => 0
          end = 200) as Hused by (vm_compute; reflexivity).
  destruct (calls_alone 1 None ex_calls storage_init ∅) as [[st' t']|] eqn:E; [|discriminate].
  split; [exact Hused|].
  assert (∀ (k : BucketKey) (r : DbEntry), 0 ≤ ex_column_size k r) as Hn by (intros; vm_compute; discriminate).
  assert (∀ b k r, Z.of_nat (String.length b) ≤ 10 → row_fits b k r → ex_column_size k r ≤ 100) as Hb
    by (intros; vm_compute; discriminate).
  apply (storage_quota_sequential 1 None Hn 100 10 Hb ltac:(lia) ex_calls 0 ∅ st' t');
    [vm_compute; discriminate|vm_compute; repeat split; discriminate|exact E].
Defined.
