(* ===== verification/TimerStore.v ===== *)
(** The timers in the database ([components/stores/src/timers.rs], [postgres/timers.rs]): the
    scheduled tasks of the guilds and the last runs of their interval timers.

    [scheduled_tasks] has an id drawn from a sequence and a unique index on
    (guild, name, unique_key) for the rows whose key is not NULL; [interval_timers] has the
    primary key (guild, script, name). *)
From stdpp Require Import base gmap list strings sorting.
From S2P Require Import Prelude Models WorkerPool Commands World IntervalTimers Postgres BucketStore.

(** * Tables *)

Record DbScheduledTask := mkDbTask {
  dt_guild_id : Z;
  dt_name : string;
  dt_unique_key : option string;
  dt_value : JsonValue;
  dt_exec_at : Z;
}.

Record DbIntervalTimer := mkDbTimer {
  di_interval_minutes : option Z;
  di_interval_cron : option string;
  di_last_run_at : Z;
  di_created_at : Z;
  di_updated_at : Z;
}.

(** [task_seq] is the last value the sequence of [scheduled_tasks.id] gave out. *)
Record TimerDb := mkTimerDb {
  task_seq : Z;
  scheduled_tasks : gmap Z DbScheduledTask;
  interval_timers : gmap (Z * Z * string) DbIntervalTimer;
}.

(** [impl From<DbScheduledTask> for ScheduledTask]; [id as u64] *)
Definition task_of_db (id : Z) (v : DbScheduledTask) : ScheduledTask :=
  mkScheduledTask (id mod 2 ^ 64) (dt_name v) (dt_unique_key v) (dt_value v) (dt_exec_at v).

(** [impl TryFrom<DbIntervalTimer> for IntervalTimer] *)
Definition timer_of_db (name : string) (v : DbIntervalTimer) : result DbTimerError IntervalTimer :=
  match of_db_interval (di_interval_minutes v, di_interval_cron v) with
  | Ok i => Ok (mkIntervalTimer name i (di_last_run_at v))
  | Err e => Err e
  end.

Inductive TimerStoreError :=
| TsSqlx (e : SqlxError)
| TsInterval (e : DbTimerError).

Definition timer_error {A} (r : result SqlxError A) : result TimerStoreError A :=
  match r with
  | Ok a => Ok a
  | Err e => Err (TsSqlx e)
  end.

Section operations.
Context `{!Pg, !HashOrder Z, !HashOrder (Z * Z * string)}.
Implicit Types (db : TimerDb) (env : PgEnv).

Definition set_tasks (m : gmap Z DbScheduledTask) db : TimerDb := mkTimerDb (task_seq db) m (interval_timers db).

(** ** Interval timers *)

Definition get_all_interval_timers env (guild_id : GuildId) db : TimerDb * result TimerStoreError (list IntervalTimer) :=
  let (db, res) := exec env (λ db, Ok (db,
    List.filter (λ kr : (Z * Z * string) * DbIntervalTimer, kr.1.1.1 =? u64_as_i64 guild_id) (hiter (interval_timers db)))) db in
  (db, result_map (omap (λ kr : (Z * Z * string) * DbIntervalTimer,
         match timer_of_db kr.1.2 kr.2 with Ok t => Some t | Err _ => None end)) (timer_error res)).

Definition update_interval_timer env (guild_id : GuildId) (timer : IntervalTimer) db
    : TimerDb * result TimerStoreError IntervalTimer :=
  let (interval_minutes, interval_cron) := to_db_interval (it_interval timer) in
  let now := pg_now env in
  let k := (u64_as_i64 guild_id, 0, it_name timer) in
  let (db, res) := exec env (λ db,
    let created_at := match interval_timers db !! k with Some r => di_created_at r | None => now end in
    let r := mkDbTimer interval_minutes interval_cron (timestamptz (it_last_run timer)) created_at now in
    Ok (mkTimerDb (task_seq db) (scheduled_tasks db) (<[k := r]> (interval_timers db)), r)) db in
  (db, match res with
       | Err e => Err (TsSqlx e)
       | Ok r => match timer_of_db (it_name timer) r with Ok t => Ok t | Err e => Err (TsInterval e) end
       end).

Definition del_interval_timer env (guild_id : GuildId) (script_id : Z) (timer_name : string) db
    : TimerDb * result TimerStoreError bool :=
  let k := (u64_as_i64 guild_id, u64_as_i64 script_id, timer_name) in
  let (db, res) := exec env (λ db,
    Ok (mkTimerDb (task_seq db) (scheduled_tasks db) (delete k (interval_timers db)),
        match interval_timers db !! k with Some _ => true | None => false end)) db in
  (db, timer_error res).

(** ** Scheduled tasks *)

(** The row the partial unique index holds for a key. *)
Definition conflicting (guild_id : Z) (name key : string) (ir : Z * DbScheduledTask) : bool :=
  (dt_guild_id ir.2 =? guild_id) && bool_decide (dt_name ir.2 = name) && bool_decide (dt_unique_key ir.2 = Some key).

Definition find_key (guild_id : Z) (name key : string) db : option (Z * DbScheduledTask) :=
  find_first (conflicting guild_id name key) (hiter (scheduled_tasks db)).

(** The id is drawn before the conflict is found, so an upsert leaves a gap in the sequence; a
    [bigserial] that is exhausted raises an error. *)
Definition create_task env (guild_id : GuildId) (name : string) (unique_key : option string) (data : JsonValue) (at_ : Z) db
    : TimerDb * result TimerStoreError ScheduledTask :=
  let g := u64_as_i64 guild_id in
  let (db, res) := exec env (λ db,
    if i64_max <=? task_seq db then Err (SqlxOther "nextval: reached maximum value of sequence")
    else
      let id := task_seq db + 1 in
      let value := jsonb data in
      let exec_at := timestamptz at_ in
      let write id r :=
        Ok (mkTimerDb (task_seq db + 1) (<[id := r]> (scheduled_tasks db)) (interval_timers db), task_of_db id r) in
      match unique_key with
      | None => write id (mkDbTask g name None value exec_at)
      | Some key =>
          match find_key g name key db with
          | None => write id (mkDbTask g name (Some key) value exec_at)
          | Some (id', r) => write id' (mkDbTask (dt_guild_id r) (dt_name r) (dt_unique_key r) value exec_at)
          end
      end) db in
  (db, timer_error res).

Definition get_task_by_id env (guild_id : GuildId) (id : Z) db : TimerDb * result TimerStoreError (option ScheduledTask) :=
  let (db, res) := exec env (λ db, Ok (db,
    match scheduled_tasks db !! u64_as_i64 id with
    | Some r => if dt_guild_id r =? u64_as_i64 guild_id then Some (task_of_db (u64_as_i64 id) r) else None
    | None => None
    end)) db in
  (db, timer_error res).

Definition get_task_by_key env (guild_id : GuildId) (name key : string) db
    : TimerDb * result TimerStoreError (option ScheduledTask) :=
  let (db, res) := exec env (λ db, Ok (db,
    (λ ir : Z * DbScheduledTask, task_of_db ir.1 ir.2) <$> find_key (u64_as_i64 guild_id) name key db)) db in
  (db, timer_error res).

(** [guild_id = $1 AND (name = $2 OR $2 IS NULL)] *)
Definition of_guild (guild_id : GuildId) (name : option string) (ir : Z * DbScheduledTask) : bool :=
  (dt_guild_id ir.2 =? u64_as_i64 guild_id) &&
  match name with Some name => bool_decide (dt_name ir.2 = name) | None => true end.

Definition select_tasks (p : Z * DbScheduledTask → bool) db : list (Z * DbScheduledTask) :=
  List.filter p (hiter (scheduled_tasks db)).

Definition tasks_of_rows (l : list (Z * DbScheduledTask)) : list ScheduledTask :=
  (λ ir, task_of_db ir.1 ir.2) <$> l.

Definition id_le (a b : Z * DbScheduledTask) : bool := a.1 <=? b.1.
Definition exec_at_le (a b : Z * DbScheduledTask) : bool := dt_exec_at a.2 <=? dt_exec_at b.2.

Definition get_tasks env (guild_id : GuildId) (name : option string) (id_after limit : Z) db
    : TimerDb * result TimerStoreError (list ScheduledTask) :=
  let p ir := of_guild guild_id name ir && (u64_as_i64 id_after <? ir.1) in
  let (db, res) := exec env (λ db, Ok (db,
    tasks_of_rows (limit_offset limit 0 (order_by id_le (select_tasks p db))))) db in
  (db, timer_error res).

(** DELETE, with the number of rows it removed *)
Definition delete_tasks env (p : Z * DbScheduledTask → bool) db : TimerDb * result TimerStoreError Z :=
  let (db, res) := exec env (λ db,
    Ok (set_tasks (filter (λ ir, p ir = false) (scheduled_tasks db)) db, Z.of_nat (length (select_tasks p db)))) db in
  (db, timer_error res).

Definition del_task_by_id env (guild_id : GuildId) (id : Z) db : TimerDb * result TimerStoreError Z :=
  delete_tasks env (λ ir, (dt_guild_id ir.2 =? u64_as_i64 guild_id) && (ir.1 =? u64_as_i64 id)) db.

Definition del_task_by_key env (guild_id : GuildId) (name key : string) db : TimerDb * result TimerStoreError Z :=
  delete_tasks env (conflicting (u64_as_i64 guild_id) name key) db.

Definition del_all_tasks env (guild_id : GuildId) (name : option string) db : TimerDb * result TimerStoreError Z :=
  delete_tasks env (of_guild guild_id name) db.

(** [guild_id = $1 AND name = ANY($2) AND (NOT id = ANY ($3))] *)
Definition pending_row (guild_id : GuildId) (ignore_ids : list Z) (names : list string) (ir : Z * DbScheduledTask) : bool :=
  (dt_guild_id ir.2 =? u64_as_i64 guild_id) && bool_decide (dt_name ir.2 ∈ names) &&
  negb (bool_decide (ir.1 ∈ u64_as_i64 <$> ignore_ids)).

Definition get_next_task_time env (guild_id : GuildId) (ignore_ids : list Z) (names : list string) db
    : TimerDb * result TimerStoreError (option Z) :=
  let (db, res) := exec env (λ db, Ok (db,
    (λ ir : Z * DbScheduledTask, dt_exec_at ir.2) <$>
      head (limit_offset 1 0 (order_by exec_at_le (select_tasks (pending_row guild_id ignore_ids names) db))))) db in
  (db, timer_error res).

Definition get_triggered_tasks env (guild_id : GuildId) (t : Z) (ignore_ids : list Z) (names : list string) db
    : TimerDb * result TimerStoreError (list ScheduledTask) :=
  let p ir := (dt_exec_at ir.2 <? timestamptz t) && pending_row guild_id ignore_ids names ir in
  let (db, res) := exec env (λ db, Ok (db, tasks_of_rows (select_tasks p db))) db in
  (db, timer_error res).

Definition get_task_count env (guild_id : GuildId) db : TimerDb * result TimerStoreError Z :=
  let (db, res) := exec env (λ db, Ok (db, Z.of_nat (length (select_tasks (of_guild guild_id None) db)))) db in
  (db, timer_error res).

(** Two statements: [others] is what happens in the database in between. *)
Definition delete_guild_timer_data (env1 env2 : PgEnv) (others : TimerDb → TimerDb) (id : GuildId) db
    : TimerDb * result TimerStoreError unit :=
  let g := u64_as_i64 id in
  let (db, r1) := exec env1 (λ db,
    Ok (set_tasks (filter (λ ir : Z * DbScheduledTask, dt_guild_id ir.2 ≠ g) (scheduled_tasks db)) db, tt)) db in
  match r1 with
  | Err e => (db, Err (TsSqlx e))
  | Ok _ =>
      let (db, r2) := exec env2 (λ db,
        Ok (mkTimerDb (task_seq db) (scheduled_tasks db)
              (filter (λ kr : (Z * Z * string) * DbIntervalTimer, kr.1.1.1 ≠ g) (interval_timers db)), tt)) (others db) in
      (db, timer_error r2)
  end.
End operations.

(** * Well-formed tables *)

Record timer_db_ok (db : TimerDb) : Prop := {
  ok_seq : 0 ≤ task_seq db ≤ i64_max;
  ok_ids : ∀ id r, scheduled_tasks db !! id = Some r → 1 ≤ id ≤ task_seq db;
  ok_keys : ∀ id id' r r' key,
    scheduled_tasks db !! id = Some r → scheduled_tasks db !! id' = Some r' →
    dt_guild_id r = dt_guild_id r' → dt_name r = dt_name r' →
    dt_unique_key r = Some key → dt_unique_key r' = Some key → id = id';
}.

Inductive TimerOp :=
| TUpdateInterval (guild_id : GuildId) (timer : IntervalTimer)
| TDelInterval (guild_id : GuildId) (script_id : Z) (timer_name : string)
| TCreate (guild_id : GuildId) (name : string) (unique_key : option string) (data : JsonValue) (at_ : Z)
| TDelId (guild_id : GuildId) (id : Z)
| TDelKey (guild_id : GuildId) (name key : string)
| TDelAll (guild_id : GuildId) (name : option string)
| TDeleteGuild (id : GuildId).

Section timer_store.
Context `{!Pg, !HashOrder Z, !HashOrder (Z * Z * string)}.
Implicit Types (db : TimerDb) (env : PgEnv).

Definition timer_step env (op : TimerOp) db : TimerDb :=
  match op with
  | TUpdateInterval g t => (update_interval_timer env g t db).1
  | TDelInterval g s n => (del_interval_timer env g s n db).1
  | TCreate g n k v t => (create_task env g n k v t db).1
  | TDelId g id => (del_task_by_id env g id db).1
  | TDelKey g n k => (del_task_by_key env g n k db).1
  | TDelAll g n => (del_all_tasks env g n db).1
  | TDeleteGuild g => (delete_guild_timer_data env env (λ db, db) g db).1
  end.

Lemma conflicting_true g n k id r :
  conflicting g n k (id, r) = true ↔ dt_guild_id r = g ∧ dt_name r = n ∧ dt_unique_key r = Some k.
Proof. unfold conflicting. simpl. rewrite !andb_true_iff, !bool_decide_eq_true, Z.eqb_eq. tauto. Qed.

Lemma find_key_Some g n k db id r :
  timer_db_ok db →
  find_key g n k db = Some (id, r) ↔
  scheduled_tasks db !! id = Some r ∧ dt_guild_id r = g ∧ dt_name r = n ∧ dt_unique_key r = Some k.
Proof.
  intros Hok. rewrite <- conflicting_true with (id := id). unfold find_key. split.
  - intros [Hin Hc]%find_first_Some. apply elem_of_hiter in Hin. done.
  - intros [Hr Hc]. destruct (find_first _ _) as [[id' r']|] eqn:Hf.
    + apply find_first_Some in Hf as [Hr' Hc']. apply elem_of_hiter in Hr'.
      apply conflicting_true in Hc as (Hg & Hn & Hk), Hc' as (Hg' & Hn' & Hk').
      assert (id = id') as <- by (eapply (ok_keys db Hok); eauto; congruence). congruence.
    + apply find_first_None in Hf. rewrite Forall_forall in Hf.
      apply elem_of_hiter in Hr. apply Hf in Hr. congruence.
Qed.

Lemma find_key_None g n k db id r :
  find_key g n k db = None → scheduled_tasks db !! id = Some r →
  ¬ (dt_guild_id r = g ∧ dt_name r = n ∧ dt_unique_key r = Some k).
Proof.
  rewrite <- conflicting_true with (id := id). unfold find_key. rewrite find_first_None, Forall_forall.
  intros Hf Hr. apply elem_of_hiter in Hr. apply Hf in Hr. congruence.
Qed.

(** Removing rows and writing interval timers keeps the tables well formed. *)
Lemma timer_db_ok_sub db m it :
  timer_db_ok db → m ⊆ scheduled_tasks db → timer_db_ok (mkTimerDb (task_seq db) m it).
Proof.
  intros [Hs Hi Hk] Hsub. split; simpl; [done|..].
  - intros id r Hr. eapply Hi, lookup_weaken; done.
  - intros id id' r r' key Hr Hr'. eapply Hk; eapply lookup_weaken; done.
Qed.

Lemma timer_db_ok_new db r :
  timer_db_ok db → task_seq db < i64_max →
  (∀ key, dt_unique_key r = Some key → find_key (dt_guild_id r) (dt_name r) key db = None) →
  timer_db_ok (mkTimerDb (task_seq db + 1) (<[task_seq db + 1 := r]> (scheduled_tasks db)) (interval_timers db)).
Proof.
  intros [Hs Hi Hk] Hseq Hfree. split; simpl; [lia|..].
  - intros id r' [[<- _]|[_ Hr]]%lookup_insert_Some; [lia|]. apply Hi in Hr. lia.
  - intros id id' r1 r2 key [[<- <-]|[_ H1']]%lookup_insert_Some [[<- <-]|[_ H2']]%lookup_insert_Some Hg Hn Hk1 Hk2;
      [done|..].
    + exfalso. eapply (find_key_None _ _ _ _ _ _ (Hfree key Hk1) H2'). auto.
    + exfalso. eapply (find_key_None _ _ _ _ _ _ (Hfree key Hk2) H1'). auto.
    + by eapply Hk.
Qed.

Lemma timer_db_ok_update db id r v t :
  timer_db_ok db → task_seq db < i64_max → scheduled_tasks db !! id = Some r →
  timer_db_ok (mkTimerDb (task_seq db + 1)
    (<[id := mkDbTask (dt_guild_id r) (dt_name r) (dt_unique_key r) v t]> (scheduled_tasks db)) (interval_timers db)).
Proof.
  intros [Hs Hi Hk] Hseq Hr. split; simpl; [lia|..].
  - intros id' r' [[<- _]|[_ Hr']]%lookup_insert_Some; [apply Hi in Hr; lia|]. apply Hi in Hr'. lia.
  - intros id1 id2 r1 r2 key [[<- <-]|[? H1']]%lookup_insert_Some [[<- <-]|[? H2']]%lookup_insert_Some; simpl;
      [done|..]; intros Hg Hn Hk1 Hk2; by eapply Hk.
Qed.

(** What [create_task] does when the database accepts it. *)
Lemma create_task_spec env g n k v t db db' task :
  timer_db_ok db → create_task env g n k v t db = (db', Ok task) →
  ∃ id r,
    db' = mkTimerDb (task_seq db + 1) (<[id := r]> (scheduled_tasks db)) (interval_timers db) ∧
    task = task_of_db id r ∧ r = mkDbTask (u64_as_i64 g) n k (jsonb v) (timestamptz t) ∧ task_seq db < i64_max ∧
    ((id = task_seq db + 1 ∧ ∀ key, k = Some key → find_key (u64_as_i64 g) n key db = None) ∨
     ∃ key r0, k = Some key ∧ find_key (u64_as_i64 g) n key db = Some (id, r0)).
Proof.
  intros Hok. unfold create_task, exec. destruct (pg_error env); [done|].
  destruct (Z.leb_spec i64_max (task_seq db)); [done|]. destruct k as [key|]; simpl.
  - destruct (find_key _ n key db) as [[id r]|] eqn:Hf; simpl; intros [= <- <-].
    + pose proof Hf as (Hr & Hg & Hn & Hk)%find_key_Some; [|done].
      rewrite Hg, Hn, Hk. do 2 eexists. split_and!; [done..|]. right. eauto.
    + do 2 eexists. split_and!; [done..|]. left. split; [done|]. by intros ? [= <-].
  - intros [= <- <-]. do 2 eexists. split_and!; [done..|]. by left.
Qed.

Lemma timer_step_ok env op db : timer_db_ok db → timer_db_ok (timer_step env op db).
Proof.
  intros Hok. assert (timer_db_ok (mkTimerDb (task_seq db) (scheduled_tasks db) (interval_timers db))) as Hok' by by destruct db.
  assert (∀ p, timer_db_ok (delete_tasks env p db).1) as Hdel.
  { intros p. unfold delete_tasks, exec. destruct (pg_error env); simpl; [done|].
    apply timer_db_ok_sub; [done|]. apply map_filter_subseteq. }
  destruct op as [g t|g s n|g n k v t|g id|g n k|g n|g]; simpl; try apply Hdel.
  - unfold update_interval_timer, exec. destruct (to_db_interval _). destruct (pg_error env); simpl; [done|].
    by apply timer_db_ok_sub.
  - unfold del_interval_timer, exec. destruct (pg_error env); simpl; [done|]. by apply timer_db_ok_sub.
  - destruct (create_task env g n k v t db) as [db' [task|e]] eqn:Hc; simpl.
    + apply create_task_spec in Hc as (id & r & -> & -> & -> & Hseq & [[-> Hfree]|(key & r0 & -> & Hf)]); [..|done].
      * by apply timer_db_ok_new.
      * apply find_key_Some in Hf as (Hr & Hg & Hn & Hk); [|done]. rewrite <- Hg, <- Hn, <- Hk.
        by apply timer_db_ok_update.
    + revert Hc. unfold create_task, exec. destruct (pg_error env); simpl; [intros; by simplify_eq/=|].
      destruct (_ <=? _); [intros; by simplify_eq/=|]. repeat case_match; intros; by simplify_eq/=.
  - unfold delete_guild_timer_data, exec. destruct (pg_error env); simpl; [done|].
    apply timer_db_ok_sub; [done|]. apply map_filter_subseteq.
Qed.

Inductive timer_db_reachable : TimerDb → Prop :=
| tr_empty : timer_db_reachable (mkTimerDb 0 ∅ ∅)
| tr_step env op db : timer_db_reachable db → timer_db_reachable (timer_step env op db).

(** In every database the operations build, ids are the sequence's and at most one task of a
    guild has a given name and key. *)
Lemma timer_db_reachable_ok db : timer_db_reachable db → timer_db_ok db.
Proof.
  induction 1; [|by apply timer_step_ok]. split; simpl; [unfold i64_max; lia|..]; intros *; by rewrite lookup_empty.
Qed.

Lemma id_roundtrip db id r :
  timer_db_ok db → scheduled_tasks db !! id = Some r → u64_as_i64 (id mod 2 ^ 64) = id.
Proof.
  intros Hok Hr. pose proof (ok_ids db Hok id r Hr) as Hid. pose proof (ok_seq db Hok). unfold i64_max in *.
  rewrite Z.mod_small by lia. unfold u64_as_i64, i64_max. destruct (Z.leb_spec id (2 ^ 63 - 1)); lia.
Qed.

(** Reading a task of a well-formed database by its id. *)
Lemma get_task_by_id_found env g db id r :
  timer_db_ok db → pg_error env = None → scheduled_tasks db !! id = Some r → dt_guild_id r = u64_as_i64 g →
  get_task_by_id env g (st_id (task_of_db id r)) db = (db, Ok (Some (task_of_db id r))).
Proof.
  intros Hok Hpg Hr Hg. unfold get_task_by_id, exec. rewrite Hpg. simpl.
  by rewrite (id_roundtrip db id r Hok Hr), Hr, Hg, Z.eqb_refl.
Qed.

(** A task that was created is found by its id and by its key, with the data given; a task with
    the same name and key is replaced under its id, and no other task changes. *)
Theorem create_task_roundtrip env env' g n k v t db db' task :
  timer_db_ok db → create_task env g n k v t db = (db', Ok task) → pg_error env' = None →
  st_name task = n ∧ st_unique_key task = k ∧ st_data task = jsonb v ∧ st_execute_at task = timestamptz t ∧
  get_task_by_id env' g (st_id task) db' = (db', Ok (Some task)) ∧
  (∀ key, k = Some key → get_task_by_key env' g n key db' = (db', Ok (Some task))) ∧
  (∀ key id r, k = Some key → find_key (u64_as_i64 g) n key db = Some (id, r) → st_id task = id mod 2 ^ 64) ∧
  (∀ id r, scheduled_tasks db !! id = Some r → id mod 2 ^ 64 ≠ st_id task → scheduled_tasks db' !! id = Some r).
Proof.
  intros Hok Hc Hpg. pose proof (timer_step_ok env (TCreate g n k v t) db Hok) as Hok'. simpl in Hok'.
  rewrite Hc in Hok'. simpl in Hok'.
  apply create_task_spec in Hc as (id & r & -> & -> & -> & Hseq & Hid); [|done]. split_and!; try done.
  - apply get_task_by_id_found; try done. apply lookup_insert_eq.
  - intros key ->. unfold get_task_by_key, exec. rewrite Hpg.
    rewrite (proj2 (find_key_Some (u64_as_i64 g) n key _ id
      (mkDbTask (u64_as_i64 g) n (Some key) (jsonb v) (timestamptz t)) Hok')); [done|].
    simpl. rewrite lookup_insert_eq. done.
  - intros key id' r -> Hf. destruct Hid as [[_ Hfree]|(key' & r0 & [= <-] & Hf')].
    + by rewrite (Hfree key eq_refl) in Hf.
    + rewrite Hf in Hf'. by simplify_eq.
  - intros id' r Hr Hne. simpl. rewrite lookup_insert_ne; [done|]. intros ->. done.
Qed.

(** ** When tasks are due *)

Lemma elem_of_select_tasks p db id r :
  (id, r) ∈ select_tasks p db ↔ scheduled_tasks db !! id = Some r ∧ p (id, r) = true.
Proof. unfold select_tasks. by rewrite elem_of_List_filter, elem_of_hiter. Qed.

(** The first of the ordered rows has the least time. *)
Lemma next_task_time_least env g ignore names db :
  pg_error env = None →
  ∃ next, get_next_task_time env g ignore names db = (db, Ok next) ∧
    match next with
    | None => select_tasks (pending_row g ignore names) db = []
    | Some x =>
        (∃ id r, (id, r) ∈ select_tasks (pending_row g ignore names) db ∧ dt_exec_at r = x) ∧
        (∀ id r, (id, r) ∈ select_tasks (pending_row g ignore names) db → x ≤ dt_exec_at r)
    end.
Proof.
  intros Hpg. unfold get_next_task_time, exec, limit_offset. rewrite Hpg. simpl. eexists. split; [done|].
  set (l := select_tasks _ _). pose proof (order_by_perm exec_at_le l) as Hp.
  assert (StronglySorted (is_le exec_at_le) (order_by exec_at_le l)) as Hs.
  { apply order_by_sorted; unfold exec_at_le; intros *; rewrite !Z.leb_le; lia. }
  destruct (order_by exec_at_le l) as [|[id r] l']; simpl.
  - by apply Permutation_nil_l in Hp.
  - apply StronglySorted_cons in Hs as [Hall _]. rewrite Forall_forall in Hall. split.
    + exists id, r. split; [|done]. rewrite <- Hp. by constructor.
    + intros id' r' Hin. rewrite <- Hp in Hin. apply elem_of_cons in Hin as [[= -> ->]|Hin]; [lia|].
      apply Hall in Hin. by apply Z.leb_le in Hin.
Qed.

(** [get_next_task_time] announces exactly what [get_triggered_tasks] will find: there is a due
    task if and only if the announced time has passed, and none is due before that time. *)
Theorem next_time_iff_triggered env env' g t ignore names db :
  pg_error env = None → pg_error env' = None →
  ∃ next due,
    get_next_task_time env g ignore names db = (db, Ok next) ∧
    get_triggered_tasks env' g t ignore names db = (db, Ok due) ∧
    (due ≠ [] ↔ ∃ x, next = Some x ∧ x < timestamptz t) ∧
    (∀ task, task ∈ due → st_execute_at task < timestamptz t ∧ st_name task ∈ names ∧
       ∃ x, next = Some x ∧ x ≤ st_execute_at task).
Proof.
  intros Hpg Hpg'. destruct (next_task_time_least env g ignore names db Hpg) as (next & Hnext & Hleast).
  unfold get_triggered_tasks, exec. rewrite Hpg'. do 2 eexists. split; [done|]. split; [done|].
  set (p := pending_row g ignore names) in *. set (q := λ ir : Z * DbScheduledTask, (_ && p ir)).
  assert (∀ id r, (id, r) ∈ select_tasks q db ↔
    (id, r) ∈ select_tasks p db ∧ dt_exec_at r < timestamptz t) as Hdue.
  { intros id r. unfold q. rewrite !elem_of_select_tasks. simpl. rewrite andb_true_iff, Z.ltb_lt. tauto. }
  assert (∀ id r, (id, r) ∈ select_tasks p db → ∃ x, next = Some x ∧ x ≤ dt_exec_at r) as Hle.
  { intros id r Hin. destruct next as [x|]; [|by rewrite Hleast in Hin; apply elem_of_nil in Hin].
    exists x. split; [done|]. by apply Hleast in Hin. }
  split; [split|].
  - intros Hne. destruct (select_tasks q db) as [|[id r] l] eqn:Hs; [done|].
    destruct (proj1 (Hdue id r)) as [Hin Hlt]; [by constructor|].
    destruct (Hle id r Hin) as (x & -> & Hx). exists x. split; [done|lia].
  - intros (x & -> & Hx). destruct Hleast as [(id & r & Hin & <-) _].
    pose proof (proj2 (Hdue id r) (conj Hin Hx)) as Hd. by destruct (select_tasks q db); [apply elem_of_nil in Hd|].
  - intros task ([id r] & -> & [Hin Hlt]%Hdue)%list_elem_of_fmap. split_and!; [done| |by eapply Hle].
    apply elem_of_select_tasks in Hin as [_ Hp]. unfold p, pending_row in Hp.
    rewrite !andb_true_iff, bool_decide_eq_true in Hp. simpl in *. tauto.
Qed.

(** ** Interval timers *)

#[local] Arguments of_db_interval : simpl never.

Lemma to_db_interval_ok i : ∃ i', of_db_interval (to_db_interval i) = Ok i'.
Proof. destruct i; unfold of_db_interval; simpl; eauto. Qed.

(** An interval timer that was written is read back with its last run, and writing it never
    fails on its own account. *)
Theorem interval_timer_roundtrip env env' g timer db :
  pg_error env = None → pg_error env' = None →
  ∃ db' timer' l,
    update_interval_timer env g timer db = (db', Ok timer') ∧
    it_name timer' = it_name timer ∧ it_last_run timer' = timestamptz (it_last_run timer) ∧
    of_db_interval (to_db_interval (it_interval timer)) = Ok (it_interval timer') ∧
    get_all_interval_timers env' g db' = (db', Ok l) ∧ timer' ∈ l.
Proof.
  intros Hpg Hpg'. destruct (to_db_interval_ok (it_interval timer)) as [i' Hi'].
  unfold update_interval_timer, exec. rewrite Hpg. destruct (to_db_interval (it_interval timer)) as [mins cron].
  unfold timer_of_db at 1. simpl. rewrite Hi'. do 3 eexists. split_and!; [done..| |].
  - unfold get_all_interval_timers, exec. rewrite Hpg'. done.
  - apply list_elem_of_omap. eexists ((u64_as_i64 g, 0, it_name timer), _). split.
    + apply elem_of_List_filter. rewrite elem_of_hiter. simpl. rewrite Z.eqb_refl. split; [|done]. apply lookup_insert_eq.
    + unfold timer_of_db. simpl. by rewrite Hi'.
Qed.
End timer_store.
