(* ===== verification/Tasks.v ===== *)
(** The task operations offered to scripts ([components/runtime/src/extensions/tasks.rs],
    [runtime-models/src/internal/tasks.rs]): scheduling within the limits of the guild's plan,
    deleting and reading, composed with the timer store.

    The time of a task comes as a [u64] of milliseconds and is split with double precision
    arithmetic, which is written out here on integers. The rate limiters only delay the calls. *)
From stdpp Require Import base gmap list strings sorting.
From S2P Require Import Prelude Models WorkerPool Commands World IntervalTimers ScheduledTasks Postgres BucketStore Storage TimerStore.

(** * Double precision

    The integer [n / d] rounded to nearest, ties to even. *)
Definition round_half_even (n d : Z) : Z :=
  let q := n / d in
  match Z.compare (2 * (n mod d)) d with
  | Lt => q
  | Gt => q + 1
  | Eq => if Z.even q then q else q + 1
  end.

(** [v as f64] for a [u64]: at most 53 significant bits. The value is an integer. *)
Definition u64_as_f64 (v : Z) : Z :=
  if v <? 2 ^ 53 then v
  else let u := 2 ^ (Z.log2 v - 52) in round_half_even v u * u.

(** [(x / 1000f64).floor() as i64] for an integer [x] below [2^64]: the quotient is rounded to
    53 significant bits, [2^e] being the inverse of the unit in the last place. *)
Definition f64_div1000_floor (x : Z) : Z :=
  if x <? 1000 then 0
  else
    let e := 52 - Z.log2 (x / 1000) in
    if 0 <=? e then round_half_even (x * 2 ^ e) 1000 / 2 ^ e
    else round_half_even x (1000 * 2 ^ (- e)) * 2 ^ (- e).

(** * components/runtime-models/src/internal/tasks.rs *)

Record CreateScheduledTask := mkCreateTask {
  ct_namespace : string;
  ct_unique_key : option string;
  ct_data : JsonValue;
  ct_execute_at : Z;
}.

Record OpScheduledTask := mkOpTask {
  ot_id : Z;
  ot_namespace : string;
  ot_key : option string;
  ot_execute_at : Z;
  ot_data : JsonValue;
}.

Definition op_task_of_task (v : ScheduledTask) : OpScheduledTask :=
  mkOpTask (st_id v) (st_name v) (st_unique_key v) (timestamp_millis_u64 (st_execute_at v)) (st_data v).

(** * components/runtime/src/extensions/tasks.rs *)

Inductive TaskError :=
| TaskMsg (msg : string) (limit : Z)
| TaskStore (e : TimerStoreError).

Inductive RuntimeEvent := NewTaskScheduled.

Section operations.
Context `{!Calendar, !Pg, !HashOrder Z, !HashOrder (Z * Z * string), !JsonLen}.
Context (guild_id : GuildId) (premium_tier : option PremiumSlotTier).
Implicit Types (db : TimerDb) (env : PgEnv).

(** [Utc.timestamp_opt(secs, nsecs)]: [None] outside the calendar. *)
Definition timestamp_opt (secs nsecs : Z) : option Z :=
  let t := secs * nanos_per_sec + nsecs in
  if (nsecs <? 2 * nanos_per_sec) && (dt_min <=? t) && (t <=? dt_max) then Some t else None.

(** [millis as u32 * 1_000_000] wraps around in the release build. *)
Definition schedule_time (execute_at : Z) : outcome Z :=
  let seconds := f64_div1000_floor (u64_as_f64 execute_at) in
  let millis := u64_as_i64 execute_at - seconds * 1000 in
  unwrap (timestamp_opt seconds (((millis mod 2 ^ 32) * 1000000) mod 2 ^ 32)).

Definition task_result {A B} (f : A → B) (r : result TimerStoreError A) : result TaskError B :=
  match r with
  | Ok a => Ok (f a)
  | Err e => Err (TaskStore e)
  end.

(** The count and the insertion are two statements: [others] is what the other calls of the vm
    do to the tasks in between. *)
Definition op_bl_schedule_task (env1 env2 : PgEnv) (others : TimerDb → TimerDb) (opts : CreateScheduledTask) db
    : outcome (TimerDb * result TaskError OpScheduledTask * list RuntimeEvent) :=
  do! t := schedule_time (ct_execute_at opts) in
  let limit_data_len := tasks_data_size premium_tier in
  if limit_data_len <? json_len (ct_data opts) then
    Ret (db, Err (TaskMsg "data cannot be over the limit of the guild's plan" limit_data_len), [])
  else
    let (db, current) := get_task_count env1 guild_id db in
    match current with
    | Err e => Ret (db, Err (TaskStore e), [])
    | Ok current =>
        let limit_num_tasks := tasks_scheduled_count premium_tier in
        if limit_num_tasks <? current then
          Ret (db, Err (TaskMsg "max number of tasks can be scheduled on this guild's plan" limit_num_tasks), [])
        else
          let (db, res) := create_task env2 guild_id (ct_namespace opts) (ct_unique_key opts) (ct_data opts) t (others db) in
          match res with
          | Err e => Ret (db, Err (TaskStore e), [])
          | Ok res => Ret (db, Ok (op_task_of_task res), [NewTaskScheduled])
          end
    end.

Definition op_bl_del_task env (task_id : Z) db : TimerDb * result TaskError bool :=
  let (db, del) := del_task_by_id env guild_id task_id db in (db, task_result (λ n, 0 <? n) del).

Definition op_bl_del_task_by_key env (name key : string) db : TimerDb * result TaskError bool :=
  let (db, del) := del_task_by_key env guild_id name key db in (db, task_result (λ n, 0 <? n) del).

Definition op_bl_del_all_tasks env (name : string) db : TimerDb * result TaskError Z :=
  let (db, del) := del_all_tasks env guild_id (Some name) db in (db, task_result id del).

Definition op_bl_get_task env (id : Z) db : TimerDb * result TaskError (option OpScheduledTask) :=
  let (db, r) := get_task_by_id env guild_id id db in (db, task_result (fmap op_task_of_task) r).

Definition op_bl_get_task_by_key env (name key : string) db : TimerDb * result TaskError (option OpScheduledTask) :=
  let (db, r) := get_task_by_key env guild_id name key db in (db, task_result (fmap op_task_of_task) r).

Definition op_bl_get_all_tasks env (name : option string) (after_id : Z) db
    : TimerDb * result TaskError (list OpScheduledTask) :=
  let (db, r) := get_tasks env guild_id name after_id 25 db in (db, task_result (fmap op_task_of_task) r).
End operations.

(** * The time of a task *)

(** Rounding is off by at most half a unit and keeps exact quotients as bounds. *)
Lemma round_half_even_spec n d :
  0 < d → 2 * (round_half_even n d * d) ≤ 2 * n + d ∧ n / d ≤ round_half_even n d.
Proof.
  intros Hd. unfold round_half_even. pose proof (Z.div_mod n d ltac:(lia)). pose proof (Z.mod_pos_bound n d Hd).
  destruct (Z.compare_spec (2 * (n mod d)) d); [destruct (Z.even _)|..]; nia.
Qed.

(** Below [2^53] milliseconds the split into seconds is exact. *)
Lemma f64_div1000_floor_exact x : 0 ≤ x < 2 ^ 53 → f64_div1000_floor x = x / 1000.
Proof.
  intros Hx. unfold f64_div1000_floor. destruct (Z.ltb_spec x 1000).
  { symmetry. apply Z.div_small. lia. }
  set (k := x / 1000). assert (1 ≤ k < 2 ^ 44) as Hk.
  { unfold k. split; [apply Z.div_le_lower_bound; lia|apply Z.div_lt_upper_bound; lia]. }
  pose proof (Z.log2_lt_pow2 k 44 ltac:(lia)) as Hlog. pose proof (Z.log2_nonneg k).
  set (e := 52 - Z.log2 k). assert (9 ≤ e) as He by lia.
  destruct (Z.leb_spec 0 e); [|lia]. assert (2 ^ 9 ≤ 2 ^ e) as Hp by (apply Z.pow_le_mono_r; lia).
  destruct (round_half_even_spec (x * 2 ^ e) 1000 ltac:(lia)) as [Hup Hlow].
  pose proof (Z.div_mod x 1000 ltac:(lia)) as Hdm. fold k in Hdm. pose proof (Z.mod_pos_bound x 1000 ltac:(lia)).
  symmetry. apply Z.div_unique with (r := round_half_even (x * 2 ^ e) 1000 - k * 2 ^ e); [left|lia].
  assert (k * 2 ^ e ≤ x * 2 ^ e / 1000) as Hk2 by (apply Z.div_le_lower_bound; [lia|nia]).
  split; [lia|]. nia.
Qed.

Lemma u64_as_f64_large v : 2 ^ 53 ≤ v → 2 ^ 53 ≤ u64_as_f64 v.
Proof.
  intros Hv. unfold u64_as_f64. destruct (Z.ltb_spec v (2 ^ 53)); [lia|].
  pose proof (Z.log2_le_mono _ _ Hv) as Hlog. rewrite Z.log2_pow2 in Hlog by lia.
  set (u := 2 ^ (Z.log2 v - 52)). assert (0 < u) by (apply Z.pow_pos_nonneg; lia).
  assert (2 ^ Z.log2 v = 2 ^ 52 * u) as Heq by (unfold u; rewrite <- Z.pow_add_r by lia; f_equal; lia).
  pose proof (proj1 (Z.log2_spec v ltac:(lia))) as Hle.
  destruct (round_half_even_spec v u ltac:(lia)) as [_ Hlow].
  assert (2 ^ 52 ≤ v / u) by (apply Z.div_le_lower_bound; lia).
  assert (2 ^ 53 ≤ 2 ^ Z.log2 v) by (apply Z.pow_le_mono_r; lia). nia.
Qed.

Lemma f64_div1000_floor_large x : 2 ^ 53 ≤ x → 2 ^ 43 ≤ f64_div1000_floor x.
Proof.
  intros Hx. unfold f64_div1000_floor. destruct (Z.ltb_spec x 1000); [lia|].
  set (k := x / 1000). assert (2 ^ 43 ≤ k) as Hk by (apply Z.div_le_lower_bound; lia).
  pose proof (Z.log2_le_mono _ _ Hk) as Hlog. rewrite Z.log2_pow2 in Hlog by lia.
  pose proof (Z.div_mod x 1000 ltac:(lia)) as Hdm. fold k in Hdm. pose proof (Z.mod_pos_bound x 1000 ltac:(lia)).
  set (e := 52 - Z.log2 k). destruct (Z.leb_spec 0 e).
  - destruct (round_half_even_spec (x * 2 ^ e) 1000 ltac:(lia)) as [_ Hlow].
    assert (0 < 2 ^ e) by (apply Z.pow_pos_nonneg; lia).
    assert (k * 2 ^ e ≤ x * 2 ^ e / 1000) by (apply Z.div_le_lower_bound; [lia|nia]).
    apply Z.div_le_lower_bound; nia.
  - set (u := 2 ^ (- e)). assert (0 < u) by (apply Z.pow_pos_nonneg; lia).
    destruct (round_half_even_spec x (1000 * u) ltac:(lia)) as [_ Hlow].
    pose proof (proj1 (Z.log2_spec k ltac:(lia))) as Hle.
    assert (2 ^ Z.log2 k = 2 ^ 52 * u) as Heq by (unfold u; rewrite <- Z.pow_add_r by lia; f_equal; lia).
    assert (2 ^ 52 ≤ x / (1000 * u)) by (apply Z.div_le_lower_bound; nia).
    assert (2 ^ 43 ≤ 2 ^ Z.log2 k) by (apply Z.pow_le_mono_r; lia). nia.
Qed.

Section time.
Context `{!Calendar}.
(** Chrono's calendar starts before the epoch and ends in the year 262143. *)
Hypothesis epoch_in_range : dt_min ≤ 0.
Hypothesis calendar_end : dt_max < 2 ^ 43 * nanos_per_sec.

(** The split through floating point neither loses nor shifts a millisecond: a time within the
    calendar is scheduled exactly, and any later one makes the operation panic. *)
Theorem schedule_time_exact x :
  0 ≤ x ≤ u64_max →
  schedule_time x = if x * 1000000 <=? dt_max then Ret (x * 1000000) else Panic.
Proof.
  intros Hx. unfold schedule_time, timestamp_opt, nanos_per_sec in *. destruct (Z.lt_ge_cases x (2 ^ 53)) as [Hlt|Hge].
  - assert (u64_as_f64 x = x) as -> by (unfold u64_as_f64; destruct (Z.ltb_spec x (2 ^ 53)); lia).
    rewrite f64_div1000_floor_exact by lia.
    assert (u64_as_i64 x = x) as -> by (unfold u64_as_i64, i64_max; destruct (Z.leb_spec x (2 ^ 63 - 1)); lia).
    pose proof (Z.div_mod x 1000 ltac:(lia)). pose proof (Z.mod_pos_bound x 1000 ltac:(lia)).
    replace (x - x / 1000 * 1000) with (x mod 1000) by lia.
    rewrite (Z.mod_small (x mod 1000) (2 ^ 32)), (Z.mod_small (x mod 1000 * 1000000) (2 ^ 32)) by lia.
    replace (x / 1000 * 1000000000 + x mod 1000 * 1000000) with (x * 1000000) by lia.
    destruct (Z.ltb_spec (x mod 1000 * 1000000) (2 * 1000000000)); [|lia].
    destruct (Z.leb_spec dt_min (x * 1000000)); [|lia]. simpl. by destruct (_ <=? dt_max).
  - pose proof (f64_div1000_floor_large _ (u64_as_f64_large x Hge)) as Hs.
    set (secs := f64_div1000_floor (u64_as_f64 x)) in *.
    set (ns := _ mod 2 ^ 32). assert (0 ≤ ns) by (by apply Z.mod_pos_bound).
    destruct (Z.leb_spec (secs * 1000000000 + ns) dt_max); [lia|]. rewrite andb_false_r. simpl.
    destruct (Z.leb_spec (x * 1000000) dt_max); [lia|done].
Qed.
End time.

(** * Scheduling *)

Section scheduling.
Context `{!Calendar, !Pg, !PgLaws _, !HashOrder Z, !HashOrder (Z * Z * string), !JsonLen}.
Context (guild_id : GuildId) (premium_tier : option PremiumSlotTier).
Implicit Types (db : TimerDb) (env : PgEnv).

(** The tasks of the guild. *)
Definition guild_tasks db : nat := length (select_tasks (of_guild guild_id None) db).

Lemma select_insert_fresh (p : Z * DbScheduledTask → bool) seq m it id r :
  m !! id = None →
  length (select_tasks p (mkTimerDb seq (<[id := r]> m) it)) =
  ((if p (id, r) then 1 else 0) + length (select_tasks p (mkTimerDb seq m it)))%nat.
Proof.
  intros Hid. unfold select_tasks. simpl.
  rewrite (List_filter_perm p _ _ (hiter_perm (<[id := r]> m))), (List_filter_perm p _ _ (hiter_perm m)).
  rewrite (List_filter_perm p _ _ (map_to_list_insert m id r Hid)). simpl. by destruct (p (id, r)).
Qed.

(** A replaced task leaves the number of tasks as it was, a new one adds one. *)
Lemma create_task_count env n k v t db db' task :
  timer_db_ok db → create_task env guild_id n k v t db = (db', Ok task) →
  guild_tasks db' = match (key ← k; find_key (u64_as_i64 guild_id) n key db) with
                    | Some _ => guild_tasks db
                    | None => S (guild_tasks db)
                    end.
Proof.
  intros Hok Hc. apply create_task_spec in Hc as (id & r & -> & -> & -> & Hseq & Hid); [|done].
  assert (of_guild guild_id None (id, mkDbTask (u64_as_i64 guild_id) n k (jsonb v) (timestamptz t)) = true) as Hg
    by (unfold of_guild; simpl; by rewrite Z.eqb_refl).
  unfold guild_tasks. destruct Hid as [[-> Hfree]|(key & r0 & -> & Hf)].
  - rewrite select_insert_fresh.
    + rewrite Hg. destruct k as [key|]; simpl; [|done]. by rewrite (Hfree key eq_refl).
    + apply eq_None_not_Some. intros [r' Hr']. apply (ok_ids db Hok) in Hr'. lia.
  - simpl. rewrite Hf. apply find_key_Some in Hf as (Hr & Hgr & _); [|done].
    rewrite <- insert_delete_eq, select_insert_fresh by apply lookup_delete_eq.
    rewrite Hg.
    assert (of_guild guild_id None (id, r0) = true) as Hg0 by (unfold of_guild; simpl; by rewrite Hgr, Z.eqb_refl).
    pose proof (select_insert_fresh (of_guild guild_id None) (task_seq db) (delete id (scheduled_tasks db)) (interval_timers db)
      id r0 (lookup_delete_eq _ _)) as Hlen.
    rewrite insert_delete_id, Hg0 in Hlen by done. destruct db. done.
Qed.

Notation limit := (tasks_scheduled_count premium_tier).

Lemma get_task_count_spec env db :
  pg_error env = None → get_task_count env guild_id db = (db, Ok (Z.of_nat (guild_tasks db))).
Proof. intros Hpg. unfold get_task_count, exec. by rewrite Hpg. Qed.

(** The successful run of [op_bl_schedule_task]. *)
Lemma schedule_task_ok env1 env2 others opts db db' task evs :
  op_bl_schedule_task guild_id premium_tier env1 env2 others opts db = Ret (db', Ok task, evs) →
  evs = [NewTaskScheduled] ∧ Z.of_nat (guild_tasks db) ≤ limit ∧ json_len (ct_data opts) ≤ tasks_data_size premium_tier ∧
  ∃ t task', schedule_time (ct_execute_at opts) = Ret t ∧ task = op_task_of_task task' ∧
    create_task env2 guild_id (ct_namespace opts) (ct_unique_key opts) (ct_data opts) t (others db) = (db', Ok task').
Proof.
  unfold op_bl_schedule_task. destruct (schedule_time _) as [t|]; [|done]. simpl.
  destruct (Z.ltb_spec (tasks_data_size premium_tier) (json_len (ct_data opts))); [done|].
  destruct (pg_error env1) as [e|] eqn:Hpg; [unfold get_task_count, exec; by rewrite Hpg|].
  rewrite get_task_count_spec by done. destruct (Z.ltb_spec limit (Z.of_nat (guild_tasks db))); [done|].
  destruct (create_task _ _ _ _ _ _ _) as [db1 [task'|]] eqn:Hc; [|done]. intros [= <- <- <-].
  split_and!; [done..|]. eauto.
Qed.

(** A call that fails leaves the tasks alone. *)
Lemma schedule_task_err env1 env2 opts db db' e evs :
  op_bl_schedule_task guild_id premium_tier env1 env2 id opts db = Ret (db', Err e, evs) → db' = db ∧ evs = [].
Proof.
  unfold op_bl_schedule_task, get_task_count, create_task, exec. destruct (schedule_time _) as [t|]; [|done]. simpl.
  destruct (_ <? _); [by intros [= <- _ <-]|]. destruct (pg_error env1); simpl; [by intros [= <- _ <-]|].
  destruct (_ <? _); [by intros [= <- _ <-]|]. destruct (pg_error env2); simpl; [by intros [= <- _ <-]|].
  repeat case_match; intros; by simplify_eq/=.
Qed.

(** Calls that follow one another never take a guild beyond one task more than the limit of its
    plan: a task is accepted only while no more than [limit] are stored. *)
Theorem schedule_task_bounded env1 env2 opts db db' r evs :
  timer_db_ok db →
  op_bl_schedule_task guild_id premium_tier env1 env2 id opts db = Ret (db', r, evs) →
  Z.of_nat (guild_tasks db) ≤ limit + 1 →
  Z.of_nat (guild_tasks db') ≤ limit + 1 ∧ (∀ task, r = Ok task → Z.of_nat (guild_tasks db) ≤ limit).
Proof.
  intros Hok Hop Hle. destruct r as [task|e].
  - apply schedule_task_ok in Hop as (-> & Hlim & _ & t & task' & _ & -> & Hc). split; [|by intros].
    apply create_task_count in Hc; [|done]. rewrite Hc. destruct (_ ≫= _); simpl; lia.
  - apply schedule_task_err in Hop as [-> _]. split; [done|]. by intros.
Qed.

(** The limit itself is not the bound: with exactly [limit] tasks another one is accepted. *)
Theorem schedule_task_at_limit env1 env2 opts db :
  timer_db_ok db → task_seq db < i64_max → pg_error env1 = None → pg_error env2 = None →
  Z.of_nat (guild_tasks db) = limit → ct_unique_key opts = None →
  json_len (ct_data opts) ≤ tasks_data_size premium_tier → (∃ t, schedule_time (ct_execute_at opts) = Ret t) →
  ∃ db' task, op_bl_schedule_task guild_id premium_tier env1 env2 id opts db = Ret (db', Ok task, [NewTaskScheduled]) ∧
    Z.of_nat (guild_tasks db') = limit + 1.
Proof.
  intros Hok Hseq Hpg1 Hpg2 Hn Hkey Hlen [t Ht]. unfold op_bl_schedule_task. rewrite Ht, Hkey. simpl.
  destruct (Z.ltb_spec (tasks_data_size premium_tier) (json_len (ct_data opts))); [lia|].
  rewrite get_task_count_spec by done. destruct (Z.ltb_spec limit (Z.of_nat (guild_tasks db))); [lia|].
  unfold id. destruct (create_task env2 guild_id (ct_namespace opts) None (ct_data opts) t db) as [db' [task|e]] eqn:Hc.
  - do 2 eexists. split; [done|]. apply create_task_count in Hc; [|done]. simpl in Hc. rewrite Hc. lia.
  - unfold create_task, exec in Hc. rewrite Hpg2 in Hc. destruct (Z.leb_spec i64_max (task_seq db)); [lia|].
    done.
Qed.

Hypothesis epoch_in_range : dt_min ≤ 0.
Hypothesis calendar_end : dt_max < 2 ^ 43 * nanos_per_sec.

(** C26: A scheduled task is read back by the script with the namespace, key and time it was given,
    to the millisecond. *)
Theorem schedule_then_get env1 env2 env3 others opts db db' task evs :
  timer_db_ok (others db) → pg_error env3 = None → 0 ≤ ct_execute_at opts ≤ u64_max →
  op_bl_schedule_task guild_id premium_tier env1 env2 others opts db = Ret (db', Ok task, evs) →
  ot_namespace task = ct_namespace opts ∧ ot_key task = ct_unique_key opts ∧
  ot_execute_at task = ct_execute_at opts ∧ ot_data task = jsonb (ct_data opts) ∧
  op_bl_get_task guild_id env3 (ot_id task) db' = (db', Ok (Some task)).
Proof.
  intros Hok Hpg Hx (-> & _ & _ & t & task' & Ht & -> & Hc)%schedule_task_ok.
  rewrite (schedule_time_exact epoch_in_range calendar_end _ Hx) in Ht. destruct (_ <=? dt_max); [|done].
  injection Ht as <-. apply (create_task_roundtrip _ env3) in Hc as (Hn & Hk & Hd & Ht & Hget & _); [|done..].
  split_and!; simpl; [done|done| |done|].
  - rewrite Ht, timestamptz_floor. unfold timestamp_millis_u64.
    replace (ct_execute_at opts * 1000000) with (ct_execute_at opts * 1000 * 1000) by lia.
    rewrite Z.div_mul by lia. replace (ct_execute_at opts * 1000 * 1000) with (ct_execute_at opts * 1000000) by lia.
    rewrite Z.div_mul by lia. apply Z.mod_small. unfold u64_max in Hx. lia.
  - unfold op_bl_get_task. simpl. rewrite Hget. done.
Qed.
End scheduling.

(** * The scheduler's side

    The scheduled task manager of a guild ([ScheduledTasks]) and the store it asks. *)
Section due.
Context `{!Calendar, !Pg, !PgLaws _, !HashOrder Z, !HashOrder (Z * Z * string)}.

(** C27: The manager runs tasks when there are some to run. Take a manager that has fetched the
    time of the next task from the store without an error and has had the same tasks pending and
    the same names since. If it decides to run at [now], and the store still has the tasks it had
    (and perhaps more) when the manager looks at the clock a microsecond later or after that, then
    it gets at least one task, all of them due, and marks exactly these as pending. If it decides
    to wait, no task that was in the store is due at [now]. *)
Theorem run_finds_due_task env env' g (m : Tasks) next now db :
  pg_error env = None → pg_error env' = None →
  TimerStore.get_next_task_time env g (k_pending m) (task_names m) db = (db, Ok next) → next_task_time m = Some next →
  (tasks_next_action now m = TRun → ∀ db' t, scheduled_tasks db ⊆ scheduled_tasks db' → now + 1000 ≤ t →
     ∃ due m' tr, TimerStore.get_triggered_tasks env' g t (k_pending m) (task_names m) db' = (db', Ok due) ∧
       due ≠ [] ∧ Forall (λ task, st_execute_at task < t) due ∧
       start_triggered_tasks m [RNow t; RTriggeredTasks (Some due)] = Done (m', due) [] tr ∧
       k_pending m' = k_pending m ++ (st_id <$> due) ∧ next_task_time m' = None) ∧
  (tasks_next_action now m ≠ TRun →
     TimerStore.get_triggered_tasks env' g now (k_pending m) (task_names m) db = (db, Ok [])).
Proof.
  intros Hpg Hpg' Hnext Hm. pose proof (next_task_time_least env g (k_pending m) (task_names m) db Hpg) as (next' & Hn & Hleast).
  rewrite Hnext in Hn. injection Hn as <-. unfold tasks_next_action. rewrite Hm.
  assert (∀ t, timestamptz t ≤ t < timestamptz t + 1000) as Hts.
  { intros t. rewrite timestamptz_floor. pose proof (Z.div_mod t 1000 ltac:(lia)). pose proof (Z.mod_pos_bound t 1000 ltac:(lia)). lia. }
  split.
  - destruct next as [x|]; [|done]. case_bool_decide as Hx; [intros _|done]. intros db' t Hsub Ht. specialize (Hts t).
    destruct (next_time_iff_triggered env env' g t (k_pending m) (task_names m) db' Hpg Hpg') as (next' & due & Hn' & Hdue & Hiff & Hall).
    assert (due ≠ []) as Hne.
    { apply Hiff. destruct Hleast as [(id & r & [Hin Hp]%elem_of_select_tasks & <-) _].
      destruct (next_task_time_least env g (k_pending m) (task_names m) db' Hpg) as (y & Hy & Hl). rewrite Hn' in Hy. injection Hy as <-.
      assert ((id, r) ∈ select_tasks (pending_row g (k_pending m) (task_names m)) db') as Hin'.
      { apply elem_of_select_tasks. split; [by eapply lookup_weaken|done]. }
      destruct next' as [y|]; [|by rewrite Hl in Hin'; apply elem_of_nil in Hin']. exists y. split; [done|]. apply Hl in Hin'. lia. }
    eexists due, _, _. split_and!; [done|done| |reflexivity|done|done].
    apply Forall_forall. intros task Htask. destruct (Hall task Htask) as [? _]. lia.
  - intros Hact. destruct (next_time_iff_triggered env env' g now (k_pending m) (task_names m) db Hpg Hpg') as (next' & due & Hn' & Hdue & Hiff & _).
    rewrite Hnext in Hn'. injection Hn' as <-. rewrite Hdue. destruct due as [|task due]; [done|].
    destruct (proj1 Hiff) as (x & -> & Hx); [done|]. specialize (Hts now). rewrite bool_decide_true in Hact by lia. done.
Qed.
End due.

Section panic.
Context `{!Calendar, !Pg, !HashOrder Z, !HashOrder (Z * Z * string), !JsonLen}.
Hypothesis epoch_in_range : dt_min ≤ 0.
Hypothesis calendar_end : dt_max < 2 ^ 43 * nanos_per_sec.

(** A script that asks for a time past the end of the calendar does not get an error: the
    operation panics, before any limit is checked. *)
Theorem schedule_far_future_panics g tier env1 env2 others opts db :
  0 ≤ ct_execute_at opts ≤ u64_max → dt_max < ct_execute_at opts * 1000000 →
  op_bl_schedule_task g tier env1 env2 others opts db = Panic.
Proof.
  intros Hx Hfar. unfold op_bl_schedule_task. rewrite (schedule_time_exact epoch_in_range calendar_end _ Hx).
  destruct (Z.leb_spec (ct_execute_at opts * 1000000) dt_max); [lia|done].
Qed.
End panic.

(** * Examples *)

#[local] Existing Instance ex_bucket_calendar.
#[local] Existing Instance ex_pg.
#[local] Existing Instance ex_pg_laws.
#[local] Existing Instance ex_json_len.
#[local] Existing Instance list_order.

Lemma ex_epoch : dt_min (Calendar := ex_bucket_calendar) ≤ 0.
Proof. vm_compute. discriminate. Qed.
Lemma ex_calendar_end : dt_max (Calendar := ex_bucket_calendar) < 2 ^ 43 * nanos_per_sec.
Proof. vm_compute. reflexivity. Qed.

Definition ex_opts (x : Z) : CreateScheduledTask := mkCreateTask "remind" (Some "k") (JBool true) x.
Definition ex_db0 : TimerDb := mkTimerDb 0 ∅ ∅.

Lemma ex_db0_ok : timer_db_ok ex_db0.
Proof. apply timer_db_reachable_ok. constructor. Qed.

Lemma schedule_then_get_witness :
  match op_bl_schedule_task 1 None (ex_env 5) (ex_env 6) id (ex_opts 1700000000123) ex_db0 with
  | Ret (db', Ok task, _) =>
      ot_execute_at task = 1700000000123 ∧ op_bl_get_task 1 (ex_env 7) (ot_id task) db' = (db', Ok (Some task))
  | _ => False
  end.
Proof.
  destruct (op_bl_schedule_task 1 None (ex_env 5) (ex_env 6) id (ex_opts 1700000000123) ex_db0)
    as [[[db' [task|e]] evs]|] eqn:E; [|vm_compute in E; discriminate..].
  destruct (schedule_then_get 1 None ex_epoch ex_calendar_end (ex_env 5) (ex_env 6) (ex_env 7) id
    (ex_opts 1700000000123) ex_db0 db' task evs ex_db0_ok eq_refl ltac:(vm_compute; split; discriminate) E)
    as (_ & _ & Hx & _ & Hget).
  exact (conj Hx Hget).
Defined.

Lemma schedule_task_bounded_witness :
  match op_bl_schedule_task 1 None (ex_env 5) (ex_env 6) id (ex_opts 1700000000123) ex_db0 with
  | Ret (db', _, _) => Z.of_nat (guild_tasks 1 db') ≤ tasks_scheduled_count None + 1
  | Panic => False
  end.
Proof.
  destruct (op_bl_schedule_task 1 None (ex_env 5) (ex_env 6) id (ex_opts 1700000000123) ex_db0)
    as [[[db' r] evs]|] eqn:E; [|vm_compute in E; discriminate].
  apply (schedule_task_bounded 1 None (ex_env 5) (ex_env 6) (ex_opts 1700000000123) ex_db0 db' r evs ex_db0_ok E).
  vm_compute. discriminate.
Defined.

Lemma schedule_far_future_panics_witness :
  op_bl_schedule_task 1 None (ex_env 5) (ex_env 6) id (ex_opts (10 ^ 17)) ex_db0 = Panic.
Proof.
  apply (schedule_far_future_panics ex_epoch ex_calendar_end); [vm_compute; split; discriminate|vm_compute; reflexivity].
Defined.

Definition ex_db1 : TimerDb := timer_step (ex_env 5) (TCreate 1 "remind" None (JBool true) 7000) ex_db0.

(** Another task has been scheduled in the meantime. *)
Definition ex_db2 : TimerDb := timer_step (ex_env 6) (TCreate 1 "later" None (JBool true) 700000) ex_db1.

Lemma run_finds_due_task_witness :
  (∃ due m' tr, TimerStore.get_triggered_tasks (ex_env 9) 1 9000 [] ["remind"] ex_db2 = (ex_db2, Ok due) ∧ due ≠ [] ∧
     start_triggered_tasks (mkTasks (Some (Some 7000)) [] ["remind"]) [RNow 9000; RTriggeredTasks (Some due)] = Done (m', due) [] tr ∧
     k_pending m' = st_id <$> due) ∧
  TimerStore.get_triggered_tasks (ex_env 9) 1 6000 [] ["remind"] ex_db1 = (ex_db1, Ok []).
Proof.
  assert (TimerStore.get_next_task_time (ex_env 8) 1 [] ["remind"] ex_db1 = (ex_db1, Ok (Some 7000))) as Hn by (vm_compute; reflexivity).
  split.
  - destruct (run_finds_due_task (ex_env 8) (ex_env 9) 1 (mkTasks (Some (Some 7000)) [] ["remind"]) (Some 7000) 8000 ex_db1
      eq_refl eq_refl Hn eq_refl) as [H _].
    destruct (H eq_refl ex_db2 9000) as (due & m' & tr & H1 & H2 & _ & H3 & H4 & _).
    + apply insert_subseteq. vm_compute. reflexivity.
    + discriminate.
    + exists due, m', tr. exact (conj H1 (conj H2 (conj H3 H4))).
  - apply (proj2 (run_finds_due_task (ex_env 8) (ex_env 9) 1 (mkTasks (Some (Some 7000)) [] ["remind"]) (Some 7000) 6000 ex_db1
      eq_refl eq_refl Hn eq_refl)). vm_compute. discriminate.
Defined.
