(* ===== verification/ConfigStore.v ===== *)
(** The configuration store ([components/stores/src/config.rs], [postgres/config.rs]): scripts,
    plugins, guild settings, joined guilds, premium slots and user flags.

    [ConfigDb] holds the tables with the constraints the migrations declare: primary keys, the
    sequences of the [bigserial] columns, the unique index of [guild_scripts] over
    (guild_id, plugin_id, name), in which NULL is never equal to NULL, its reference to
    [plugins], and the unique index of [premium_slots] over (source, source_id). *)
From stdpp Require Import base gmap list strings sorting.
From S2P Require Import Prelude Models WorkerPool Commands World Postgres BucketStore.

(** * components/common/src/plugin.rs, user.rs *)

Record ScriptPluginData := mkScriptPluginData {
  spd_published_version : option string;
  spd_published_version_updated_at : option Z;
  spd_dev_version : option string;
  spd_dev_version_updated_at : option Z;
}.

Inductive PluginType := PtScript.
Inductive PluginData := PdScript (d : ScriptPluginData).

Definition plugin_data_kind (d : PluginData) : PluginType := match d with PdScript _ => PtScript end.

Record Plugin := mkPlugin {
  p_id : Z;
  p_created_at : Z;
  p_author_id : Z;
  p_name : string;
  p_short_description : string;
  p_long_description : string;
  p_is_public : bool;
  p_is_official : bool;
  p_data : PluginData;
}.

Record UserMeta := mkUserMeta {
  um_is_moderator : bool;
  um_is_admin : bool;
  um_is_verified : bool;
}.

Definition user_meta_default : UserMeta := mkUserMeta false false false.

(** * components/stores/src/config.rs *)

Inductive ConfigStoreError :=
| ScriptNotFound
| LinkNotFound
| GuildScriptLimitReached (count limit : Z)
| CsOther (e : SqlxError)
| PluginNotFound (id : Z)
| GuildAlreadyHasPlugin.
#[global] Instance ConfigStoreError_eq_dec : EqDecision ConfigStoreError.
Proof. solve_decision. Defined.

Record UpdateScript := mkUpdateScript {
  us_id : Z;
  us_name : option string;
  us_original_source : option string;
  us_enabled : option bool;
  us_contributes : option ScriptContributes;
}.

Record CreateScript := mkCreateScript {
  cs_name : string;
  cs_original_source : string;
  cs_enabled : bool;
  cs_plugin_id : option Z;
  cs_plugin_auto_update : option bool;
}.

Record GuildMetaConfig := mkGuildMeta {
  gm_guild_id : Z;
  gm_error_channel_id : option Z;
}.

Definition guild_default (guild_id : GuildId) : GuildMetaConfig := mkGuildMeta guild_id None.

Record JoinedGuild := mkJoinedGuild {
  jg_id : Z;
  jg_name : string;
  jg_icon : string;
  jg_owner_id : Z;
  jg_left_at : option Z;
}.

Record CreateUpdatePremiumSlotBySource := mkCreateSlot {
  cu_title : string;
  cu_user_id : option Z;
  cu_message : string;
  cu_source : string;
  cu_source_id : string;
  cu_tier : PremiumSlotTier;
  cu_state : PremiumSlotState;
  cu_expires_at : Z;
  cu_manage_url : string;
}.

Record CreatePlugin := mkCreatePlugin {
  cp_name : string;
  cp_short_description : string;
  cp_long_description : string;
  cp_is_official : bool;
  cp_is_public : bool;
  cp_author_id : Z;
  cp_kind : PluginType;
}.

Record UpdatePluginMeta := mkUpdatePlugin {
  up_name : option string;
  up_short_description : option string;
  up_long_description : option string;
  up_is_official : option bool;
  up_author_id : option Z;
  up_is_public : option bool;
  up_is_published : option bool;
}.

(** * The tables *)

Record DbScript := mkDbScript {
  ds_guild_id : Z;
  ds_original_source : string;
  ds_name : string;
  ds_enabled : bool;
  ds_contributes_commands : JsonValue;
  ds_contributes_interval_timers : JsonValue;
  ds_plugin_id : option Z;
  ds_plugin_auto_update : option bool;
}.

Record DbJoinedGuild := mkDbGuild {
  dg_name : string;
  dg_icon : string;
  dg_owner_id : Z;
  dg_left_at : option Z;
}.

Record DbPremiumSlot := mkDbSlot {
  dp_title : string;
  dp_user_id : option Z;
  dp_message : string;
  dp_source : string;
  dp_source_id : string;
  dp_tier : Z;
  dp_state : Z;
  dp_created_at : Z;
  dp_updated_at : Z;
  dp_expires_at : Z;
  dp_manage_url : string;
  dp_attached_guild_id : option Z;
}.

Record DbPlugin := mkDbPlugin {
  pl_created_at : Z;
  pl_name : string;
  pl_short_description : string;
  pl_long_description : string;
  pl_is_published : bool;
  pl_is_official : bool;
  pl_plugin_kind : Z;
  pl_current_version_number : Z;
  pl_published_source : option string;
  pl_published_version_updated_at : option Z;
  pl_dev_source : option string;
  pl_dev_version_updated_at : option Z;
  pl_author_id : Z;
  pl_is_public : bool;
}.

Record ConfigDb := mkConfigDb {
  script_seq : Z;
  guild_scripts : gmap Z DbScript;
  guild_meta_configs : gmap Z Z;
  joined_guilds : gmap Z DbJoinedGuild;
  guild_whitelist : gset Z;
  slot_seq : Z;
  premium_slots : gmap Z DbPremiumSlot;
  plugin_seq : Z;
  plugins : gmap Z DbPlugin;
  user_meta : gmap Z UserMeta;
}.

Definition set_scripts (seq : Z) (m : gmap Z DbScript) (db : ConfigDb) : ConfigDb :=
  mkConfigDb seq m (guild_meta_configs db) (joined_guilds db) (guild_whitelist db) (slot_seq db) (premium_slots db)
    (plugin_seq db) (plugins db) (user_meta db).
Definition set_meta (m : gmap Z Z) (db : ConfigDb) : ConfigDb :=
  mkConfigDb (script_seq db) (guild_scripts db) m (joined_guilds db) (guild_whitelist db) (slot_seq db) (premium_slots db)
    (plugin_seq db) (plugins db) (user_meta db).
Definition set_guilds (m : gmap Z DbJoinedGuild) (db : ConfigDb) : ConfigDb :=
  mkConfigDb (script_seq db) (guild_scripts db) (guild_meta_configs db) m (guild_whitelist db) (slot_seq db) (premium_slots db)
    (plugin_seq db) (plugins db) (user_meta db).
Definition set_slots (seq : Z) (m : gmap Z DbPremiumSlot) (db : ConfigDb) : ConfigDb :=
  mkConfigDb (script_seq db) (guild_scripts db) (guild_meta_configs db) (joined_guilds db) (guild_whitelist db) seq m
    (plugin_seq db) (plugins db) (user_meta db).
Definition set_plugins (seq : Z) (m : gmap Z DbPlugin) (db : ConfigDb) : ConfigDb :=
  mkConfigDb (script_seq db) (guild_scripts db) (guild_meta_configs db) (joined_guilds db) (guild_whitelist db) (slot_seq db)
    (premium_slots db) seq m (user_meta db).

(** * Rows to values *)

(** [v as u64] for an [i64] *)
Definition i64_as_u64 (v : Z) : Z := v mod 2 ^ 64.

(** [Id::new] panics on zero. *)
Definition id_new (v : Z) : outcome Z := if v =? 0 then Panic else Ret v.

Definition opt_outcome {A B} (f : A → outcome B) (o : option A) : outcome (option B) :=
  match o with
  | None => Ret None
  | Some a => do! b := f a in Ret (Some b)
  end.

(** The JSON of a script's contributions; the encoding of a command and of a timer is derived. *)
Class ContribCodec := {
  enc_commands : list TwCommand → JsonValue;
  dec_commands : JsonValue → option (list TwCommand);
  enc_interval_timers : list IntervalTimerContrib → JsonValue;
  dec_interval_timers : JsonValue → option (list IntervalTimerContrib);
}.

(** [serde_json::to_value] of the derived [Serialize] of [ScriptContributes]: an object. *)
Definition enc_contributes `{ContribCodec} (c : ScriptContributes) : JsonValue :=
  JObject [("commands", enc_commands (contrib_commands c)); ("interval_timers", enc_interval_timers (contrib_interval_timers c))].

(** What a column gives back decodes to what was encoded. *)
Definition codec_faithful `{Pg, ContribCodec} (c : ScriptContributes) : Prop :=
  dec_commands (jsonb (enc_commands (contrib_commands c))) = Some (contrib_commands c) ∧
  dec_interval_timers (jsonb (enc_interval_timers (contrib_interval_timers c))) = Some (contrib_interval_timers c).

(** A sequence is never decoded from an object; the default of the columns is the empty array. *)
Class ContribLaws (P : Pg) (C : ContribCodec) : Prop := {
  dec_commands_object : ∀ o, ∃ o', jsonb (JObject o) = JObject o' ∧ dec_commands (JObject o') = None;
  dec_commands_empty : dec_commands (JArray []) = Some [];
  dec_timers_empty : dec_interval_timers (JArray []) = Some [];
}.

Section conversions.
Context `{!ContribCodec}.

(** [impl From<DbScript> for Script] *)
Definition script_of_db (id : Z) (s : DbScript) : Script :=
  mkScript (i64_as_u64 id) (ds_name s) (ds_original_source s) (ds_enabled s)
    (mkContributes (default [] (dec_commands (ds_contributes_commands s)))
                   (default [] (dec_interval_timers (ds_contributes_interval_timers s))))
    (i64_as_u64 <$> ds_plugin_id s) (ds_plugin_auto_update s).
End conversions.

(** [impl From<DbGuildMetaConfig> for GuildMetaConfig] *)
Definition meta_of_db (guild_id error_channel_id : Z) : outcome GuildMetaConfig :=
  do! g := id_new (i64_as_u64 guild_id) in
  if error_channel_id =? 0 then Ret (mkGuildMeta g None)
  else do! c := id_new (i64_as_u64 error_channel_id) in Ret (mkGuildMeta g (Some c)).

(** [impl From<DbJoinedGuild> for JoinedGuild] *)
Definition guild_of_db (id : Z) (g : DbJoinedGuild) : outcome JoinedGuild :=
  do! gid := id_new (i64_as_u64 id) in
  do! owner := id_new (i64_as_u64 (dg_owner_id g)) in
  Ret (mkJoinedGuild gid (dg_name g) (dg_icon g) owner (dg_left_at g)).

Definition tier_to_int (tier : PremiumSlotTier) : Z := match tier with Lite => 1 | Premium => 2 end.

Definition state_to_int (state : PremiumSlotState) : Z :=
  match state with
  | Active => 1
  | Cancelling => 2
  | Cancelled => 3
  | PaymentFailed => 4
  end.

Definition tier_of_int (n : Z) : outcome PremiumSlotTier :=
  if n =? 1 then Ret Lite else if n =? 2 then Ret Premium else Panic.

Definition state_of_int (n : Z) : outcome PremiumSlotState :=
  if n =? 1 then Ret Active else if n =? 2 then Ret Cancelling else if n =? 3 then Ret Cancelled
  else if n =? 4 then Ret PaymentFailed else Panic.

(** [impl From<DbPremiumSlot> for PremiumSlot] *)
Definition slot_of_db (id : Z) (v : DbPremiumSlot) : outcome PremiumSlot :=
  do! user_id := opt_outcome (λ uid, id_new (i64_as_u64 uid)) (dp_user_id v) in
  do! tier := tier_of_int (dp_tier v) in
  do! state := state_of_int (dp_state v) in
  do! attached := opt_outcome (λ gid, id_new (i64_as_u64 gid)) (dp_attached_guild_id v) in
  Ret (mkPremiumSlot (i64_as_u64 id) (dp_title v) user_id (dp_message v) (dp_source v) (dp_source_id v) tier state
         (dp_created_at v) (dp_updated_at v) (dp_expires_at v) (dp_manage_url v) attached).

(** [impl From<DbPlugin> for Plugin] *)
Definition plugin_of_db (id : Z) (v : DbPlugin) : outcome Plugin :=
  do! author := id_new (i64_as_u64 (pl_author_id v)) in
  if pl_plugin_kind v =? 0 then
    Ret (mkPlugin (i64_as_u64 id) (pl_created_at v) author (pl_name v) (pl_short_description v) (pl_long_description v)
           (pl_is_public v) (pl_is_official v)
           (PdScript (mkScriptPluginData (pl_published_source v) (pl_published_version_updated_at v)
                        (pl_dev_source v) (pl_dev_version_updated_at v))))
  else Panic.

(** [kind as i16] *)
Definition plugin_kind_int (k : PluginType) : Z := match k with PtScript => 0 end.

Definition config_error {A} (r : result SqlxError A) : result ConfigStoreError A :=
  match r with
  | Ok a => Ok a
  | Err e => Err (CsOther e)
  end.

(** The rows a SELECT converts, or its error. *)
Definition convert_rows {T A B} (f : A → outcome B) (r : T * result SqlxError (list A))
    : outcome (T * result ConfigStoreError (list B)) :=
  match r.2 with
  | Ok l => do! l := map_outcome f l in Ret (r.1, Ok l)
  | Err e => Ret (r.1, Err (CsOther e))
  end.

Definition convert_row {T A B} (f : A → outcome B) (r : T * result SqlxError A)
    : outcome (T * result ConfigStoreError B) :=
  match r.2 with
  | Ok a => do! b := f a in Ret (r.1, Ok b)
  | Err e => Ret (r.1, Err (CsOther e))
  end.

(** * Operations *)

Definition GUILD_SCRIPT_COUNT_LIMIT : Z := 100.

Section operations.
Context `{!Pg, !ContribCodec, !HashOrder Z}.
Implicit Types (db : ConfigDb) (env : PgEnv).

Definition select_rows {R} (p : Z * R → bool) (m : gmap Z R) : list (Z * R) := List.filter p (hiter m).

(** [fetch_one] over the selected rows *)
Definition first_row {T R} (t : T) (l : list R) : result SqlxError (T * R) :=
  match l with
  | r :: _ => Ok (t, r)
  | [] => Err RowNotFound
  end.

(** ** Scripts *)

Definition script_named (guild_id : GuildId) (name : string) (ir : Z * DbScript) : bool :=
  (ds_guild_id ir.2 =? u64_as_i64 guild_id) && bool_decide (ds_name ir.2 = name).

Definition get_db_script_by_name env (guild_id : GuildId) (script_name : string) db
    : ConfigDb * result ConfigStoreError (Z * DbScript) :=
  let (db, r) := exec env (λ db, first_row db (select_rows (script_named guild_id script_name) (guild_scripts db))) db in
  (db, match r with
       | Ok s => Ok s
       | Err RowNotFound => Err ScriptNotFound
       | Err e => Err (CsOther e)
       end).

Definition script_with_id (guild_id : GuildId) (id : Z) (ir : Z * DbScript) : bool :=
  (ds_guild_id ir.2 =? u64_as_i64 guild_id) && (ir.1 =? id).

Definition get_db_script_by_id env (guild_id : GuildId) (id : Z) db : ConfigDb * result ConfigStoreError (Z * DbScript) :=
  let (db, r) := exec env (λ db, first_row db (select_rows (script_with_id guild_id id) (guild_scripts db))) db in
  (db, config_error r).

Definition script_of_guild (guild_id : GuildId) (ir : Z * DbScript) : bool := ds_guild_id ir.2 =? u64_as_i64 guild_id.

Definition get_guild_script_count env (guild_id : GuildId) db : ConfigDb * result ConfigStoreError Z :=
  let (db, r) := exec env (λ db, Ok (db, Z.of_nat (length (select_rows (script_of_guild guild_id) (guild_scripts db))))) db in
  (db, config_error r).

Definition get_guild_scripts env (guild_id : GuildId) db : ConfigDb * result ConfigStoreError (list Script) :=
  let (db, r) := exec env (λ db, Ok (db,
    (λ ir : Z * DbScript, script_of_db ir.1 ir.2) <$> select_rows (script_of_guild guild_id) (guild_scripts db))) db in
  (db, config_error r).

(** What the INSERT checks: the sequence, the unique index, in which a NULL plugin never
    conflicts, and the reference to [plugins]. *)
Definition insert_script (r : DbScript) : stmt ConfigDb (Z * DbScript) := λ db,
  if i64_max <=? script_seq db then Err (SqlxOther "nextval: reached maximum value of sequence")
  else
    let id := script_seq db + 1 in
    let db' := set_scripts id (<[id := r]> (guild_scripts db)) db in
    match ds_plugin_id r with
    | None => Ok (db', (id, r))
    | Some p =>
        if existsb (λ ir : Z * DbScript, (ds_guild_id ir.2 =? ds_guild_id r) && bool_decide (ds_plugin_id ir.2 = Some p) &&
                                         bool_decide (ds_name ir.2 = ds_name r)) (hiter (guild_scripts db))
        then Err (UniqueViolation "guild_scripts_guild_id_name_key")
        else if bool_decide (is_Some (plugins db !! p)) then Ok (db', (id, r))
        else Err (ForeignKeyViolation "guild_scripts_plugin_id_fkey")
    end.

(** The count and the insertion are two statements; [others] is what other clients do between. *)
Definition inner_create_script (env1 env2 : PgEnv) (others : ConfigDb → ConfigDb) (guild_id : GuildId) (script : CreateScript) db
    : ConfigDb * result ConfigStoreError Script :=
  let (db, count) := get_guild_script_count env1 guild_id db in
  match count with
  | Err e => (db, Err e)
  | Ok count =>
      if GUILD_SCRIPT_COUNT_LIMIT <? count then (db, Err (GuildScriptLimitReached count GUILD_SCRIPT_COUNT_LIMIT))
      else
        let row := mkDbScript (u64_as_i64 guild_id) (cs_original_source script) (cs_name script) (cs_enabled script)
                     (JArray []) (JArray []) (u64_as_i64 <$> cs_plugin_id script) (cs_plugin_auto_update script) in
        let (db, r) := exec env2 (insert_script row) (others db) in
        (db, result_map (λ ir : Z * DbScript, script_of_db ir.1 ir.2) (config_error r))
  end.

Definition get_script env (guild_id : GuildId) (script_name : string) db : ConfigDb * result ConfigStoreError Script :=
  let (db, r) := get_db_script_by_name env guild_id script_name db in
  (db, result_map (λ ir : Z * DbScript, script_of_db ir.1 ir.2) r).

Definition get_script_by_id env (guild_id : GuildId) (script_id : Z) db : ConfigDb * result ConfigStoreError Script :=
  let (db, r) := get_db_script_by_id env guild_id (u64_as_i64 script_id) db in
  (db, result_map (λ ir : Z * DbScript, script_of_db ir.1 ir.2) r).

Definition create_script := inner_create_script.

(** An UPDATE of the script with an id, RETURNING its row. *)
Definition update_script_row (guild_id : GuildId) (id : Z) (f : DbScript → DbScript) : stmt ConfigDb (Z * DbScript) := λ db,
  match guild_scripts db !! id with
  | Some r =>
      if ds_guild_id r =? u64_as_i64 guild_id
      then Ok (set_scripts (script_seq db) (<[id := f r]> (guild_scripts db)) db, (id, f r))
      else Err RowNotFound
  | None => Err RowNotFound
  end.

Definition update_script env (guild_id : GuildId) (script : UpdateScript) db : ConfigDb * result ConfigStoreError Script :=
  let commands_enc := enc_contributes <$> us_contributes script in
  let (db, r) := exec env (update_script_row guild_id (u64_as_i64 (us_id script)) (λ r,
    mkDbScript (ds_guild_id r) (default (ds_original_source r) (us_original_source script)) (ds_name r)
      (default (ds_enabled r) (us_enabled script)) (default (ds_contributes_commands r) (jsonb <$> commands_enc))
      (ds_contributes_interval_timers r) (ds_plugin_id r) (ds_plugin_auto_update r))) db in
  (db, result_map (λ ir : Z * DbScript, script_of_db ir.1 ir.2) (config_error r)).

Definition update_script_contributes env (guild_id : GuildId) (script_id : Z) (contribs : ScriptContributes) db
    : ConfigDb * result ConfigStoreError Script :=
  let commands_enc := enc_commands (contrib_commands contribs) in
  let intervals_enc := enc_interval_timers (contrib_interval_timers contribs) in
  let (db, r) := exec env (update_script_row guild_id (u64_as_i64 script_id) (λ r,
    mkDbScript (ds_guild_id r) (ds_original_source r) (ds_name r) (ds_enabled r) (jsonb commands_enc)
      (jsonb intervals_enc) (ds_plugin_id r) (ds_plugin_auto_update r))) db in
  (db, result_map (λ ir : Z * DbScript, script_of_db ir.1 ir.2) (config_error r)).

Definition del_script env (guild_id : GuildId) (script_name : string) db : ConfigDb * result ConfigStoreError unit :=
  let p := script_named guild_id script_name in
  let (db, r) := exec env (λ db,
    Ok (set_scripts (script_seq db) (filter (λ ir, p ir = false) (guild_scripts db)) db,
        Z.of_nat (length (select_rows p (guild_scripts db))))) db in
  (db, match r with
       | Ok rows => if 0 <? rows then Ok tt else Err ScriptNotFound
       | Err e => Err (CsOther e)
       end).

Definition list_scripts := get_guild_scripts.

(** ** Guild settings *)

Definition get_guild_meta_config env (guild_id : GuildId) db : outcome (ConfigDb * result ConfigStoreError (option GuildMetaConfig)) :=
  let g := u64_as_i64 guild_id in
  let (db, r) := exec env (λ db,
    match guild_meta_configs db !! g with Some c => Ok (db, c) | None => Err RowNotFound end) db in
  match r with
  | Ok c => do! conf := meta_of_db g c in Ret (db, Ok (Some conf))
  | Err RowNotFound => Ret (db, Ok None)
  | Err e => Ret (db, Err (CsOther e))
  end.

Definition get_guild_meta_config_or_default env (guild_id : GuildId) db : outcome (ConfigDb * result ConfigStoreError GuildMetaConfig) :=
  do! (db, r) := get_guild_meta_config env guild_id db in
  Ret (db, match r with
           | Ok (Some conf) => Ok conf
           | Ok None => Ok (guild_default guild_id)
           | Err e => Err e
           end).

Definition update_guild_meta_config env (conf : GuildMetaConfig) db : outcome (ConfigDb * result ConfigStoreError GuildMetaConfig) :=
  let g := u64_as_i64 (gm_guild_id conf) in
  let c := default 0 (u64_as_i64 <$> gm_error_channel_id conf) in
  convert_row (λ c, meta_of_db g c)
    (exec env (λ db, Ok (set_meta (<[g := c]> (guild_meta_configs db)) db, c)) db).

(** ** Joined guilds *)

Definition add_update_joined_guild env (guild : JoinedGuild) db : outcome (ConfigDb * result ConfigStoreError JoinedGuild) :=
  let g := u64_as_i64 (jg_id guild) in
  let r := mkDbGuild (jg_name guild) (jg_icon guild) (u64_as_i64 (jg_owner_id guild)) None in
  convert_row (guild_of_db g) (exec env (λ db, Ok (set_guilds (<[g := r]> (joined_guilds db)) db, r)) db).

Definition set_guild_left_status env (guild_id : GuildId) (left : bool) db : outcome (ConfigDb * result ConfigStoreError JoinedGuild) :=
  let g := u64_as_i64 guild_id in
  convert_row (guild_of_db g) (exec env (λ db,
    match joined_guilds db !! g with
    | None => Err RowNotFound
    | Some r =>
        let left_at := match dg_left_at r, left with
                       | None, true => Some (pg_now env)
                       | _, false => None
                       | old, true => old
                       end in
        let r' := mkDbGuild (dg_name r) (dg_icon r) (dg_owner_id r) left_at in
        Ok (set_guilds (<[g := r']> (joined_guilds db)) db, r')
    end) db).

Definition select_guilds env (p : Z * DbJoinedGuild → bool) db : outcome (ConfigDb * result ConfigStoreError (list JoinedGuild)) :=
  convert_rows (λ ir : Z * DbJoinedGuild, guild_of_db ir.1 ir.2)
    (exec env (λ db, Ok (db, select_rows p (joined_guilds db))) db).

Definition still_joined (ir : Z * DbJoinedGuild) : bool := match dg_left_at ir.2 with None => true | Some _ => false end.

Definition get_joined_guilds env (ids : list GuildId) db :=
  select_guilds env (λ ir, bool_decide (ir.1 ∈ u64_as_i64 <$> ids) && still_joined ir) db.

Definition get_joined_guilds_not_in env (ids : list GuildId) db :=
  select_guilds env (λ ir, negb (bool_decide (ir.1 ∈ u64_as_i64 <$> ids)) && still_joined ir) db.

(** [threshold_hours as i64 * 1000 * 1000 * 60 * 60] microseconds, with overflow checks; the
    table's instants are nanoseconds here. *)
Definition threshold_micros (threshold_hours : Z) : outcome Z :=
  let us := u64_as_i64 threshold_hours * 3600000000 in
  if (i64_min <=? us) && (us <=? i64_max) then Ret us else Panic.

Definition get_left_guilds env (threshold_hours : Z) db : outcome (ConfigDb * result ConfigStoreError (list JoinedGuild)) :=
  do! us := threshold_micros threshold_hours in
  select_guilds env (λ ir, match dg_left_at ir.2 with Some l => l <? pg_now env - us * 1000 | None => false end) db.

Definition is_guild_whitelisted env (guild_id : GuildId) db : ConfigDb * result ConfigStoreError bool :=
  let (db, r) := exec env (λ db, Ok (db, bool_decide (u64_as_i64 guild_id ∈ guild_whitelist db))) db in
  (db, config_error r).

Definition delete_guild_config_data env (id : GuildId) db : ConfigDb * result ConfigStoreError unit :=
  let (db, r) := exec env (λ db, Ok (set_guilds (delete (u64_as_i64 id) (joined_guilds db)) db, tt)) db in
  (db, config_error r).

(** ** Premium slots *)

Definition select_slots env (p : Z * DbPremiumSlot → bool) db : outcome (ConfigDb * result ConfigStoreError (list PremiumSlot)) :=
  convert_rows (λ ir : Z * DbPremiumSlot, slot_of_db ir.1 ir.2)
    (exec env (λ db, Ok (db, select_rows p (premium_slots db))) db).

Definition get_guild_premium_slots env (guild_id : GuildId) db :=
  select_slots env (λ ir, bool_decide (dp_attached_guild_id ir.2 = Some (u64_as_i64 guild_id))) db.

Definition get_user_premium_slots env (user_id : Z) db :=
  select_slots env (λ ir, bool_decide (dp_user_id ir.2 = Some (u64_as_i64 user_id))) db.

Definition find_slot_by_source (source source_id : string) db : option (Z * DbPremiumSlot) :=
  find_first (λ ir : Z * DbPremiumSlot, bool_decide (dp_source ir.2 = source) && bool_decide (dp_source_id ir.2 = source_id))
    (hiter (premium_slots db)).

(** The id is drawn before the conflict is found. *)
Definition upsert_slot (now : Z) (slot : CreateUpdatePremiumSlotBySource) : stmt ConfigDb (Z * DbPremiumSlot) := λ db,
  if i64_max <=? slot_seq db then Err (SqlxOther "nextval: reached maximum value of sequence")
  else
    let row created attached :=
      mkDbSlot (cu_title slot) (u64_as_i64 <$> cu_user_id slot) (cu_message slot) (cu_source slot) (cu_source_id slot)
        (tier_to_int (cu_tier slot)) (state_to_int (cu_state slot)) created now (timestamptz (cu_expires_at slot))
        (cu_manage_url slot) attached in
    let write id r := Ok (set_slots (slot_seq db + 1) (<[id := r]> (premium_slots db)) db, (id, r)) in
    match find_slot_by_source (cu_source slot) (cu_source_id slot) db with
    | None => write (slot_seq db + 1) (row now None)
    | Some (id, r) => write id (row (dp_created_at r) (dp_attached_guild_id r))
    end.

Definition create_update_premium_slot_by_source env (slot : CreateUpdatePremiumSlotBySource) db
    : outcome (ConfigDb * result ConfigStoreError PremiumSlot) :=
  convert_row (λ ir : Z * DbPremiumSlot, slot_of_db ir.1 ir.2) (exec env (upsert_slot (pg_now env) slot) db).

Definition attach_slot (user_id slot_id : Z) (guild_id : option GuildId) : stmt ConfigDb (Z * DbPremiumSlot) := λ db,
  let id := u64_as_i64 slot_id in
  match premium_slots db !! id with
  | Some v =>
      if bool_decide (dp_user_id v = Some (u64_as_i64 user_id)) then
        let v' := mkDbSlot (dp_title v) (dp_user_id v) (dp_message v) (dp_source v) (dp_source_id v) (dp_tier v) (dp_state v)
                    (dp_created_at v) (dp_updated_at v) (dp_expires_at v) (dp_manage_url v) (u64_as_i64 <$> guild_id) in
        Ok (set_slots (slot_seq db) (<[id := v']> (premium_slots db)) db, (id, v'))
      else Err RowNotFound
  | None => Err RowNotFound
  end.

Definition update_premium_slot_attachment env (user_id slot_id : Z) (guild_id : option GuildId) db
    : outcome (ConfigDb * result ConfigStoreError PremiumSlot) :=
  convert_row (λ ir : Z * DbPremiumSlot, slot_of_db ir.1 ir.2) (exec env (attach_slot user_id slot_id guild_id) db).

(** ** Plugins *)

Definition convert_plugin := λ ir : Z * DbPlugin, plugin_of_db ir.1 ir.2.

Definition inner_get_plugin env (plugin_id : Z) db : outcome (ConfigDb * result ConfigStoreError Plugin) :=
  let id := u64_as_i64 plugin_id in
  let (db, r) := exec env (λ db, Ok (db, plugins db !! id)) db in
  match r with
  | Err e => Ret (db, Err (CsOther e))
  | Ok None => Ret (db, Err (PluginNotFound plugin_id))
  | Ok (Some v) => do! p := plugin_of_db id v in Ret (db, Ok p)
  end.

Definition get_plugin := inner_get_plugin.

Definition insert_plugin (now : Z) (c : CreatePlugin) : stmt ConfigDb (Z * DbPlugin) := λ db,
  if i64_max <=? plugin_seq db then Err (SqlxOther "nextval: reached maximum value of sequence")
  else
    let id := plugin_seq db + 1 in
    let r := mkDbPlugin now (cp_name c) (cp_short_description c) (cp_long_description c) false (cp_is_official c)
               (plugin_kind_int (cp_kind c)) 0 None None None None (u64_as_i64 (cp_author_id c)) (cp_is_public c) in
    Ok (set_plugins id (<[id := r]> (plugins db)) db, (id, r)).

Definition create_plugin env (c : CreatePlugin) db : outcome (ConfigDb * result ConfigStoreError Plugin) :=
  convert_row convert_plugin (exec env (insert_plugin (pg_now env) c) db).

(** An UPDATE of a plugin, RETURNING its row; [f] may raise an error of the server. *)
Definition update_plugin_row (plugin_id : Z) (f : DbPlugin → result SqlxError DbPlugin) : stmt ConfigDb (Z * DbPlugin) := λ db,
  let id := u64_as_i64 plugin_id in
  match plugins db !! id with
  | None => Err RowNotFound
  | Some v =>
      match f v with
      | Err e => Err e
      | Ok v' => Ok (set_plugins (plugin_seq db) (<[id := v']> (plugins db)) db, (id, v'))
      end
  end.

Definition update_plugin_meta env (plugin_id : Z) (u : UpdatePluginMeta) db : outcome (ConfigDb * result ConfigStoreError Plugin) :=
  convert_row convert_plugin (exec env (update_plugin_row plugin_id (λ v, Ok (
    mkDbPlugin (pl_created_at v) (default (pl_name v) (up_name u)) (default (pl_short_description v) (up_short_description u))
      (default (pl_long_description v) (up_long_description u)) (default (pl_is_published v) (up_is_published u))
      (default (pl_is_official v) (up_is_official u)) (pl_plugin_kind v) (pl_current_version_number v)
      (pl_published_source v) (pl_published_version_updated_at v) (pl_dev_source v) (pl_dev_version_updated_at v)
      (default (pl_author_id v) (u64_as_i64 <$> up_author_id u)) (default (pl_is_public v) (up_is_public u))))) db).

Definition update_script_plugin_dev_version env (plugin_id : Z) (new_source : string) db
    : outcome (ConfigDb * result ConfigStoreError Plugin) :=
  convert_row convert_plugin (exec env (update_plugin_row plugin_id (λ v, Ok (
    mkDbPlugin (pl_created_at v) (pl_name v) (pl_short_description v) (pl_long_description v) (pl_is_published v)
      (pl_is_official v) (pl_plugin_kind v) (pl_current_version_number v) (pl_published_source v)
      (pl_published_version_updated_at v) (Some new_source) (Some (pg_now env)) (pl_author_id v) (pl_is_public v)))) db).

(** [current_version_number + 1] on an [int4] column *)
Definition published (now : Z) (new_source : string) (v : DbPlugin) : result SqlxError DbPlugin :=
  if pl_current_version_number v <? 2 ^ 31 - 1 then
    Ok (mkDbPlugin (pl_created_at v) (pl_name v) (pl_short_description v) (pl_long_description v) (pl_is_published v)
          (pl_is_official v) (pl_plugin_kind v) (pl_current_version_number v + 1) (Some new_source) (Some now)
          (pl_dev_source v) (pl_dev_version_updated_at v) (pl_author_id v) (pl_is_public v))
  else Err (SqlxOther "integer out of range").

Definition with_source (new_source : string) (r : DbScript) : DbScript :=
  mkDbScript (ds_guild_id r) new_source (ds_name r) (ds_enabled r) (ds_contributes_commands r)
    (ds_contributes_interval_timers r) (ds_plugin_id r) (ds_plugin_auto_update r).

(** Two statements: the plugin, then the scripts of the guilds that have it. *)
Definition publish_script_plugin_version (env1 env2 : PgEnv) (others : ConfigDb → ConfigDb) (plugin_id : Z) (new_source : string) db
    : outcome (ConfigDb * result ConfigStoreError (list GuildId)) :=
  let (db, r) := exec env1 (update_plugin_row plugin_id (published (pg_now env1) new_source)) db in
  match r with
  | Err e => Ret (db, Err (CsOther e))
  | Ok _ =>
      let p := u64_as_i64 plugin_id in
      let uses_plugin (s : DbScript) := bool_decide (ds_plugin_id s = Some p) in
      convert_rows (λ g, id_new (i64_as_u64 g)) (exec env2 (λ db, Ok (
        set_scripts (script_seq db) ((λ s, if uses_plugin s then with_source new_source s else s) <$> guild_scripts db) db,
        (λ ir : Z * DbScript, ds_guild_id ir.2) <$> select_rows (λ ir, uses_plugin ir.2) (guild_scripts db))) (others db))
  end.

Definition get_user_meta env (user_id : Z) db : ConfigDb * result ConfigStoreError UserMeta :=
  let (db, r) := exec env (λ db, Ok (db, user_meta db !! u64_as_i64 user_id)) db in
  (db, result_map (default user_meta_default) (config_error r)).

Definition select_plugins env (p : Z * DbPlugin → bool) db : outcome (ConfigDb * result ConfigStoreError (list Plugin)) :=
  convert_rows convert_plugin (exec env (λ db, Ok (db, select_rows p (plugins db))) db).

Definition get_user_plugins env (user_id : Z) db := select_plugins env (λ ir, pl_author_id ir.2 =? u64_as_i64 user_id) db.

Definition get_published_public_plugins env db := select_plugins env (λ ir, pl_is_published ir.2 && pl_is_public ir.2) db.

(** The statements of a transaction run on the tables, and without a COMMIT its changes are
    undone when the transaction is dropped; the values drawn from sequences stay drawn. *)
Definition rollback (before after : ConfigDb) : ConfigDb :=
  set_plugins (plugin_seq after) (plugins before)
    (set_slots (slot_seq after) (premium_slots before) (set_scripts (script_seq after) (guild_scripts before) before)).

Definition try_guild_add_script_plugin (env1 env2 env3 env4 : PgEnv) (guild_id : GuildId) (plugin_id : Z) (auto_update : bool) db
    : outcome (ConfigDb * result ConfigStoreError Script) :=
  let before := db in
  let (db, scripts) := get_guild_scripts env1 guild_id db in
  match scripts with
  | Err e => Ret (rollback before db, Err e)
  | Ok scripts =>
      if existsb (λ v, bool_decide (script_plugin_id v = Some plugin_id)) scripts
      then Ret (rollback before db, Err GuildAlreadyHasPlugin)
      else
        do! (db, plugin) := inner_get_plugin env2 plugin_id db in
        match plugin with
        | Err e => Ret (rollback before db, Err e)
        | Ok plugin =>
            let source := match p_data plugin with PdScript d => default "" (spd_published_version d) end in
            let (db, r) := inner_create_script env3 env4 id guild_id
              (mkCreateScript (p_name plugin) source true (Some plugin_id) (Some auto_update)) db in
            Ret (rollback before db, r)
        end
  end.
End operations.

(** * Well-formed tables

    What the conversions of rows rely on: identifiers are not zero, and the integers of tiers,
    states and plugin kinds are known ones. *)

Definition valid_id (v : Z) : Prop := 1 ≤ v ≤ u64_max.
Definition nonzero (x : Z) : Prop := i64_as_u64 x ≠ 0.

Definition script_ok (s : DbScript) : Prop := nonzero (ds_guild_id s).
Definition guild_ok (id : Z) (g : DbJoinedGuild) : Prop := nonzero id ∧ nonzero (dg_owner_id g).
Definition slot_ok (v : DbPremiumSlot) : Prop :=
  (∀ u, dp_user_id v = Some u → nonzero u) ∧ (∀ g, dp_attached_guild_id v = Some g → nonzero g) ∧
  1 ≤ dp_tier v ≤ 2 ∧ 1 ≤ dp_state v ≤ 4.
Definition plugin_ok (v : DbPlugin) : Prop := nonzero (pl_author_id v) ∧ pl_plugin_kind v = 0.

Record config_ok (db : ConfigDb) : Prop := {
  ok_script_seq : 0 ≤ script_seq db ≤ i64_max;
  ok_slot_seq : 0 ≤ slot_seq db ≤ i64_max;
  ok_scripts : map_Forall (λ id s, 1 ≤ id ≤ script_seq db ∧ script_ok s) (guild_scripts db);
  ok_metas : map_Forall (λ g c, nonzero g ∧ i64_min ≤ c ≤ i64_max) (guild_meta_configs db);
  ok_guilds : map_Forall guild_ok (joined_guilds db);
  ok_slots : map_Forall (λ id v, 1 ≤ id ≤ slot_seq db ∧ slot_ok v) (premium_slots db);
  ok_sources : ∀ id id' v v', premium_slots db !! id = Some v → premium_slots db !! id' = Some v' →
    dp_source v = dp_source v' → dp_source_id v = dp_source_id v' → id = id';
  ok_plugins : map_Forall (λ _, plugin_ok) (plugins db);
}.

Lemma u64_i64_u64 v : 0 ≤ v ≤ u64_max → i64_as_u64 (u64_as_i64 v) = v.
Proof.
  unfold i64_as_u64, u64_as_i64, u64_max, i64_max. intros Hv. destruct (Z.leb_spec v (2 ^ 63 - 1)).
  - apply Z.mod_small. lia.
  - rewrite <- (Z.mod_add (v - 2 ^ 64) 1 (2 ^ 64)) by lia. rewrite Z.mod_small; lia.
Qed.

Lemma valid_id_nonzero v : valid_id v → nonzero (u64_as_i64 v).
Proof. unfold valid_id, nonzero. intros Hv. rewrite u64_i64_u64; lia. Qed.

Lemma id_new_nonzero x : nonzero x → id_new (i64_as_u64 x) = Ret (i64_as_u64 x).
Proof. unfold nonzero, id_new. intros Hx. by destruct (Z.eqb_spec (i64_as_u64 x) 0). Qed.

(** ** The conversions return *)

Lemma opt_id_new o :
  (∀ u, o = Some u → nonzero u) → opt_outcome (λ u, id_new (i64_as_u64 u)) o = Ret (i64_as_u64 <$> o).
Proof. intros Ho. destruct o as [u|]; simpl; [|done]. by rewrite id_new_nonzero by auto. Qed.

Lemma tier_int_roundtrip t : tier_of_int (tier_to_int t) = Ret t.
Proof. by destruct t. Qed.

Lemma state_int_roundtrip s : state_of_int (state_to_int s) = Ret s.
Proof. by destruct s. Qed.

Lemma tier_of_int_ok n : 1 ≤ n ≤ 2 → ∃ t, tier_of_int n = Ret t ∧ tier_to_int t = n.
Proof.
  intros Hn. unfold tier_of_int. destruct (Z.eqb_spec n 1); [subst; by exists Lite|].
  destruct (Z.eqb_spec n 2); [subst; by exists Premium|lia].
Qed.

Lemma state_of_int_ok n : 1 ≤ n ≤ 4 → ∃ s, state_of_int n = Ret s ∧ state_to_int s = n.
Proof.
  intros Hn. unfold state_of_int. destruct (Z.eqb_spec n 1); [subst; by exists Active|].
  destruct (Z.eqb_spec n 2); [subst; by exists Cancelling|]. destruct (Z.eqb_spec n 3); [subst; by exists Cancelled|].
  destruct (Z.eqb_spec n 4); [subst; by exists PaymentFailed|lia].
Qed.

Lemma slot_of_db_ok id v :
  slot_ok v → ∃ t s, tier_to_int t = dp_tier v ∧ state_to_int s = dp_state v ∧
  slot_of_db id v = Ret (mkPremiumSlot (i64_as_u64 id) (dp_title v) (i64_as_u64 <$> dp_user_id v) (dp_message v) (dp_source v)
    (dp_source_id v) t s (dp_created_at v) (dp_updated_at v) (dp_expires_at v) (dp_manage_url v)
    (i64_as_u64 <$> dp_attached_guild_id v)).
Proof.
  intros (Hu & Hg & (t & Ht & Ht')%tier_of_int_ok & (s & Hs & Hs')%state_of_int_ok). exists t, s.
  split_and!; [done..|]. unfold slot_of_db. by rewrite (opt_id_new _ Hu), Ht, Hs, (opt_id_new _ Hg).
Qed.

Lemma guild_of_db_ok id g :
  guild_ok id g → guild_of_db id g =
  Ret (mkJoinedGuild (i64_as_u64 id) (dg_name g) (dg_icon g) (i64_as_u64 (dg_owner_id g)) (dg_left_at g)).
Proof. intros [Hi Ho]. unfold guild_of_db. by rewrite !id_new_nonzero by done. Qed.

Lemma plugin_of_db_ok id v : plugin_ok v → ∃ p, plugin_of_db id v = Ret p ∧ p_id p = i64_as_u64 id.
Proof. intros [Ha Hk]. unfold plugin_of_db. rewrite id_new_nonzero, Hk by done. simpl. eauto. Qed.

Lemma meta_of_db_ok g c : nonzero g → i64_min ≤ c ≤ i64_max → ∃ m, meta_of_db g c = Ret m.
Proof.
  intros Hg Hc. unfold meta_of_db, i64_min, i64_max in *. rewrite id_new_nonzero by done. simpl. destruct (Z.eqb_spec c 0); [eauto|].
  rewrite id_new_nonzero; [eauto|]. unfold nonzero, i64_as_u64. intros H0.
  apply Z.mod_divide in H0 as [k Hk]; [|lia]. assert (k = 0) by lia. lia.
Qed.

(** * Sequences of operations *)

Inductive ConfigOp :=
| CCreateScript (guild_id : GuildId) (script : CreateScript)
| CUpdateScript (guild_id : GuildId) (script : UpdateScript)
| CUpdateContributes (guild_id : GuildId) (script_id : Z) (contribs : ScriptContributes)
| CDelScript (guild_id : GuildId) (script_name : string)
| CGetMeta (guild_id : GuildId)
| CUpdateMeta (conf : GuildMetaConfig)
| CJoin (guild : JoinedGuild)
| CSetLeft (guild_id : GuildId) (left : bool)
| CJoined (ids : list GuildId)
| CJoinedNotIn (ids : list GuildId)
| CDeleteGuild (id : GuildId)
| CGuildSlots (guild_id : GuildId)
| CUserSlots (user_id : Z)
| CUpsertSlot (slot : CreateUpdatePremiumSlotBySource)
| CAttachSlot (user_id slot_id : Z) (guild_id : option GuildId)
| CCreatePlugin (c : CreatePlugin)
| CGetPlugin (plugin_id : Z)
| CUpdatePlugin (plugin_id : Z) (u : UpdatePluginMeta)
| CDevVersion (plugin_id : Z) (new_source : string)
| CPublish (plugin_id : Z) (new_source : string)
| CUserPlugins (user_id : Z)
| CPublicPlugins
| CAddPlugin (guild_id : GuildId) (plugin_id : Z) (auto_update : bool).

(** Arguments of type [Id] are not zero; the author of a plugin is a user's id. *)
Definition config_op_ok (op : ConfigOp) : Prop :=
  match op with
  | CCreateScript g _ | CUpdateScript g _ | CUpdateContributes g _ _ | CDelScript g _ | CGetMeta g | CSetLeft g _
  | CDeleteGuild g | CGuildSlots g | CAddPlugin g _ _ => valid_id g
  | CUpdateMeta conf => valid_id (gm_guild_id conf) ∧ (∀ c, gm_error_channel_id conf = Some c → valid_id c)
  | CJoin guild => valid_id (jg_id guild) ∧ valid_id (jg_owner_id guild)
  | CUpsertSlot slot => ∀ u, cu_user_id slot = Some u → valid_id u
  | CAttachSlot u _ g => valid_id u ∧ (∀ g', g = Some g' → valid_id g')
  | CCreatePlugin c => valid_id (cp_author_id c)
  | CUpdatePlugin _ u => ∀ a, up_author_id u = Some a → valid_id a
  | _ => True
  end.

Definition config_init : ConfigDb := mkConfigDb 0 ∅ ∅ ∅ ∅ 0 ∅ 0 ∅ ∅.

Section config.
Context `{!Pg, !ContribCodec, !HashOrder Z}.
Implicit Types (db : ConfigDb) (env : PgEnv).

(** One operation, with its result dropped. *)
Definition config_step env (op : ConfigOp) db : outcome ConfigDb :=
  match op with
  | CCreateScript g s => Ret (create_script env env id g s db).1
  | CUpdateScript g s => Ret (update_script env g s db).1
  | CUpdateContributes g i c => Ret (update_script_contributes env g i c db).1
  | CDelScript g n => Ret (del_script env g n db).1
  | CGetMeta g => do! r := get_guild_meta_config_or_default env g db in Ret r.1
  | CUpdateMeta conf => do! r := update_guild_meta_config env conf db in Ret r.1
  | CJoin g => do! r := add_update_joined_guild env g db in Ret r.1
  | CSetLeft g l => do! r := set_guild_left_status env g l db in Ret r.1
  | CJoined ids => do! r := get_joined_guilds env ids db in Ret r.1
  | CJoinedNotIn ids => do! r := get_joined_guilds_not_in env ids db in Ret r.1
  | CDeleteGuild g => Ret (delete_guild_config_data env g db).1
  | CGuildSlots g => do! r := get_guild_premium_slots env g db in Ret r.1
  | CUserSlots u => do! r := get_user_premium_slots env u db in Ret r.1
  | CUpsertSlot s => do! r := create_update_premium_slot_by_source env s db in Ret r.1
  | CAttachSlot u s g => do! r := update_premium_slot_attachment env u s g db in Ret r.1
  | CCreatePlugin c => do! r := create_plugin env c db in Ret r.1
  | CGetPlugin p => do! r := get_plugin env p db in Ret r.1
  | CUpdatePlugin p u => do! r := update_plugin_meta env p u db in Ret r.1
  | CDevVersion p s => do! r := update_script_plugin_dev_version env p s db in Ret r.1
  | CPublish p s => do! r := publish_script_plugin_version env env id p s db in Ret r.1
  | CUserPlugins u => do! r := get_user_plugins env u db in Ret r.1
  | CPublicPlugins => do! r := get_published_public_plugins env db in Ret r.1
  | CAddPlugin g p a => do! r := try_guild_add_script_plugin env env env env g p a db in Ret r.1
  end.

Inductive config_reachable : ConfigDb → Prop :=
| cr_init : config_reachable config_init
| cr_step env op db db' :
    config_reachable db → config_op_ok op → config_step env op db = Ret db' → config_reachable db'.

Lemma elem_of_select_rows {R} (p : Z * R → bool) (m : gmap Z R) id r :
  (id, r) ∈ select_rows p m ↔ m !! id = Some r ∧ p (id, r) = true.
Proof. unfold select_rows. by rewrite elem_of_List_filter, elem_of_hiter. Qed.

(** A SELECT of rows that convert, and a statement that returns one that does. *)
Lemma convert_rows_ok {R B} (f : Z * R → outcome B) env (p : Z * R → bool) (table : ConfigDb → gmap Z R) db :
  (∀ id r, table db !! id = Some r → ∃ y, f (id, r) = Ret y) →
  ∃ r, convert_rows f (exec env (λ db, Ok (db, select_rows p (table db))) db) = Ret (db, r).
Proof.
  intros Hf. unfold convert_rows, exec. destruct (pg_error env); simpl; [eauto|].
  destruct (map_outcome_ok f (select_rows p (table db))) as (ys & -> & _); [|simpl; eauto].
  intros [id r] [Hr _]%elem_of_select_rows. eauto.
Qed.

(** A statement keeps the tables well formed and returns a row that converts. *)
Definition good_stmt {R B} (f : R → outcome B) (s : stmt ConfigDb R) db : Prop :=
  match s db with
  | Ok (db', r) => config_ok db' ∧ ∃ y, f r = Ret y
  | Err _ => True
  end.

Lemma good_stmt_step {R B} (f : R → outcome B) (s : stmt ConfigDb R) env db :
  config_ok db → good_stmt f s db →
  ∃ db' r, convert_row f (exec env s db) = Ret (db', r) ∧ config_ok db'.
Proof.
  intros Hok Hs. unfold convert_row, exec, good_stmt in *. destruct (pg_error env); simpl; [eauto|].
  destruct (s db) as [[db' r]|]; simpl; [|eauto]. destruct Hs as [Hok' [y Hy]]. rewrite Hy. simpl. eauto.
Qed.

(** ** Writing one table *)

Lemma config_ok_scripts db seq m :
  config_ok db → 0 ≤ seq ≤ i64_max → map_Forall (λ id s, 1 ≤ id ≤ seq ∧ script_ok s) m → config_ok (set_scripts seq m db).
Proof. intros [] ? ?. by split. Qed.

Lemma config_ok_metas db m :
  config_ok db → map_Forall (λ g c, nonzero g ∧ i64_min ≤ c ≤ i64_max) m → config_ok (set_meta m db).
Proof. intros [] ?. by split. Qed.

Lemma config_ok_guilds db m : config_ok db → map_Forall guild_ok m → config_ok (set_guilds m db).
Proof. intros [] ?. by split. Qed.

Lemma config_ok_plugins db seq m : config_ok db → map_Forall (λ _, plugin_ok) m → config_ok (set_plugins seq m db).
Proof. intros [] ?. by split. Qed.

(** A slot written under a new id, or in place of one of the same source. *)
Lemma config_ok_slot db seq id v :
  config_ok db → slot_seq db ≤ seq ≤ i64_max → 1 ≤ id ≤ seq → slot_ok v →
  (∀ id' v', premium_slots db !! id' = Some v' → dp_source v' = dp_source v → dp_source_id v' = dp_source_id v → id' = id) →
  config_ok (set_slots seq (<[id := v]> (premium_slots db)) db).
Proof.
  intros [] Hseq Hid Hv Hsrc. split; simpl; try done; [lia|..].
  - apply map_Forall_insert_2; [done|]. eapply map_Forall_impl; [done|]. simpl. intros id' v' [? ?]. split; [lia|done].
  - intros id1 id2 v1 v2 [[<- <-]|[_ H1']]%lookup_insert_Some [[<- <-]|[_ H2']]%lookup_insert_Some Hs1 Hs2; try done.
    + symmetry. by eapply Hsrc.
    + by eapply Hsrc.
    + by eapply ok_sources0.
Qed.

Lemma config_ok_script_step env db (s : stmt ConfigDb (Z * DbScript)) :
  config_ok db → good_stmt (λ ir, Ret ir) s db → config_ok (exec env s db).1.
Proof.
  intros Hok Hs. unfold exec, good_stmt in *. destruct (pg_error env); [done|]. destruct (s db) as [[db' r]|]; [|done].
  by destruct Hs.
Qed.

Lemma insert_script_good r db : config_ok db → script_ok r → good_stmt (λ ir, Ret ir) (insert_script r) db.
Proof.
  intros Hok Hr. pose proof (ok_script_seq db Hok). unfold good_stmt, insert_script.
  destruct (Z.leb_spec i64_max (script_seq db)); [done|].
  assert (config_ok (set_scripts (script_seq db + 1) (<[script_seq db + 1 := r]> (guild_scripts db)) db)) as Hok'.
  { apply config_ok_scripts; [done|lia|]. apply map_Forall_insert_2; [split; [lia|done]|].
    eapply map_Forall_impl; [apply (ok_scripts db Hok)|]. simpl. intros id s [? ?]. split; [lia|done]. }
  destruct (ds_plugin_id r) as [p|]; [|eauto]. destruct (existsb _ _); [done|]. case_bool_decide; [eauto|done].
Qed.

Lemma update_script_row_good g id f db :
  config_ok db → (∀ r, ds_guild_id (f r) = ds_guild_id r) → good_stmt (λ ir, Ret ir) (update_script_row g id f) db.
Proof.
  intros Hok Hf. unfold good_stmt, update_script_row. destruct (guild_scripts db !! id) as [r|] eqn:Hr; [|done].
  destruct (_ =? _); [|done]. split; [|eauto]. apply config_ok_scripts; [done|apply (ok_script_seq db Hok)|].
  destruct (ok_scripts db Hok _ _ Hr) as [Hid Hs].
  apply map_Forall_insert_2; [|apply (ok_scripts db Hok)]. split; [done|]. unfold script_ok. by rewrite Hf.
Qed.

Lemma upsert_slot_good now slot db :
  config_ok db → (∀ u, cu_user_id slot = Some u → valid_id u) →
  good_stmt (λ ir : Z * DbPremiumSlot, slot_of_db ir.1 ir.2) (upsert_slot now slot) db.
Proof.
  intros Hok Hu. unfold good_stmt, upsert_slot. pose proof (ok_slot_seq db Hok) as Hseq.
  destruct (Z.leb_spec i64_max (slot_seq db)); [done|].
  assert (∀ created attached, (∀ g, attached = Some g → nonzero g) →
    slot_ok (mkDbSlot (cu_title slot) (u64_as_i64 <$> cu_user_id slot) (cu_message slot) (cu_source slot) (cu_source_id slot)
      (tier_to_int (cu_tier slot)) (state_to_int (cu_state slot)) created now (timestamptz (cu_expires_at slot))
      (cu_manage_url slot) attached)) as Hnew.
  { intros created attached Ha. split_and!; simpl; try done.
    - intros u. destruct (cu_user_id slot); simpl; [|done]. intros [= <-]. by apply valid_id_nonzero, Hu.
    - destruct (cu_tier slot); simpl; lia.
    - destruct (cu_tier slot); simpl; lia.
    - destruct (cu_state slot); simpl; lia.
    - destruct (cu_state slot); simpl; lia. }
  destruct (find_slot_by_source _ _ db) as [[id v]|] eqn:Hf.
  - apply find_first_Some in Hf as [Hv Hsrc]. apply elem_of_hiter in Hv. simpl in Hsrc.
    apply andb_prop in Hsrc as [Hs1%bool_decide_eq_true Hs2%bool_decide_eq_true].
    destruct (ok_slots db Hok _ _ Hv) as [Hid (Hvu & Hvg & Hvt)].
    pose proof (Hnew (dp_created_at v) _ Hvg) as Hv'. split.
    + apply config_ok_slot; try done; [lia|lia|]. simpl. intros id' v' Hv'' Hs1' Hs2'.
      eapply (ok_sources db Hok); [done|exact Hv|congruence..].
    + destruct (slot_of_db_ok id _ Hv') as (? & ? & _ & _ & Hy). eexists. exact Hy.
  - assert (∀ g : Z, None = Some g → nonzero g) as Hnone by done. pose proof (Hnew now None Hnone) as Hv'. split.
    + apply config_ok_slot; try done; [lia|lia|]. simpl. intros id' v' Hv'' Hs1' Hs2'. exfalso.
      unfold find_slot_by_source in Hf. rewrite find_first_None, Forall_forall in Hf.
      apply elem_of_hiter in Hv''. apply Hf in Hv''. simpl in Hv''. by rewrite !bool_decide_eq_true_2 in Hv''.
    + destruct (slot_of_db_ok (slot_seq db + 1) _ Hv') as (? & ? & _ & _ & Hy). eexists. exact Hy.
Qed.

Lemma attach_slot_good u s g db :
  config_ok db → (∀ g', g = Some g' → valid_id g') →
  good_stmt (λ ir : Z * DbPremiumSlot, slot_of_db ir.1 ir.2) (attach_slot u s g) db.
Proof.
  intros Hok Hg. unfold good_stmt, attach_slot. destruct (premium_slots db !! _) as [v|] eqn:Hv; [|done].
  case_bool_decide; [|done]. destruct (ok_slots db Hok _ _ Hv) as [Hid (Hvu & Hvg & Hvt & Hvs)].
  match goal with |- config_ok (set_slots _ (<[_ := ?v']> _) _) ∧ _ => assert (slot_ok v') as Hv' end.
  { split_and!; simpl; try done; try lia; [].
    intros g'. destruct g; simpl; [|done]. intros [= <-]. by apply valid_id_nonzero, Hg. }
  split.
  - apply config_ok_slot; try done; [pose proof (ok_slot_seq db Hok); lia|]. simpl. intros id' v' Hv'' Hs1 Hs2.
    by eapply (ok_sources db Hok).
  - destruct (slot_of_db_ok (u64_as_i64 s) _ Hv') as (? & ? & _ & _ & Hy). eexists. exact Hy.
Qed.

Lemma update_plugin_row_good p f db :
  config_ok db → (∀ v v', plugin_ok v → f v = Ok v' → plugin_ok v') → good_stmt convert_plugin (update_plugin_row p f) db.
Proof.
  intros Hok Hf. unfold good_stmt, update_plugin_row. destruct (plugins db !! _) as [v|] eqn:Hv; [|done].
  destruct (f v) as [v'|] eqn:Hfv; [|done]. pose proof (Hf _ _ (ok_plugins db Hok _ _ Hv) Hfv) as Hv'. split.
  - apply config_ok_plugins; [done|]. apply map_Forall_insert_2; [done|apply (ok_plugins db Hok)].
  - destruct (plugin_of_db_ok (u64_as_i64 p) v' Hv') as (y & Hy & _). eauto.
Qed.

Lemma insert_plugin_good now c db :
  config_ok db → valid_id (cp_author_id c) → good_stmt convert_plugin (insert_plugin now c) db.
Proof.
  intros Hok Ha. unfold good_stmt, insert_plugin. destruct (_ <=? _); [done|].
  match goal with |- config_ok (set_plugins _ (<[_ := ?v']> _) _) ∧ _ => assert (plugin_ok v') as Hv' end.
  { split; [by apply valid_id_nonzero|]. by destruct (cp_kind c). }
  split.
  - apply config_ok_plugins; [done|]. apply map_Forall_insert_2; [done|apply (ok_plugins db Hok)].
  - destruct (plugin_of_db_ok (plugin_seq db + 1) _ Hv') as (y & Hy & _). eauto.
Qed.

(** ** Every operation *)

Definition new_script (g : GuildId) (c : CreateScript) : DbScript :=
  mkDbScript (u64_as_i64 g) (cs_original_source c) (cs_name c) (cs_enabled c) (JArray []) (JArray [])
    (u64_as_i64 <$> cs_plugin_id c) (cs_plugin_auto_update c).

Definition guild_script_count (g : GuildId) db : Z := Z.of_nat (length (select_rows (script_of_guild g) (guild_scripts db))).

(** A script is created under the next id, when no more than the limit are there. *)
Lemma inner_create_script_effect env1 env2 g c db :
  match inner_create_script env1 env2 id g c db with
  | (db', Ok s) =>
      db' = set_scripts (script_seq db + 1) (<[script_seq db + 1 := new_script g c]> (guild_scripts db)) db ∧
      script_seq db < i64_max ∧ guild_script_count g db ≤ GUILD_SCRIPT_COUNT_LIMIT ∧
      s = script_of_db (script_seq db + 1) (new_script g c)
  | (db', Err _) => db' = db
  end.
Proof.
  unfold inner_create_script, get_guild_script_count, exec. destruct (pg_error env1); simpl; [done|].
  destruct (Z.ltb_spec GUILD_SCRIPT_COUNT_LIMIT (guild_script_count g db)) as [Hc|Hc]; unfold guild_script_count in Hc.
  { rewrite (proj2 (Z.ltb_lt _ _) Hc). done. }
  rewrite (proj2 (Z.ltb_ge _ _) Hc). destruct (pg_error env2); simpl; [done|].
  unfold insert_script. destruct (Z.leb_spec i64_max (script_seq db)); simpl; [done|].
  destruct (cs_plugin_id c) eqn:Hp; simpl; [destruct (existsb _ _); [done|]; case_bool_decide; [|done]|];
    unfold id, new_script; rewrite Hp; done.
Qed.

Lemma create_script_ok env1 env2 g c db :
  config_ok db → valid_id g → config_ok (inner_create_script env1 env2 id g c db).1.
Proof.
  intros Hok Hg. pose proof (inner_create_script_effect env1 env2 g c db) as He.
  destruct (inner_create_script env1 env2 id g c db) as [db' [s|e]]; simpl; [|by subst].
  destruct He as (-> & Hseq & _). pose proof (ok_script_seq db Hok).
  apply config_ok_scripts; [done|lia|]. apply map_Forall_insert_2.
  - split; [lia|]. by apply valid_id_nonzero.
  - eapply map_Forall_impl; [apply (ok_scripts db Hok)|]. simpl. intros id s' [? ?]. split; [lia|done].
Qed.

Lemma rollback_ok db db' : config_ok db → config_ok db' → script_seq db ≤ script_seq db' → slot_seq db' = slot_seq db → config_ok (rollback db db').
Proof.
  intros Hok Hok' Hs Hsl. destruct Hok, Hok'. unfold rollback. split; simpl; try done.
  - eapply map_Forall_impl; [done|]. simpl. intros id s [? ?]. split; [lia|done].
  - by rewrite Hsl.
Qed.

Lemma get_plugin_ok env p db :
  config_ok db → ∃ r, inner_get_plugin env p db = Ret (db, r).
Proof.
  intros Hok. unfold inner_get_plugin, exec. destruct (pg_error env); simpl; [eauto|].
  destruct (plugins db !! u64_as_i64 p) as [v|] eqn:Hv; [|eauto].
  destruct (plugin_of_db_ok (u64_as_i64 p) v (ok_plugins db Hok _ _ Hv)) as (y & -> & _). simpl. eauto.
Qed.

Lemma add_plugin_ok e1 e2 e3 e4 g p a db :
  config_ok db → valid_id g →
  ∃ db' r, try_guild_add_script_plugin e1 e2 e3 e4 g p a db = Ret (db', r) ∧ config_ok db'.
Proof.
  intros Hok Hg. assert (config_ok (rollback db db)) as Hroll by by apply rollback_ok.
  unfold try_guild_add_script_plugin, get_guild_scripts, exec.
  destruct (pg_error e1); simpl; [eauto|]. destruct (existsb _ _); [eauto|].
  destruct (get_plugin_ok e2 p db Hok) as [[plugin|e] ->]; simpl; [|eauto].
  pose proof (inner_create_script_effect e3 e4 g (mkCreateScript (p_name plugin)
    match p_data plugin with PdScript d => default "" (spd_published_version d) end true (Some p) (Some a)) db) as He.
  pose proof (create_script_ok e3 e4 g (mkCreateScript (p_name plugin)
    match p_data plugin with PdScript d => default "" (spd_published_version d) end true (Some p) (Some a)) db Hok Hg) as Hok'.
  destruct (inner_create_script _ _ _ _ _ _) as [db' r]. simpl in Hok'. do 2 eexists. split; [done|].
  apply rollback_ok; [done..| |]; destruct r; destruct He as [-> ?] || subst db'; simpl; lia || done.
Qed.

Lemma publish_ok env1 env2 p s db :
  config_ok db → ∃ db' r, publish_script_plugin_version env1 env2 id p s db = Ret (db', r) ∧ config_ok db'.
Proof.
  intros Hok.
  assert (good_stmt convert_plugin (update_plugin_row p (published (pg_now env1) s)) db) as Hgood.
  { apply update_plugin_row_good; [done|]. intros v v' Hv. unfold published. destruct (_ <? _); [|done].
    by intros [= <-]. }
  unfold publish_script_plugin_version, exec, good_stmt in *. destruct (pg_error env1); simpl; [eauto|].
  destruct (update_plugin_row p _ db) as [[db1 r]|]; [|eauto]. destruct Hgood as [Hok1 _].
  unfold convert_rows. destruct (pg_error env2); simpl; [eauto|]. unfold id.
  match goal with |- context [map_outcome ?f ?l] => destruct (map_outcome_ok f l) as (ys & -> & _) end.
  { intros g ([i sc] & -> & [Hi _]%elem_of_select_rows)%list_elem_of_fmap. simpl.
    destruct (ok_scripts db1 Hok1 _ _ Hi) as [_ Hs]. rewrite id_new_nonzero by done. eauto. }
  simpl. do 2 eexists. split; [done|]. apply config_ok_scripts; [done|apply (ok_script_seq db1 Hok1)|].
  intros i sc. rewrite lookup_fmap. destruct (guild_scripts db1 !! i) as [sc0|] eqn:Hi; [|done]. simpl. intros [= <-].
  destruct (ok_scripts db1 Hok1 _ _ Hi) as [? ?]. split; [done|]. by case_bool_decide.
Qed.

Lemma guild_row_ok db id r : config_ok db → joined_guilds db !! id = Some r → ∃ y, guild_of_db id r = Ret y.
Proof. intros Hok Hr. rewrite guild_of_db_ok; [eauto|]. by apply (ok_guilds db Hok). Qed.

Lemma slot_row_ok db id r : config_ok db → premium_slots db !! id = Some r → ∃ y, slot_of_db id r = Ret y.
Proof.
  intros Hok Hr. destruct (ok_slots db Hok _ _ Hr) as [_ Hs].
  destruct (slot_of_db_ok id r Hs) as (? & ? & _ & _ & ->). eauto.
Qed.

Lemma plugin_row_ok db id r : config_ok db → plugins db !! id = Some r → ∃ y, plugin_of_db id r = Ret y.
Proof. intros Hok Hr. destruct (plugin_of_db_ok id r (ok_plugins db Hok _ _ Hr)) as (y & -> & _). eauto. Qed.

Lemma meta_good conf db :
  config_ok db → config_op_ok (CUpdateMeta conf) →
  let g := u64_as_i64 (gm_guild_id conf) in
  let c := default 0 (u64_as_i64 <$> gm_error_channel_id conf) in
  good_stmt (λ c, meta_of_db g c) (λ db, Ok (set_meta (<[g := c]> (guild_meta_configs db)) db, c)) db.
Proof.
  intros Hok [Hg Hc] g c.
  assert (nonzero g ∧ i64_min ≤ c ≤ i64_max) as [Hg' Hc'].
  { split; [by apply valid_id_nonzero|]. unfold c. destruct (gm_error_channel_id conf) as [ch|]; simpl; [|by vm_compute].
    specialize (Hc ch eq_refl). unfold valid_id, u64_max, u64_as_i64, i64_min, i64_max in *.
    destruct (Z.leb_spec ch (2 ^ 63 - 1)); lia. }
  split.
  - apply config_ok_metas; [done|]. by apply map_Forall_insert_2; [|apply (ok_metas db Hok)].
  - by apply meta_of_db_ok.
Qed.

Ltac rows Hok lem :=
  match goal with
  | |- context [convert_rows ?f (exec ?env (λ db, Ok (db, select_rows ?p (?t db))) ?db)] =>
      destruct (convert_rows_ok f env p t db) as [r ->]; [intros; by eapply lem|simpl; eauto]
  end.

Ltac one_row Hok lem :=
  match goal with
  | |- context [convert_row ?f (exec ?env ?s ?db)] =>
      destruct (good_stmt_step f s env db Hok) as (db' & r & -> & Hok'); [apply lem; auto|simpl; eauto]
  end.

Ltac script_row Hok :=
  match goal with
  | |- config_ok (let (_, _) := exec ?env ?s ?db in _).1 =>
      assert (config_ok (exec env s db).1) by (apply config_ok_script_step; [done|by apply update_script_row_good]);
      by destruct (exec env s db)
  end.

Lemma joined_guild_good guild db :
  config_ok db → config_op_ok (CJoin guild) →
  let g := u64_as_i64 (jg_id guild) in
  let r := mkDbGuild (jg_name guild) (jg_icon guild) (u64_as_i64 (jg_owner_id guild)) None in
  good_stmt (guild_of_db g) (λ db, Ok (set_guilds (<[g := r]> (joined_guilds db)) db, r)) db.
Proof.
  intros Hok [Hg Ho] g r. assert (guild_ok g r) as Hr by (split; by apply valid_id_nonzero). split.
  - apply config_ok_guilds; [done|]. by apply map_Forall_insert_2; [|apply (ok_guilds db Hok)].
  - rewrite guild_of_db_ok by done. eauto.
Qed.

Lemma del_script_ok env g n db : config_ok db → config_ok (del_script env g n db).1.
Proof.
  intros Hok. unfold del_script, exec. destruct (pg_error env); simpl; [done|].
  apply config_ok_scripts; [done|apply (ok_script_seq db Hok)|]. intros i s [Hi _]%map_lookup_filter_Some.
  by apply (ok_scripts db Hok).
Qed.

Lemma get_meta_ok env g db :
  config_ok db → valid_id g → ∃ r, get_guild_meta_config env g db = Ret (db, r).
Proof.
  intros Hok Hg. unfold get_guild_meta_config, exec. destruct (pg_error env) as [[]|]; simpl; try (by eauto).
  destruct (guild_meta_configs db !! u64_as_i64 g) as [c|] eqn:Hc; [|eauto].
  destruct (ok_metas db Hok _ _ Hc) as [? ?]. destruct (meta_of_db_ok (u64_as_i64 g) c) as [m ->]; [done..|]. simpl. eauto.
Qed.

Lemma set_left_ok env g l db :
  config_ok db → ∃ db' r, set_guild_left_status env g l db = Ret (db', r) ∧ config_ok db'.
Proof.
  intros Hok. unfold set_guild_left_status. apply good_stmt_step; [done|]. unfold good_stmt.
  destruct (joined_guilds db !! u64_as_i64 g) as [r|] eqn:Hr; [|done]. pose proof (ok_guilds db Hok _ _ Hr) as [Hi Ho].
  match goal with |- config_ok (set_guilds (<[_ := ?r']> _) _) ∧ _ => assert (guild_ok (u64_as_i64 g) r') as Hr' by done end.
  split.
  - apply config_ok_guilds; [done|]. by apply map_Forall_insert_2; [|apply (ok_guilds db Hok)].
  - rewrite guild_of_db_ok by done. eauto.
Qed.

Lemma delete_guild_ok env g db : config_ok db → config_ok (delete_guild_config_data env g db).1.
Proof.
  intros Hok. unfold delete_guild_config_data, exec. destruct (pg_error env); simpl; [done|].
  apply config_ok_guilds; [done|]. apply map_Forall_delete, (ok_guilds db Hok).
Qed.

Lemma update_plugin_meta_good p u db :
  config_ok db → config_op_ok (CUpdatePlugin p u) → good_stmt convert_plugin (update_plugin_row p (λ v, Ok (
    mkDbPlugin (pl_created_at v) (default (pl_name v) (up_name u)) (default (pl_short_description v) (up_short_description u))
      (default (pl_long_description v) (up_long_description u)) (default (pl_is_published v) (up_is_published u))
      (default (pl_is_official v) (up_is_official u)) (pl_plugin_kind v) (pl_current_version_number v)
      (pl_published_source v) (pl_published_version_updated_at v) (pl_dev_source v) (pl_dev_version_updated_at v)
      (default (pl_author_id v) (u64_as_i64 <$> up_author_id u)) (default (pl_is_public v) (up_is_public u))))) db.
Proof.
  intros Hok Hu. apply update_plugin_row_good; [done|]. intros v v' [Ha Hk] [= <-]. split; simpl; [|done].
  simpl in Hu. destruct (up_author_id u) as [a|]; simpl; [|done]. by apply valid_id_nonzero, Hu.
Qed.

(** The well-formed tables stay well formed, and no operation panics on them. *)
Lemma config_step_ok env op db :
  config_ok db → config_op_ok op → ∃ db', config_step env op db = Ret db' ∧ config_ok db'.
Proof.
  intros Hok Hop. destruct op; simpl in *;
    unfold get_joined_guilds, get_joined_guilds_not_in, select_guilds, get_guild_premium_slots, get_user_premium_slots,
      select_slots, get_user_plugins, get_published_public_plugins, select_plugins, create_update_premium_slot_by_source,
      update_premium_slot_attachment, create_plugin, update_plugin_meta, update_script_plugin_dev_version,
      update_guild_meta_config, add_update_joined_guild.
  - eexists. split; [done|]. by apply create_script_ok.
  - eexists. split; [done|]. unfold update_script. script_row Hok.
  - eexists. split; [done|]. unfold update_script_contributes. script_row Hok.
  - eexists. split; [done|]. by apply del_script_ok.
  - unfold get_guild_meta_config_or_default. destruct (get_meta_ok env guild_id db Hok Hop) as [r ->]. simpl. eauto.
  - one_row Hok meta_good.
  - one_row Hok joined_guild_good.
  - destruct (set_left_ok env guild_id left db Hok) as (db' & r & -> & ?). simpl. eauto.
  - rows Hok guild_row_ok.
  - rows Hok guild_row_ok.
  - eexists. split; [done|]. by apply delete_guild_ok.
  - rows Hok slot_row_ok.
  - rows Hok slot_row_ok.
  - one_row Hok upsert_slot_good.
  - destruct Hop. one_row Hok attach_slot_good.
  - one_row Hok insert_plugin_good.
  - destruct (get_plugin_ok env plugin_id db Hok) as [r Hr]. unfold get_plugin. rewrite Hr. simpl. eauto.
  - one_row Hok update_plugin_meta_good.
  - destruct (good_stmt_step _ _ env db Hok (update_plugin_row_good plugin_id
      (λ v, Ok (mkDbPlugin (pl_created_at v) (pl_name v) (pl_short_description v) (pl_long_description v) (pl_is_published v)
        (pl_is_official v) (pl_plugin_kind v) (pl_current_version_number v) (pl_published_source v)
        (pl_published_version_updated_at v) (Some new_source) (Some (pg_now env)) (pl_author_id v) (pl_is_public v)))
      db Hok ltac:(by intros v v' ? [= <-]))) as (db' & r & -> & ?). simpl. eauto.
  - destruct (publish_ok env env plugin_id new_source db Hok) as (db' & r & -> & ?). simpl. eauto.
  - rows Hok plugin_row_ok.
  - rows Hok plugin_row_ok.
  - destruct (add_plugin_ok env env env env guild_id plugin_id auto_update db Hok Hop) as (db' & r & -> & ?). simpl. eauto.
Qed.

Lemma config_reachable_ok db : config_reachable db → config_ok db.
Proof.
  induction 1 as [|env op db db' _ IH Hop Hstep].
  - split; simpl; try (unfold i64_max; lia); try apply map_Forall_empty. intros *. by rewrite lookup_empty.
  - destruct (config_step_ok env op db IH Hop) as (db'' & Hs & ?). rewrite Hs in Hstep. by injection Hstep as <-.
Qed.

(** C24: In every database the operations build, the integers stored for tiers, states and plugin
    kinds are the known ones, no stored identifier is zero, a source has one premium slot, and
    so no operation panics when it converts rows. *)
Theorem config_store_never_panics db env op :
  config_reachable db → config_op_ok op → config_ok db ∧ ∃ db', config_step env op db = Ret db'.
Proof.
  intros Hr%config_reachable_ok Hop. split; [done|]. destruct (config_step_ok env op db Hr Hop) as (db' & ? & _). eauto.
Qed.

(** * Scripts *)

Lemma select_rows_one {R} (p : Z * R → bool) (m : gmap Z R) id r :
  m !! id = Some r → p (id, r) = true → (∀ id' r', p (id', r') = true → id' = id) → select_rows p m = [(id, r)].
Proof.
  intros Hr Hp Hu. assert ((id, r) ∈ select_rows p m) as Hin by by apply elem_of_select_rows.
  assert (∀ x, x ∈ select_rows p m → x = (id, r)) as Hall.
  { intros [id' r'] [Hr' Hp']%elem_of_select_rows. pose proof (Hu _ _ Hp'). subst. congruence. }
  assert (NoDup (select_rows p m)) as Hnd by (apply (NoDup_fmap_1 fst), NoDup_fst_List_filter, NoDup_hiter).
  destruct (select_rows p m) as [|x [|y l]]; [by apply elem_of_nil in Hin|..].
  - f_equal. apply Hall. by constructor.
  - rewrite (Hall x), (Hall y) in Hnd by set_solver. apply NoDup_cons in Hnd as [Hn _]. set_solver.
Qed.

Lemma get_script_by_id_found env g i r db :
  pg_error env = None → guild_scripts db !! u64_as_i64 i = Some r → ds_guild_id r = u64_as_i64 g →
  get_script_by_id env g i db = (db, Ok (script_of_db (u64_as_i64 i) r)).
Proof.
  intros Hpg Hr Hg. unfold get_script_by_id, get_db_script_by_id, exec. rewrite Hpg.
  rewrite (select_rows_one _ _ (u64_as_i64 i) r Hr); simpl; [done|..].
  - unfold script_with_id. simpl. by rewrite Hg, !Z.eqb_refl.
  - intros i' r'. unfold script_with_id. simpl. rewrite andb_true_iff, !Z.eqb_eq. tauto.
Qed.

(** The contributions a script reports are read back as they were written, whatever reads them. *)
Theorem contributes_roundtrip env env' g i c db db' s :
  codec_faithful c → update_script_contributes env g i c db = (db', Ok s) → pg_error env' = None →
  script_contributes s = c ∧ get_script_by_id env' g i db' = (db', Ok s) ∧
  (∀ j, j ≠ u64_as_i64 i → guild_scripts db' !! j = guild_scripts db !! j) ∧
  (∀ r, guild_scripts db !! u64_as_i64 i = Some r →
     script_name s = ds_name r ∧ original_source s = ds_original_source r ∧ script_enabled s = ds_enabled r).
Proof.
  intros [Hc Ht] Hu Hpg'. unfold update_script_contributes, exec in Hu. destruct (pg_error env); [done|].
  unfold update_script_row in Hu. destruct (guild_scripts db !! u64_as_i64 i) as [r|] eqn:Hr; [|done].
  destruct (Z.eqb_spec (ds_guild_id r) (u64_as_i64 g)) as [Hg|]; [|done]. simpl in Hu. injection Hu as <- <-.
  split_and!.
  - unfold script_of_db. simpl. rewrite Hc, Ht. by destruct c.
  - by erewrite get_script_by_id_found; [done|done|apply lookup_insert_eq|].
  - intros j Hj. by apply lookup_insert_ne.
  - by intros ? [= <-].
Qed.

(** [update_script] stores the contributions in the wrong shape: afterwards the script has no
    commands, and whatever new name was asked for, the old one stays. *)
Theorem update_script_drops_commands `{!ContribLaws _ _} env g u c db db' s :
  us_contributes u = Some c → update_script env g u db = (db', Ok s) →
  contrib_commands (script_contributes s) = [] ∧
  ∃ r, guild_scripts db !! u64_as_i64 (us_id u) = Some r ∧ script_name s = ds_name r.
Proof.
  intros Hc Hu. unfold update_script, exec in Hu. destruct (pg_error env); [done|].
  unfold update_script_row in Hu. destruct (guild_scripts db !! _) as [r|] eqn:Hr; [|done].
  destruct (_ =? _); [|done]. simpl in Hu. injection Hu as <- <-. rewrite Hc. split.
  - unfold script_of_db, enc_contributes. simpl.
    match goal with |- context [jsonb (JObject ?o)] => destruct (dec_commands_object o) as (o' & -> & ->) end. done.
  - eauto.
Qed.

Lemma select_rows_insert_fresh {R} (p : Z * R → bool) (m : gmap Z R) id r :
  m !! id = None → length (select_rows p (<[id := r]> m)) = ((if p (id, r) then 1 else 0) + length (select_rows p m))%nat.
Proof.
  intros Hid. unfold select_rows.
  rewrite (List_filter_perm p _ _ (hiter_perm (<[id := r]> m))), (List_filter_perm p _ _ (hiter_perm m)).
  rewrite (List_filter_perm p _ _ (map_to_list_insert m id r Hid)). simpl. by destruct (p (id, r)).
Qed.

(** Scripts created one after the other: a guild gets one more than the limit and no further. *)
Theorem script_count_bounded env1 env2 g c db :
  config_ok db →
  let (db', r) := create_script env1 env2 id g c db in
  match r with
  | Ok s => guild_script_count g db ≤ GUILD_SCRIPT_COUNT_LIMIT ∧ guild_script_count g db' = guild_script_count g db + 1 ∧
            get_script_by_id (mkPgEnv 0 None) g (script_id s) db' = (db', Ok s)
  | Err e => db' = db
  end.
Proof.
  intros Hok. pose proof (inner_create_script_effect env1 env2 g c db) as He. unfold create_script.
  destruct (inner_create_script env1 env2 id g c db) as [db' [s|e]]; [|done].
  destruct He as (-> & Hseq & Hcount & ->). pose proof (ok_script_seq db Hok) as Hs. split_and!; [done|..].
  - unfold guild_script_count. simpl. rewrite select_rows_insert_fresh.
    + unfold script_of_guild at 1. simpl. rewrite Z.eqb_refl. lia.
    + apply eq_None_not_Some. intros [r Hr]. apply (ok_scripts db Hok) in Hr. lia.
  - assert (u64_as_i64 (i64_as_u64 (script_seq db + 1)) = script_seq db + 1) as Hid.
    { unfold i64_as_u64, i64_max in *. rewrite Z.mod_small by lia. unfold u64_as_i64, i64_max.
      destruct (Z.leb_spec (script_seq db + 1) (2 ^ 63 - 1)); lia. }
    simpl. rewrite (get_script_by_id_found _ _ _ (new_script g c)); [by rewrite Hid|done|..].
    + rewrite Hid. apply lookup_insert_eq.
    + done.
Qed.

(** * Plugins *)

(** Publishing a version rewrites the script of every guild that has the plugin, whether or not
    the guild asked for automatic updates, and no other script; it reports each of them. *)
Theorem publish_updates_all_guilds env1 env2 p src db db' gs :
  publish_script_plugin_version env1 env2 id p src db = Ret (db', Ok gs) →
  (∀ i s, guild_scripts db !! i = Some s →
     guild_scripts db' !! i = Some (if bool_decide (ds_plugin_id s = Some (u64_as_i64 p)) then with_source src s else s)) ∧
  gs ≡ₚ (λ ir : Z * DbScript, i64_as_u64 (ds_guild_id ir.2)) <$>
          select_rows (λ ir, bool_decide (ds_plugin_id ir.2 = Some (u64_as_i64 p))) (guild_scripts db) ∧
  ∃ v, plugins db' !! u64_as_i64 p = Some v ∧ pl_published_source v = Some src.
Proof.
  unfold publish_script_plugin_version, exec. destruct (pg_error env1); simpl; [done|].
  unfold update_plugin_row. destruct (plugins db !! u64_as_i64 p) as [v|] eqn:Hv; [|done].
  unfold published. destruct (_ <? 2 ^ 31 - 1); [|done]. unfold convert_rows. destruct (pg_error env2); simpl; [done|].
  destruct (map_outcome _ _) as [ys|] eqn:Hmap; [|done]. simpl. intros [= <- <-]. split_and!.
  - intros i s Hs. simpl. by rewrite lookup_fmap, Hs.
  - assert (∀ l l', map_outcome (λ g, id_new (i64_as_u64 g)) l = Ret l' → l' = i64_as_u64 <$> l) as Hgen.
    { clear. induction l as [|x l IH]; intros l'; simpl; [by intros [= <-]|]. unfold id_new at 1.
      destruct (_ =? 0); [done|]. simpl. destruct (map_outcome _ l) as [ys|]; [|done]. simpl. intros [= <-].
      by rewrite (IH ys eq_refl). }
    apply Hgen in Hmap. subst ys. by rewrite <- list_fmap_compose.
  - eexists. split; [apply lookup_insert_eq|done].
Qed.

(** Adding a plugin to a guild answers with the new script, but the transaction is never
    committed: no script of any guild has changed. *)
Theorem added_plugin_is_not_stored e1 e2 e3 e4 g p a db db' r :
  try_guild_add_script_plugin e1 e2 e3 e4 g p a db = Ret (db', r) → guild_scripts db' = guild_scripts db.
Proof.
  unfold try_guild_add_script_plugin, get_guild_scripts. destruct (exec e1 _ db) as [db1 r1]. simpl.
  destruct r1 as [scripts|]; simpl; [|by intros [= <- _]].
  destruct (existsb _ _); [by intros [= <- _]|].
  destruct (inner_get_plugin e2 p db1) as [[db2 [plugin|e]]|]; simpl; [|by intros [= <- _]|done].
  destruct (inner_create_script _ _ _ _ _ _) as [db3 r3]. by intros [= <- _].
Qed.

(** * Premium slots *)

(** A payment source has one slot: a notification about it updates the slot in place, under the
    same id and still attached to the guild its owner chose, and a first one makes a slot that
    is attached to none. *)
Theorem slot_upsert_by_source env slot db db' s :
  config_ok db → (∀ u, cu_user_id slot = Some u → valid_id u) →
  create_update_premium_slot_by_source env slot db = Ret (db', Ok s) →
  slot_title s = cu_title slot ∧ slot_user_id s = cu_user_id slot ∧ slot_tier s = cu_tier slot ∧
  slot_state s = cu_state slot ∧ slot_expires_at s = timestamptz (cu_expires_at slot) ∧
  match find_slot_by_source (cu_source slot) (cu_source_id slot) db with
  | Some (i, v) => slot_id s = i64_as_u64 i ∧ slot_created_at s = dp_created_at v ∧
                   slot_attached_guild_id s = i64_as_u64 <$> dp_attached_guild_id v ∧
                   size (premium_slots db') = size (premium_slots db)
  | None => slot_attached_guild_id s = None ∧ slot_created_at s = pg_now env ∧
            size (premium_slots db') = S (size (premium_slots db))
  end.
Proof.
  intros Hok Hu Hup. pose proof (upsert_slot_good (pg_now env) slot db Hok Hu) as Hgood.
  assert (i64_as_u64 <$> (u64_as_i64 <$> cu_user_id slot) = cu_user_id slot) as Huid.
  { destruct (cu_user_id slot) as [u|]; simpl; [|done]. specialize (Hu u eq_refl). unfold valid_id in Hu.
    rewrite u64_i64_u64 by lia. done. }
  assert (∀ i v y, slot_ok v → slot_of_db i v = Ret y → dp_tier v = tier_to_int (cu_tier slot) →
    dp_state v = state_to_int (cu_state slot) → y = mkPremiumSlot (i64_as_u64 i) (dp_title v) (i64_as_u64 <$> dp_user_id v)
      (dp_message v) (dp_source v) (dp_source_id v) (cu_tier slot) (cu_state slot) (dp_created_at v) (dp_updated_at v)
      (dp_expires_at v) (dp_manage_url v) (i64_as_u64 <$> dp_attached_guild_id v)) as Hconv.
  { intros i v y Hv Hy Ht Hs. destruct (slot_of_db_ok i v Hv) as (t & st & Ht' & Hs' & Hr). rewrite Hr in Hy.
    injection Hy as <-. rewrite Ht in Ht'. rewrite Hs in Hs'. f_equal.
    - destruct t, (cu_tier slot); done.
    - destruct st, (cu_state slot); done. }
  unfold create_update_premium_slot_by_source, convert_row, exec, good_stmt, upsert_slot in *.
  destruct (pg_error env); [done|]. destruct (i64_max <=? slot_seq db); [done|].
  destruct (find_slot_by_source _ _ db) as [[i v]|] eqn:Hf; simpl in *; destruct Hgood as [Hok' [y Hy]];
    rewrite Hy in Hup; injection Hup as <- <-.
  - assert (premium_slots db !! i = Some v) as Hv by (apply find_first_Some in Hf as [Hv _]; by apply elem_of_hiter in Hv).
    destruct (ok_slots _ Hok' i _ (lookup_insert_eq _ _ _)) as [_ Hv'].
    rewrite (Hconv _ _ _ Hv' Hy eq_refl eq_refl). simpl. split_and!; try done. apply map_size_insert_Some. eauto.
  - destruct (ok_slots _ Hok' _ _ (lookup_insert_eq _ _ _)) as [_ Hv'].
    rewrite (Hconv _ _ _ Hv' Hy eq_refl eq_refl). simpl. split_and!; try done. apply map_size_insert_None.
    apply eq_None_not_Some. intros [v Hv]. apply (ok_slots db Hok) in Hv. lia.
Qed.

(** * Guild settings *)

(** The settings of a guild are read back as they were written, an absent error channel
    included. *)
Theorem guild_meta_roundtrip env env' conf db db' r :
  valid_id (gm_guild_id conf) → (∀ c, gm_error_channel_id conf = Some c → valid_id c) →
  update_guild_meta_config env conf db = Ret (db', Ok r) → pg_error env' = None →
  r = conf ∧ get_guild_meta_config_or_default env' (gm_guild_id conf) db' = Ret (db', Ok conf).
Proof.
  intros Hg Hc Hup Hpg'. destruct conf as [g c]. simpl in *.
  assert (meta_of_db (u64_as_i64 g) (default 0 (u64_as_i64 <$> c)) = Ret (mkGuildMeta g c)) as Hm.
  { unfold meta_of_db. rewrite id_new_nonzero by by apply valid_id_nonzero. unfold valid_id in *. simpl.
    rewrite u64_i64_u64 by lia. destruct c as [c|]; simpl; [|done]. specialize (Hc c eq_refl).
    pose proof (valid_id_nonzero c Hc) as Hnz. destruct (Z.eqb_spec (u64_as_i64 c) 0) as [Hz|].
    - unfold nonzero, i64_as_u64 in Hnz. rewrite Hz in Hnz. by destruct Hnz.
    - rewrite id_new_nonzero by done. simpl. rewrite u64_i64_u64 by lia. done. }
  unfold update_guild_meta_config, convert_row, exec in Hup. destruct (pg_error env); [done|]. simpl in Hup.
  rewrite Hm in Hup. injection Hup as <- <-. split; [done|].
  unfold get_guild_meta_config_or_default, get_guild_meta_config, exec. rewrite Hpg'. simpl.
  by rewrite lookup_insert_eq, Hm.
Qed.

(** * Guilds that left *)

Lemma map_outcome_Forall2 {A B} (f : A → outcome B) l ys :
  map_outcome f l = Ret ys → Forall2 (λ x y, f x = Ret y) l ys.
Proof.
  revert ys. induction l as [|x l IH]; intros ys; simpl; [intros [= <-]; constructor|].
  destruct (f x) as [y|] eqn:Hy; [|done]. simpl. destruct (map_outcome f l) as [ys'|]; [|done]. simpl.
  intros [= <-]. constructor; auto.
Qed.

(** The guilds whose data may be purged are exactly those that were marked as left more than
    the given number of hours ago. *)
Theorem left_guilds_exact env h db db' l y :
  get_left_guilds env h db = Ret (db', Ok l) →
  y ∈ l ↔ ∃ i g t, joined_guilds db !! i = Some g ∧ dg_left_at g = Some t ∧
                   t < pg_now env - u64_as_i64 h * nanos_per_hour ∧ guild_of_db i g = Ret y.
Proof.
  unfold get_left_guilds, threshold_micros, nanos_per_hour, nanos_per_sec. destruct (_ && _); [|done]. simpl.
  unfold select_guilds, convert_rows, exec. destruct (pg_error env); [done|]. simpl.
  destruct (map_outcome _ _) as [ys|] eqn:Hmap; [|done]. simpl. intros [= _ <-].
  apply map_outcome_Forall2 in Hmap. split.
  - intros [k Hk]%list_elem_of_lookup. destruct (Forall2_lookup_r _ _ _ _ _ Hmap Hk) as ([i g] & Hx & Hy).
    apply list_elem_of_lookup_2, elem_of_select_rows in Hx as [Hg Hp]. simpl in *.
    destruct (dg_left_at g) as [t|] eqn:Ht; [|done]. apply Z.ltb_lt in Hp. exists i, g, t. split_and!; try done. lia.
  - intros (i & g & t & Hg & Ht & Hlt & Hy).
    assert ((i, g) ∈ select_rows (λ ir : Z * DbJoinedGuild, match dg_left_at ir.2 with
      | Some l => l <? pg_now env - u64_as_i64 h * 3600000000 * 1000 | None => false end) (joined_guilds db)) as Hin.
    { apply elem_of_select_rows. split; [done|]. simpl. rewrite Ht. apply Z.ltb_lt. lia. }
    apply list_elem_of_lookup in Hin as [k Hk]. destruct (Forall2_lookup_l _ _ _ _ _ Hmap Hk) as (y' & Hy' & Hc).
    simpl in Hc. rewrite Hy in Hc. injection Hc as <-. by eapply list_elem_of_lookup_2.
Qed.

(** Leaving again does not restart the clock, and joining again takes the guild off the list. *)
Theorem left_status env g left db db' jg :
  set_guild_left_status env g left db = Ret (db', Ok jg) →
  ∃ r, joined_guilds db !! u64_as_i64 g = Some r ∧
    jg_left_at jg = (if left then Some (default (pg_now env) (dg_left_at r)) else None) ∧
    ∃ r', joined_guilds db' !! u64_as_i64 g = Some r' ∧ dg_left_at r' = jg_left_at jg.
Proof.
  unfold set_guild_left_status, convert_row, exec. destruct (pg_error env); [done|].
  destruct (joined_guilds db !! u64_as_i64 g) as [r|]; [|done]. simpl. unfold guild_of_db, id_new.
  destruct (_ =? 0); [done|]. simpl. destruct (_ =? 0); [done|]. simpl. intros [= <- <-].
  exists r. split; [done|]. simpl. split; [by destruct (dg_left_at r), left|].
  eexists. split; [apply lookup_insert_eq|done].
Qed.
End config.

(** * Examples *)

(** A codec that keeps the names only, with arrays for sequences. *)
Definition ex_codec_commands (l : list TwCommand) : JsonValue := JArray ((λ c, JString (cmd_name c)) <$> l).
Definition ex_codec : ContribCodec := {|
  enc_commands l := ex_codec_commands l;
  dec_commands v := match v with
                    | JArray l => Some (omap (λ j, match j with
                        | JString n => Some (mkTwCommand n "" TwChatInput None []) | _ => None end) l)
                    | _ => None
                    end;
  enc_interval_timers l := JArray ((λ t, JString (itc_name t)) <$> l);
  dec_interval_timers v := match v with
                           | JArray l => Some (omap (λ j, match j with
                               | JString n => Some (mkIntervalTimerContrib n (Minutes 5)) | _ => None end) l)
                           | _ => None
                           end;
|}.
#[local] Existing Instance ex_pg.
#[local] Existing Instance ex_codec.
#[local] Existing Instance list_order.

Definition ex_script (name : string) (plugin : option Z) : CreateScript := mkCreateScript name "src" true plugin (Some false).
Definition ex_create (g : Z) (name : string) (plugin : option Z) (db : ConfigDb) : ConfigDb :=
  (create_script (ex_env 1) (ex_env 2) id g (ex_script name plugin) db).1.
Definition ex_plugin : CreatePlugin := mkCreatePlugin "p" "short" "long" false true 9 PtScript.
Definition ex_with_plugin : ConfigDb :=
  match config_step (ex_env 1) (CCreatePlugin ex_plugin) config_init with Ret db => db | Panic => config_init end.

(** Two scripts of one guild without a plugin may have the same name, which the unique index is
    meant to prevent; deleting the name deletes both. *)
Example duplicate_script_names :
  let db := ex_create 1 "a" None (ex_create 1 "a" None config_init) in
  (list_scripts (ex_env 3) 1 db).2 =
    Ok [mkScript 2 "a" "src" true (mkContributes [] []) None (Some false);
        mkScript 1 "a" "src" true (mkContributes [] []) None (Some false)] ∧
  (list_scripts (ex_env 5) 1 (del_script (ex_env 4) 1 "a" db).1).2 = Ok [].
Proof. vm_compute. done. Qed.

(** The insertion with a plugin is refused the second time. *)
Example duplicate_plugin_script_refused :
  (create_script (ex_env 4) (ex_env 5) id 1 (ex_script "a" (Some 1)) (ex_create 1 "a" (Some 1) ex_with_plugin)).2 =
  Err (CsOther (UniqueViolation "guild_scripts_guild_id_name_key")).
Proof. vm_compute. done. Qed.

Lemma ex_init_ok : config_ok config_init.
Proof. apply config_reachable_ok. constructor. Qed.

Lemma ex_with_plugin_reachable : config_reachable ex_with_plugin.
Proof.
  apply (cr_step (ex_env 1) (CCreatePlugin ex_plugin) config_init); [constructor|vm_compute; split; discriminate|].
  vm_compute. reflexivity.
Qed.

Lemma config_store_never_panics_witness :
  config_ok ex_with_plugin ∧ ∃ db', config_step (ex_env 3) (CAddPlugin 7 1 true) ex_with_plugin = Ret db'.
Proof.
  apply (config_store_never_panics ex_with_plugin (ex_env 3) (CAddPlugin 7 1 true) ex_with_plugin_reachable).
  vm_compute. split; discriminate.
Defined.

Lemma script_count_bounded_witness :
  guild_script_count 1 (ex_create 1 "a" None config_init) = 1 ∧
  match create_script (ex_env 1) (ex_env 2) id 1 (ex_script "a" None) config_init with
  | (db', Ok s) => get_script_by_id (mkPgEnv 0 None) 1 (script_id s) db' = (db', Ok s)
  | _ => False
  end.
Proof.
  split; [vm_compute; reflexivity|].
  pose proof (script_count_bounded (ex_env 1) (ex_env 2) 1 (ex_script "a" None) config_init ex_init_ok) as H.
  assert (match (create_script (ex_env 1) (ex_env 2) id 1 (ex_script "a" None) config_init).2 with Ok _ => True | Err _ => False end)
    as Hok by (vm_compute; exact I).
  destruct (create_script (ex_env 1) (ex_env 2) id 1 (ex_script "a" None) config_init) as [db' [s|e]]; [|exact Hok].
  exact (proj2 (proj2 H)).
Defined.

Lemma added_plugin_is_not_stored_witness :
  match try_guild_add_script_plugin (ex_env 2) (ex_env 3) (ex_env 4) (ex_env 5) 7 1 true ex_with_plugin with
  | Ret (db', Ok s) => script_name s = "p" ∧ guild_scripts db' = guild_scripts ex_with_plugin
  | _ => False
  end.
Proof.
  assert (match try_guild_add_script_plugin (ex_env 2) (ex_env 3) (ex_env 4) (ex_env 5) 7 1 true ex_with_plugin with
          | Ret (_, Ok s) => script_name s = "p" | _ => False end) as Hn by (vm_compute; reflexivity).
  destruct (try_guild_add_script_plugin (ex_env 2) (ex_env 3) (ex_env 4) (ex_env 5) 7 1 true ex_with_plugin)
    as [[db' [s|e]]|] eqn:E; [|exact Hn|exact Hn].
  exact (conj Hn (added_plugin_is_not_stored _ _ _ _ _ _ _ _ _ _ E)).
Defined.

Lemma publish_updates_all_guilds_witness :
  match publish_script_plugin_version (ex_env 6) (ex_env 7) id 1 "v2" (ex_create 7 "a" (Some 1) ex_with_plugin) with
  | Ret (db', Ok gs) => gs = [7] ∧ ∃ v, plugins db' !! 1 = Some v ∧ pl_published_source v = Some "v2"
  | _ => False
  end.
Proof.
  assert (match publish_script_plugin_version (ex_env 6) (ex_env 7) id 1 "v2" (ex_create 7 "a" (Some 1) ex_with_plugin) with
          | Ret (_, Ok gs) => gs = [7] | _ => False end) as Hn by (vm_compute; reflexivity).
  destruct (publish_script_plugin_version (ex_env 6) (ex_env 7) id 1 "v2" (ex_create 7 "a" (Some 1) ex_with_plugin))
    as [[db' [gs|e]]|] eqn:E; [|exact Hn|exact Hn].
  exact (conj Hn (proj2 (proj2 (publish_updates_all_guilds _ _ _ _ _ _ _ E)))).
Defined.

Definition ex_slot : CreateUpdatePremiumSlotBySource :=
  mkCreateSlot "t" (Some 5) "m" "stripe" "sub1" Premium Active 5000 "url".

Lemma slot_upsert_by_source_witness :
  match create_update_premium_slot_by_source (ex_env 3) ex_slot config_init with
  | Ret (_, Ok s) => slot_tier s = Premium ∧ slot_attached_guild_id s = None
  | _ => False
  end.
Proof.
  assert (match create_update_premium_slot_by_source (ex_env 3) ex_slot config_init with
          | Ret (_, Ok s) => slot_attached_guild_id s = None | _ => False end) as Hn by (vm_compute; reflexivity).
  destruct (create_update_premium_slot_by_source (ex_env 3) ex_slot config_init) as [[db' [s|e]]|] eqn:E; [|exact Hn|exact Hn].
  assert (∀ u, cu_user_id ex_slot = Some u → valid_id u) as Hu
    by (intros u Hu; injection Hu as <-; vm_compute; split; discriminate).
  pose proof (slot_upsert_by_source (ex_env 3) ex_slot config_init db' s ex_init_ok Hu E) as (_ & _ & Ht & _).
  exact (conj Ht Hn).
Defined.

Definition ex_contribs : ScriptContributes :=
  mkContributes [mkTwCommand "ping" "" TwChatInput None []] [mkIntervalTimerContrib "tick" (Minutes 5)].

Lemma contributes_roundtrip_witness :
  match update_script_contributes (ex_env 3) 1 1 ex_contribs (ex_create 1 "a" None config_init) with
  | (db', Ok s) => script_contributes s = ex_contribs ∧ get_script_by_id (ex_env 4) 1 1 db' = (db', Ok s)
  | _ => False
  end.
Proof.
  assert (match (update_script_contributes (ex_env 3) 1 1 ex_contribs (ex_create 1 "a" None config_init)).2 with
          | Ok _ => True | Err _ => False end) as Hn by (vm_compute; exact I).
  destruct (update_script_contributes (ex_env 3) 1 1 ex_contribs (ex_create 1 "a" None config_init)) as [db' [s|e]] eqn:E;
    [|exact Hn].
  pose proof (contributes_roundtrip (ex_env 3) (ex_env 4) 1 1 ex_contribs _ db' s (conj eq_refl eq_refl) E eq_refl)
    as (Hc & Hg & _).
  exact (conj Hc Hg).
Defined.

Lemma ex_contrib_laws : ContribLaws ex_pg ex_codec.
Proof. split; [intros o; exists o|..]; done. Qed.

Lemma update_script_drops_commands_witness :
  match update_script (ex_env 3) 1 (mkUpdateScript 1 (Some "new name") None None (Some ex_contribs))
          (ex_create 1 "a" None config_init) with
  | (_, Ok s) => contrib_commands (script_contributes s) = [] ∧ script_name s = "a"
  | _ => False
  end.
Proof.
  assert (match update_script (ex_env 3) 1 (mkUpdateScript 1 (Some "new name") None None (Some ex_contribs))
                  (ex_create 1 "a" None config_init) with
          | (_, Ok s) => script_name s = "a" | _ => False end) as Hn by (vm_compute; reflexivity).
  destruct (update_script (ex_env 3) 1 (mkUpdateScript 1 (Some "new name") None None (Some ex_contribs))
    (ex_create 1 "a" None config_init)) as [db' [s|e]] eqn:E; [|exact Hn].
  exact (conj (proj1 (update_script_drops_commands (ContribLaws0 := ex_contrib_laws) (ex_env 3) 1
    (mkUpdateScript 1 (Some "new name") None None (Some ex_contribs)) ex_contribs _ db' s eq_refl E)) Hn).
Defined.
