(* ===== verification/IntegrationTests.v ===== *)
(** The integration tests ([cmd/scheduler/src/integration_testing.rs], the loop of
    [cmd/scheduler/src/main.rs] that waits for them, and [cmd/prepare-integration-tests]): scripts
    report their completion over the console, a backend of the guild logger counts, and the
    process ends when all have completed, one has failed, or nothing happens for too long.

    Times are milliseconds. A panic of the logger's task leaves the tracker as it was, and its lock
    poisoned if it was held. *)
From stdpp Require Import base gmap sets list strings.
From S2P Require Import Prelude Numbers Models ScriptStore Postgres ConfigStore.

(** * The tracker *)

Inductive IntegrationTestMessage := ScriptComplete.

(** [serde_json::from_str::<IntegrationTestMessage>] *)
Class TestJson := test_message_of : string → option IntegrationTestMessage.

Record TrackerState := mkTracker {
  completions : Z;
  tracker_err : option string;
  last_completion : Z;
  expecting_completions : Z;
}.

(** [Tracker]: the state behind its lock. *)
Record Tracker := mkTrackerLock { tk_state : TrackerState; tk_poisoned : bool }.

Inductive CompletionStatus :=
| TestsPending
| TestsTimeout
| TestsComplete (num : Z)
| TestsError (e : string).

Definition i32_limit : Z := 2 ^ 31 - 1.

Definition tracker_new (num_scripts now : Z) : Tracker := mkTrackerLock (mkTracker 0 None now num_scripts) false.

Section tracker.
Context `{!TestJson}.

(** [self.state.write().unwrap()], a change of the state, and whether it panicked while the lock was held. *)
Definition with_write (f : TrackerState → outcome TrackerState) (t : Tracker) : Tracker * outcome unit :=
  if tk_poisoned t then (t, Panic)
  else match f (tk_state t) with
       | Ret st => (mkTrackerLock st false, Ret tt)
       | Panic => (mkTrackerLock (tk_state t) true, Panic)
       end.

Definition handle_ig_test_message (now : Z) (msg : IntegrationTestMessage) (t : Tracker) : Tracker * outcome unit :=
  match msg with
  | ScriptComplete =>
      with_write (λ st,
        if completions st <? i32_limit
        then Ret (mkTracker (completions st + 1) (tracker_err st) now (expecting_completions st))
        else Panic) t
  end.

Definition handle_console_log (now : Z) (e : LogEntry) (t : Tracker) : Tracker * outcome unit :=
  match strip_prefix "INTEGRATION_TEST:" (le_message e) with
  | Some payload =>
      match test_message_of payload with
      | Some decoded => handle_ig_test_message now decoded t
      | None => (t, Panic)
      end
  | None => (t, Ret tt)
  end.

Definition handle_err (e : string) (t : Tracker) : Tracker * outcome unit :=
  with_write (λ st, Ret (mkTracker (completions st) (Some e) (last_completion st) (expecting_completions st))) t.

(** [GuildLoggerBackend::handle_entry] *)
Definition tracker_handle_entry (now : Z) (e : LogEntry) (t : Tracker) : Tracker * outcome unit :=
  match le_level e with
  | LCritical | LError => handle_err (le_message e) t
  | LWarn | LInfo => (t, Ret tt)
  | LConsoleLog => handle_console_log now e t
  end.

Definition is_complete (now : Z) (t : Tracker) : outcome CompletionStatus :=
  if tk_poisoned t then Panic
  else
    let st := tk_state t in
    Ret match tracker_err st with
        | Some e => TestsError e
        | None =>
            if expecting_completions st <=? completions st then TestsComplete (completions st)
            else if 120000 <? now - last_completion st then TestsTimeout
            else TestsPending
        end.

(** * The loop of [main] *)

(** How the process ends. *)
Inductive TestExit := ExitSuccess (ran : Z) | ExitTimeout | ExitError (e : string) | ExitPanic.

(** The logger's task hands entries over until one of them makes the tracker panic. *)
Fixpoint feed (entries : list (Z * LogEntry)) (t : Tracker) (running : bool) : Tracker * bool :=
  match entries with
  | [] => (t, running)
  | (now, e) :: entries =>
      if running then
        match tracker_handle_entry now e t with
        | (t, Ret _) => feed entries t true
        | (t, Panic) => (t, false)
        end
      else (t, false)
  end.

(** [fuel] rounds: a look at the tracker, at [now], and a second of sleep, in which [log k] is logged. *)
Fixpoint wait_tests (fuel k : nat) (log : nat → list (Z * LogEntry)) (now : Z) (t : Tracker) (running : bool)
    : option TestExit :=
  match fuel with
  | O => None
  | S fuel =>
      match is_complete now t with
      | Ret TestsPending =>
          let '(t, running) := feed (log k) t running in wait_tests fuel (S k) log (now + 1000) t running
      | Ret TestsTimeout => Some ExitTimeout
      | Ret (TestsComplete num) => Some (ExitSuccess num)
      | Ret (TestsError e) => Some (ExitError e)
      | Panic => Some ExitPanic
      end
  end.

(** * Facts *)

Definition is_completion (e : LogEntry) : bool :=
  match le_level e, strip_prefix "INTEGRATION_TEST:" (le_message e) with
  | LConsoleLog, Some p => bool_decide (is_Some (test_message_of p))
  | _, _ => false
  end.

Definition is_failure (e : LogEntry) : bool := match le_level e with LCritical | LError => true | _ => false end.

Definition count_completions (entries : list (Z * LogEntry)) : Z :=
  Z.of_nat (length (List.filter (λ te, is_completion te.2) entries)).

Lemma count_completions_app l1 l2 : count_completions (l1 ++ l2) = count_completions l1 + count_completions l2.
Proof. unfold count_completions. rewrite List.filter_app, length_app. lia. Qed.

Definition errored (t : Tracker) : bool := match tracker_err (tk_state t) with Some _ => true | None => false end.

(** One entry, handled: a completion counts and moves the time, an error is kept. *)
Lemma handle_entry_count now e t t' :
  tracker_handle_entry now e t = (t', Ret tt) →
  completions (tk_state t') = completions (tk_state t) + (if is_completion e then 1 else 0) ∧
  expecting_completions (tk_state t') = expecting_completions (tk_state t) ∧
  last_completion (tk_state t') = (if is_completion e then now else last_completion (tk_state t)) ∧
  errored t' = errored t || is_failure e.
Proof.
  unfold tracker_handle_entry, is_completion, is_failure, handle_console_log, handle_err, handle_ig_test_message, with_write, errored.
  destruct (le_level e);
    try (destruct (tk_poisoned t); intros [= <-]; simpl; rewrite ?orb_true_r, ?orb_false_r; split_and!; lia || done).
  destruct (strip_prefix _ _) as [p|]; [|intros [= <-]; rewrite orb_false_r; split_and!; lia || done].
  destruct (test_message_of p) as [[]|]; simpl; [|done]. destruct (tk_poisoned t); [done|].
  destruct (completions (tk_state t) <? i32_limit); [|done]. intros [= <-]. simpl. by rewrite orb_false_r.
Qed.

(** One that panics leaves the state. *)
Lemma handle_entry_panic now e t t' : tracker_handle_entry now e t = (t', Panic) → tk_state t' = tk_state t.
Proof.
  unfold tracker_handle_entry, handle_console_log, handle_err, handle_ig_test_message, with_write.
  destruct (le_level e); try (by destruct (tk_poisoned t); intros [= <-]).
  destruct (strip_prefix _ _) as [p|]; [|done]. destruct (test_message_of p) as [[]|]; [|by intros [= <-]].
  destruct (tk_poisoned t); [by intros [= <-]|]. destruct (_ <? _); [done|]. by intros [= <-].
Qed.

(** [t'] is [t] after [handled]: completions are counted, failures kept, times moved. *)
Record fed (t : Tracker) (handled : list (Z * LogEntry)) (t' : Tracker) : Prop := {
  fed_completions : completions (tk_state t') = completions (tk_state t) + count_completions handled;
  fed_expecting : expecting_completions (tk_state t') = expecting_completions (tk_state t);
  fed_errored : errored t' = errored t || existsb (λ te, is_failure te.2) handled;
  fed_last : last_completion (tk_state t') = last_completion (tk_state t) ∨
             0 < count_completions handled ∧ ∃ te, te ∈ handled ∧ last_completion (tk_state t') = te.1;
}.

Lemma fed_nil t t' : tk_state t' = tk_state t → fed t [] t'.
Proof. intros Hs. split; rewrite ?Hs; unfold errored; rewrite ?Hs, ?orb_false_r; [unfold count_completions; simpl; lia|done..|by left]. Qed.

Lemma count_completions_nonneg l : 0 ≤ count_completions l.
Proof. unfold count_completions. lia. Qed.

Lemma fed_trans t1 l1 t2 l2 t3 : fed t1 l1 t2 → fed t2 l2 t3 → fed t1 (l1 ++ l2) t3.
Proof.
  intros [Hc1 Hx1 He1 Hl1] [Hc2 Hx2 He2 Hl2].
  pose proof (count_completions_nonneg l1). pose proof (count_completions_nonneg l2).
  split; rewrite ?count_completions_app.
  - lia.
  - congruence.
  - by rewrite He2, He1, existsb_app, orb_assoc.
  - destruct Hl2 as [->|(? & te & ? & ->)]; [|right; split; [lia|]; exists te; split; [rewrite elem_of_app; auto|done]].
    destruct Hl1 as [->|(? & te & ? & ->)]; [by left|]. right. split; [lia|]. exists te. split; [rewrite elem_of_app; auto|done].
Qed.

Lemma fed_one now e t t' : tracker_handle_entry now e t = (t', Ret tt) → fed t [(now, e)] t'.
Proof.
  intros He. destruct (handle_entry_count _ _ _ _ He) as (Hc & Hx & Hl & Hr). unfold count_completions. simpl.
  destruct (is_completion e) eqn:Hi; split; unfold count_completions; simpl; rewrite ?Hi; simpl; rewrite ?orb_false_r; auto.
  right. split; [lia|]. exists (now, e). split; [by left|done].
Qed.

(** What the entries of one second do: those handled count, and all are while the task runs. *)
Lemma feed_fed entries t running t' running' :
  feed entries t running = (t', running') →
  ∃ handled, handled `prefix_of` entries ∧ fed t handled t' ∧ (running' = true → running = true ∧ handled = entries) ∧
             (running = false → handled = []).
Proof.
  revert t running. induction entries as [|[now e] entries IH]; intros t running; simpl.
  { intros [= <- <-]. exists []. split_and!; [done|by apply fed_nil|done..]. }
  destruct running; [|intros [= <- <-]; exists []; split_and!; [apply prefix_nil|by apply fed_nil|done..]].
  destruct (tracker_handle_entry now e t) as [t1 [[]|]] eqn:He.
  - intros Hf. destruct (IH _ _ Hf) as (l & Hl & Hfed & Hrun & _). exists ((now, e) :: l).
    split_and!; [by apply prefix_cons| |intros Hr; by destruct (Hrun Hr) as [_ ->]|done].
    apply (fed_trans t [(now, e)] t1 l); [by apply fed_one|done].
  - intros [= <- <-]. exists []. split_and!; [apply prefix_nil| |done..]. eapply fed_nil, handle_entry_panic, He.
Qed.

(** A look that goes on: nothing failed, scripts are missing, and the last report is recent. *)
Lemma is_complete_pending now t :
  is_complete now t = Ret TestsPending →
  errored t = false ∧ completions (tk_state t) < expecting_completions (tk_state t) ∧ now ≤ last_completion (tk_state t) + 120000.
Proof.
  unfold is_complete, errored. destruct (tk_poisoned t); [done|]. destruct (tracker_err _); [done|].
  destruct (Z.leb_spec (expecting_completions (tk_state t)) (completions (tk_state t))); [done|].
  destruct (Z.ltb_spec 120000 (now - last_completion (tk_state t))); [done|]. intros _. split_and!; [done|lia..].
Qed.

(** ** The wait ends *)

(** The clock at round [k], and entries logged in the second after it. *)
Definition timely (start : Z) (log : nat → list (Z * LogEntry)) : Prop :=
  ∀ k, Forall (λ te : Z * LogEntry, start + 1000 * Z.of_nat k ≤ te.1 ≤ start + 1000 * Z.of_nat k + 1000) (log k).

Lemma wait_tests_ends_from start log fuel k t running :
  timely start log → 0 ≤ completions (tk_state t) →
  last_completion (tk_state t) ≤ start + 121000 * completions (tk_state t) →
  121 * expecting_completions (tk_state t) < Z.of_nat fuel + Z.of_nat k → (0 < fuel)%nat →
  is_Some (wait_tests fuel k log (start + 1000 * Z.of_nat k) t running).
Proof.
  intros Htime. revert k t running. induction fuel as [|fuel IH]; intros k t running Hc Hlast Hfuel Hpos; [lia|]. simpl.
  destruct (is_complete _ t) as [[]|] eqn:Hst; [|by eexists..].
  apply is_complete_pending in Hst as (_ & Hmiss & Hrecent).
  destruct (feed (log k) t running) as [t' running'] eqn:Hf. destruct (feed_fed _ _ _ _ _ Hf) as (l & Hpre & [Hc' Hx' _ Hl'] & _).
  pose proof (count_completions_nonneg l).
  replace (start + 1000 * Z.of_nat k + 1000) with (start + 1000 * Z.of_nat (S k)) by lia.
  apply IH; [lia| |lia|lia].
  destruct Hl' as [->|(? & te & Hte & ->)]; [lia|].
  assert (te ∈ log k) as Hin. { destruct Hpre as [l2 ->]. rewrite elem_of_app. auto. }
  pose proof (proj1 (Forall_forall _ _) (Htime k) _ Hin) as Hb. simpl in Hb. lia.
Qed.

(** C23: The wait for the integration tests ends: whatever is logged, and however the logger's task
    fares, within 121 looks for each script expected, and one more. *)
Theorem wait_tests_terminates start log n :
  timely start log →
  is_Some (wait_tests (S (Z.to_nat (121 * n))) 0 log start (tracker_new n start) true).
Proof.
  intros Htime. pose proof (wait_tests_ends_from start log (S (Z.to_nat (121 * n))) 0 (tracker_new n start) true Htime) as Hends.
  replace (start + 1000 * Z.of_nat 0) with start in Hends by lia. apply Hends; simpl; lia.
Qed.

(** ** What its end means *)

(** The entries logged before look [k]. *)
Definition logged (log : nat → list (Z * LogEntry)) (k : nat) : list (Z * LogEntry) := concat (log <$> seq 0 k).

Lemma logged_S log k : logged log (S k) = logged log k ++ log k.
Proof. unfold logged. rewrite seq_S, fmap_app, concat_app. simpl. by rewrite app_nil_r. Qed.

Lemma is_complete_success now t m :
  is_complete now t = Ret (TestsComplete m) →
  errored t = false ∧ m = completions (tk_state t) ∧ expecting_completions (tk_state t) ≤ m.
Proof.
  unfold is_complete, errored. destruct (tk_poisoned t); [done|]. destruct (tracker_err _); [done|].
  destruct (Z.leb_spec (expecting_completions (tk_state t)) (completions (tk_state t))); [intros [= <-]; done|].
  by destruct (_ <? _).
Qed.

(** The tracker at look [k]: what was handled is a beginning of the log, all of it while the task runs. *)
Definition tracks (log : nat → list (Z * LogEntry)) (t0 : Tracker) (k : nat) (t : Tracker) (running : bool) : Prop :=
  ∃ handled, handled `prefix_of` logged log k ∧ fed t0 handled t ∧ (running = true → handled = logged log k).

Lemma feed_tracks log t0 k t running t' running' :
  tracks log t0 k t running → feed (log k) t running = (t', running') → tracks log t0 (S k) t' running'.
Proof.
  intros (h & Hpre & Hfed & Hall) Hf. destruct (feed_fed _ _ _ _ _ Hf) as (l & Hl & Hfed' & Hrun & Hstop).
  exists (h ++ l). rewrite logged_S. split_and!; [|by eapply fed_trans|intros Hr; destruct (Hrun Hr) as [Hr' ->]; by rewrite (Hall Hr')].
  destruct running; [rewrite (Hall eq_refl); by apply prefix_app|].
  rewrite (Hstop eq_refl), app_nil_r. by apply prefix_app_r.
Qed.

Lemma wait_tests_success_from fuel k log now t0 t running m :
  tracks log t0 k t running → wait_tests fuel k log now t running = Some (ExitSuccess m) →
  ∃ j t' running', tracks log t0 j t' running' ∧ errored t' = false ∧ m = completions (tk_state t') ∧
                   expecting_completions (tk_state t') ≤ m.
Proof.
  revert k now t running. induction fuel as [|fuel IH]; intros k now t running Ht; simpl; [done|].
  destruct (is_complete now t) as [[]|] eqn:Hst; try done.
  - destruct (feed (log k) t running) as [t' running'] eqn:Hf. by apply IH, (feed_tracks _ _ _ _ _ _ _ Ht).
  - intros [= <-]. exists k, t, running. by apply is_complete_success in Hst.
Qed.

(** A run that ends well: of what was logged until some look, a beginning has exactly the reported
    number of completions, at least one per script of the guild, and no error. *)
Theorem tests_success_sound fuel log start n m :
  wait_tests fuel 0 log start (tracker_new n start) true = Some (ExitSuccess m) →
  n ≤ m ∧ ∃ j handled, handled `prefix_of` logged log j ∧ count_completions handled = m ∧
                       Forall (λ te, is_failure te.2 = false) handled.
Proof.
  intros Hw. assert (tracks log (tracker_new n start) 0 (tracker_new n start) true) as Ht.
  { exists []. split_and!; [done|by apply fed_nil|done]. }
  destruct (wait_tests_success_from _ _ _ _ _ _ _ _ Ht Hw) as (j & t' & r & (h & Hpre & [Hc Hx He _] & _) & Herr & -> & Hm).
  rewrite Hx in Hm. rewrite He in Herr. simpl in Hc, Hm, Herr. split; [done|]. exists j, h. split_and!; [done|lia|].
  apply Forall_forall. intros te Hte. destruct (is_failure te.2) eqn:Hf; [|done].
  assert (existsb (λ te, is_failure te.2) h = true) as Hex; [|congruence].
  apply existsb_exists. exists te. by rewrite <- list_elem_of_In.
Qed.
End tracker.

(** * Preparing the tests: [cmd/prepare-integration-tests] *)

(** An entry of the directory: its name, if it is valid Unicode, and what reading it gives. *)
Record TestFile := mkTestFile { tf_name : option string; tf_contents : result string string }.

(** [str::ends_with] *)
Definition ends_with (suffix name : string) : bool := bool_decide (is_Some (strip_suffix suffix name)).

(** The compiled filter, as its [is_match]. *)
Definition selected (filter : option (string → bool)) (name : string) : bool :=
  ends_with ".ts" name && negb (ends_with ".d.ts" name) &&
  (bool_decide (name = "lib.ts") || match filter with Some is_match => is_match name | None => true end).

Inductive PrepareError := PrepareIo (e : string) | PrepareStore (e : ConfigStoreError).

Section prepare.
Context `{!Pg, !ContribCodec, !HashOrder Z}.

(** The loop of [main]: one statement pair per script, whose outcome [env] gives by its position. *)
Fixpoint prepare_scripts (env : nat → PgEnv * PgEnv) (guild_id : GuildId) (filter : option (string → bool))
    (dir : list (option TestFile)) (db : ConfigDb) : ConfigDb * outcome (result PrepareError unit) :=
  match dir with
  | [] => (db, Ret (Ok tt))
  | None :: _ => (db, Panic)
  | Some f :: dir =>
      match tf_name f with
      | None => (db, Panic)
      | Some name =>
          if selected filter name then
            match tf_contents f, strip_suffix ".ts" name with
            | Err e, _ => (db, Ret (Err (PrepareIo e)))
            | Ok _, None => (db, Panic)
            | Ok contents, Some stem =>
                let envs := env (length dir) in
                let (db, r) := create_script envs.1 envs.2 id guild_id (mkCreateScript stem contents true None None) db in
                match r with
                | Ok _ => prepare_scripts env guild_id filter dir db
                | Err e => (db, Ret (Err (PrepareStore e)))
                end
            end
          else prepare_scripts env guild_id filter dir db
      end
  end.

(** [main]: the filter is compiled, the directory opened, and its scripts created. *)
Definition prepare_main (regex : string → option (string → bool)) (env : nat → PgEnv * PgEnv) (guild_id : GuildId)
    (filter : option string) (dir : result string (list (option TestFile))) (db : ConfigDb)
    : ConfigDb * outcome (result PrepareError unit) :=
  match (match filter with
         | None => Ret None
         | Some f => do! r := unwrap (regex f) in Ret (Some r)
         end) with
  | Panic => (db, Panic)
  | Ret filter =>
      match dir with
      | Err e => (db, Ret (Err (PrepareIo e)))
      | Ok entries => prepare_scripts env guild_id filter entries db
      end
  end.

(** The scheduler then expects as many completions as the guild has scripts. *)
Definition start_tracker (env : PgEnv) (guild_id : GuildId) (now : Z) (db : ConfigDb) : result ConfigStoreError Tracker :=
  result_map (λ scripts, tracker_new (as_i32 (Z.of_nat (length scripts))) now) (list_scripts env guild_id db).2.

(** ** Facts *)

(** What a directory's selected scripts are, when all can be read. *)
Definition test_script (filter : option (string → bool)) (f : option TestFile) : option (string * string) :=
  f ← f; name ← tf_name f;
  if selected filter name then
    stem ← strip_suffix ".ts" name;
    match tf_contents f with Ok contents => Some (stem, contents) | Err _ => None end
  else None.

Definition script_text (s : DbScript) : string * string := (ds_name s, ds_original_source s).

(** The rows of a guild's scripts in the order of their ids, which is the order they were created in. *)
Definition added (db db' : ConfigDb) (g : GuildId) (texts : list (string * string)) : Prop :=
  guild_script_count g db' = guild_script_count g db + Z.of_nat (length texts) ∧
  script_seq db' = script_seq db + Z.of_nat (length texts) ∧
  (∀ i, i ≤ script_seq db → guild_scripts db' !! i = guild_scripts db !! i) ∧
  ∀ (j : nat) nc, texts !! j = Some nc →
    guild_scripts db' !! (script_seq db + 1 + Z.of_nat j) = Some (new_script g (mkCreateScript nc.1 nc.2 true None None)).

Lemma added_nil db g : added db db g [].
Proof. split_and!; simpl; [lia..|done|done]. Qed.

Lemma added_cons db g nc texts env1 env2 db1 s db2 :
  config_ok db → create_script env1 env2 id g (mkCreateScript nc.1 nc.2 true None None) db = (db1, Ok s) →
  added db1 db2 g texts → added db db2 g (nc :: texts).
Proof.
  intros Hok Hc (Hn & Hs & Hold & Hnew).
  pose proof (inner_create_script_effect env1 env2 g (mkCreateScript nc.1 nc.2 true None None) db) as He.
  unfold create_script in Hc. rewrite Hc in He. destruct He as (-> & _ & _ & _). simpl in *.
  assert (guild_scripts db !! (script_seq db + 1) = None) as Hfresh.
  { apply eq_None_not_Some. intros [r Hr]. apply (ok_scripts db Hok) in Hr. lia. }
  split_and!; simpl.
  - rewrite Hn. unfold guild_script_count. simpl. rewrite select_rows_insert_fresh by done.
    unfold script_of_guild at 1. simpl. rewrite Z.eqb_refl. lia.
  - lia.
  - intros i Hi. rewrite Hold by lia. rewrite lookup_insert_ne by lia. done.
  - intros [|j] nc' Hj; simpl in Hj.
    + injection Hj as <-. rewrite Hold by lia. replace (script_seq db + 1 + Z.of_nat 0) with (script_seq db + 1) by lia. apply lookup_insert_eq.
    + rewrite <- (Hnew _ _ Hj). f_equal. lia.
Qed.

Lemma prepare_scripts_added env g filter dir db db' :
  config_ok db → valid_id g → prepare_scripts env g filter dir db = (db', Ret (Ok tt)) →
  config_ok db' ∧ added db db' g (omap (test_script filter) dir).
Proof.
  intros Hok Hg. revert db Hok. induction dir as [|f dir IH]; intros db Hok; simpl.
  { intros [= <-]. split; [done|apply added_nil]. }
  destruct f as [f|]; [|done]. simpl. destruct (tf_name f) as [name|]; [|done]. simpl.
  destruct (selected filter name); [|by apply IH].
  destruct (tf_contents f) as [contents|]; [|done]. destruct (strip_suffix ".ts" name) as [stem|]; [|done]. simpl.
  destruct (create_script _ _ _ _ _ _) as [db1 [s|]] eqn:Hc; [|done]. intros Hp.
  pose proof (create_script_ok (env (length dir)).1 (env (length dir)).2 g (mkCreateScript stem contents true None None) db Hok Hg) as Hok1.
  unfold create_script in Hc. rewrite Hc in Hok1. destruct (IH _ Hok1 Hp) as [Hok' Hadd]. split; [done|].
  by eapply (added_cons db g (stem, contents)).
Qed.

Lemma selected_suffix filter name : selected filter name = true → is_Some (strip_suffix ".ts" name).
Proof. unfold selected, ends_with. rewrite !andb_true_iff, bool_decide_eq_true. tauto. Qed.

Lemma start_tracker_count now_env g now db :
  pg_error now_env = None → guild_script_count g db < 2 ^ 31 →
  start_tracker now_env g now db = Ok (tracker_new (guild_script_count g db) now).
Proof.
  intros He Hlt. unfold start_tracker, list_scripts, get_guild_scripts, exec. rewrite He. simpl. f_equal. f_equal.
  rewrite length_fmap. unfold guild_script_count, as_i32 in *. rewrite Z.mod_small; lia.
Qed.

(** A preparation that succeeds stores the selected test files as enabled scripts, in the order of
    the directory, leaves the scripts already there, and the scheduler then waits for one
    completion of each: of the files selected and of every script the guild had before. *)
Theorem prepared_tests_awaited regex env g filter dir db db' now_env now :
  config_ok db → valid_id g → prepare_main regex env g filter (Ok dir) db = (db', Ret (Ok tt)) →
  pg_error now_env = None → guild_script_count g db' < 2 ^ 31 →
  let texts := omap (test_script (filter ≫= regex)) dir in
  added db db' g texts ∧
  start_tracker now_env g now db' = Ok (tracker_new (guild_script_count g db + Z.of_nat (length texts)) now).
Proof.
  intros Hok Hg Hp He Hlt. unfold prepare_main in Hp.
  assert (prepare_scripts env g (filter ≫= regex) dir db = (db', Ret (Ok tt))) as Hs.
  { destruct filter as [f|]; [|done]. simpl in *. by destruct (regex f). }
  apply prepare_scripts_added in Hs as [_ Hadd]; [|done..]. split; [done|].
  rewrite start_tracker_count by done. by destruct Hadd as (-> & _).
Qed.
End prepare.

(** * Examples *)

#[local] Instance ex_test_json : TestJson := λ s, if bool_decide (s = "C") then Some ScriptComplete else None.

Definition ex_log (script msg : string) : LogEntry := mkLogEntry 1 msg (Some (mkScriptContext script None)) LConsoleLog.
Definition ex_first (entries : list (Z * LogEntry)) (k : nat) : list (Z * LogEntry) := match k with O => entries | _ => [] end.

(** Completions are counted whoever reports them: one script that reports twice hides another that never does. *)
Example one_script_reports_twice :
  wait_tests 243 0 (ex_first [(10, ex_log "a" "INTEGRATION_TEST:C"); (20, ex_log "a" "INTEGRATION_TEST:C")]) 0 (tracker_new 2 0) true =
  Some (ExitSuccess 2).
Proof. vm_compute. done. Qed.

(** A payload that does not decode ends the logger's task: the error logged after it is not seen, and the wait times out. *)
Example bad_payload_times_out :
  wait_tests 243 0 (ex_first [(10, ex_log "a" "INTEGRATION_TEST:?"); (20, log_error 1 "failed")]) 0 (tracker_new 2 0) true =
  Some ExitTimeout.
Proof. vm_compute. done. Qed.

Lemma wait_tests_terminates_witness :
  is_Some (wait_tests 243 0 (ex_first [(10, ex_log "a" "INTEGRATION_TEST:C")]) 0 (tracker_new 2 0) true).
Proof.
  apply (wait_tests_terminates 0 (ex_first [(10, ex_log "a" "INTEGRATION_TEST:C")]) 2).
  intros [|k]; simpl; [|constructor]. constructor; [simpl; lia|constructor].
Defined.

Lemma tests_success_sound_witness :
  2 ≤ 2 ∧ ∃ j handled,
    handled `prefix_of` logged (ex_first [(10, ex_log "a" "INTEGRATION_TEST:C"); (20, ex_log "b" "INTEGRATION_TEST:C")]) j ∧
    count_completions handled = 2 ∧ Forall (λ te, is_failure te.2 = false) handled.
Proof. apply (tests_success_sound 3 _ 0 2 2). vm_compute. reflexivity. Defined.

#[local] Existing Instances ex_pg ex_codec list_order.

Definition ex_dir : list (option TestFile) :=
  [Some (mkTestFile (Some "lib.ts") (Ok "l")); Some (mkTestFile (Some "a.ts") (Ok "a")); Some (mkTestFile (Some "b.ts") (Ok "b"));
   Some (mkTestFile (Some "types.d.ts") (Err "unread")); Some (mkTestFile (Some "README.md") (Err "unread"))].
Definition ex_regex (f : string) : option (string → bool) := Some (λ name, ends_with f name).
Definition ex_prepare : ConfigDb * outcome (result PrepareError unit) :=
  prepare_main ex_regex (λ _, (mkPgEnv 0 None, mkPgEnv 0 None)) 1 (Some "a.ts") (Ok ex_dir) config_init.

Lemma prepared_tests_awaited_witness :
  let texts := omap (test_script (Some "a.ts" ≫= ex_regex)) ex_dir in
  texts = [("lib", "l"); ("a", "a")] ∧ added config_init ex_prepare.1 1 texts ∧
  start_tracker (mkPgEnv 0 None) 1 5 ex_prepare.1 = Ok (tracker_new (guild_script_count 1 config_init + Z.of_nat (length texts)) 5).
Proof.
  split; [vm_compute; reflexivity|].
  apply (prepared_tests_awaited ex_regex (λ _, (mkPgEnv 0 None, mkPgEnv 0 None)) 1 (Some "a.ts") ex_dir config_init ex_prepare.1
           (mkPgEnv 0 None) 5); [apply ex_init_ok|unfold valid_id, u64_max; lia|vm_compute; reflexivity|reflexivity|vm_compute; reflexivity].
Defined.
