(* ===== verification/DbServer.v ===== *)
(** The database's own HTTP server ([cmd/dbserver/src/main.rs]): one route, over which payment
    notifications become premium slots, one statement after the other and in no transaction. *)
From stdpp Require Import base gmap list strings.
From S2P Require Import Prelude Models Postgres ConfigStore.

Record DbRequest := mkDbRequest {
  dr_method : string;
  dr_path : string;
  dr_body : result Z (list CreateUpdatePremiumSlotBySource); (* decoded, or the status of the extractor's refusal *)
}.

Definition INTERNAL_SERVER_ERROR : Z := 500.

Section server.
Context `{!Pg, !ContribCodec, !HashOrder Z}.
Implicit Types (env : nat → PgEnv) (db : ConfigDb).

(** The loop of the handler; [env k] is what happens to the statement for the [k]th slot. *)
Fixpoint create_update_slots env (k : nat) (body : list CreateUpdatePremiumSlotBySource) (res : list PremiumSlot) db
    : outcome (ConfigDb * result Z (list PremiumSlot)) :=
  match body with
  | [] => Ret (db, Ok res)
  | slot :: body =>
      do! (db, r) := create_update_premium_slot_by_source (env k) slot db in
      match r with
      | Ok v => create_update_slots env (S k) body (res ++ [v]) db
      | Err _ => Ret (db, Err INTERNAL_SERVER_ERROR)
      end
  end.

Definition handle_post_premium_slots_by_source env (body : list CreateUpdatePremiumSlotBySource) db
    : outcome (ConfigDb * result Z (list PremiumSlot)) := create_update_slots env 0 body [] db.

(** The router of [run_http_server]: axum's [get] also answers HEAD, and refuses other methods. *)
Definition run_http_server env (r : DbRequest) db : outcome (ConfigDb * result Z (list PremiumSlot)) :=
  if bool_decide (dr_path r = "/create_update_premium_slots_by_source") then
    if bool_decide (dr_method r = "GET") || bool_decide (dr_method r = "HEAD") then
      match dr_body r with
      | Ok body => handle_post_premium_slots_by_source env body db
      | Err status => Ret (db, Err status)
      end
    else Ret (db, Err 405)
  else Ret (db, Err 404).

(** * Facts *)

Definition slots_valid (body : list CreateUpdatePremiumSlotBySource) : Prop :=
  Forall (λ slot, ∀ u, cu_user_id slot = Some u → valid_id u) body.

(** A slot answers for a notification. *)
Definition answers (slot : CreateUpdatePremiumSlotBySource) (s : PremiumSlot) : Prop :=
  slot_source s = cu_source slot ∧ slot_source_id s = cu_source_id slot ∧ slot_tier s = cu_tier slot ∧ slot_state s = cu_state slot.

Lemma slot_of_db_answers i slot created updated expires attached y :
  slot_of_db i (mkDbSlot (cu_title slot) (u64_as_i64 <$> cu_user_id slot) (cu_message slot) (cu_source slot) (cu_source_id slot)
    (tier_to_int (cu_tier slot)) (state_to_int (cu_state slot)) created updated expires (cu_manage_url slot) attached) = Ret y →
  answers slot y.
Proof.
  unfold slot_of_db, answers. simpl. destruct (opt_outcome _ _); simpl; [|done].
  rewrite tier_int_roundtrip, state_int_roundtrip. simpl. destruct (opt_outcome _ _); simpl; [|done]. by intros [= <-].
Qed.

(** One notification: an answer of its own, or an error that changes nothing. *)
Lemma create_update_effect e slot db :
  config_ok db → (∀ u, cu_user_id slot = Some u → valid_id u) →
  ∃ db' r, create_update_premium_slot_by_source e slot db = Ret (db', r) ∧ config_ok db' ∧
    match r with Ok s => answers slot s | Err _ => db' = db end.
Proof.
  intros Hok Hu. pose proof (upsert_slot_good (pg_now e) slot db Hok Hu) as Hgood.
  unfold create_update_premium_slot_by_source, convert_row, exec, good_stmt, upsert_slot in *.
  destruct (pg_error e); simpl; [by eexists _, _|]. destruct (i64_max <=? slot_seq db); [by eexists _, _|].
  destruct (find_slot_by_source _ _ db) as [[i v]|]; simpl in *; destruct Hgood as [Hok' [y Hy]]; rewrite Hy; simpl;
    eexists _, _; split_and!; [done|done|by eapply slot_of_db_answers|done|done|by eapply slot_of_db_answers].
Qed.

Lemma create_update_slots_prefix env body : ∀ k res db,
  config_ok db → slots_valid body →
  ∃ db' r, create_update_slots env k body res db = Ret (db', r) ∧ config_ok db' ∧
    match r with
    | Ok slots => ∃ new, slots = res ++ new ∧ Forall2 answers body new
    | Err status => status = INTERNAL_SERVER_ERROR ∧ ∃ stored slot rest new, body = stored ++ slot :: rest ∧
        create_update_slots env k stored res db = Ret (db', Ok (res ++ new)) ∧ Forall2 answers stored new ∧
        ∃ e, create_update_premium_slot_by_source (env (k + length stored)%nat) slot db' = Ret (db', Err e)
    end.
Proof.
  induction body as [|slot body IH]; intros k res db Hok Hv; simpl.
  { exists db, (Ok res). split_and!; [done..|]. exists []. by rewrite app_nil_r. }
  apply Forall_cons in Hv as [Hs Hv]. destruct (create_update_effect (env k) slot db Hok Hs) as (db1 & r & Hc & Hok1 & Hr).
  rewrite Hc. simpl. destruct r as [v|e].
  - destruct (IH (S k) (res ++ [v]) db1 Hok1 Hv) as (db' & r & Hrun & Hok' & Hr'). exists db', r. split_and!; [done..|].
    destruct r as [slots|status].
    + destruct Hr' as (new & -> & Hn). exists (v :: new). rewrite <- app_assoc. split; [done|by constructor].
    + destruct Hr' as (-> & stored & slot' & rest & new & -> & Hst & Hn & e & He). split; [done|].
      exists (slot :: stored), slot', rest, (v :: new). rewrite <- app_assoc in Hst. simpl. rewrite Hc. simpl.
      replace (k + S (length stored))%nat with (S k + length stored)%nat by lia.
      split_and!; [done|done|by constructor|eauto].
  - subst db1. exists db, (Err INTERNAL_SERVER_ERROR). split_and!; [done..|]. exists [], slot, body, [].
    rewrite app_nil_r. simpl. replace (k + 0)%nat with k by lia. split_and!; [done|done|constructor|eauto].
Qed.

(** C40: A batch of payment notifications: the server never panics and keeps the tables well formed. An
    answer has one slot per notification, in order; an error means that exactly the notifications
    before the first refused one are stored, with nothing to tell the caller so. *)
Theorem slots_stored_up_to_refusal env body db :
  config_ok db → slots_valid body →
  ∃ db' r, run_http_server env (mkDbRequest "GET" "/create_update_premium_slots_by_source" (Ok body)) db = Ret (db', r) ∧ config_ok db' ∧
    match r with
    | Ok slots => Forall2 answers body slots
    | Err status => status = INTERNAL_SERVER_ERROR ∧ ∃ stored slot rest slots e, body = stored ++ slot :: rest ∧
        handle_post_premium_slots_by_source env stored db = Ret (db', Ok slots) ∧ Forall2 answers stored slots ∧
        create_update_premium_slot_by_source (env (length stored)) slot db' = Ret (db', Err e)
    end.
Proof.
  intros Hok Hv. destruct (create_update_slots_prefix env body 0 [] db Hok Hv) as (db' & r & Hrun & Hok' & Hr).
  exists db', r. split_and!; [done..|]. destruct r as [slots|status].
  - by destruct Hr as (new & -> & Hn).
  - destruct Hr as (-> & stored & slot & rest & new & -> & Hst & Hn & e & He). split; [done|]. by exists stored, slot, rest, new, e.
Qed.
End server.

#[local] Existing Instances ex_pg ex_codec list_order.

Definition ex_slots : list CreateUpdatePremiumSlotBySource :=
  [ex_slot; mkCreateSlot "u" (Some 6) "m" "stripe" "sub2" Lite Active 5000 "url"].

(** The second statement fails: the first slot stays. *)
Definition ex_outage (k : nat) : PgEnv := mkPgEnv 3 (match k with 1%nat => Some (SqlxOther "connection lost") | _ => None end).

Lemma slots_stored_up_to_refusal_witness :
  ∃ db' r, run_http_server ex_outage (mkDbRequest "GET" "/create_update_premium_slots_by_source" (Ok ex_slots)) config_init = Ret (db', r) ∧
    config_ok db' ∧
    match r with
    | Ok slots => Forall2 answers ex_slots slots
    | Err status => status = INTERNAL_SERVER_ERROR ∧ ∃ stored slot rest slots e, ex_slots = stored ++ slot :: rest ∧
        handle_post_premium_slots_by_source ex_outage stored config_init = Ret (db', Ok slots) ∧ Forall2 answers stored slots ∧
        create_update_premium_slot_by_source (ex_outage (length stored)) slot db' = Ret (db', Err e)
    end.
Proof.
  apply (slots_stored_up_to_refusal ex_outage ex_slots config_init); [apply ex_init_ok|].
  apply Forall_cons. split; [|apply Forall_cons; split; [|apply Forall_nil; exact I]];
    intros u Hu; injection Hu as <-; vm_compute; split; discriminate.
Defined.

Example outage_keeps_first_slot :
  match run_http_server ex_outage (mkDbRequest "GET" "/create_update_premium_slots_by_source" (Ok ex_slots)) config_init with
  | Ret (db', Err status) => status = 500 ∧ size (premium_slots db') = 1%nat
  | _ => False
  end.
Proof. vm_compute. done. Qed.

(** The handler named after POST is only routed for GET. *)
Example post_refused : run_http_server ex_outage (mkDbRequest "POST" "/create_update_premium_slots_by_source" (Ok ex_slots)) config_init =
  Ret (config_init, Err 405).
Proof. reflexivity. Qed.
