(* ===== verification/ReadOnlyStore.v ===== *)
(** The read-only config store ([components/stores/src/inmemory/readonly_configstore.rs]): the
    scripts of one guild, fixed. Most of the trait is [todo!()], which panics. *)
From stdpp Require Import base gmap list strings.
From S2P Require Import Prelude Numbers Models WorkerPool Postgres BucketStore ConfigStore.

Record ReadOnlyConfigStore := mkReadOnly { ro_guild_id : Z; ro_scripts : list Script }.

Definition find_script (p : Script → bool) (guild_id : Z) (st : ReadOnlyConfigStore) : result ConfigStoreError Script :=
  if guild_id =? ro_guild_id st then
    match find_first p (ro_scripts st) with Some s => Ok s | None => Err ScriptNotFound end
  else Err ScriptNotFound.

Definition get_script (guild_id : Z) (name : string) (st : ReadOnlyConfigStore) : result ConfigStoreError Script :=
  find_script (λ item, bool_decide (script_name item = name)) guild_id st.

Definition get_script_by_id (guild_id id : Z) (st : ReadOnlyConfigStore) : result ConfigStoreError Script :=
  find_script (λ item, script_id item =? id) guild_id st.

(** Nothing is stored: the caller gets the script as if it had been. *)
Definition update_script_contributes (guild_id id : Z) (contribs : ScriptContributes) (st : ReadOnlyConfigStore)
    : result ConfigStoreError Script :=
  match get_script_by_id guild_id id st with
  | Ok s => Ok (mkScript (script_id s) (script_name s) (original_source s) (script_enabled s) contribs
                  (script_plugin_id s) (script_plugin_auto_update s))
  | Err e => Err e
  end.

Definition list_scripts (guild_id : Z) (st : ReadOnlyConfigStore) : result ConfigStoreError (list Script) :=
  Ok (if guild_id =? ro_guild_id st then ro_scripts st else []).

Definition get_guild_meta_config (_ : Z) (_ : ReadOnlyConfigStore) : result ConfigStoreError (option GuildMetaConfig) := Ok None.
Definition add_update_joined_guild (g : JoinedGuild) (_ : ReadOnlyConfigStore) : result ConfigStoreError JoinedGuild := Ok g.
Definition is_guild_whitelisted (_ : Z) (_ : ReadOnlyConfigStore) : result ConfigStoreError bool := Ok true.
Definition delete_guild_config_data (_ : Z) (_ : ReadOnlyConfigStore) : result ConfigStoreError unit := Ok tt.

(** * Facts *)

Lemma first_of_filter {T} (p q : T → bool) l :
  head (List.filter (λ x, p x && q x) l) = find_first q (List.filter p l).
Proof.
  induction l as [|x l IH]; simpl; [done|]. destruct (p x); simpl; [|done]. by destruct (q x).
Qed.

Lemma find_first_fmap {T U} (f : T → U) (p : U → bool) l :
  find_first p (f <$> l) = f <$> find_first (λ x, p (f x)) l.
Proof. induction l as [|x l IH]; simpl; [done|]. by destruct (p (f x)). Qed.

Lemma find_first_ext {T} (p q : T → bool) l :
  (∀ x, x ∈ l → p x = q x) → find_first p l = find_first q l.
Proof.
  induction l as [|x l IH]; intros He; simpl; [done|]. rewrite (He x) by constructor. destruct (q x); [done|].
  apply IH. intros y Hy. apply He. by constructor.
Qed.

(** * Properties *)

Section agreement.
Context `{!Pg, !ContribCodec, !HashOrder Z}.

(** The store that holds what the database says of a guild. *)
Definition snapshot (env : PgEnv) (g : Z) (db : ConfigDb) : ReadOnlyConfigStore :=
  mkReadOnly g (match (ConfigStore.list_scripts env g db).2 with Ok l => l | Err _ => [] end).

(** A snapshot of a guild's scripts answers for that guild as the database does: the same
    list, the same script for a name and for an id. Where there is none, both say so; for an id
    the database's error is the one of the query. For any other guild it knows nothing. *)
Theorem snapshot_agrees env g db :
  pg_error env = None → config_ok db →
  let st := snapshot env g db in
  list_scripts g st = (ConfigStore.list_scripts env g db).2 ∧
  (∀ name, get_script g name st = (ConfigStore.get_script env g name db).2) ∧
  (∀ id, 0 ≤ id ≤ u64_max → get_script_by_id g id st =
     match (ConfigStore.get_script_by_id env g id db).2 with Ok s => Ok s | Err _ => Err ScriptNotFound end) ∧
  (∀ g' name id, g' ≠ g → get_script g' name st = Err ScriptNotFound ∧ get_script_by_id g' id st = Err ScriptNotFound ∧
     list_scripts g' st = Ok []).
Proof.
  intros Henv Hok st.
  set (rows := select_rows (script_of_guild g) (guild_scripts db)).
  assert (ConfigStore.list_scripts env g db = (db, Ok ((λ ir : Z * DbScript, script_of_db ir.1 ir.2) <$> rows))) as Hl
    by (unfold ConfigStore.list_scripts, get_guild_scripts, exec; by rewrite Henv).
  assert (st = mkReadOnly g ((λ ir : Z * DbScript, script_of_db ir.1 ir.2) <$> rows)) as ->
    by (unfold st, snapshot; by rewrite Hl).
  unfold get_script, get_script_by_id, list_scripts, find_script. rewrite Hl. simpl. rewrite Z.eqb_refl. split_and!.
  - done.
  - intros name. rewrite find_first_fmap. simpl. unfold ConfigStore.get_script, get_db_script_by_name, exec. rewrite Henv.
    unfold select_rows. pose proof (first_of_filter (script_of_guild g) (λ ir, bool_decide (ds_name ir.2 = name)) (hiter (guild_scripts db))) as Hf.
    change (λ x, script_of_guild g x && _) with (script_named g name) in Hf. fold (select_rows (script_of_guild g) (guild_scripts db)) in Hf.
    fold rows in Hf. rewrite <- Hf. by destruct (List.filter (script_named g name) _).
  - intros id Hid. rewrite find_first_fmap. simpl. unfold ConfigStore.get_script_by_id, get_db_script_by_id, exec. rewrite Henv.
    pose proof (first_of_filter (script_of_guild g) (λ ir, ir.1 =? u64_as_i64 id) (hiter (guild_scripts db))) as Hf.
    change (λ x, script_of_guild g x && _) with (script_with_id g (u64_as_i64 id)) in Hf.
    fold (select_rows (script_of_guild g) (guild_scripts db)) in Hf. fold rows in Hf.
    assert (find_first (λ x, i64_as_u64 x.1 =? id) rows = find_first (λ ir, ir.1 =? u64_as_i64 id) rows) as ->.
    { apply find_first_ext. intros [i r] Hin. apply list_elem_of_In, filter_In in Hin as [Hin _].
      apply list_elem_of_In, elem_of_hiter in Hin. destruct (ok_scripts _ Hok i r Hin) as [Hi _]. pose proof (ok_script_seq _ Hok).
      simpl. unfold i64_as_u64, u64_as_i64, u64_max, i64_max in *. rewrite Z.mod_small by lia.
      destruct (Z.leb_spec id (2 ^ 63 - 1)); [done|]. destruct (Z.eqb_spec i id), (Z.eqb_spec i (id - 2 ^ 64)); lia. }
    rewrite <- Hf. unfold select_rows. destruct (List.filter (script_with_id _ _) _); simpl; [|done]. done.
  - intros g' name id Hne. by rewrite (proj2 (Z.eqb_neq _ _) Hne).
Qed.
End agreement.

(** ** Instances *)

Definition ex_row : DbScript := mkDbScript 7 "src" "a" true (JArray []) (JArray []) None None.
Definition ex_db : ConfigDb := set_scripts 1 {[1 := ex_row]} config_init.

Lemma ex_db_ok : config_ok ex_db.
Proof.
  apply config_ok_scripts; [exact ex_init_ok|vm_compute; by split|]. intros i r [<- <-]%lookup_singleton_Some.
  by split; [lia|].
Qed.

#[local] Existing Instance ex_pg.
#[local] Existing Instance ex_codec.
#[local] Existing Instance list_order.

Lemma snapshot_agrees_witness :
  list_scripts 7 (snapshot (ex_env 1) 7 ex_db) = (ConfigStore.list_scripts (ex_env 1) 7 ex_db).2 ∧
  get_script 7 "a" (snapshot (ex_env 1) 7 ex_db) = (ConfigStore.get_script (ex_env 1) 7 "a" ex_db).2.
Proof.
  destruct (snapshot_agrees (ex_env 1) 7 ex_db eq_refl ex_db_ok) as (Hl & Hn & _). split; [exact Hl|exact (Hn "a")].
Defined.
