(* ===== verification/Sessions.v ===== *)
(** Web sessions and CSRF tokens ([components/stores/src/web.rs], [inmemory/web.rs],
    [postgres/web.rs]): the two implementations of the [SessionStore] trait and the in-memory
    [CsrfStore].

    The trait is the record [SessionStore] of operations on a state; [memory_store] and
    [postgres_store] are its instances and [session_stores_agree] compares them. A token comes
    from the random generator of the process, an input of the operations that draw one. *)
From stdpp Require Import base gmap list strings sorting.
From S2P Require Import Prelude Numbers Models WorkerPool Commands World Postgres BucketStore ConfigStore.

(** * components/stores/src/web.rs *)

Inductive SessionType := UserSession | ApiKey.
#[global] Instance SessionType_eq_dec : EqDecision SessionType.
Proof. solve_decision. Defined.

(** [twilight_model::user::CurrentUser]; [cur_details] stands for the fields neither store looks
    at: bot, email, flags, locale, mfa_enabled, premium_type, public_flags, verified,
    accent_color and banner. *)
Record CurrentUser `{ImageHashes} (Details : Type) := mkUser {
  cur_id : Z;
  cur_name : string;
  cur_discriminator : Z;
  cur_avatar : option ImageHash;
  cur_details : Details;
}.
Arguments mkUser {_ Details}.
Arguments cur_id {_ Details}.
Arguments cur_name {_ Details}.
Arguments cur_discriminator {_ Details}.
Arguments cur_avatar {_ Details}.
Arguments cur_details {_ Details}.

Record DiscordOauthToken := mkOauthToken {
  oa_user_id : Z;
  oa_access_token : string;
  oa_refresh_token : string;
  oa_token_expires : Z;
}.

Section sessions.
Context `{!ImageHashes} {Details : Type}.

Record Session := mkSession {
  ses_oauth_token : DiscordOauthToken;
  ses_token : string;
  ses_kind : SessionType;
  ses_user : CurrentUser Details;
  ses_created_at : Z;
}.

Inductive SessionError :=
| OauthTokenNotFound
| ApiKeyLimitReached (count limit : Z)
| SessionSql (e : SqlxError).

(** The trait. Each operation takes the state and the clock; those that create a session take
    the tokens [gen_token] will produce, and [None] is a search that has not ended yet. A panic
    is [Some Panic]. *)
Record SessionStore (S : Type) := mkStore {
  set_user_oatuh_token : PgEnv → DiscordOauthToken → S → outcome (S * result SessionError DiscordOauthToken);
  create_session : PgEnv → list string → CurrentUser Details → SessionType → S → option (outcome (S * result SessionError Session));
  get_oauth_token : PgEnv → Z → S → outcome (S * result SessionError DiscordOauthToken);
  get_session : PgEnv → string → S → outcome (S * result SessionError (option Session));
  get_all_sessions : PgEnv → Z → S → outcome (S * result SessionError (list Session));
  del_session : PgEnv → string → S → S * result SessionError bool;
  del_all_sessions : PgEnv → Z → S → S * result SessionError unit;
}.
Arguments mkStore {S}.
Arguments set_user_oatuh_token {S}.
Arguments create_session {S}.
Arguments get_oauth_token {S}.
Arguments get_session {S}.
Arguments get_all_sessions {S}.
Arguments del_session {S}.
Arguments del_all_sessions {S}.

(** [set_oauth_create_session], the same code in both stores. *)
Definition set_oauth_create_session {S} (store : SessionStore S) (env : PgEnv) (tokens : list string)
    (oauth_token : DiscordOauthToken) (user : CurrentUser Details) (kind : SessionType) (s : S)
    : option (outcome (S * result SessionError Session)) :=
  match set_user_oatuh_token store env oauth_token s with
  | Panic => Some Panic
  | Ret (s, Err e) => Some (Ret (s, Err e))
  | Ret (s, Ok _) => create_session store env tokens user kind s
  end.

(** [DiscordOauthToken::new]: the expiry of the token, a week when Discord sends none. *)
Definition oauth_token_new `{Calendar} (utc_now user_id : Z) (access : string) (refresh : option string) (expires_in : option Z)
    : outcome DiscordOauthToken :=
  do! d := unwrap (duration_from_std (default (from_secs (60 * 60 * 24 * 7)) expires_in)) in
  do! e := dt_add utc_now d in
  Ret (mkOauthToken user_id access (default "" refresh) e).

(** * components/stores/src/inmemory/web.rs *)

Record BareSession := mkBare {
  bs_token : string;
  bs_user : CurrentUser Details;
  bs_kind : SessionType;
  bs_created_at : Z;
}.

Record InMemorySessionStore := mkMem {
  mem_sessions : gmap string BareSession;
  mem_tokens : gmap Z DiscordOauthToken;
}.

Definition bare_session_full (t : DiscordOauthToken) (s : BareSession) : Session :=
  mkSession t (bs_token s) (bs_kind s) (bs_user s) (bs_created_at s).

Section memory.
Context `{!HashOrder string}.

Definition mem_set_token (env : PgEnv) (t : DiscordOauthToken) (s : InMemorySessionStore)
    : outcome (InMemorySessionStore * result SessionError DiscordOauthToken) :=
  Ret (mkMem (mem_sessions s) (<[oa_user_id t := t]> (mem_tokens s)), Ok t).

(** The loop draws tokens until one is not in use. *)
Definition mem_create (env : PgEnv) (tokens : list string) (user : CurrentUser Details) (kind : SessionType) (s : InMemorySessionStore)
    : option (outcome (InMemorySessionStore * result SessionError Session)) :=
  match mem_tokens s !! cur_id user with
  | None => Some (Ret (s, Err OauthTokenNotFound))
  | Some oauth_token =>
      match find_first (λ t, bool_decide (mem_sessions s !! t = None)) tokens with
      | None => None
      | Some token =>
          let bare := mkBare token user kind (pg_now env) in
          Some (Ret (mkMem (<[token := bare]> (mem_sessions s)) (mem_tokens s), Ok (bare_session_full oauth_token bare)))
      end
  end.

Definition mem_get_token (env : PgEnv) (user_id : Z) (s : InMemorySessionStore)
    : outcome (InMemorySessionStore * result SessionError DiscordOauthToken) :=
  Ret (s, match mem_tokens s !! user_id with Some t => Ok t | None => Err OauthTokenNotFound end).

Definition mem_get_session (env : PgEnv) (token : string) (s : InMemorySessionStore)
    : outcome (InMemorySessionStore * result SessionError (option Session)) :=
  Ret (s, match mem_sessions s !! token with
          | None => Ok None
          | Some b =>
              match mem_tokens s !! cur_id (bs_user b) with
              | None => Err OauthTokenNotFound
              | Some t => Ok (Some (bare_session_full t b))
              end
          end).

Definition mem_get_all (env : PgEnv) (user_id : Z) (s : InMemorySessionStore)
    : outcome (InMemorySessionStore * result SessionError (list Session)) :=
  Ret (s, Ok (match mem_tokens s !! user_id with
              | None => []
              | Some t => (λ kb : string * BareSession, bare_session_full t kb.2) <$>
                            List.filter (λ kb : string * BareSession, cur_id (bs_user kb.2) =? user_id) (hiter (mem_sessions s))
              end)).

Definition mem_del (env : PgEnv) (token : string) (s : InMemorySessionStore) : InMemorySessionStore * result SessionError bool :=
  (mkMem (delete token (mem_sessions s)) (mem_tokens s), Ok (bool_decide (is_Some (mem_sessions s !! token)))).

Definition mem_del_all (env : PgEnv) (user_id : Z) (s : InMemorySessionStore) : InMemorySessionStore * result SessionError unit :=
  (mkMem (filter (λ kb : string * BareSession, cur_id (bs_user kb.2) ≠ user_id) (mem_sessions s)) (mem_tokens s), Ok tt).

Definition memory_store : SessionStore InMemorySessionStore :=
  mkStore mem_set_token mem_create mem_get_token mem_get_session mem_get_all mem_del mem_del_all.
End memory.

(** ** CSRF tokens *)

Definition generate_csrf_token (tokens : list string) (s : gset string) : option (gset string * string) :=
  match find_first (λ t, negb (bool_decide (t ∈ s))) tokens with
  | None => None
  | Some t => Some ({[t]} ∪ s, t)
  end.

Definition check_csrf_token (token : string) (s : gset string) : gset string * bool :=
  (s ∖ {[token]}, bool_decide (token ∈ s)).

(** * components/stores/src/postgres/web.rs *)

Definition USER_API_KEY_LIMIT : Z := 100.

Record DbOauthToken := mkDbToken {
  do_bearer_token : string;
  do_refresh_token : string;
  do_expires_at : Z;
}.

Record DbSession := mkDbSession {
  dss_kind : Z;
  dss_user_id : Z;
  dss_discriminator : Z;
  dss_username : string;
  dss_avatar : string;
  dss_created_at : Z;
}.

(** [web_sessions.user_id] references [discord_oauth_tokens] ON DELETE CASCADE. *)
Record WebDb := mkWebDb {
  discord_oauth_tokens : gmap Z DbOauthToken;
  web_sessions : gmap string DbSession;
}.

Definition kind_to_i16 (k : SessionType) : Z := match k with UserSession => 1 | ApiKey => 2 end.
Definition kind_of_i16 (n : Z) : outcome SessionType :=
  if n =? 1 then Ret UserSession else if n =? 2 then Ret ApiKey else Panic.

(** [v as i16] for a [u16] and back *)
Definition u16_as_i16 (v : Z) : Z := if v <=? 2 ^ 15 - 1 then v else v - 2 ^ 16.
Definition i16_as_u16 (v : Z) : Z := v mod 2 ^ 16.

Definition token_of_db (user_id : Z) (t : DbOauthToken) : outcome DiscordOauthToken :=
  do! u := id_new (i64_as_u64 user_id) in
  Ret (mkOauthToken u (do_bearer_token t) (do_refresh_token t) (do_expires_at t)).

(** [impl From<DbSession> for CurrentUser]: [no_details] are the fields it leaves empty. *)
Definition user_of_db (no_details : Details) (s : DbSession) : outcome (CurrentUser Details) :=
  do! u := id_new (i64_as_u64 (dss_user_id s)) in
  Ret (mkUser u (dss_username s) (i16_as_u16 (dss_discriminator s))
         (if bool_decide (dss_avatar s = "") then None else hash_from_str (dss_avatar s)) no_details).

Definition session_of_db (no_details : Details) (t : DiscordOauthToken) (token : string) (s : DbSession) : outcome Session :=
  do! kind := kind_of_i16 (dss_kind s) in
  do! user := user_of_db no_details s in
  Ret (mkSession t token kind user (dss_created_at s)).

Section postgres.
Context `{!Pg, !HashOrder string} (no_details : Details).

Definition get_api_key_count (env : PgEnv) (user_id : Z) (db : WebDb) : WebDb * result SqlxError Z :=
  exec env (λ db, Ok (db, Z.of_nat (length (List.filter (λ ks : string * DbSession,
    (dss_user_id ks.2 =? u64_as_i64 user_id) && (dss_kind ks.2 =? kind_to_i16 ApiKey)) (hiter (web_sessions db)))))) db.

(** SELECT .. FROM discord_oauth_tokens WHERE user_id = $1, [fetch_one] *)
Definition select_token (user_id : Z) : stmt WebDb DbOauthToken := λ db,
  match discord_oauth_tokens db !! user_id with
  | Some t => Ok (db, t)
  | None => Err RowNotFound
  end.

Definition pg_set_token (env : PgEnv) (t : DiscordOauthToken) (db : WebDb)
    : outcome (WebDb * result SessionError DiscordOauthToken) :=
  let u := u64_as_i64 (oa_user_id t) in
  let r := mkDbToken (oa_access_token t) (oa_refresh_token t) (timestamptz (oa_token_expires t)) in
  match exec env (λ db, Ok (mkWebDb (<[u := r]> (discord_oauth_tokens db)) (web_sessions db), r)) db with
  | (db, Err e) => Ret (db, Err (SessionSql e))
  | (db, Ok r) => do! t := token_of_db u r in Ret (db, Ok t)
  end.

Definition insert_session (token : string) (r : DbSession) : stmt WebDb DbSession := λ db,
  if bool_decide (is_Some (web_sessions db !! token)) then Err (UniqueViolation "web_sessions_pkey")
  else if bool_decide (is_Some (discord_oauth_tokens db !! dss_user_id r)) then
    Ok (mkWebDb (discord_oauth_tokens db) (<[token := r]> (web_sessions db)), r)
  else Err (ForeignKeyViolation "web_sessions_user_id_fkey").

(** [create_session] after the limit of API keys. The first token drawn is used: one that is
    taken violates the primary key. *)
Definition pg_insert (env : PgEnv) (tokens : list string) (user : CurrentUser Details) (kind : SessionType) (db : WebDb)
    : option (outcome (WebDb * result SessionError Session)) :=
  let u := u64_as_i64 (cur_id user) in
  match exec env (select_token u) db with
  | (db, Err e) => Some (Ret (db, Err (SessionSql e)))
  | (db, Ok t) =>
      match tokens with
      | [] => None
      | token :: _ =>
          let r := mkDbSession (kind_to_i16 kind) u (u16_as_i16 (cur_discriminator user)) (cur_name user)
                     (default "" (hash_to_string <$> cur_avatar user)) (pg_now env) in
          match exec env (insert_session token r) db with
          | (db, Err e) => Some (Ret (db, Err (SessionSql e)))
          | (db, Ok r) =>
              Some (do! t := token_of_db u t in Ret (db, Ok (mkSession t token kind user (dss_created_at r))))
          end
      end
  end.

Definition pg_create (env : PgEnv) (tokens : list string) (user : CurrentUser Details) (kind : SessionType) (db : WebDb)
    : option (outcome (WebDb * result SessionError Session)) :=
  match kind with
  | UserSession => pg_insert env tokens user kind db
  | ApiKey =>
      match get_api_key_count env (cur_id user) db with
      | (db, Err e) => Some (Ret (db, Err (SessionSql e)))
      | (db, Ok count) =>
          if USER_API_KEY_LIMIT <? count then Some (Ret (db, Err (ApiKeyLimitReached count USER_API_KEY_LIMIT)))
          else pg_insert env tokens user kind db
      end
  end.

Definition pg_get_token (env : PgEnv) (user_id : Z) (db : WebDb) : outcome (WebDb * result SessionError DiscordOauthToken) :=
  let u := u64_as_i64 user_id in
  match exec env (select_token u) db with
  | (db, Err e) => Ret (db, Err (SessionSql e))
  | (db, Ok t) => do! t := token_of_db u t in Ret (db, Ok t)
  end.

Definition pg_get_session (env : PgEnv) (token : string) (db : WebDb)
    : outcome (WebDb * result SessionError (option Session)) :=
  match exec env (λ db, match web_sessions db !! token with Some s => Ok (db, s) | None => Err RowNotFound end) db with
  | (db, Err RowNotFound) => Ret (db, Ok None)
  | (db, Err e) => Ret (db, Err (SessionSql e))
  | (db, Ok s) =>
      match exec env (select_token (dss_user_id s)) db with
      | (db, Err e) => Ret (db, Err (SessionSql e))
      | (db, Ok t) =>
          do! t := token_of_db (dss_user_id s) t in
          do! s := session_of_db no_details t token s in Ret (db, Ok (Some s))
      end
  end.

Definition pg_get_all (env : PgEnv) (user_id : Z) (db : WebDb) : outcome (WebDb * result SessionError (list Session)) :=
  let u := u64_as_i64 user_id in
  match exec env (select_token u) db with
  | (db, Err e) => Ret (db, Err (SessionSql e))
  | (db, Ok t) =>
      do! t := token_of_db u t in
      match exec env (λ db, Ok (db, List.filter (λ ks : string * DbSession, dss_user_id ks.2 =? u) (hiter (web_sessions db)))) db with
      | (db, Err e) => Ret (db, Err (SessionSql e))
      | (db, Ok l) =>
          do! l := map_outcome (λ ks : string * DbSession, session_of_db no_details t ks.1 ks.2) l in Ret (db, Ok l)
      end
  end.

Definition sql_result {A} (r : result SqlxError A) : result SessionError A :=
  match r with
  | Ok a => Ok a
  | Err e => Err (SessionSql e)
  end.

Definition pg_del (env : PgEnv) (token : string) (db : WebDb) : WebDb * result SessionError bool :=
  let (db, r) := exec env (λ db, Ok (mkWebDb (discord_oauth_tokens db) (delete token (web_sessions db)),
                                     bool_decide (is_Some (web_sessions db !! token)))) db in
  (db, sql_result r).

(** DELETE of the oauth token, which cascades to the sessions of the user *)
Definition pg_del_all (env : PgEnv) (user_id : Z) (db : WebDb) : WebDb * result SessionError unit :=
  let u := u64_as_i64 user_id in
  let (db, r) := exec env (λ db, Ok (mkWebDb (delete u (discord_oauth_tokens db))
    (filter (λ ks : string * DbSession, dss_user_id ks.2 ≠ u) (web_sessions db)), tt)) db in
  (db, sql_result r).

Definition postgres_store : SessionStore WebDb :=
  mkStore pg_set_token pg_create pg_get_token pg_get_session pg_get_all pg_del pg_del_all.
End postgres.
End sessions.
Arguments mkStore {_ _ S}.
Arguments set_user_oatuh_token {_ _ S}.
Arguments create_session {_ _ S}.
Arguments get_oauth_token {_ _ S}.
Arguments get_session {_ _ S}.
Arguments get_all_sessions {_ _ S}.
Arguments del_session {_ _ S}.
Arguments del_all_sessions {_ _ S}.

(** * The two stores agree *)

Section agreement.
Context `{!ImageHashes, !ImageHashLaws _, !Pg, !PgLaws _, !HashOrder string} {Details : Type} (no_details : Details).
Notation user := (CurrentUser Details).
Notation memory := (@InMemorySessionStore _ Details).
Notation bare := (@BareSession _ Details).
Notation session := (@Session _ Details).
Implicit Types (env : PgEnv) (s : memory) (db : WebDb).

(** What the database keeps of a user and of a token. *)
Definition stored_user (u : user) : user :=
  mkUser (cur_id u) (cur_name u) (cur_discriminator u) (cur_avatar u) no_details.
Definition stored_token (t : DiscordOauthToken) : DiscordOauthToken :=
  mkOauthToken (oa_user_id t) (oa_access_token t) (oa_refresh_token t) (timestamptz (oa_token_expires t)).
Definition stored_session (x : session) : session :=
  mkSession (stored_token (ses_oauth_token x)) (ses_token x) (ses_kind x) (stored_user (ses_user x)) (ses_created_at x).

Definition db_token (t : DiscordOauthToken) : DbOauthToken :=
  mkDbToken (oa_access_token t) (oa_refresh_token t) (timestamptz (oa_token_expires t)).
Definition db_session (b : bare) : DbSession :=
  mkDbSession (kind_to_i16 (bs_kind b)) (u64_as_i64 (cur_id (bs_user b))) (u16_as_i16 (cur_discriminator (bs_user b)))
    (cur_name (bs_user b)) (default "" (hash_to_string <$> cur_avatar (bs_user b))) (bs_created_at b).

Inductive SessOp :=
| SoSetToken (t : DiscordOauthToken)
| SoCreate (tokens : list string) (u : user) (kind : SessionType)
| SoLogin (tokens : list string) (t : DiscordOauthToken) (u : user) (kind : SessionType)
| SoGetToken (user_id : Z)
| SoGetSession (token : string)
| SoGetAll (user_id : Z)
| SoDel (token : string)
| SoDelAll (user_id : Z).

Inductive SessRes :=
| SrToken (r : result SessionError DiscordOauthToken)
| SrSession (r : result SessionError session)
| SrMaybe (r : result SessionError (option session))
| SrList (r : result SessionError (list session))
| SrBool (r : result SessionError bool)
| SrUnit (r : result SessionError unit).

Definition wrap {S A} (f : A → SessRes) (r : outcome (S * A)) : outcome (S * SessRes) :=
  do! (s, a) := r in Ret (s, f a).

Definition sess_step {S} (store : @SessionStore _ Details S) env (op : SessOp) (s : S) : option (outcome (S * SessRes)) :=
  match op with
  | SoSetToken t => Some (wrap SrToken (set_user_oatuh_token store env t s))
  | SoCreate toks u k => wrap SrSession <$> create_session store env toks u k s
  | SoLogin toks t u k => wrap SrSession <$> set_oauth_create_session store env toks t u k s
  | SoGetToken u => Some (wrap SrToken (get_oauth_token store env u s))
  | SoGetSession tok => Some (wrap SrMaybe (get_session store env tok s))
  | SoGetAll u => Some (wrap SrList (get_all_sessions store env u s))
  | SoDel tok => Some (wrap SrBool (Ret (del_session store env tok s)))
  | SoDelAll u => Some (wrap SrUnit (Ret (del_all_sessions store env u s)))
  end.

(** Equal up to what the database keeps; a missing oauth token is an error of its own in memory
    and a missing row in the database. *)
Definition same_error (e e' : SessionError) : Prop :=
  e = e' ∨ (e = OauthTokenNotFound ∧ e' = SessionSql RowNotFound).

Definition same_result {A} (rel : A → A → Prop) (r r' : result SessionError A) : Prop :=
  match r, r' with
  | Ok a, Ok a' => rel a a'
  | Err e, Err e' => same_error e e'
  | _, _ => False
  end.

Definition same_res (r r' : SessRes) : Prop :=
  match r, r' with
  | SrToken r, SrToken r' => same_result (λ t t', stored_token t = stored_token t') r r'
  | SrSession r, SrSession r' => same_result (λ x x', stored_session x = stored_session x') r r'
  | SrMaybe r, SrMaybe r' => same_result (λ x x', stored_session <$> x = stored_session <$> x') r r'
  | SrList r, SrList r' => same_result (λ l l', stored_session <$> l ≡ₚ stored_session <$> l') r r'
  | SrBool r, SrBool r' => same_result eq r r'
  | SrUnit r, SrUnit r' => same_result eq r r'
  | _, _ => False
  end.

Definition user_ok (u : user) : Prop := valid_id (cur_id u) ∧ 0 ≤ cur_discriminator u < 2 ^ 16.

Record sess_sim s db : Prop := {
  sim_tokens : ∀ u, valid_id u → discord_oauth_tokens db !! u64_as_i64 u = db_token <$> mem_tokens s !! u;
  sim_sessions : web_sessions db = db_session <$> mem_sessions s;
  sim_token_ids : map_Forall (λ u t, oa_user_id t = u ∧ valid_id u) (mem_tokens s);
  sim_users : map_Forall (λ k b, bs_token b = k ∧ user_ok (bs_user b) ∧ is_Some (mem_tokens s !! cur_id (bs_user b))) (mem_sessions s);
}.

Definition api_keys (u : Z) s : Z :=
  Z.of_nat (length (List.filter (λ kb : string * bare,
    (cur_id (bs_user kb.2) =? u) && bool_decide (bs_kind kb.2 = ApiKey)) (hiter (mem_sessions s)))).

(** The store in memory, amended in the five respects in which the database is different: a
    statement may fail, a user has at most 101 API keys, a token drawn twice is refused, the
    sessions of a user without oauth token cannot be listed, and [del_all_sessions] forgets the
    oauth token as well. *)
Definition or_sql_error {A} env s (m : memory * result SessionError A) : memory * result SessionError A :=
  match pg_error env with
  | Some e => (s, Err (SessionSql e))
  | None => m
  end.

Definition amended_create env (tokens : list string) (u : user) (k : SessionType) s : option (outcome (memory * result SessionError session)) :=
  match pg_error env with
  | Some e => Some (Ret (s, Err (SessionSql e)))
  | None =>
      if bool_decide (k = ApiKey) && (USER_API_KEY_LIMIT <? api_keys (cur_id u) s)
      then Some (Ret (s, Err (ApiKeyLimitReached (api_keys (cur_id u) s) USER_API_KEY_LIMIT)))
      else match tokens, mem_tokens s !! cur_id u with
           | tok :: _, Some _ =>
               if bool_decide (is_Some (mem_sessions s !! tok)) then Some (Ret (s, Err (SessionSql (UniqueViolation "web_sessions_pkey"))))
               else mem_create env tokens u k s
           | _, _ => mem_create env tokens u k s
           end
  end.

Definition amended_get_session env (tok : string) s : outcome (memory * result SessionError (option session)) :=
  match pg_error env with
  | Some RowNotFound => Ret (s, Ok None)
  | Some e => Ret (s, Err (SessionSql e))
  | None => mem_get_session env tok s
  end.

Definition amended_get_all env (u : Z) s : outcome (memory * result SessionError (list session)) :=
  match pg_error env, mem_tokens s !! u with
  | Some e, _ => Ret (s, Err (SessionSql e))
  | None, None => Ret (s, Err OauthTokenNotFound)
  | None, Some _ => mem_get_all env u s
  end.

Definition amended_del_all env (u : Z) s : memory * result SessionError unit :=
  or_sql_error env s (let (s', r) := mem_del_all env u s in (mkMem (mem_sessions s') (delete u (mem_tokens s')), r)).

Definition amended_store : @SessionStore _ Details memory :=
  mkStore (λ env t s, do! x := mem_set_token env t s in Ret (or_sql_error env s x)) amended_create
    (λ env u s, do! x := mem_get_token env u s in Ret (or_sql_error env s x)) amended_get_session amended_get_all
    (λ env tok s, or_sql_error env s (mem_del env tok s)) amended_del_all.

(** The values an operation can be called with: identifiers and discriminators are what their
    types hold, and there is always another random token. *)
Definition op_valid (op : SessOp) : Prop :=
  match op with
  | SoSetToken t => valid_id (oa_user_id t)
  | SoCreate toks u k => user_ok u ∧ toks ≠ []
  | SoLogin toks t u k => valid_id (oa_user_id t) ∧ user_ok u ∧ toks ≠ []
  | SoGetToken u | SoGetAll u | SoDelAll u => valid_id u
  | SoGetSession _ | SoDel _ => True
  end.

Lemma u64_as_i64_inj u v : valid_id u → valid_id v → u64_as_i64 u = u64_as_i64 v → u = v.
Proof.
  unfold valid_id. intros Hu Hv Heq. rewrite <- (u64_i64_u64 u), <- (u64_i64_u64 v), Heq by lia. done.
Qed.

Lemma kind_roundtrip k : kind_of_i16 (kind_to_i16 k) = Ret k.
Proof. by destruct k. Qed.

Lemma discriminator_roundtrip v : 0 ≤ v < 2 ^ 16 → i16_as_u16 (u16_as_i16 v) = v.
Proof.
  intros Hv. unfold i16_as_u16, u16_as_i16. destruct (Z.leb_spec v (2 ^ 15 - 1)); [apply Z.mod_small; lia|].
  rewrite <- (Z.mod_add (v - 2 ^ 16) 1 (2 ^ 16)) by lia. rewrite Z.mod_small; lia.
Qed.

(** Reading back what was stored. *)
Lemma token_of_db_stored t : valid_id (oa_user_id t) → token_of_db (u64_as_i64 (oa_user_id t)) (db_token t) = Ret (stored_token t).
Proof.
  intros Hu. unfold token_of_db. rewrite id_new_nonzero by by apply valid_id_nonzero. unfold valid_id in Hu.
  rewrite u64_i64_u64 by lia. done.
Qed.

Lemma session_of_db_stored t b :
  user_ok (bs_user b) →
  session_of_db no_details (stored_token t) (bs_token b) (db_session b) = Ret (stored_session (bare_session_full t b)).
Proof.
  intros [Hu Hd]. unfold session_of_db, user_of_db. simpl. rewrite kind_roundtrip. simpl.
  rewrite id_new_nonzero by by apply valid_id_nonzero. unfold valid_id in Hu. simpl.
  rewrite u64_i64_u64, discriminator_roundtrip by lia. unfold stored_session, stored_user. simpl. do 3 f_equal.
  destruct (cur_avatar (bs_user b)) as [h|]; simpl; [|done].
  rewrite bool_decide_eq_false_2 by apply hash_nonempty. apply hash_roundtrip.
Qed.

Lemma stored_token_idem t : stored_token (stored_token t) = stored_token t.
Proof.
  unfold stored_token. simpl. f_equal. rewrite !timestamptz_floor. by rewrite Z.div_mul by lia.
Qed.

Lemma stored_session_idem x : stored_session (stored_session x) = stored_session x.
Proof. unfold stored_session. simpl. by rewrite stored_token_idem. Qed.

Lemma map_outcome_fmap {A B} (f : A → outcome B) (g : A → B) l :
  (∀ x, x ∈ l → f x = Ret (g x)) → map_outcome f l = Ret (g <$> l).
Proof.
  intros Hf. induction l as [|x l IH]; simpl; [done|]. rewrite Hf by by constructor. simpl.
  rewrite IH by (intros; apply Hf; by constructor). done.
Qed.

Lemma map_outcome_perm {A B} (f : A → outcome B) l l' ys' :
  l ≡ₚ l' → map_outcome f l' = Ret ys' → ∃ ys, map_outcome f l = Ret ys ∧ ys ≡ₚ ys'.
Proof.
  intros Hp. revert ys'. induction Hp as [|x l l' _ IH|x y l|l l' l'' _ IH1 _ IH2]; intros ys'; simpl.
  - eauto.
  - destruct (f x) as [b|]; [|done]. simpl. destruct (map_outcome f l') as [ys|]; [|done]. simpl. intros [= <-].
    destruct (IH ys eq_refl) as (zs & -> & Hz). simpl. eexists. split; [done|]. by rewrite Hz.
  - destruct (f x), (f y); simpl; try done. destruct (map_outcome f l); [|done]. simpl. intros [= <-].
    eexists. split; [done|]. constructor.
  - intros H2. destruct (IH2 _ H2) as (zs & Hz & Hp2). destruct (IH1 _ Hz) as (ws & Hw & Hp1).
    exists ws. split; [done|]. by rewrite Hp1.
Qed.

Lemma map_outcome_fmap_arg {A B C} (f : B → outcome C) (h : A → B) l :
  map_outcome f (h <$> l) = map_outcome (λ x, f (h x)) l.
Proof. induction l as [|x l IH]; [done|]. rewrite fmap_cons. simpl. by rewrite IH. Qed.

Lemma hiter_db_sessions s :
  hiter (db_session <$> mem_sessions s) ≡ₚ (λ kb : string * bare, (kb.1, db_session kb.2)) <$> hiter (mem_sessions s).
Proof. rewrite !hiter_perm, map_to_list_fmap. apply reflexive_eq. by apply list_fmap_ext; intros ? [] _. Qed.

Lemma List_filter_fmap {A B} (f : A → B) (p : B → bool) l :
  List.filter p (f <$> l) = f <$> List.filter (λ x, p (f x)) l.
Proof.
  induction l as [|x l IH]; [done|]. rewrite fmap_cons. simpl. rewrite IH. by destruct (p (f x)).
Qed.

Lemma List_filter_ext_in {A} (p q : A → bool) l : (∀ x, x ∈ l → p x = q x) → List.filter p l = List.filter q l.
Proof. intros Hpq. apply filter_ext_in. intros x Hx. apply Hpq. by apply list_elem_of_In. Qed.

(** The rows of a user, in the database and in memory. *)
Lemma user_rows s db u (q : SessionType → bool) (p : string * DbSession → bool) :
  sess_sim s db → valid_id u →
  (∀ k b, mem_sessions s !! k = Some b → p (k, db_session b) = (u64_as_i64 (cur_id (bs_user b)) =? u64_as_i64 u) && q (bs_kind b)) →
  List.filter p (hiter (web_sessions db)) ≡ₚ
  (λ kb : string * bare, (kb.1, db_session kb.2)) <$>
    List.filter (λ kb : string * bare, (cur_id (bs_user kb.2) =? u) && q (bs_kind kb.2)) (hiter (mem_sessions s)).
Proof.
  intros Hsim Hu Hp. rewrite (sim_sessions _ _ Hsim), (List_filter_perm p _ _ (hiter_db_sessions s)), List_filter_fmap.
  apply reflexive_eq. f_equal. apply List_filter_ext_in. intros [k b] Hkb%elem_of_hiter. simpl. rewrite (Hp k b Hkb). f_equal.
  destruct (sim_users _ _ Hsim _ _ Hkb) as (_ & [Hub _] & _).
  apply eq_bool_prop_intro. rewrite !Is_true_true, !Z.eqb_eq. split; [by apply u64_as_i64_inj|by intros ->].
Qed.

Section step.
Context (env : PgEnv) (s : memory) (db : WebDb).
Hypothesis Hpg : pg_error env = None.
Hypothesis Hsim : sess_sim s db.

(** The operation in memory and in the database, its results and the states after it. *)
Definition agree {A} (rel : A → A → Prop) (x : option (outcome (memory * result SessionError A)))
    (y : option (outcome (WebDb * result SessionError A))) : Prop :=
  ∃ s' r db' r', x = Some (Ret (s', r)) ∧ y = Some (Ret (db', r')) ∧ same_result rel r r' ∧ sess_sim s' db'.

Lemma set_token_agrees t :
  valid_id (oa_user_id t) →
  sess_sim (mkMem (mem_sessions s) (<[oa_user_id t := t]> (mem_tokens s)))
    (mkWebDb (<[u64_as_i64 (oa_user_id t) := db_token t]> (discord_oauth_tokens db)) (web_sessions db)) ∧
  pg_set_token env t db =
    Ret (mkWebDb (<[u64_as_i64 (oa_user_id t) := db_token t]> (discord_oauth_tokens db)) (web_sessions db), Ok (stored_token t)).
Proof.
  intros Hu. destruct Hsim as [Htok Hses Hids Husers]. split.
  - split; simpl; [|done|by apply map_Forall_insert_2|].
    + intros u Hu'. destruct (decide (u = oa_user_id t)) as [->|Hne]; [by rewrite !lookup_insert_eq|].
      rewrite !lookup_insert_ne; [by apply Htok|done|]. intros Heq. by apply u64_as_i64_inj in Heq.
    + intros k b Hkb. destruct (Husers k b Hkb) as (? & ? & ?). split_and!; [done..|].
      destruct (decide (cur_id (bs_user b) = oa_user_id t)) as [->|]; [rewrite lookup_insert_eq; eauto|].
      by rewrite lookup_insert_ne.
  - unfold pg_set_token, exec. rewrite Hpg. fold (db_token t). by rewrite (token_of_db_stored t Hu).
Qed.

Lemma api_key_count_agrees u :
  valid_id u → get_api_key_count env u db = (db, Ok (api_keys u s)).
Proof.
  intros Hu. unfold get_api_key_count, exec, api_keys. rewrite Hpg. do 3 f_equal.
  rewrite (user_rows s db u (λ k, bool_decide (k = ApiKey)) _ Hsim Hu), length_fmap; [done|].
  intros k b _. simpl. f_equal. by destruct (bs_kind b).
Qed.

Lemma create_session_agrees tokens u k :
  user_ok u → tokens ≠ [] →
  agree (λ x x', stored_session x = stored_session x') (amended_create env tokens u k s) (pg_create env tokens u k db).
Proof.
  intros Hu Htokens. pose proof Hu as [Hid Hdisc]. pose proof Hsim as [Htok Hses Hids Husers].
  destruct tokens as [|tok tokens]; [done|]. unfold amended_create. rewrite Hpg.
  assert (pg_create env (tok :: tokens) u k db =
    if bool_decide (k = ApiKey) && (USER_API_KEY_LIMIT <? api_keys (cur_id u) s)
    then Some (Ret (db, Err (ApiKeyLimitReached (api_keys (cur_id u) s) USER_API_KEY_LIMIT)))
    else pg_insert env (tok :: tokens) u k db) as ->.
  { unfold pg_create. destruct k; [done|]. by rewrite api_key_count_agrees. }
  destruct (bool_decide (k = ApiKey) && _); [eexists _, _, _, _; split_and!; [done|done|by left|done]|].
  unfold pg_insert, mem_create, exec, select_token. rewrite Hpg, (Htok _ Hid).
  destruct (mem_tokens s !! cur_id u) as [t|] eqn:Ht; simpl.
  - unfold insert_session. rewrite Hses, lookup_fmap. destruct (mem_sessions s !! tok) as [b|] eqn:Hfresh; simpl.
    { eexists _, _, _, _; split_and!; [done|done|by left|done]. }
    rewrite (Htok _ Hid), Ht. simpl.
    destruct (Hids _ _ Ht) as [Htu _]. rewrite <- Htu. rewrite (token_of_db_stored t) by by rewrite Htu.
    eexists _, _, _, _. split_and!; [done|done|..].
    + simpl. unfold stored_session, bare_session_full. simpl. by rewrite stored_token_idem.
    + split; simpl; [done| |done|].
      * by rewrite fmap_insert, Htu.
      * apply map_Forall_insert_2; [|done]. simpl. split_and!; [done..|]. rewrite Ht. eauto.
  - eexists _, _, _, _. split_and!; [done|done| |done]. by right.
Qed.

Lemma get_session_agrees tok :
  agree (λ x x', stored_session <$> x = stored_session <$> x')
    (Some (amended_get_session env tok s)) (Some (pg_get_session no_details env tok db)).
Proof.
  pose proof Hsim as [Htok Hses Hids Husers]. unfold agree, amended_get_session, mem_get_session, pg_get_session, exec, select_token.
  rewrite Hpg, Hses, lookup_fmap. destruct (mem_sessions s !! tok) as [b|] eqn:Hb; simpl.
  - destruct (Husers _ _ Hb) as (Hk & Hu & [t Ht]). rewrite (Htok _ (proj1 Hu)), Ht. simpl.
    destruct (Hids _ _ Ht) as [Htu Hv]. rewrite <- Htu, (token_of_db_stored t) by by rewrite Htu. simpl.
    pose proof (session_of_db_stored t b Hu) as Hsdb. rewrite Hk in Hsdb. rewrite Hsdb. simpl.
    eexists _, _, _, _. split_and!; [done|done| |done]. simpl. by rewrite stored_session_idem.
  - by eexists _, _, _, _.
Qed.

Lemma get_all_agrees u :
  valid_id u →
  agree (λ l l', stored_session <$> l ≡ₚ stored_session <$> l')
    (Some (amended_get_all env u s)) (Some (pg_get_all no_details env u db)).
Proof.
  intros Hu. pose proof Hsim as [Htok Hses Hids Husers].
  unfold agree, amended_get_all, mem_get_all, pg_get_all, exec, select_token. rewrite Hpg, (Htok _ Hu).
  destruct (mem_tokens s !! u) as [t|] eqn:Ht; simpl; [|eexists _, _, _, _; split_and!; [done|done|by right|done]].
  destruct (Hids _ _ Ht) as [Htu _].
  assert (token_of_db (u64_as_i64 u) (db_token t) = Ret (stored_token t)) as ->
    by (rewrite <- Htu; apply token_of_db_stored; by rewrite Htu).
  pose proof (user_rows s db u (λ _, true) (λ ks, dss_user_id ks.2 =? u64_as_i64 u) Hsim Hu
    ltac:(intros; by rewrite andb_true_r)) as Hperm. simpl.
  assert (map_outcome (λ ks : string * DbSession, session_of_db no_details (stored_token t) ks.1 ks.2)
    ((λ kb : string * bare, (kb.1, db_session kb.2)) <$>
      List.filter (λ kb : string * bare, (cur_id (bs_user kb.2) =? u) && true) (hiter (mem_sessions s))) =
    Ret ((λ kb : string * bare, stored_session (bare_session_full t kb.2)) <$>
      List.filter (λ kb : string * bare, cur_id (bs_user kb.2) =? u) (hiter (mem_sessions s)))) as Hmap.
  { rewrite map_outcome_fmap_arg. rewrite (List_filter_ext_in _ (λ kb : string * bare, cur_id (bs_user kb.2) =? u))
      by (intros; apply andb_true_r).
    apply map_outcome_fmap. intros [k b] [Hkb%elem_of_hiter _]%elem_of_List_filter. simpl.
    destruct (Husers _ _ Hkb) as (<- & Hub & _). by apply session_of_db_stored. }
  destruct (map_outcome_perm _ _ _ _ Hperm Hmap) as (ys & -> & Hys). simpl.
  eexists _, _, _, _. split_and!; [done|done| |done]. simpl. rewrite Hys. apply reflexive_eq.
  rewrite <- !list_fmap_compose. apply list_fmap_ext. intros _ [k b] _. simpl. by rewrite stored_session_idem.
Qed.

Lemma get_token_agrees u :
  valid_id u → agree (λ t t', stored_token t = stored_token t') (Some (mem_get_token env u s)) (Some (pg_get_token env u db)).
Proof.
  intros Hu. pose proof Hsim as [Htok Hses Hids Husers]. unfold agree, mem_get_token, pg_get_token, exec, select_token.
  rewrite Hpg, (Htok _ Hu). destruct (mem_tokens s !! u) as [t|] eqn:Ht; simpl.
  - destruct (Hids _ _ Ht) as [<- _]. rewrite (token_of_db_stored t) by done. simpl.
    eexists _, _, _, _. split_and!; [done|done| |done]. simpl. by rewrite stored_token_idem.
  - eexists _, _, _, _. split_and!; [done|done| |done]. by right.
Qed.

Lemma del_agrees tok : agree eq (Some (Ret (mem_del env tok s))) (Some (Ret (pg_del env tok db))).
Proof.
  pose proof Hsim as [Htok Hses Hids Husers]. unfold agree, mem_del, pg_del, exec. rewrite Hpg. simpl.
  eexists _, _, _, _. split_and!; [done|done|..].
  - simpl. rewrite Hses, lookup_fmap. by destruct (mem_sessions s !! tok).
  - split; simpl; [done|by rewrite fmap_delete, Hses|done|by apply map_Forall_delete].
Qed.

Lemma del_all_agrees u : valid_id u → agree eq (Some (Ret (amended_del_all env u s))) (Some (Ret (pg_del_all env u db))).
Proof.
  intros Hu. pose proof Hsim as [Htok Hses Hids Husers]. unfold agree, amended_del_all, or_sql_error, mem_del_all, pg_del_all, exec.
  rewrite Hpg. simpl. eexists _, _, _, _. split_and!; [done|done|done|]. split; simpl.
  - intros v Hv. destruct (decide (v = u)) as [->|Hne]; [by rewrite !lookup_delete_eq|].
    rewrite !lookup_delete_ne; [by apply Htok|done|]. intros Heq. by apply u64_as_i64_inj in Heq.
  - rewrite Hses. apply map_eq. intros k. rewrite map_lookup_filter, !lookup_fmap, map_lookup_filter.
    destruct (mem_sessions s !! k) as [b|] eqn:Hb; simpl; [|done]. destruct (Husers _ _ Hb) as (_ & [Hub _] & _).
    destruct (decide (cur_id (bs_user b) = u)) as [Heq|Hne].
    + rewrite !option_guard_False; [done|naive_solver|simpl; rewrite Heq; naive_solver].
    + rewrite !option_guard_True; [done|done|]. simpl. intros Heq. by apply Hne, u64_as_i64_inj.
  - by apply map_Forall_delete.
  - intros k b Hb. apply map_lookup_filter_Some in Hb as [Hb Hne]. simpl in Hne. destruct (Husers _ _ Hb) as (? & ? & ?).
    split_and!; [done|done|]. by rewrite lookup_delete_ne by done.
Qed.
End step.

Lemma wrap_agree {A} (rel : A → A → Prop) (f : result SessionError A → SessRes) x y :
  agree rel x y → (∀ r r', same_result rel r r' → same_res (f r) (f r')) →
  ∃ s' r db' r', wrap f <$> x = Some (Ret (s', r)) ∧ wrap f <$> y = Some (Ret (db', r')) ∧ same_res r r' ∧ sess_sim s' db'.
Proof.
  intros (s' & r & db' & r' & -> & -> & Hr & Hs) Hf. simpl. eexists _, _, _, _. split_and!; try done. by apply Hf.
Qed.

Lemma sess_step_refused env e op s db :
  pg_error env = Some e → sess_sim s db → op_valid op →
  ∃ s' r db' r', sess_step amended_store env op s = Some (Ret (s', r)) ∧
    sess_step (postgres_store no_details) env op db = Some (Ret (db', r')) ∧ same_res r r' ∧ sess_sim s' db'.
Proof.
  intros Hpg Hsim Hop. exists s. destruct op as [t|toks u k|toks t u k|u|tok|u|tok|u]; simpl;
    unfold set_oauth_create_session; simpl; unfold amended_create, amended_get_session, amended_get_all, amended_del_all, or_sql_error,
    pg_set_token, pg_create, pg_insert, get_api_key_count, pg_get_token, pg_get_session, pg_get_all, pg_del, pg_del_all, exec;
    rewrite Hpg; simpl; try (by eexists _, db, _; split_and!; [done|done|by left|done]).
  - destruct k; by eexists _, db, _; split_and!; [done|done|by left|done].
  - destruct e; eexists _, db, _; split_and!; try done; by left.
Qed.

Lemma sess_step_agrees env op s db :
  sess_sim s db → op_valid op →
  ∃ s' r db' r', sess_step amended_store env op s = Some (Ret (s', r)) ∧
    sess_step (postgres_store no_details) env op db = Some (Ret (db', r')) ∧ same_res r r' ∧ sess_sim s' db'.
Proof.
  intros Hsim Hop. destruct (pg_error env) as [e|] eqn:Hpg; [by eapply sess_step_refused|].
  destruct op as [t|toks u k|toks t u k|u|tok|u|tok|u]; simpl in Hop.
  - destruct (set_token_agrees env s db Hpg Hsim t Hop) as [Hsim' Hset].
    eexists _, _, _, _. simpl. unfold or_sql_error. rewrite Hpg, Hset. split_and!; [done|done| |exact Hsim'].
    simpl. by rewrite stored_token_idem.
  - destruct Hop as [Hu Ht]. by apply (wrap_agree _ SrSession _ _ (create_session_agrees env s db Hpg Hsim toks u k Hu Ht)).
  - destruct Hop as (Ht & Hu & Hk). destruct (set_token_agrees env s db Hpg Hsim t Ht) as [Hsim' Hset]. simpl.
    unfold set_oauth_create_session. simpl. unfold or_sql_error. rewrite Hpg, Hset.
    by apply (wrap_agree _ SrSession _ _ (create_session_agrees env _ _ Hpg Hsim' toks u k Hu Hk)).
  - simpl. unfold or_sql_error. rewrite Hpg. by apply (wrap_agree _ SrToken _ _ (get_token_agrees env s db Hpg Hsim u Hop)).
  - by apply (wrap_agree _ SrMaybe _ _ (get_session_agrees env s db Hpg Hsim tok)).
  - by apply (wrap_agree _ SrList _ _ (get_all_agrees env s db Hpg Hsim u Hop)).
  - simpl. unfold or_sql_error. rewrite Hpg. by apply (wrap_agree _ SrBool _ _ (del_agrees env s db Hpg Hsim tok)).
  - by apply (wrap_agree _ SrUnit _ _ (del_all_agrees env s db Hpg Hsim u Hop)).
Qed.

(** A sequence of operations with its results, while they end without a panic. *)
Fixpoint sess_run {S} (store : @SessionStore _ Details S) (ops : list (PgEnv * SessOp)) (s : S) : option (list SessRes * S) :=
  match ops with
  | [] => Some ([], s)
  | (env, op) :: ops =>
      match sess_step store env op s with
      | Some (Ret (s, r)) =>
          match sess_run store ops s with
          | Some (rs, s) => Some (r :: rs, s)
          | None => None
          end
      | _ => None
      end
  end.


(** After [del_all_sessions] neither store accepts a session of the user any more. *)
Theorem del_all_revokes env env' u s db tok :
  pg_error env = None → pg_error env' = None → sess_sim s db → valid_id u →
  (∀ x, (mem_get_session env' tok (mem_del_all env u s).1) = Ret ((mem_del_all env u s).1, Ok (Some x)) → cur_id (ses_user x) ≠ u) ∧
  (∀ x, (pg_get_session no_details env' tok (pg_del_all env u db).1) = Ret ((pg_del_all env u db).1, Ok (Some x)) → cur_id (ses_user x) ≠ u).
Proof.
  intros Hpg Hpg' [Htok Hses Hids Husers] Hu. split.
  - intros x. unfold mem_get_session, mem_del_all. simpl. rewrite map_lookup_filter.
    destruct (mem_sessions s !! tok) as [b|]; simpl; [|done]. case_guard as Hne; simpl; [|done].
    destruct (mem_tokens s !! _); [|done]. by intros [= <-].
  - intros x. unfold pg_get_session, pg_del_all, exec. rewrite Hpg, Hpg'. simpl. rewrite map_lookup_filter, Hses, lookup_fmap.
    destruct (mem_sessions s !! tok) as [b|] eqn:Hb; simpl; [|done]. case_guard as Hne; simpl; [|done]. simpl in Hne.
    destruct (Husers _ _ Hb) as (_ & [Hub _] & _). unfold select_token. simpl.
    destruct (delete _ _ !! _) as [t|]; [|done]. unfold token_of_db. rewrite id_new_nonzero by by apply valid_id_nonzero.
    simpl. unfold session_of_db, user_of_db. simpl. rewrite kind_roundtrip. simpl.
    rewrite id_new_nonzero by by apply valid_id_nonzero. simpl. intros [= <-]. simpl.
    unfold valid_id in Hub. rewrite u64_i64_u64 by lia. intros Heq. apply Hne. by rewrite Heq.
Qed.
End agreement.

(** * CSRF tokens *)

(** A CSRF token is accepted once, and only if it was handed out. *)
Theorem csrf_token_single_use tokens (s : gset string) s' t :
  generate_csrf_token tokens s = Some (s', t) →
  t ∉ s ∧ (check_csrf_token t s').2 = true ∧ (check_csrf_token t (check_csrf_token t s').1).2 = false ∧
  (∀ t', t' ∉ s' → check_csrf_token t' s' = (s', false)).
Proof.
  unfold generate_csrf_token. destruct (find_first _ tokens) as [t0|] eqn:Hf; [|done]. intros [= <- <-].
  apply find_first_Some in Hf as [_ Ht]. apply negb_true_iff, bool_decide_eq_false in Ht. unfold check_csrf_token. simpl.
  split_and!; [done|..].
  - apply bool_decide_eq_true. set_solver.
  - apply bool_decide_eq_false. set_solver.
  - intros t' Ht'. f_equal; [set_solver|by apply bool_decide_eq_false].
Qed.

(** * Examples *)

Definition ex_hashes : ImageHashes :=
  {| ImageHash := string; hash_to_string h := String.append "a" h;
     hash_from_str s := match s with String _ h => Some h | EmptyString => None end |}.
Lemma ex_hash_laws : ImageHashLaws ex_hashes.
Proof. split; done. Qed.
#[local] Existing Instance ex_hashes.
#[local] Existing Instance ex_hash_laws.
#[local] Existing Instance ex_pg.
#[local] Existing Instance ex_pg_laws.
#[local] Existing Instance list_order.

Definition ex_user : CurrentUser bool := mkUser 5 "ann" 40000 (Some "hash") true.
Definition ex_token : DiscordOauthToken := mkOauthToken 5 "acc" "ref" 123456.

Definition ex_sess_ops : list (PgEnv * @SessOp _ bool) :=
  [(ex_env 1, SoGetToken 5); (ex_env 2, SoLogin ["t1"] ex_token ex_user UserSession); (ex_env 3, SoCreate ["t2"] ex_user ApiKey);
   (mkPgEnv 3 (Some (SqlxOther "closed")), SoGetSession "t2"); (ex_env 3, SoCreate ["t2"] ex_user UserSession);
   (ex_env 4, SoGetAll 5); (ex_env 5, SoGetSession "t2"); (ex_env 6, SoDel "t1"); (ex_env 7, SoGetSession "t1");
   (ex_env 8, SoDelAll 5); (ex_env 9, SoGetToken 5)].


(** Revoking all sessions of a user differs in one respect: the database forgets the oauth token
    as well, so that the user can open no session without a new login, while the store in
    memory still answers with the token. *)
Example del_all_keeps_token_in_memory :
  let ops := [(ex_env 2, SoLogin ["t1"] ex_token ex_user UserSession); (ex_env 3, SoDelAll 5); (ex_env 4, SoGetToken 5)] in
  (λ r, last r.1) <$> sess_run memory_store ops (mkMem ∅ ∅) = Some (Some (SrToken (Ok ex_token))) ∧
  (λ r, last r.1) <$> sess_run (postgres_store false) ops (mkWebDb ∅ ∅) = Some (Some (SrToken (Err (SessionSql RowNotFound)))).
Proof. vm_compute. done. Qed.

Lemma csrf_token_single_use_witness :
  match generate_csrf_token ["used"; "new"] {["used"]} with
  | Some (s', t) => t = "new" ∧ (check_csrf_token t s').2 = true ∧ (check_csrf_token t (check_csrf_token t s').1).2 = false
  | None => False
  end.
Proof.
  assert (snd <$> generate_csrf_token ["used"; "new"] {["used"]} = Some "new") as Hn by (vm_compute; reflexivity).
  destruct (generate_csrf_token ["used"; "new"] {["used"]}) as [[s' t]|] eqn:E; [|discriminate Hn].
  pose proof (csrf_token_single_use _ _ _ _ E) as (_ & H1 & H2 & _).
  refine (conj _ (conj H1 H2)). simpl in Hn. injection Hn as <-. reflexivity.
Defined.
