(* ===== verification/GuildLogger.v ===== *)
(** The guild log ([components/guild-logger], the log forwarder of the worker and the log stream
    of the scheduler's RPC server): entries are queued, one task hands each to all backends, and
    the streams of a guild get its entries over a broadcast channel.

    The state [LogSys] is the logger's queue and task, the subscriptions and the open streams;
    [log_step] is one step of the task, between two of which entries are logged and streams are
    opened, read and dropped. [tokio]'s broadcast channel is modelled after its documentation:
    every receiver has its own position, the oldest values are dropped when it falls more than
    the capacity behind, and the receiver is told how many it missed. *)
From stdpp Require Import base gmap list strings pretty.
From S2P Require Import Prelude Models WorkerPool Commands World ScriptStore Postgres BucketStore ConfigStore IntegrationTests.

(** * components/guild-logger/src/entry.rs *)

Definition script_entry (level : LogLevel) (g : Z) (msg filename : string) (line_col : option (Z * Z)) : LogEntry :=
  mkLogEntry g msg (Some (mkScriptContext filename line_col)) level.

Definition script_error := script_entry LError.
Definition script_warning := script_entry LWarn.
Definition script_console := script_entry LConsoleLog.
Definition script_info := script_entry LInfo.

(** The [Display] of a [u32] is its decimal text. *)
Definition u32_text (n : Z) : string := pretty (Z.to_N n).

Definition context_text (c : ScriptContext) : string :=
  sc_filename c +:+
  match sc_line_col c with
  | Some (line, col) => ":" +:+ u32_text line +:+ ":" +:+ u32_text col
  | None => ""
  end.

Definition level_text (l : LogLevel) : string :=
  match l with
  | LCritical => "CRIT"
  | LError => "ERRO"
  | LWarn => "WARN"
  | LConsoleLog => "CLOG"
  | LInfo => "INFO"
  end.

(** * components/botrpc/src/proto.rs *)

Record LineCol := mkLineCol { lc_line : Z; lc_column : Z }.

Record ProtoContext := mkProtoContext {
  pc_filename : string;
  pc_line_col : option LineCol;
}.

Record GuildLogItem := mkLogItem {
  li_guild_id : Z;
  li_level : Z;
  li_message : string;
  li_script_context : option ProtoContext;
}.

(** [LogLevel::from(level) as i32], the numbers of [botrpc.proto]. *)
Definition level_number (l : LogLevel) : Z :=
  match l with
  | LCritical => 0
  | LError => 1
  | LWarn => 2
  | LInfo => 3
  | LConsoleLog => 4
  end.

Definition level_of_number (n : Z) : outcome LogLevel :=
  if n =? 0 then Ret LCritical else if n =? 1 then Ret LError else if n =? 2 then Ret LWarn
  else if n =? 3 then Ret LInfo else if n =? 4 then Ret LConsoleLog else Panic.

Definition context_to_proto (c : ScriptContext) : ProtoContext :=
  mkProtoContext (sc_filename c) ((λ lc, mkLineCol lc.1 lc.2) <$> sc_line_col c).
Definition context_of_proto (c : ProtoContext) : ScriptContext :=
  mkScriptContext (pc_filename c) ((λ l, (lc_line l, lc_column l)) <$> pc_line_col c).

Definition item_of_entry (e : LogEntry) : GuildLogItem :=
  mkLogItem (le_guild_id e) (level_number (le_level e)) (le_message e) (context_to_proto <$> le_script_context e).

Definition entry_of_item (i : GuildLogItem) : outcome LogEntry :=
  do! g := id_new (li_guild_id i) in
  do! level := level_of_number (li_level i) in
  Ret (mkLogEntry g (li_message i) (context_of_proto <$> li_script_context i) level).

(** * components/guild-logger/src/discord_backend.rs *)

Definition is_error (l : LogLevel) : bool :=
  match l with
  | LError | LCritical => true
  | _ => false
  end.

Definition format_entry (e : LogEntry) : option string :=
  if is_error (le_level e) then
    let prefix := match le_script_context e with
                  | Some c => "[" +:+ level_text (le_level e) +:+ " " +:+ context_text c +:+ "]"
                  | None => "[" +:+ level_text (le_level e) +:+ "]"
                  end in
    Some (prefix +:+ ": " +:+ le_message e)
  else None.

(** [CreateMessage::content] accepts a text that is a valid message (not over 2000 characters). *)
Class MessageContent := valid_content : string → bool.

(** The message posted, as its channel and content; the answer to the post is dropped. *)
Definition discord_handle_entry `{MessageContent} (env : PgEnv) (e : LogEntry) (db : ConfigDb) : outcome (option (Z * string)) :=
  match format_entry e with
  | None => Ret None
  | Some message =>
      do! (_, conf) := get_guild_meta_config_or_default env (le_guild_id e) db in
      match conf with
      | Err _ => Ret None
      | Ok conf =>
          Ret (channel_id ← gm_error_channel_id conf; if valid_content message then Some (channel_id, message) else None)
      end
  end.

(** * components/guild-logger/src/guild_subscriber_backend.rs *)

(** The capacity of [broadcast::channel(n)], which may be greater than [n]. *)
Class Broadcast := broadcast_capacity : nat → nat.
Class BroadcastLaws (B : Broadcast) : Prop := broadcast_enough : ∀ n, (n ≤ broadcast_capacity n)%nat.

(** A stream of [stream_guild_logs] with its receiver: the values it has not read, the number it
    missed before those, and what it has yielded. [ls_since] counts the entries the backend had
    finished when the stream subscribed. *)
Record LogStream := mkStream {
  ls_guild : GuildId;
  ls_channel : nat;
  ls_since : nat;
  ls_open : bool;
  ls_missed : nat;
  ls_pending : list LogEntry;
  ls_yielded : list GuildLogItem;
}.

Record Subscriptions := mkSubs {
  subscriptions : gmap GuildId nat;
  next_channel : nat;
  streams : list LogStream;
}.

Section subscriber.
Context `{!Broadcast}.

Definition on_channel (c : nat) (s : LogStream) : bool := ls_open s && bool_decide (ls_channel s = c).

(** A value arrives at a receiver: over the capacity, the oldest one is dropped. *)
Definition push (e : LogEntry) (s : LogStream) : LogStream :=
  let p := ls_pending s ++ [e] in
  if bool_decide (length p ≤ broadcast_capacity 1000)%nat then
    mkStream (ls_guild s) (ls_channel s) (ls_since s) (ls_open s) (ls_missed s) p (ls_yielded s)
  else
    mkStream (ls_guild s) (ls_channel s) (ls_since s) (ls_open s) (S (ls_missed s)) (tail p) (ls_yielded s).

(** [Sender::send]: fails exactly when there is no receiver. *)
Definition broadcast_send (c : nat) (e : LogEntry) (l : list LogStream) : bool * list LogStream :=
  (existsb (on_channel c) l, (λ s, if on_channel c s then push e s else s) <$> l).

(** The path under the read lock: whether the entry is done with. *)
Definition fast_path (e : LogEntry) (b : Subscriptions) : bool * Subscriptions :=
  match subscriptions b !! le_guild_id e with
  | None => (true, b)
  | Some c =>
      let (ok, l) := broadcast_send c e (streams b) in
      (ok, mkSubs (subscriptions b) (next_channel b) l)
  end.

(** The path under the write lock. *)
Definition slow_path (e : LogEntry) (b : Subscriptions) : Subscriptions :=
  match subscriptions b !! le_guild_id e with
  | None => b
  | Some c =>
      let (ok, l) := broadcast_send c e (streams b) in
      if ok then mkSubs (subscriptions b) (next_channel b) l
      else mkSubs (delete (le_guild_id e) (subscriptions b)) (next_channel b) l
  end.

Definition subscribe (handled : nat) (g : GuildId) (b : Subscriptions) : Subscriptions :=
  match subscriptions b !! g with
  | Some c => mkSubs (subscriptions b) (next_channel b) (streams b ++ [mkStream g c handled true 0 [] []])
  | None =>
      mkSubs (<[g := next_channel b]> (subscriptions b)) (S (next_channel b))
             (streams b ++ [mkStream g (next_channel b) handled true 0 [] []])
  end.
End subscriber.

(** [rx.recv()] of a stream and its loop: a value is yielded, an error ends the stream; [None] when
    there is nothing to read. *)
Definition stream_poll (s : LogStream) : option LogStream :=
  if ls_open s then
    if bool_decide (ls_missed s = 0%nat) then
      match ls_pending s with
      | [] => None
      | e :: p => Some (mkStream (ls_guild s) (ls_channel s) (ls_since s) true 0 p (ls_yielded s ++ [item_of_entry e]))
      end
    else Some (mkStream (ls_guild s) (ls_channel s) (ls_since s) false (ls_missed s) (ls_pending s) (ls_yielded s))
  else None.

Definition stream_drop (s : LogStream) : LogStream :=
  mkStream (ls_guild s) (ls_channel s) (ls_since s) false (ls_missed s) (ls_pending s) (ls_yielded s).

(** * components/guild-logger/src/lib.rs *)

(** The implementations of [GuildLoggerBackend]: the two of the scheduler, the worker's
    [GuildLogForwarder], and the [Tracker] the scheduler adds for the integration tests, with the
    number of scripts it was made for and the time. *)
Inductive Backend := BDiscord | BSubscriber | BForwarder | BTracker (num_scripts created_at : Z).
#[global] Instance Backend_eq_dec : EqDecision Backend.
Proof. solve_decision. Defined.

Definition builder_new : list Backend := [].
Definition add_backend (l : list Backend) (b : Backend) : list Backend := l ++ [b].

(** Where the task is: waiting for an entry, about to call the i-th backend, or in the i-th
    backend between its two locks. *)
Inductive LogPhase :=
| LIdle
| LBackend (e : LogEntry) (i : nat)
| LBetweenLocks (e : LogEntry) (i : nat).

Record LogSys := mkLog {
  lg_backends : list Backend;
  lg_queue : list LogEntry;
  lg_phase : LogPhase;
  lg_subs : Subscriptions;
  lg_posts : list (Z * string);          (* messages given to Discord *)
  lg_forwarded : list WorkerMessage;     (* messages given to the worker's sender *)
  lg_logged : list LogEntry;             (* history: the entries logged *)
  lg_seen : list (nat * LogEntry);       (* history: the calls of a backend that returned *)
  lg_trackers : gmap nat Tracker;        (* the trackers among the backends, once called *)
}.

(** [GuildLoggerBuilder::run] *)
Definition logger_run (backends : list Backend) : LogSys :=
  mkLog backends [] LIdle (mkSubs ∅ 0 []) [] [] [] [] ∅.

Definition set_phase (p : LogPhase) (s : LogSys) : LogSys :=
  mkLog (lg_backends s) (lg_queue s) p (lg_subs s) (lg_posts s) (lg_forwarded s) (lg_logged s) (lg_seen s) (lg_trackers s).
Definition set_subs (b : Subscriptions) (s : LogSys) : LogSys :=
  mkLog (lg_backends s) (lg_queue s) (lg_phase s) b (lg_posts s) (lg_forwarded s) (lg_logged s) (lg_seen s) (lg_trackers s).
Definition add_posts (l : list (Z * string)) (s : LogSys) : LogSys :=
  mkLog (lg_backends s) (lg_queue s) (lg_phase s) (lg_subs s) (lg_posts s ++ l) (lg_forwarded s) (lg_logged s) (lg_seen s) (lg_trackers s).
Definition add_forwarded (l : list WorkerMessage) (s : LogSys) : LogSys :=
  mkLog (lg_backends s) (lg_queue s) (lg_phase s) (lg_subs s) (lg_posts s) (lg_forwarded s ++ l) (lg_logged s) (lg_seen s) (lg_trackers s).

Definition set_tracker (i : nat) (t : Tracker) (s : LogSys) : LogSys :=
  mkLog (lg_backends s) (lg_queue s) (lg_phase s) (lg_subs s) (lg_posts s) (lg_forwarded s) (lg_logged s) (lg_seen s)
        (<[i := t]> (lg_trackers s)).

(** The tracker at position [i], which was made by [Tracker::new]. *)
Definition tracker_at (i : nat) (num_scripts created_at : Z) (s : LogSys) : Tracker :=
  default (tracker_new num_scripts created_at) (lg_trackers s !! i).

(** The i-th call of [handle_next]'s loop returned. *)
Definition returned (e : LogEntry) (i : nat) (s : LogSys) : LogSys :=
  mkLog (lg_backends s) (lg_queue s) (LBackend e (S i)) (lg_subs s) (lg_posts s) (lg_forwarded s) (lg_logged s)
        (lg_seen s ++ [(i, e)]) (lg_trackers s).

(** The entries a subscriber backend has finished. *)
Definition is_subscriber (l : list Backend) (ie : nat * LogEntry) : bool := bool_decide (l !! ie.1 = Some BSubscriber).
Definition handled (s : LogSys) : list LogEntry := snd <$> List.filter (is_subscriber (lg_backends s)) (lg_seen s).

(** [GuildLogger::log] *)
Definition log_entry (e : LogEntry) (s : LogSys) : LogSys :=
  mkLog (lg_backends s) (lg_queue s ++ [e]) (lg_phase s) (lg_subs s) (lg_posts s) (lg_forwarded s) (lg_logged s ++ [e]) (lg_seen s) (lg_trackers s).

Section system.
Context `{!Broadcast, !MessageContent, !TestJson}.
Implicit Types (s : LogSys) (env : PgEnv) (db : ConfigDb).

(** One step of [run] at the time [now]: [None] while it waits for an entry. *)
Definition log_step env (now : Z) db s : option (outcome LogSys) :=
  match lg_phase s with
  | LIdle =>
      match lg_queue s with
      | [] => None
      | e :: q => Some (Ret (mkLog (lg_backends s) q (LBackend e 0) (lg_subs s) (lg_posts s) (lg_forwarded s) (lg_logged s) (lg_seen s) (lg_trackers s)))
      end
  | LBackend e i =>
      Some (match lg_backends s !! i with
            | None => Ret (set_phase LIdle s)
            | Some BDiscord => do! post := discord_handle_entry env e db in Ret (returned e i (add_posts (option_list post) s))
            | Some (BTracker num_scripts created_at) =>
                let (t, r) := tracker_handle_entry now e (tracker_at i num_scripts created_at s) in
                do! _ := r in Ret (returned e i (set_tracker i t s))
            | Some BForwarder => Ret (returned e i (add_forwarded [GuildLog e] s))
            | Some BSubscriber =>
                let (done, b) := fast_path e (lg_subs s) in
                Ret (if done then returned e i (set_subs b s) else set_phase (LBetweenLocks e i) (set_subs b s))
            end)
  | LBetweenLocks e i => Some (Ret (returned e i (set_subs (slow_path e (lg_subs s)) s)))
  end.

(** What happens between two steps of the task. *)
Inductive LogAction :=
| ALog (e : LogEntry)
| ATask (env : PgEnv) (now : Z) (db : ConfigDb)
| ASubscribe (g : GuildId)
| APoll (i : nat)
| ADrop (i : nat).

Definition with_streams (f : list LogStream → list LogStream) s : LogSys :=
  set_subs (mkSubs (subscriptions (lg_subs s)) (next_channel (lg_subs s)) (f (streams (lg_subs s)))) s.

Definition log_act (a : LogAction) s : outcome LogSys :=
  match a with
  | ALog e => Ret (log_entry e s)
  | ATask env now db => default (Ret s) (log_step env now db s)
  | ASubscribe g => Ret (set_subs (subscribe (length (handled s)) g (lg_subs s)) s)
  | APoll i => Ret (with_streams (alter (λ x, default x (stream_poll x)) i) s)
  | ADrop i => Ret (with_streams (alter stream_drop i) s)
  end.

Inductive log_reachable (backends : list Backend) : LogSys → Prop :=
| lr_init : log_reachable backends (logger_run backends)
| lr_step a s s' : log_reachable backends s → log_act a s = Ret s' → log_reachable backends s'.
End system.

(** * The entries each backend gets *)

Definition seen_by (i : nat) (s : LogSys) : list LogEntry :=
  snd <$> List.filter (λ ie, bool_decide (ie.1 = i)) (lg_seen s).

(** The entry at hand, when the i-th backend has yet to finish it. *)
Definition in_flight (i : nat) (s : LogSys) : list LogEntry :=
  match lg_phase s with
  | LIdle => []
  | LBackend e j | LBetweenLocks e j => if bool_decide (j ≤ i)%nat then [e] else []
  end.

Record delivery_ok (l : list Backend) (s : LogSys) : Prop := {
  do_backends : lg_backends s = l;
  do_locks : ∀ e i, lg_phase s = LBetweenLocks e i → l !! i = Some BSubscriber;
  do_order : ∀ i, (i < length l)%nat → seen_by i s ++ in_flight i s ++ lg_queue s = lg_logged s;
}.

Lemma seen_by_snoc i e j s : seen_by i (returned e j s) = seen_by i s ++ (if bool_decide (j = i) then [e] else []).
Proof.
  unfold seen_by, returned; simpl. rewrite List.filter_app, fmap_app. simpl.
  by case_bool_decide.
Qed.

Lemma handled_snoc e j s :
  handled (returned e j s) = handled s ++ (if bool_decide (lg_backends s !! j = Some BSubscriber) then [e] else []).
Proof.
  unfold handled, returned, is_subscriber; simpl. rewrite List.filter_app, fmap_app. simpl.
  by case_bool_decide.
Qed.

(** A call that returns moves the entry from the calls in flight to the ones seen. *)
Lemma returned_delivery l e i s s' :
  delivery_ok l s → (lg_phase s = LBackend e i ∨ lg_phase s = LBetweenLocks e i) →
  lg_backends s' = lg_backends s → lg_queue s' = lg_queue s → lg_logged s' = lg_logged s → lg_seen s' = lg_seen s →
  delivery_ok l (returned e i s').
Proof.
  intros [Hb _ Ho] Hp Eb Eq El Es. split; simpl; [congruence | done |].
  intros j Hj. specialize (Ho j Hj). rewrite <- El, <- Eq in Ho. rewrite <- Ho, seen_by_snoc.
  unfold seen_by, in_flight in *. rewrite Es. simpl. rewrite <- app_assoc. f_equal.
  destruct Hp as [-> | ->]; simpl; repeat case_bool_decide; simpl; done || lia.
Qed.

Section delivery.
Context `{!Broadcast, !MessageContent, !TestJson}.

Lemma log_step_delivery l env now db s s' :
  delivery_ok l s → log_step env now db s = Some (Ret s') → delivery_ok l s'.
Proof.
  intros Hok Hs. pose proof Hok as [Hb Hl Ho]. unfold log_step in Hs.
  destruct (lg_phase s) as [|e i|e i] eqn:Hp.
  - destruct (lg_queue s) as [|e q] eqn:Hq; simplify_eq. split; simpl; [done | done |].
    intros j Hj. specialize (Ho j Hj). unfold in_flight in *. rewrite Hp in Ho.
    exact Ho.
  - destruct (lg_backends s !! i) as [[]|] eqn:Hi.
    + destruct (discord_handle_entry env e db) as [post|]; simplify_eq/=.
      eapply returned_delivery; eauto.
    + destruct (fast_path e (lg_subs s)) as [[] b]; simplify_eq.
      * eapply returned_delivery; eauto.
      * split; simpl; [done | intros ?? [= <- <-]; congruence |].
        intros j Hj. specialize (Ho j Hj). unfold in_flight in *. by rewrite Hp in Ho.
    + simplify_eq. eapply returned_delivery; eauto.
    + destruct (tracker_handle_entry _ _ _) as [t [[]|]]; simplify_eq/=. eapply returned_delivery; eauto.
    + simplify_eq. split; simpl; [done | done |].
      intros j Hj. specialize (Ho j Hj). unfold in_flight in *. rewrite Hp in Ho. simpl.
      apply lookup_ge_None in Hi. by rewrite bool_decide_false in Ho by lia.
  - simplify_eq. eapply returned_delivery; eauto.
Qed.

Lemma log_act_delivery l a s s' : delivery_ok l s → log_act a s = Ret s' → delivery_ok l s'.
Proof.
  intros Hok Ha. destruct a; simpl in Ha; simplify_eq.
  - destruct Hok as [Hb Hl Ho]. split; simpl; [done | done |].
    intros j Hj. rewrite <- (Ho j Hj). unfold seen_by, in_flight. simpl. by rewrite <- !app_assoc.
  - destruct (log_step env now db s) as [o|] eqn:Hs; simplify_eq/=; eauto using log_step_delivery.
  - by destruct Hok.
  - by destruct Hok.
  - by destruct Hok.
Qed.

Lemma log_reachable_delivery l s : log_reachable l s → delivery_ok l s.
Proof. induction 1; [by split | eauto using log_act_delivery]. Qed.

(** In every reachable state of the logger, the entries a backend has finished, the one in
    flight and the queued ones are exactly the entries logged, in the order logged: every backend
    gets every entry once and in order. *)
Theorem log_reaches_backends_in_order l s i :
  log_reachable l s → (i < length l)%nat → seen_by i s ++ in_flight i s ++ lg_queue s = lg_logged s.
Proof. intros Hr. apply (do_order l). by apply log_reachable_delivery. Qed.
End delivery.

(** * The log streams *)

(** The entries of a guild finished after the first [since]. *)
Definition guild_log (g : GuildId) (since : nat) (done : list LogEntry) : list LogEntry :=
  List.filter (λ e, le_guild_id e =? g) (drop since done).

Lemma guild_log_snoc g since done e :
  (since ≤ length done)%nat →
  guild_log g since (done ++ [e]) = guild_log g since done ++ (if le_guild_id e =? g then [e] else []).
Proof. intros. unfold guild_log. by rewrite drop_app_le, List.filter_app by done. Qed.

Section streams.
Context `{!Broadcast}.

Record stream_ok (done : list LogEntry) (subs : gmap GuildId nat) (s : LogStream) : Prop := {
  st_since : (ls_since s ≤ length done)%nat;
  st_prefix : ls_yielded s `prefix_of` (item_of_entry <$> guild_log (ls_guild s) (ls_since s) done);
  st_open : ls_open s = true →
    subs !! ls_guild s = Some (ls_channel s) ∧
    ∃ lost, length lost = ls_missed s ∧
      ls_yielded s ++ (item_of_entry <$> lost ++ ls_pending s) = item_of_entry <$> guild_log (ls_guild s) (ls_since s) done ∧
      (ls_missed s ≠ 0%nat → (broadcast_capacity 1000 ≤ length (ls_pending s))%nat);
}.

Record subs_ok (done : list LogEntry) (b : Subscriptions) : Prop := {
  so_fresh : ∀ g c, subscriptions b !! g = Some c → (c < next_channel b)%nat;
  so_inj : ∀ g g' c, subscriptions b !! g = Some c → subscriptions b !! g' = Some c → g = g';
  so_streams : Forall (stream_ok done (subscriptions b)) (streams b);
}.

Lemma skip_ok done subs e s :
  stream_ok done subs s → (ls_open s = true → le_guild_id e ≠ ls_guild s) → stream_ok (done ++ [e]) subs s.
Proof.
  intros [Hs Hp Ho] Hne. split.
  - rewrite length_app. lia.
  - rewrite guild_log_snoc by done. rewrite fmap_app. by apply prefix_app_r.
  - intros Hopen. specialize (Hne Hopen). rewrite guild_log_snoc by done.
    rewrite (proj2 (Z.eqb_neq _ _)) by done. rewrite app_nil_r. auto.
Qed.

Lemma push_ok done subs e s :
  stream_ok done subs s → ls_open s = true → le_guild_id e = ls_guild s → stream_ok (done ++ [e]) subs (push e s).
Proof.
  intros [Hs Hp Ho] Hopen He. destruct (Ho Hopen) as (Hsub & lost & Hl & Hall & Hcap).
  assert (guild_log (ls_guild s) (ls_since s) (done ++ [e]) = guild_log (ls_guild s) (ls_since s) done ++ [e]) as Hlog.
  { rewrite guild_log_snoc by done. by rewrite (proj2 (Z.eqb_eq _ _)). }
  assert (ls_yielded s `prefix_of` (item_of_entry <$> guild_log (ls_guild s) (ls_since s) (done ++ [e]))) as Hp'.
  { rewrite Hlog, fmap_app. by apply prefix_app_r. }
  assert (ls_since s ≤ length (done ++ [e]))%nat as Hs' by (rewrite length_app; lia).
  assert (∀ l, item_of_entry <$> l = item_of_entry <$> lost ++ ls_pending s ++ [e] →
    ls_yielded s ++ (item_of_entry <$> l) = item_of_entry <$> guild_log (ls_guild s) (ls_since s) (done ++ [e])) as Heq.
  { intros l ->. rewrite Hlog, (fmap_app _ _ [e]), <- Hall, (app_assoc lost), fmap_app. by rewrite app_assoc. }
  assert (length (ls_pending s ++ [e]) = S (length (ls_pending s))) as Hlen' by (rewrite length_app; simpl; lia).
  unfold push. case_bool_decide as Hlen; split; cbn [ls_since ls_guild ls_yielded ls_open ls_channel ls_missed ls_pending];
    try done; intros _; (split; [done|]).
  - exists lost. split; [done | split; [by apply Heq | intros Hm; specialize (Hcap Hm); lia]].
  - destruct (ls_pending s ++ [e]) as [|x p] eqn:Hpe; [done|]. simpl in *.
    exists (lost ++ [x]). rewrite length_app. simpl. split; [lia | split; [|lia]].
    apply Heq. by rewrite <- app_assoc.
Qed.

(** Only the streams of a guild are on its channel. *)
Lemma on_channel_guild done b g c s :
  subs_ok done b → subscriptions b !! g = Some c → stream_ok done (subscriptions b) s →
  on_channel c s = bool_decide (ls_open s = true ∧ ls_guild s = g).
Proof.
  intros Hb Hg [_ _ Ho]. unfold on_channel. destruct (ls_open s); cbn [andb]; [|symmetry; apply bool_decide_eq_false; naive_solver].
  destruct (Ho eq_refl) as [Hsub _]. apply bool_decide_ext. split.
  - intros Hc. split; [done|]. rewrite Hc in Hsub. by eapply (so_inj _ _ Hb).
  - intros [_ Hc]. congruence.
Qed.

Lemma send_ok done b e c :
  subs_ok done b → subscriptions b !! le_guild_id e = Some c →
  Forall (stream_ok (done ++ [e]) (subscriptions b)) (broadcast_send c e (streams b)).2.
Proof.
  intros Hb Hc. simpl. apply Forall_fmap, Forall_forall. intros s Hs. simpl.
  pose proof (proj1 (Forall_forall _ _) (so_streams _ _ Hb) s Hs) as Hok.
  rewrite (on_channel_guild _ _ _ _ _ Hb Hc Hok). case_bool_decide as Hd.
  - destruct Hd. by apply push_ok.
  - apply skip_ok; [done|]. intros Ho He. by apply Hd.
Qed.

(** A send that fails has reached nobody. *)
Lemma send_fails c e l : (broadcast_send c e l).1 = false → (broadcast_send c e l).2 = l.
Proof.
  simpl. intros Hf. rewrite <- (list_fmap_id l) at 2. apply list_fmap_ext. intros i s Hs.
  destruct (on_channel c s) eqn:Hc; [|done]. exfalso.
  rewrite (proj2 (existsb_exists _ _)) in Hf; [done|]. exists s. split; [|done].
  by apply list_elem_of_In, (list_elem_of_lookup_2 _ i).
Qed.

Lemma no_open_stream done b e c s :
  subs_ok done b → subscriptions b !! le_guild_id e = Some c → (broadcast_send c e (streams b)).1 = false →
  s ∈ streams b → ls_open s = true → ls_guild s ≠ le_guild_id e.
Proof.
  intros Hb Hc Hf Hs Ho Hg. simpl in Hf.
  pose proof (proj1 (Forall_forall _ _) (so_streams _ _ Hb) s Hs) as Hok.
  rewrite (proj2 (existsb_exists _ _)) in Hf; [done|]. exists s. split; [by apply list_elem_of_In|].
  rewrite (on_channel_guild _ _ _ _ _ Hb Hc Hok). by apply bool_decide_eq_true.
Qed.

Lemma no_subscription done b e :
  subs_ok done b → subscriptions b !! le_guild_id e = None → subs_ok (done ++ [e]) b.
Proof.
  intros Hb Hn. pose proof Hb as [Hf Hi Hs]. split; [done | done |].
  eapply Forall_impl; [exact Hs|]. intros s Hok. apply skip_ok; [done|]. intros Ho He.
  destruct (st_open _ _ _ Hok Ho) as [Hsub _]. congruence.
Qed.

Lemma fast_path_ok done e b :
  subs_ok done b → subs_ok (if (fast_path e b).1 then done ++ [e] else done) (fast_path e b).2.
Proof.
  intros Hb. unfold fast_path. destruct (subscriptions b !! le_guild_id e) as [c|] eqn:Hc; [|by apply no_subscription].
  pose proof (send_ok _ _ _ _ Hb Hc) as Hsend. pose proof (send_fails c e (streams b)) as Hfail.
  destruct (broadcast_send c e (streams b)) as [[] l] eqn:Hbs; simpl in *.
  - destruct Hb. by split.
  - rewrite Hfail by done. by destruct Hb.
Qed.

Lemma slow_path_ok done e b : subs_ok done b → subs_ok (done ++ [e]) (slow_path e b).
Proof.
  intros Hb. unfold slow_path. destruct (subscriptions b !! le_guild_id e) as [c|] eqn:Hc; [|by apply no_subscription].
  pose proof (send_ok _ _ _ _ Hb Hc) as Hsend. pose proof (send_fails c e (streams b)) as Hfail.
  pose proof (no_open_stream done b e c) as Hno.
  destruct (broadcast_send c e (streams b)) as [[] l] eqn:Hbs; simpl in *; pose proof Hb as [Hf Hi Hs]; split; simpl; try done.
  - intros g c' [_ Hg]%lookup_delete_Some. eauto.
  - intros g g' c' [_ Hg]%lookup_delete_Some [_ Hg']%lookup_delete_Some. eauto.
  - rewrite Hfail by done. apply Forall_forall. intros s Hin.
    pose proof (proj1 (Forall_forall _ _) Hs s Hin) as [H1 H2 H3].
    apply skip_ok; [|intros Ho; specialize (Hno s Hb Hc eq_refl Hin Ho); congruence].
    split; [done | done |]. intros Ho. specialize (Hno s Hb Hc eq_refl Hin Ho).
    rewrite lookup_delete_ne by congruence. auto.
Qed.

Lemma subscribe_ok done g b : subs_ok done b → subs_ok done (subscribe (length done) g b).
Proof.
  intros Hb. pose proof Hb as [Hf Hi Hs].
  assert (∀ m c, m !! g = Some c → stream_ok done m (mkStream g c (length done) true 0 [] [])) as Hnew.
  { intros m c Hm. split; simpl; [done | apply prefix_nil |]. intros _. split; [done|]. exists [].
    unfold guild_log. by rewrite drop_all. }
  unfold subscribe. destruct (subscriptions b !! g) as [c|] eqn:Hg.
  - split; simpl; [done | done |]. apply Forall_app. auto.
  - split; simpl.
    + intros g' c' [[<- <-] | [_ H']]%lookup_insert_Some; [lia|]. specialize (Hf _ _ H'). lia.
    + intros g1 g2 c' H1 H2. apply lookup_insert_Some in H1, H2.
      destruct H1 as [[? ?] | [? H1]], H2 as [[? ?] | [? H2]]; simplify_eq; try done; eauto.
      * specialize (Hf _ _ H2). lia.
      * specialize (Hf _ _ H1). lia.
    + apply Forall_app. split; [|apply Forall_singleton, Hnew, lookup_insert_eq].
      eapply Forall_impl; [exact Hs|]. intros s [H1 H2 H3]. split; [done | done |]. intros Ho.
      destruct (H3 Ho) as [Hsub ?]. split; [|done]. rewrite lookup_insert_ne; [done|]. congruence.
Qed.

Lemma stream_poll_ok done subs s : stream_ok done subs s → stream_ok done subs (default s (stream_poll s)).
Proof.
  intros Hok. pose proof Hok as [H1 H2 H3]. unfold stream_poll. destruct (ls_open s) eqn:Ho; [|done].
  destruct (H3 eq_refl) as (Hsub & lost & Hl & Hall & Hcap). case_bool_decide as Hm; simpl.
  - rewrite Hm in Hl. apply nil_length_inv in Hl as ->. simpl in Hall.
    destruct (ls_pending s) as [|e p]; simpl; [done|]. split; simpl; [done | |].
    + rewrite <- Hall. simpl. exists (item_of_entry <$> p). by rewrite <- app_assoc.
    + intros _. split; [done|]. exists []. rewrite <- Hall, <- app_assoc. by split.
  - by split.
Qed.

Lemma stream_drop_ok done subs s : stream_ok done subs s → stream_ok done subs (stream_drop s).
Proof. intros [H1 H2 H3]. by split. Qed.

Lemma alter_streams_ok done b f i :
  (∀ s, stream_ok done (subscriptions b) s → stream_ok done (subscriptions b) (f s)) → subs_ok done b →
  subs_ok done (mkSubs (subscriptions b) (next_channel b) (alter f i (streams b))).
Proof. intros Hf [H1 H2 H3]. split; simpl; [done | done |]. apply Forall_alter; eauto. Qed.
End streams.

Section log_system.
Context `{!Broadcast, !MessageContent, !TestJson}.

Lemma log_act_subs l a s s' :
  delivery_ok l s → subs_ok (handled s) (lg_subs s) → log_act a s = Ret s' → subs_ok (handled s') (lg_subs s').
Proof.
  intros Hd Hb Ha. destruct a as [e | env now db | g | i | i]; simpl in Ha; simplify_eq.
  - done.
  - destruct (log_step env now db s) as [o|] eqn:Hs; simplify_eq/=; [|done]. pose proof Hd as [Hl Hk _].
    unfold log_step in Hs. destruct (lg_phase s) as [|e i|e i] eqn:Hp.
    + by destruct (lg_queue s); simplify_eq.
    + destruct (lg_backends s !! i) as [[]|] eqn:Hi; simplify_eq.
      * destruct (discord_handle_entry env e db); simplify_eq/=. rewrite handled_snoc. simpl.
        rewrite bool_decide_false by congruence. by rewrite app_nil_r.
      * pose proof (fast_path_ok _ e _ Hb) as Hf. destruct (fast_path e (lg_subs s)) as [[] b]; simplify_eq/=; [|done].
        rewrite handled_snoc. simpl. by rewrite bool_decide_true.
      * rewrite handled_snoc. simpl. rewrite bool_decide_false by congruence. by rewrite app_nil_r.
      * destruct (tracker_handle_entry _ _ _) as [t [[]|]]; simplify_eq/=. rewrite handled_snoc. simpl.
        rewrite bool_decide_false by congruence. by rewrite app_nil_r.
      * done.
    + simplify_eq. rewrite handled_snoc. simpl. rewrite bool_decide_true by eauto. by apply slow_path_ok.
  - by apply subscribe_ok.
  - apply alter_streams_ok; [intros; by apply stream_poll_ok | done].
  - apply alter_streams_ok; [intros; by apply stream_drop_ok | done].
Qed.

Lemma log_reachable_subs l s : log_reachable l s → subs_ok (handled s) (lg_subs s).
Proof.
  induction 1 as [|a s s' Hr IH Ha]; [by split | eauto using log_act_subs, log_reachable_delivery].
Qed.

(** C28: A log stream yields its guild's entries and no others, in order and without a gap: in
    every reachable state it has yielded a prefix of the entries of its guild that the subscriber
    backend finished since it subscribed. While it is open these are what it has yielded, what it
    has missed and what it can still read, and it has missed something only if it is at least 1000
    entries behind. *)
Theorem log_stream_contiguous (HB : BroadcastLaws _) l s i x :
  log_reachable l s → streams (lg_subs s) !! i = Some x →
  ls_yielded x `prefix_of` (item_of_entry <$> guild_log (ls_guild x) (ls_since x) (handled s)) ∧
  (ls_open x = true →
   if bool_decide (ls_missed x = 0%nat)
   then ls_yielded x ++ (item_of_entry <$> ls_pending x) = item_of_entry <$> guild_log (ls_guild x) (ls_since x) (handled s)
   else (1000 ≤ length (ls_pending x))%nat).
Proof.
  intros Hr Hx. pose proof (log_reachable_subs _ _ Hr) as Hok.
  pose proof (Forall_lookup_1 _ _ _ _ (so_streams _ _ Hok) Hx) as [_ Hp Ho].
  split; [done|]. intros Hopen. destruct (Ho Hopen) as (_ & lost & Hl & Hall & Hcap). case_bool_decide as Hm.
  - rewrite Hm in Hl. by apply nil_length_inv in Hl as ->.
  - specialize (Hcap Hm). pose proof (HB 1000%nat). lia.
Qed.
End log_system.

(** * The task gets through its queue *)

Section drain.
Context `{!Broadcast, !MessageContent, !TestJson}.
Implicit Types s : LogSys.

(** The task left alone until it waits for an entry; the database and the clock may answer
    differently at every step. *)
Fixpoint run_task (fuel : nat) (env : nat → PgEnv) (now : nat → Z) (db : ConfigDb) s : outcome LogSys :=
  match fuel with
  | O => Ret s
  | S fuel =>
      match log_step (env fuel) (now fuel) db s with
      | None => Ret s
      | Some o => do! s := o in run_task fuel env now db s
      end
  end.

(** The number of steps it needs at most: per entry one to take it, two per backend and one to
    end the loop. *)
Definition steps_left s : nat :=
  let k := length (lg_backends s) in
  (length (lg_queue s) * (2 * k + 2) +
   match lg_phase s with
   | LIdle => 0
   | LBackend _ i => 2 * (k - i) + 1
   | LBetweenLocks _ i => 2 * (k - i)
   end)%nat.

(** A console line with the prefix of a test's report, whose payload does not decode. *)
Definition malformed_report (e : LogEntry) : bool :=
  match le_level e, strip_prefix "INTEGRATION_TEST:" (le_message e) with
  | LConsoleLog, Some p => bool_decide (test_message_of p = None)
  | _, _ => false
  end.

Definition is_tracker (b : Backend) : bool := match b with BTracker _ _ => true | _ => false end.

(** The completions reported in a log. *)
Definition reports (log : list LogEntry) : Z := Z.of_nat (length (List.filter is_completion log)).

Lemma reports_app l1 l2 : reports (l1 ++ l2) = reports l1 + reports l2.
Proof. unfold reports. rewrite List.filter_app, length_app. lia. Qed.

(** ** The trackers *)

(** An entry at a tracker whose lock is free: it panics on a malformed report and on one more
    completion than the counter holds, and on nothing else. *)
Lemma tracker_returns now e t :
  tk_poisoned t = false →
  match tracker_handle_entry now e t with
  | (t', Ret _) => malformed_report e = false ∧ tk_poisoned t' = false ∧
                   completions (tk_state t') = completions (tk_state t) + (if is_completion e then 1 else 0)
  | (_, Panic) => malformed_report e = true ∨ is_completion e = true ∧ i32_limit ≤ completions (tk_state t)
  end.
Proof.
  intros Hp. unfold tracker_handle_entry, handle_console_log, handle_err, handle_ig_test_message, with_write,
    malformed_report, is_completion. rewrite Hp.
  destruct (le_level e); try (simpl; split_and!; [done..|lia]).
  destruct (strip_prefix _ _) as [p|]; [|simpl; split_and!; [done..|lia]].
  destruct (test_message_of p) as [[]|]; [|by left].
  destruct (Z.ltb_spec (completions (tk_state t)) i32_limit); simpl; [done|]. right. split; [done|lia].
Qed.

(** Every tracker has counted the completions among the entries it has finished, none of which
    was malformed. *)
Definition trackers_ok (l : list Backend) s : Prop :=
  ∀ i n c, l !! i = Some (BTracker n c) →
    tk_poisoned (tracker_at i n c s) = false ∧ completions (tk_state (tracker_at i n c s)) = reports (seen_by i s) ∧
    Forall (λ e, malformed_report e = false) (seen_by i s).

Lemma tracker_at_same i n c s s' : lg_trackers s' = lg_trackers s → tracker_at i n c s' = tracker_at i n c s.
Proof. unfold tracker_at. by intros ->. Qed.

Lemma returned_trackers l e i s s' :
  trackers_ok l s → lg_trackers s' = lg_trackers s → lg_seen s' = lg_seen s →
  (∀ b, l !! i = Some b → is_tracker b = false) → trackers_ok l (returned e i s').
Proof.
  intros Hok Et Es Hi j n c Hj. rewrite seen_by_snoc, (tracker_at_same _ _ _ s) by done.
  rewrite bool_decide_false by (intros ->; by apply Hi in Hj). rewrite app_nil_r.
  unfold seen_by. rewrite Es. by apply Hok.
Qed.

Lemma log_step_trackers l env now db s s' :
  delivery_ok l s → trackers_ok l s → log_step env now db s = Some (Ret s') → trackers_ok l s'.
Proof.
  intros [Hb Hl _] Hok. unfold log_step. destruct (lg_phase s) as [|e i|e i] eqn:Hp.
  - by destruct (lg_queue s); intros; simplify_eq.
  - rewrite Hb. destruct (l !! i) as [[]|] eqn:Hi.
    + destruct (discord_handle_entry env e db); intros; simplify_eq/=. eapply returned_trackers; [done..|]. rewrite Hi. by intros ? [= <-].
    + destruct (fast_path e (lg_subs s)) as [[] b]; intros; simplify_eq; [|done]. eapply returned_trackers; [done..|].
      rewrite Hi. by intros ? [= <-].
    + intros; simplify_eq. eapply returned_trackers; [done..|]. rewrite Hi. by intros ? [= <-].
    + rename num_scripts into n, created_at into c. destruct (Hok _ _ _ Hi) as (Hpo & Hc & Hm).
      pose proof (tracker_returns now e _ Hpo) as Ht. destruct (tracker_handle_entry _ _ _) as [t [[]|]]; intros; simplify_eq/=.
      destruct Ht as (He & Hpo' & Hc'). intros j n' c' Hj. rewrite seen_by_snoc. unfold tracker_at. simpl.
      case_bool_decide as Hij.
      * subst j. rewrite lookup_insert_eq, reports_app. simpl. split_and!; [done| |by apply Forall_app_2; [|apply Forall_singleton]].
        rewrite Hc', Hc. unfold reports at 3. simpl. by destruct (is_completion e).
      * rewrite lookup_insert_ne, app_nil_r by done. by apply Hok.
    + by intros; simplify_eq.
  - intros; simplify_eq. eapply returned_trackers; [done..|]. intros b Hi. rewrite (Hl e i) in Hi by done. by simplify_eq.
Qed.

Lemma log_reachable_trackers l s : log_reachable l s → trackers_ok l s.
Proof.
  induction 1 as [|a s s' Hr IH Ha]; [by intros i n c Hi|]. destruct a; simpl in Ha; simplify_eq; try done.
  destruct (log_step env now db s) as [o|] eqn:Hs; simplify_eq/=; eauto using log_step_trackers, log_reachable_delivery.
Qed.

(** ** The run *)

Lemma discord_no_panic env e db :
  config_ok db → valid_id (le_guild_id e) → ∃ p, discord_handle_entry env e db = Ret p.
Proof.
  intros Hok Hid. unfold discord_handle_entry. destruct (format_entry e); [|eauto].
  unfold get_guild_meta_config_or_default. destruct (get_meta_ok env _ db Hok Hid) as [r ->]. simpl.
  destruct r as [[]|]; eauto.
Qed.

Lemma in_flight_logged l s e i :
  delivery_ok l s → lg_phase s = LBackend e i ∨ lg_phase s = LBetweenLocks e i → (i < length l)%nat →
  ∃ rest, lg_logged s = seen_by i s ++ e :: rest.
Proof.
  intros [_ _ Ho] Hp Hi. exists (lg_queue s). rewrite <- (Ho i Hi). unfold in_flight.
  by destruct Hp as [-> | ->]; rewrite bool_decide_true by lia.
Qed.

(** A step that returns comes nearer to the end of the queue. *)
Lemma log_step_decreases l env now db s :
  delivery_ok l s →
  match log_step env now db s with
  | None => lg_phase s = LIdle ∧ lg_queue s = []
  | Some (Ret s') => lg_logged s' = lg_logged s ∧ (steps_left s' < steps_left s)%nat
  | Some Panic => True
  end.
Proof.
  intros [Hb Hk _]. unfold log_step, steps_left. destruct (lg_phase s) as [|e i|e i] eqn:Hp.
  - destruct (lg_queue s) as [|e q]; [done|]. simpl. split; [done | lia].
  - destruct (lg_backends s !! i) as [bk|] eqn:Hi; [|simpl; split; [done | lia]].
    pose proof (lookup_lt_Some _ _ _ Hi) as Hlt. destruct bk.
    + destruct (discord_handle_entry env e db); simpl; [split; [done | lia] | done].
    + destruct (fast_path e (lg_subs s)) as [[] b]; simpl; (split; [done | lia]).
    + simpl. split; [done | lia].
    + destruct (tracker_handle_entry _ _ _) as [t [[]|]]; simpl; [split; [done | lia] | done].
  - simpl. split; [done|]. specialize (Hk e i eq_refl). rewrite <- Hb in Hk. apply lookup_lt_Some in Hk. lia.
Qed.

(** What may be logged without a panic: guilds' ids are valid, and if there is a tracker then no
    report is malformed and its counter suffices. *)
Definition harmless (l : list Backend) (log : list LogEntry) : Prop :=
  Forall (λ e, valid_id (le_guild_id e)) log ∧
  (existsb is_tracker l = true → existsb malformed_report log = false ∧ reports log ≤ i32_limit).

Lemma log_step_no_panic l env now db s :
  delivery_ok l s → trackers_ok l s → config_ok db → harmless l (lg_logged s) → log_step env now db s ≠ Some Panic.
Proof.
  intros Hd Ht Hok [Hids Htr] Hs. pose proof Hd as [Hb _ _]. unfold log_step in Hs. destruct (lg_phase s) as [|e i|e i] eqn:Hp;
    [by destruct (lg_queue s)| |done].
  destruct (lg_backends s !! i) as [bk|] eqn:Hi; [|done]. rewrite Hb in Hi. pose proof (lookup_lt_Some _ _ _ Hi) as Hlt.
  destruct (in_flight_logged l s e i Hd (or_introl Hp) Hlt) as [rest Hlog]. destruct bk.
  - destruct (discord_no_panic env e db) as [p Hdisc]; [done| |by rewrite Hdisc in Hs].
    rewrite Hlog in Hids. apply Forall_app in Hids as [_ Hids]. by inversion Hids.
  - by destruct (fast_path e (lg_subs s)) as [[] b].
  - done.
  - destruct (Ht _ _ _ Hi) as (Hpo & Hc & _). pose proof (tracker_returns now e _ Hpo) as Hret.
    destruct (tracker_handle_entry _ _ _) as [t [[]|]]; [done|].
    destruct Htr as [Hm Hn]. { apply existsb_exists. exists (BTracker num_scripts created_at). split; [|done]. by eapply list_elem_of_In, list_elem_of_lookup_2. }
    rewrite Hlog in Hm, Hn. rewrite existsb_app in Hm. simpl in Hm. apply orb_false_iff in Hm as [_ [Hm _]%orb_false_iff].
    destruct Hret as [?|[He ?]]; [congruence|]. rewrite reports_app in Hn. unfold reports at 2 in Hn. simpl in Hn. rewrite He in Hn. simpl in Hn. lia.
Qed.

(** A run that returns has emptied the queue, and one that has nothing to fear returns. *)
Lemma run_task_ends l env now db fuel s :
  delivery_ok l s → trackers_ok l s → (steps_left s ≤ fuel)%nat →
  match run_task fuel env now db s with
  | Ret s' => lg_phase s' = LIdle ∧ lg_queue s' = [] ∧ lg_logged s' = lg_logged s ∧ delivery_ok l s' ∧ trackers_ok l s'
  | Panic => config_ok db → ~ harmless l (lg_logged s)
  end.
Proof.
  revert s. induction fuel as [|fuel IH]; intros s Hd Ht Hle; simpl.
  - pose proof (log_step_decreases l (env 0%nat) (now 0%nat) db s Hd) as Hp. unfold log_step in Hp. unfold steps_left in *.
    destruct (lg_phase s) as [|e i|e i] eqn:Hph; [|lia|].
    + destruct (lg_queue s); [done|simpl in Hle; lia].
    + destruct Hp as [_ Hp]. lia.
  - pose proof (log_step_decreases l (env fuel) (now fuel) db s Hd) as Hp.
    pose proof (log_step_delivery l (env fuel) (now fuel) db s) as Hd'. pose proof (log_step_trackers l (env fuel) (now fuel) db s) as Ht'.
    pose proof (log_step_no_panic l (env fuel) (now fuel) db s Hd Ht) as Hn.
    destruct (log_step (env fuel) (now fuel) db s) as [[s'|]|]; simpl; [|by intros Hok Hh; apply Hn|naive_solver].
    destruct Hp as [Hlog Hlt]. rewrite <- Hlog. apply IH; [by apply Hd'|by apply Ht'|lia].
Qed.

(** C29: The logger's task gets through everything it has to do, unless an integration test's report
    ends it: left alone in any reachable state, whatever the database and the clock answer, it is
    waiting for an entry again after at most the given number of steps, and then every backend has
    finished exactly the entries logged. It panics exactly if the tracker of the integration tests
    is among the backends and a console line with the prefix of a report whose payload does not
    decode was logged; whoever logged it, all guilds' logs end there. Guild ids are not 0, the
    settings' rows well-formed and the reports fewer than the tracker's counter holds. *)
Theorem logger_drains l env now db s :
  log_reachable l s → config_ok db → Forall (λ e, valid_id (le_guild_id e)) (lg_logged s) → reports (lg_logged s) ≤ i32_limit →
  if existsb is_tracker l && existsb malformed_report (lg_logged s)
  then run_task (steps_left s) env now db s = Panic
  else ∃ s', run_task (steps_left s) env now db s = Ret s' ∧ lg_phase s' = LIdle ∧ lg_queue s' = [] ∧
             ∀ i, (i < length l)%nat → seen_by i s' = lg_logged s.
Proof.
  intros Hr Hok Hids Hn. pose proof (run_task_ends l env now db (steps_left s) s (log_reachable_delivery _ _ Hr)
    (log_reachable_trackers _ _ Hr) (le_n _)) as Hrun.
  destruct (run_task (steps_left s) env now db s) as [s'|].
  - destruct Hrun as (Hp & Hq & Hlog & [_ _ Ho] & Ht).
    assert (∀ i, (i < length l)%nat → seen_by i s' = lg_logged s) as Hseen.
    { intros i Hi. rewrite <- Hlog, <- (Ho i Hi). unfold in_flight. by rewrite Hp, Hq, app_nil_r. }
    destruct (existsb is_tracker l && _) eqn:Hbad; [|by exists s'].
    apply andb_true_iff in Hbad as [(b & Hb & Htr)%existsb_exists (e & He & Hm)%existsb_exists].
    apply list_elem_of_In, list_elem_of_lookup in Hb as [i Hi]. destruct b as [| | |n c]; try done.
    destruct (Ht _ _ _ Hi) as (_ & _ & Hall). rewrite Hseen in Hall by (by eapply lookup_lt_Some).
    rewrite Forall_forall in Hall. rewrite Hall in Hm; [done|by apply list_elem_of_In].
  - specialize (Hrun Hok). destruct (existsb is_tracker l) eqn:Htr, (existsb malformed_report (lg_logged s)) eqn:Hm; try done;
      exfalso; apply Hrun; split; try done; by rewrite Htr.
Qed.

(** * What reaches Discord and what crosses the RPC *)

(** The guild's own setting decides: after it was written, an entry of the guild is posted exactly
    when it is an error or critical, to the channel set, with its level, place and message. *)
Theorem discord_posts_exact env env' conf db db' r e :
  valid_id (gm_guild_id conf) → (∀ c, gm_error_channel_id conf = Some c → valid_id c) →
  update_guild_meta_config env conf db = Ret (db', Ok r) → pg_error env' = None → le_guild_id e = gm_guild_id conf →
  discord_handle_entry env' e db' =
  Ret (message ← format_entry e; channel_id ← gm_error_channel_id conf;
       if valid_content message then Some (channel_id, message) else None).
Proof.
  intros Hg Hc Hup Hpg He. unfold discord_handle_entry. destruct (format_entry e) as [message|]; [|done]. simpl.
  destruct (guild_meta_roundtrip env env' conf db db' r Hg Hc Hup Hpg) as [_ Hget]. by rewrite He, Hget.
Qed.
End drain.

(** An entry survives the trip over the RPC: converting it to the wire's item and back gives
    the entry, for every level and context. *)
Theorem log_item_roundtrip e : valid_id (le_guild_id e) → entry_of_item (item_of_entry e) = Ret e.
Proof.
  intros Hid. destruct e as [g msg ctx level]. unfold entry_of_item, item_of_entry. simpl in *.
  unfold id_new. rewrite (proj2 (Z.eqb_neq g 0)) by (unfold valid_id in Hid; lia). simpl.
  destruct level; simpl; (destruct ctx as [[f [[line col]|]]|]; done).
Qed.

(** * Witnesses *)

Definition ex_broadcast : Broadcast := λ n, (2 ^ Nat.log2_up n)%nat.
Definition ex_content : MessageContent := λ m, bool_decide (String.length m ≤ 2000)%nat.
Lemma ex_broadcast_laws : BroadcastLaws ex_broadcast.
Proof.
  intros n. unfold broadcast_capacity, ex_broadcast. destruct (decide (1 < n)%nat) as [Hn|Hn].
  - apply Nat.log2_up_spec, Hn.
  - destruct n as [|[|n]]; simpl; lia.
Qed.

#[local] Existing Instances ex_broadcast ex_content ex_test_json.

Fixpoint log_run `{!Broadcast, !MessageContent, !TestJson} (acts : list LogAction) (s : LogSys) : outcome LogSys :=
  match acts with
  | [] => Ret s
  | a :: acts => do! s := log_act a s in log_run acts s
  end.

Lemma log_run_reachable `{!Broadcast, !MessageContent, !TestJson} l acts s s' :
  log_reachable l s → log_run acts s = Ret s' → log_reachable l s'.
Proof.
  revert s. induction acts as [|a acts IH]; intros s Hr Hs; simpl in Hs; [congruence|].
  destruct (log_act a s) as [s1|] eqn:Ha; [|done]. eapply IH; [|exact Hs]. by econstructor.
Qed.

(** Guild 7 reports to channel 70; a stream is opened, closed and opened again while entries of
    two guilds are logged, the second time between the two locks of the backend. *)
Definition ex_log_db : ConfigDb := set_meta {[ 7 := 70 ]} config_init.
Definition ex_task : LogAction := ATask (ex_env 0) 0 ex_log_db.
Definition ex_err (g : Z) (m : string) : LogEntry := script_error g m "a.ts" (Some (3, 14)).
Definition ex_log_acts : list LogAction :=
  [ASubscribe 7; ALog (ex_err 7 "x"); ex_task; ex_task; ADrop 0; ex_task; ASubscribe 7; ALog (ex_err 8 "y");
   ALog (log_info 7 "z"); ex_task; ex_task; ex_task; ex_task; ex_task; ex_task; ex_task; ex_task; ex_task; APoll 1;
   ALog (ex_err 7 "w")].

Definition ex_log_sys : LogSys :=
  match log_run ex_log_acts (logger_run (add_backend (add_backend builder_new BDiscord) BSubscriber)) with
  | Ret s => s
  | Panic => logger_run []
  end.

Lemma ex_log_reachable : log_reachable [BDiscord; BSubscriber] ex_log_sys.
Proof. eapply (log_run_reachable _ ex_log_acts); [apply lr_init | vm_compute; reflexivity]. Qed.

Example ex_log_posts : lg_posts ex_log_sys = [(70, "[ERRO a.ts:3:14]: x")].
Proof. vm_compute. reflexivity. Qed.

Lemma log_reaches_backends_in_order_witness : seen_by 1 ex_log_sys ++ in_flight 1 ex_log_sys ++ lg_queue ex_log_sys =
  [ex_err 7 "x"; ex_err 8 "y"; log_info 7 "z"; ex_err 7 "w"].
Proof.
  refine (eq_trans (log_reaches_backends_in_order [BDiscord; BSubscriber] ex_log_sys 1
                      ex_log_reachable _) _); [simpl; lia | vm_compute; reflexivity].
Defined.

Definition ex_stream : LogStream :=
  mkStream 7 0 0 true 0 [log_info 7 "z"] [item_of_entry (ex_err 7 "x")].

Lemma log_stream_contiguous_witness :
  ls_yielded ex_stream `prefix_of` (item_of_entry <$> [ex_err 7 "x"; log_info 7 "z"]) ∧
  ls_yielded ex_stream ++ (item_of_entry <$> ls_pending ex_stream) = item_of_entry <$> [ex_err 7 "x"; log_info 7 "z"].
Proof.
  destruct (log_stream_contiguous ex_broadcast_laws [BDiscord; BSubscriber] ex_log_sys 1 ex_stream
              ex_log_reachable) as [Hp Ho]; [vm_compute; reflexivity|].
  split; [exact Hp | exact (Ho eq_refl)].
Defined.

Lemma config_init_ok : config_ok config_init.
Proof. split; simpl; try apply map_Forall_empty; try (unfold i64_max; lia). intros. by simplify_map_eq. Qed.

Lemma ex_log_db_ok : config_ok ex_log_db.
Proof.
  destruct config_init_ok. split; try done. simpl. apply map_Forall_singleton.
  unfold nonzero, i64_as_u64, i64_min, i64_max. split; [|lia]. by vm_compute.
Qed.

Lemma ex_logged : lg_logged ex_log_sys = [ex_err 7 "x"; ex_err 8 "y"; log_info 7 "z"; ex_err 7 "w"].
Proof. vm_compute. reflexivity. Qed.

Lemma ex_steps_left : steps_left ex_log_sys = 7%nat.
Proof. vm_compute. reflexivity. Qed.

(** With the tracker: the same log, and one report that decodes and one that does not. *)
Definition ex_console (m : string) : LogEntry := script_console 7 m "a.ts" None.
Definition ex_tracked (l : list LogEntry) : LogSys :=
  foldr log_entry (logger_run [BDiscord; BSubscriber; BTracker 1 0]) (reverse l).

Lemma ex_tracked_reachable l : log_reachable [BDiscord; BSubscriber; BTracker 1 0] (ex_tracked l).
Proof. unfold ex_tracked. induction (reverse l) as [|e l' IH]; simpl; [apply lr_init|]. by apply (lr_step _ (ALog e) _ _ IH). Qed.

Definition ex_envs : nat → PgEnv := λ _, ex_env 0.

Lemma logger_drains_witness :
  (∃ s', run_task 7 ex_envs Z.of_nat ex_log_db ex_log_sys = Ret s' ∧
     lg_queue s' = [] ∧ seen_by 1 s' = [ex_err 7 "x"; ex_err 8 "y"; log_info 7 "z"; ex_err 7 "w"]) ∧
  (∃ s', run_task 8 ex_envs Z.of_nat ex_log_db (ex_tracked [ex_console "INTEGRATION_TEST:C"]) = Ret s' ∧
     seen_by 2 s' = [ex_console "INTEGRATION_TEST:C"]) ∧
  run_task 16 ex_envs Z.of_nat ex_log_db (ex_tracked [ex_console "INTEGRATION_TEST:?"; ex_err 8 "y"]) = Panic.
Proof.
  rewrite <- ex_logged, <- ex_steps_left. split_and!.
  - destruct (logger_drains [BDiscord; BSubscriber] ex_envs Z.of_nat ex_log_db ex_log_sys ex_log_reachable ex_log_db_ok)
      as (s' & Hrun & _ & Hq & Hseen).
    + rewrite ex_logged. repeat (apply Forall_cons; split; [unfold valid_id, u64_max; simpl; lia|]). by apply Forall_nil.
    + by vm_compute.
    + exists s'. split; [exact Hrun | split; [exact Hq | apply Hseen; simpl; lia]].
  - destruct (logger_drains [BDiscord; BSubscriber; BTracker 1 0] ex_envs Z.of_nat ex_log_db
      (ex_tracked [ex_console "INTEGRATION_TEST:C"]) (ex_tracked_reachable _) ex_log_db_ok) as (s' & Hrun & _ & _ & Hseen).
    + repeat (apply Forall_cons; split; [unfold valid_id, u64_max; simpl; lia|]). by apply Forall_nil.
    + by vm_compute.
    + exists s'. split; [exact Hrun | apply (Hseen 2%nat); simpl; lia].
  - apply (logger_drains [BDiscord; BSubscriber; BTracker 1 0] ex_envs Z.of_nat ex_log_db
      (ex_tracked [ex_console "INTEGRATION_TEST:?"; ex_err 8 "y"]) (ex_tracked_reachable _) ex_log_db_ok).
    + repeat (apply Forall_cons; split; [unfold valid_id, u64_max; simpl; lia|]). by apply Forall_nil.
    + by vm_compute.
Defined.

Lemma log_item_roundtrip_witness : entry_of_item (item_of_entry (ex_err 7 "x")) = Ret (ex_err 7 "x").
Proof. apply (log_item_roundtrip (ex_err 7 "x")). unfold valid_id, u64_max. simpl. lia. Defined.

Lemma discord_posts_exact_witness :
  @discord_handle_entry ex_content (ex_env 1) (ex_err 7 "x") (set_meta (<[7 := 70]> ∅) config_init) = Ret (Some (70, "[ERRO a.ts:3:14]: x")).
Proof.
  refine (eq_trans (@discord_posts_exact ex_content (ex_env 0) (ex_env 1) (mkGuildMeta 7 (Some 70)) config_init
    (set_meta (<[7 := 70]> ∅) config_init) (mkGuildMeta 7 (Some 70)) (ex_err 7 "x") _ _ _ _ _) _); simpl.
  - unfold valid_id, u64_max. simpl. lia.
  - intros c [= <-]. unfold valid_id, u64_max. lia.
  - vm_compute. reflexivity.
  - reflexivity.
  - reflexivity.
  - vm_compute. reflexivity.
Defined.
