(* ===== verification/StoreTraits.v ===== *)
(** The trait [ConfigStore] ([components/stores/src/config.rs]) as an interface, its two
    implementations as instances, and what both promise of a guild's scripts. The Discord
    backend of the guild log is a client of the trait.

    A method takes the store and gives the store it leaves and its result; [todo!()] panics. *)
From stdpp Require Import base gmap list strings.
From S2P Require Import Prelude Numbers Models WorkerPool Postgres BucketStore ConfigStore ReadOnlyStore GuildLogger.

(** * The trait *)

Definition method (St A : Type) : Type := St → outcome (St * result ConfigStoreError A).

Class ConfigStoreTrait (St : Type) := {
  t_get_script : GuildId → string → method St Script;
  t_get_script_by_id : GuildId → Z → method St Script;
  t_create_script : GuildId → CreateScript → method St Script;
  t_update_script : GuildId → UpdateScript → method St Script;
  t_update_script_contributes : GuildId → Z → ScriptContributes → method St Script;
  t_del_script : GuildId → string → method St unit;
  t_list_scripts : GuildId → method St (list Script);
  t_get_guild_meta_config : GuildId → method St (option GuildMetaConfig);
  t_update_guild_meta_config : GuildMetaConfig → method St GuildMetaConfig;
  t_add_update_joined_guild : JoinedGuild → method St JoinedGuild;
  t_set_guild_left_status : GuildId → bool → method St JoinedGuild;
  t_get_joined_guilds : list GuildId → method St (list JoinedGuild);
  t_get_joined_guilds_not_in : list GuildId → method St (list JoinedGuild);
  t_is_guild_whitelisted : GuildId → method St bool;
  t_delete_guild_config_data : GuildId → method St unit;
  t_get_left_guilds : Z → method St (list JoinedGuild);
  t_get_guild_premium_slots : GuildId → method St (list PremiumSlot);
  t_get_user_premium_slots : Z → method St (list PremiumSlot);
  t_create_update_premium_slot_by_source : CreateUpdatePremiumSlotBySource → method St PremiumSlot;
  t_update_premium_slot_attachment : Z → Z → option GuildId → method St PremiumSlot;
  t_create_plugin : CreatePlugin → method St Plugin;
  t_get_plugin : Z → method St Plugin;
  t_get_user_plugins : Z → method St (list Plugin);
  t_get_published_public_plugins : method St (list Plugin);
  t_update_plugin_meta : Z → UpdatePluginMeta → method St Plugin;
  t_update_script_plugin_dev_version : Z → string → method St Plugin;
  t_publish_script_plugin_version : Z → string → method St (list GuildId);
  t_try_guild_add_script_plugin : GuildId → Z → bool → method St Script;
  t_get_user_meta : Z → method St UserMeta;
}.

(** The trait's default method. *)
Definition t_get_guild_meta_config_or_default `{ConfigStoreTrait St} (guild_id : GuildId) : method St GuildMetaConfig := λ st,
  do! (st, r) := t_get_guild_meta_config guild_id st in
  Ret (st, match r with
           | Ok (Some conf) => Ok conf
           | Ok None => Ok (guild_default guild_id)
           | Err e => Err e
           end).

(** * The implementations *)

(** Postgres: a method whose statements all run at one instant, without others between them. *)
Section postgres.
Context `{!Pg, !ContribCodec, !HashOrder Z} (env : PgEnv).

Definition pure_method {A} (m : ConfigDb → ConfigDb * result ConfigStoreError A) : method ConfigDb A := λ db, Ret (m db).

Definition postgres_store : ConfigStoreTrait ConfigDb := {|
  t_get_script g n := pure_method (ConfigStore.get_script env g n);
  t_get_script_by_id g i := pure_method (ConfigStore.get_script_by_id env g i);
  t_create_script g s := pure_method (create_script env env id g s);
  t_update_script g s := pure_method (update_script env g s);
  t_update_script_contributes g i c := pure_method (ConfigStore.update_script_contributes env g i c);
  t_del_script g n := pure_method (del_script env g n);
  t_list_scripts g := pure_method (ConfigStore.list_scripts env g);
  t_get_guild_meta_config := ConfigStore.get_guild_meta_config env;
  t_update_guild_meta_config := update_guild_meta_config env;
  t_add_update_joined_guild := ConfigStore.add_update_joined_guild env;
  t_set_guild_left_status := set_guild_left_status env;
  t_get_joined_guilds := get_joined_guilds env;
  t_get_joined_guilds_not_in := get_joined_guilds_not_in env;
  t_is_guild_whitelisted g := pure_method (ConfigStore.is_guild_whitelisted env g);
  t_delete_guild_config_data g := pure_method (ConfigStore.delete_guild_config_data env g);
  t_get_left_guilds := get_left_guilds env;
  t_get_guild_premium_slots := get_guild_premium_slots env;
  t_get_user_premium_slots := get_user_premium_slots env;
  t_create_update_premium_slot_by_source := create_update_premium_slot_by_source env;
  t_update_premium_slot_attachment := update_premium_slot_attachment env;
  t_create_plugin := create_plugin env;
  t_get_plugin := get_plugin env;
  t_get_user_plugins := get_user_plugins env;
  t_get_published_public_plugins := get_published_public_plugins env;
  t_update_plugin_meta := update_plugin_meta env;
  t_update_script_plugin_dev_version := update_script_plugin_dev_version env;
  t_publish_script_plugin_version := publish_script_plugin_version env env id;
  t_try_guild_add_script_plugin := try_guild_add_script_plugin env env env env;
  t_get_user_meta u := pure_method (get_user_meta env u);
|}.
End postgres.

Definition todo {A} : method ReadOnlyConfigStore A := λ _, Panic.
Definition fixed {A} (m : ReadOnlyConfigStore → result ConfigStoreError A) : method ReadOnlyConfigStore A := λ st, Ret (st, m st).

Definition readonly_store : ConfigStoreTrait ReadOnlyConfigStore := {|
  t_get_script g n := fixed (ReadOnlyStore.get_script g n);
  t_get_script_by_id g i := fixed (ReadOnlyStore.get_script_by_id g i);
  t_create_script _ _ := todo;
  t_update_script _ _ := todo;
  t_update_script_contributes g i c := fixed (ReadOnlyStore.update_script_contributes g i c);
  t_del_script _ _ := todo;
  t_list_scripts g := fixed (ReadOnlyStore.list_scripts g);
  t_get_guild_meta_config g := fixed (ReadOnlyStore.get_guild_meta_config g);
  t_update_guild_meta_config _ := todo;
  t_add_update_joined_guild g := fixed (ReadOnlyStore.add_update_joined_guild g);
  t_set_guild_left_status _ _ := todo;
  t_get_joined_guilds _ := todo;
  t_get_joined_guilds_not_in _ := todo;
  t_is_guild_whitelisted g := fixed (ReadOnlyStore.is_guild_whitelisted g);
  t_delete_guild_config_data g := fixed (ReadOnlyStore.delete_guild_config_data g);
  t_get_left_guilds _ := todo;
  t_get_guild_premium_slots _ := todo;
  t_get_user_premium_slots _ := todo;
  t_create_update_premium_slot_by_source _ := todo;
  t_update_premium_slot_attachment _ _ _ := todo;
  t_create_plugin _ := todo;
  t_get_plugin _ := todo;
  t_get_user_plugins _ := todo;
  t_get_published_public_plugins := todo;
  t_update_plugin_meta _ _ := todo;
  t_update_script_plugin_dev_version _ _ := todo;
  t_publish_script_plugin_version _ _ := todo;
  t_try_guild_add_script_plugin _ _ _ := todo;
  t_get_user_meta _ := todo;
|}.

(** * What the trait promises *)

(** The scripts of a guild, in a state that is [valid]: the list can be read, reading changes
    nothing, a name gives the first script of the list that has it, and an id the script of the
    list that has it; the changes a vm makes to a script's contributions are answered with the
    script of that id. *)
Class ConfigStoreLaws {St : Type} (T : ConfigStoreTrait St) (valid : St → Prop) : Prop := {
  law_list : ∀ st g, valid st → ∃ l, t_list_scripts g st = Ret (st, Ok l);
  law_get : ∀ st g l n, valid st → t_list_scripts g st = Ret (st, Ok l) →
    t_get_script g n st = Ret (st, match find_first (λ s, bool_decide (script_name s = n)) l with Some s => Ok s | None => Err ScriptNotFound end);
  law_get_id : ∀ st g l i, valid st → 0 ≤ i ≤ u64_max → t_list_scripts g st = Ret (st, Ok l) →
    ∃ r, t_get_script_by_id g i st = Ret (st, r) ∧
         find_first (λ s, script_id s =? i) l = match r with Ok s => Some s | Err _ => None end;
  law_contributes : ∀ st g l i c, valid st → 0 ≤ i ≤ u64_max → t_list_scripts g st = Ret (st, Ok l) →
    ∃ st' r, t_update_script_contributes g i c st = Ret (st', r) ∧
      match find_first (λ s, script_id s =? i) l, r with
      | Some s, Ok s' => script_id s' = i ∧ script_name s' = script_name s ∧ original_source s' = original_source s ∧ valid st'
      | None, Err _ => st' = st
      | _, _ => False
      end;
}.

(** ** The read-only store keeps the promises *)

#[global] Instance readonly_laws : ConfigStoreLaws readonly_store (λ _, True).
Proof.
  split; simpl; unfold fixed, ReadOnlyStore.list_scripts, ReadOnlyStore.get_script, ReadOnlyStore.update_script_contributes,
    ReadOnlyStore.get_script_by_id, find_script.
  - eauto.
  - intros st g l n _ [= <-]. by destruct (g =? ro_guild_id st).
  - intros st g l i _ _ [= <-]. eexists. split; [done|]. destruct (g =? ro_guild_id st); [|done]. by destruct (find_first _ _).
  - intros st g l i c _ _ [= <-]. eexists _, _. split; [done|]. destruct (g =? ro_guild_id st); [|done].
    destruct (find_first (λ s, script_id s =? i) (ro_scripts st)) as [s|] eqn:Hf; [|done].
    apply find_first_Some in Hf as [_ Hf%Z.eqb_eq]. done.
Qed.

(** ** So does the database *)

Section postgres_laws.
Context `{!Pg, !ContribCodec, !HashOrder Z} (env : PgEnv) (Henv : pg_error env = None).

Lemma list_scripts_read g db : ∃ l, ConfigStore.list_scripts env g db = (db, Ok l).
Proof. unfold ConfigStore.list_scripts, get_guild_scripts, exec. rewrite Henv. simpl. eauto. Qed.

Lemma get_script_read g n db : (ConfigStore.get_script env g n db).1 = db.
Proof. unfold ConfigStore.get_script, get_db_script_by_name, exec. rewrite Henv. unfold first_row. by destruct (select_rows _ _). Qed.

Lemma get_script_by_id_read g i db : (ConfigStore.get_script_by_id env g i db).1 = db.
Proof. unfold ConfigStore.get_script_by_id, get_db_script_by_id, exec. rewrite Henv. unfold first_row. by destruct (select_rows _ _). Qed.

(** An id is found in the list exactly when the table has its row, of that guild. *)
Lemma find_by_id g i l db :
  config_ok db → 0 ≤ i ≤ u64_max → ConfigStore.list_scripts env g db = (db, Ok l) →
  find_first (λ s, script_id s =? i) l = match (ConfigStore.get_script_by_id env g i db).2 with Ok s => Some s | Err _ => None end.
Proof.
  intros Hok Hi Hl. destruct (snapshot_agrees env g db Henv Hok) as (_ & _ & Hid & _). specialize (Hid i Hi).
  unfold snapshot, ReadOnlyStore.get_script_by_id, find_script in Hid. rewrite Hl in Hid. simpl in Hid. rewrite Z.eqb_refl in Hid.
  destruct (ConfigStore.get_script_by_id env g i db).2, (find_first _ l); congruence.
Qed.

Lemma get_script_by_id_row g i db :
  match (ConfigStore.get_script_by_id env g i db).2 with
  | Ok s => ∃ r, guild_scripts db !! u64_as_i64 i = Some r ∧ ds_guild_id r = u64_as_i64 g ∧ s = script_of_db (u64_as_i64 i) r
  | Err _ => ∀ r, guild_scripts db !! u64_as_i64 i = Some r → ds_guild_id r ≠ u64_as_i64 g
  end.
Proof.
  unfold ConfigStore.get_script_by_id, get_db_script_by_id, exec. rewrite Henv.
  destruct (select_rows (script_with_id g (u64_as_i64 i)) (guild_scripts db)) as [|[j r] rows] eqn:Hrows; simpl.
  - intros r Hr Hg. apply (not_elem_of_nil (u64_as_i64 i, r)). rewrite <- Hrows. apply elem_of_select_rows. split; [done|].
    unfold script_with_id. simpl. by rewrite Hg, !Z.eqb_refl.
  - assert ((j, r) ∈ select_rows (script_with_id g (u64_as_i64 i)) (guild_scripts db)) as Hin by (rewrite Hrows; left).
    apply elem_of_select_rows in Hin as [Hr Hp]. unfold script_with_id in Hp. simpl in Hp.
    apply andb_true_iff in Hp as [Hg%Z.eqb_eq Hj%Z.eqb_eq]. subst. eauto.
Qed.

#[global] Instance postgres_laws : ConfigStoreLaws (postgres_store env) config_ok.
Proof.
  split; simpl; unfold pure_method.
  - intros db g _. destruct (list_scripts_read g db) as [l ->]. eauto.
  - intros db g l n Hok Hl. injection Hl as Hl. rewrite (surjective_pairing (ConfigStore.get_script env g n db)), get_script_read.
    destruct (snapshot_agrees env g db Henv Hok) as (_ & Hn & _). rewrite <- Hn. unfold snapshot. rewrite Hl.
    unfold ReadOnlyStore.get_script, find_script. simpl. by rewrite Z.eqb_refl.
  - intros db g l i Hok Hi Hl. injection Hl as Hl. rewrite (surjective_pairing (ConfigStore.get_script_by_id env g i db)), get_script_by_id_read.
    eexists. split; [done|]. by apply find_by_id.
  - intros db g l i c Hok Hi Hl. injection Hl as Hl. rewrite (find_by_id g i l db Hok Hi Hl).
    pose proof (get_script_by_id_row g i db) as Hrow. unfold ConfigStore.update_script_contributes, exec. rewrite Henv.
    pose proof (update_script_row_good g (u64_as_i64 i) (λ r, mkDbScript (ds_guild_id r) (ds_original_source r) (ds_name r) (ds_enabled r)
      (jsonb (enc_commands (contrib_commands c))) (jsonb (enc_interval_timers (contrib_interval_timers c))) (ds_plugin_id r)
      (ds_plugin_auto_update r)) db Hok (λ _, eq_refl)) as Hgood.
    unfold good_stmt, update_script_row in *. destruct (ConfigStore.get_script_by_id env g i db).2 as [s|e].
    + destruct Hrow as (r & Hr & Hg & ->). rewrite Hr, Hg, Z.eqb_refl in *. simpl. eexists _, _. split; [done|].
      destruct Hgood as [Hok' _]. simpl. rewrite u64_i64_u64 by lia. done.
    + destruct (guild_scripts db !! u64_as_i64 i) as [r|]; simpl; [|by eexists _, _].
      rewrite (proj2 (Z.eqb_neq _ _) (Hrow r eq_refl)). by eexists _, _.
Qed.
End postgres_laws.

(** * Clients of the trait *)

(** [DiscordLogger::handle_entry] over any store, as the source has it. *)
Definition discord_handle_entry_with `{MessageContent, ConfigStoreTrait St} (e : LogEntry) (st : St) : outcome (option (Z * string)) :=
  match format_entry e with
  | None => Ret None
  | Some message =>
      do! (_, conf) := t_get_guild_meta_config_or_default (le_guild_id e) st in
      match conf with
      | Err _ => Ret None
      | Ok conf =>
          Ret (channel_id ← gm_error_channel_id conf; if valid_content message then Some (channel_id, message) else None)
      end
  end.

(** With the database it is the backend the scheduler runs; with the read-only store nothing is posted. *)
Theorem discord_backend_instances `{!Pg, !ContribCodec, !HashOrder Z, !MessageContent} env e db st :
  discord_handle_entry_with (H0 := postgres_store env) e db = discord_handle_entry env e db ∧
  discord_handle_entry_with (H0 := readonly_store) e st = Ret None.
Proof. split; [done|]. unfold discord_handle_entry_with. by destruct (format_entry e). Qed.

Section scripts.
Context `{T : ConfigStoreTrait St} {valid : St → Prop} `{!ConfigStoreLaws T valid}.

(** Whatever keeps the scripts, what the vm of a guild is started with is what it can ask for: a
    script is found by its id if and only if it is the first of the list with that id, and by its
    name if and only if it is the first with that name; the answer to a report of its
    contributions, which the vm sends with the id, is for the script of the list; and none of
    the reads changes the store. *)
Theorem listed_scripts_found st g i n c :
  valid st → 0 ≤ i ≤ u64_max →
  ∃ l, t_list_scripts g st = Ret (st, Ok l) ∧
    (∀ s, t_get_script_by_id g i st = Ret (st, Ok s) ↔ find_first (λ s, script_id s =? i) l = Some s) ∧
    (∀ s, t_get_script g n st = Ret (st, Ok s) ↔ find_first (λ s, bool_decide (script_name s = n)) l = Some s) ∧
    (∀ st' s', t_update_script_contributes g i c st = Ret (st', Ok s') →
       valid st' ∧ ∃ s, s ∈ l ∧ script_id s = i ∧ script_id s' = i ∧ script_name s' = script_name s ∧ original_source s' = original_source s).
Proof.
  intros Hv Hi. destruct (law_list st g Hv) as [l Hl]. exists l. split; [done|].
  destruct (law_get_id st g l i Hv Hi Hl) as (r & Hr & Hf). split_and!.
  - intros s. rewrite Hr, Hf. destruct r; naive_solver.
  - intros s. rewrite (law_get st g l n Hv Hl). destruct (find_first (λ s, bool_decide (script_name s = n)) l); naive_solver.
  - intros st' s' Hu. destruct (law_contributes st g l i c Hv Hi Hl) as (st1 & r1 & Hu1 & Hm). rewrite Hu in Hu1. injection Hu1 as <- <-.
    destruct (find_first (λ s, script_id s =? i) l) as [s|] eqn:Hs; [|done]. destruct Hm as (? & ? & ? & ?).
    apply find_first_Some in Hs as [Hin Hid%Z.eqb_eq]. split; [done|]. by exists s.
Qed.
End scripts.

#[local] Existing Instances ex_pg ex_codec list_order.

Lemma listed_scripts_found_witness :
  ∃ l, t_list_scripts (ConfigStoreTrait := postgres_store (ex_env 1)) 7 ex_db = Ret (ex_db, Ok l) ∧
    ∀ s, t_get_script (ConfigStoreTrait := postgres_store (ex_env 1)) 7 "a" ex_db = Ret (ex_db, Ok s) ↔
         find_first (λ s, bool_decide (script_name s = "a")) l = Some s.
Proof.
  destruct (listed_scripts_found (T := postgres_store (ex_env 1)) (valid := config_ok)
              (ConfigStoreLaws0 := postgres_laws (ex_env 1) eq_refl) ex_db 7 1 "a" (mkContributes [] []) ex_db_ok
              ltac:(unfold u64_max; lia)) as (l & Hl & _ & Hn & _).
  exists l. split; [exact Hl | exact Hn].
Defined.
