(* ===== verification/BotRpc.v ===== *)
(** The RPC between the web server and the scheduler ([cmd/scheduler/src/rpc_server.rs] and
    [components/botrpc/src/client.rs]): reloads of a guild's vm, purges of its cache, and the
    stream of its log, up to the scheduler's handling of the command and the entries the client
    reads.

    The transport is [tonic]'s: a call is answered, does not arrive, or loses its answer, and a
    handler that panics gives the client an error. *)
From stdpp Require Import base gmap list strings.
From S2P Require Import Prelude Models World Scheduler Postgres ConfigStore IntegrationTests GuildLogger.

(** * The server *)

Record GuildScriptSpecifier := mkSpecifier { gss_guild_id : Z; gss_script : option string }.
Record GuildSpecifier := mkGuildSpecifier { gs_guild_id : Z }.

(** [Server]: the sender to the scheduler, while its receiver is there, and the subscriptions of
    the logger. *)
Record RpcServer := mkRpcServer {
  rpc_queue : list SchedulerCommand;
  rpc_scheduler : bool;
  rpc_log : LogSys;
}.

(** [scheduler_tx.send], whose result is dropped. *)
Definition send_command (c : SchedulerCommand) (srv : RpcServer) : RpcServer :=
  mkRpcServer (if rpc_scheduler srv then rpc_queue srv ++ [c] else rpc_queue srv) (rpc_scheduler srv) (rpc_log srv).

Section rpc.
Context `{!Broadcast, !MessageContent, !TestJson}.
(** [tonic::Status], and the one of a handler that panicked. *)
Context {Status : Type} (panicked : Status).

Definition reload_vm (request : GuildScriptSpecifier) (srv : RpcServer) : outcome (result Status unit * RpcServer) :=
  do! guild_id := id_new (gss_guild_id request) in
  Ret (Ok tt, send_command (ReloadGuildScripts guild_id) srv).

Definition purge_guild_cache (request : GuildScriptSpecifier) (srv : RpcServer) : outcome (result Status unit * RpcServer) :=
  do! guild_id := id_new (gss_guild_id request) in
  Ret (Ok tt, send_command (PurgeGuildCache guild_id) srv).

(** The stream's position among the logger's streams. *)
Definition stream_guild_logs (request : GuildSpecifier) (srv : RpcServer) : outcome (result Status nat * RpcServer) :=
  do! guild_id := id_new (gs_guild_id request) in
  do! log := log_act (ASubscribe guild_id) (rpc_log srv) in
  Ret (Ok (length (streams (lg_subs (rpc_log srv)))), mkRpcServer (rpc_queue srv) (rpc_scheduler srv) log).

(** * The client *)

Inductive Link := LinkUp | LinkDown (e : Status) | ReplyLost (e : Status).

(** A call of a service. *)
Definition call {Req A : Type} (link : Link) (handler : Req → RpcServer → outcome (result Status A * RpcServer))
    (req : Req) (srv : RpcServer) : result Status A * RpcServer :=
  match link with
  | LinkDown e => (Err e, srv)
  | LinkUp => match handler req srv with Ret (r, srv) => (r, srv) | Panic => (Err panicked, srv) end
  | ReplyLost e => match handler req srv with Ret (_, srv) => (Err e, srv) | Panic => (Err e, srv) end
  end.

Definition restart_guild_vm (link : Link) (guild_id : GuildId) (srv : RpcServer) : result Status unit * RpcServer :=
  match call link reload_vm (mkSpecifier guild_id None) srv with
  | (Ok _, srv) => (Ok tt, srv)
  | (Err e, srv) => (Err e, srv)
  end.

Definition guild_log_stream (link : Link) (guild_id : GuildId) (srv : RpcServer) : result Status nat * RpcServer :=
  call link stream_guild_logs (mkGuildSpecifier guild_id) srv.

(** [stream.map(|item| item.map(Into::into))] *)
Definition client_item (item : result Status GuildLogItem) : outcome (result Status LogEntry) :=
  match item with
  | Ok i => do! e := entry_of_item i in Ret (Ok e)
  | Err e => Ret (Err e)
  end.

(** * Facts *)

Lemma id_new_valid g : valid_id g → id_new g = Ret g.
Proof. intros [Hg _]. unfold id_new. destruct (Z.eqb_spec g 0); [lia|done]. Qed.

(** A handler that can be told something: it is not stopping, and its task runs. *)
Definition takes_commands (h : GuildHandle) (n : Net) : bool :=
  h_tx h && match net_tasks n !! h_task h with Some t => tk_running t | None => false end.

(** The tasks after a command was sent to the guild's handler: its task has it last in its
    inbox if it takes commands, and no task has anything new if not. *)
Definition tasks_told (g : Z) (c : GuildCommand) (x : sys) : gmap nat HandlerTask :=
  match guilds x.1 !! g with
  | Some h => if takes_commands h x.2 then alter (push_inbox c) (h_task h) (net_tasks x.2) else net_tasks x.2
  | None => net_tasks x.2
  end.

Lemma send_to_guild_tasks g c (x : sys) :
  net_tasks (send_to_guild g c x).2 = tasks_told g c x ∧ net_log (send_to_guild g c x).2 = net_log x.2.
Proof.
  unfold send_to_guild, tasks_told, takes_commands, chan_send. destruct (guilds x.1 !! g) as [h|]; [|done].
  destruct (h_tx h); [|done]. simpl. destruct (net_tasks x.2 !! h_task h) as [t|] eqn:Ht; [|done].
  destruct (tk_running t); [|done]. split; [|done]. simpl. apply map_eq. intros k. destruct (decide (k = h_task h)) as [->|Hk].
  - by rewrite lookup_insert_eq, lookup_alter_eq, Ht.
  - by rewrite lookup_insert_ne, lookup_alter_ne.
Qed.

(** What the reload of a guild that is not suspended does. *)
Lemma reload_started g s n (x' : sys) :
  x' = send_to_guild g ReloadScripts (get_or_start_guild g (s, n)).2 →
  net_log x'.2 = net_log n ∧
  net_tasks x'.2 = match guilds s !! g with
                   | Some h => if takes_commands h n then alter (push_inbox ReloadScripts) (h_task h) (net_tasks n) else net_tasks n
                   | None => <[net_next n := mkTask g [ReloadScripts] true []]> (net_tasks n)
                   end.
Proof.
  intros ->. destruct (send_to_guild_tasks g ReloadScripts (get_or_start_guild g (s, n)).2) as [-> ->].
  unfold get_or_start_guild, tasks_told, takes_commands. destruct (guilds s !! g) as [h|] eqn:Hg; simpl; rewrite ?Hg; [done|].
  rewrite lookup_insert_eq. simpl. rewrite lookup_insert_eq. simpl. split; [done|]. apply map_eq. intros k.
  destruct (decide (k = net_next n)) as [->|Hk]; [by rewrite lookup_alter_eq, !lookup_insert_eq|].
  by rewrite lookup_alter_ne, !lookup_insert_ne.
Qed.


(** ** The log as the client reads it *)

Lemma item_roundtrip e : valid_id (le_guild_id e) → entry_of_item (item_of_entry e) = Ret e.
Proof.
  intros Hv. destruct e as [g m [[f [[l c]|]]|] lv]; unfold entry_of_item; simpl in *; rewrite id_new_valid by done; by destruct lv.
Qed.

Lemma client_items_entries es :
  Forall (λ e, valid_id (le_guild_id e)) es →
  (client_item <$> (Ok <$> (item_of_entry <$> es))) = (λ e, Ret (Ok e)) <$> es.
Proof. induction 1 as [|e es He _ IH]; [done|]. cbn -[entry_of_item item_of_entry]. rewrite item_roundtrip by done. simpl. by f_equal. Qed.

(** What the web server's client of a guild's log reads: the entries themselves, in order, from
    the first one finished after it subscribed, without a gap and none of another guild's; no
    entry fails to decode. *)
Theorem client_reads_guild_log l s i x :
  log_reachable l s → streams (lg_subs s) !! i = Some x → valid_id (ls_guild x) →
  ∃ entries, entries `prefix_of` guild_log (ls_guild x) (ls_since x) (handled s) ∧
             (client_item <$> (Ok <$> ls_yielded x)) = (λ e, Ret (Ok e)) <$> entries.
Proof.
  intros Hr Hx Hv. pose proof (Forall_lookup_1 _ _ _ _ (so_streams _ _ (log_reachable_subs _ _ Hr)) Hx) as [_ [rest Hp] _].
  apply fmap_app_inv in Hp as (es & es' & Hes & _ & Hall). exists es. split; [by exists es'|]. rewrite Hes.
  apply client_items_entries. assert (Forall (λ e, le_guild_id e = ls_guild x) (es ++ es')) as Hg.
  { rewrite <- Hall. apply Forall_forall. intros e He. apply list_elem_of_In, filter_In in He as [_ He]. by apply Z.eqb_eq. }
  apply Forall_app in Hg as [Hg _]. eapply Forall_impl; [done|]. simpl. by intros e ->.
Qed.
End rpc.

(** * Examples *)

#[local] Existing Instances ex_broadcast ex_content ex_test_json list_order.

Definition ex_server : RpcServer := mkRpcServer [BrokerConnected] true ex_log_sys.
Definition ex_restart : result string unit * RpcServer := restart_guild_vm "panicked" LinkUp 7 ex_server.

(** A scheduler with a handler for guild 7, and the same one after it was told to stop. *)
Definition ex_started : sys := (get_or_start_guild 7 (scheduler_new, net_new)).2.
Definition ex_stopping : sys := shutdown_all ex_started.


Lemma client_reads_guild_log_witness :
  ∃ entries, entries `prefix_of` guild_log 7 0 (handled ex_log_sys) ∧
             (client_item (Status := string) <$> (Ok <$> ls_yielded ex_stream)) = (λ e, Ret (Ok e)) <$> entries.
Proof.
  apply (client_reads_guild_log [BDiscord; BSubscriber] ex_log_sys 1 ex_stream ex_log_reachable);
    [vm_compute; reflexivity|unfold valid_id, u64_max; simpl; lia].
Defined.

(** A request with the id 0 panics in the handler: the client gets an error and nothing is queued. *)
Example restart_of_zero : restart_guild_vm "panicked" LinkUp 0 ex_server = (Err "panicked", ex_server).
Proof. reflexivity. Qed.
