(* ===== verification/DiscordOps.v ===== *)
(** The Discord operations of the script runtime ([components/runtime/src/extensions/discord.rs],
    [extensions/mod.rs], with the argument types of [components/runtime-models]).

    Every operation is an asynchronous program over the answers of the state server and of
    Discord; its calls are the requests it sends. A script is confined to its guild by
    [get_guild_channel], which the operations on a channel call first, and by the guild id of the
    runtime's context, which the others use. [twilight_http]'s request builders check some
    arguments: these checks are the interface [Twilight]. What a script sends is
    converted as in [Payloads]; the models Discord answers with are carried as they are. *)
From stdpp Require Import base gmap list strings pretty sorting.
From S2P Require Import Prelude Numbers Models WorkerPool Commands Payloads Interactions.

(** * Errors *)

(** [twilight_http::Error] by its kind: a response with its status and, when the body is a
    general API error, its code and message; or anything else. *)
Inductive HttpError :=
| HeResponse (status : Z) (general : option (Z * string))
| HeOther.
#[global] Instance HttpError_eq_dec : EqDecision HttpError.
Proof. solve_decision. Defined.

Inductive OpError :=
| OeMsg (msg : string)
| OeCustom (class msg : string)
| OeHttp (e : HttpError).

Definition not_found_error (message : string) : OpError := OeCustom "DiscordNotFoundError" message.

Definition error_from_code (resp_code code : Z) (message : string) : OpError :=
  let msg := u64_text code +:+ ": " +:+ message in
  if resp_code =? 404 then not_found_error msg
  else if resp_code =? 403 then OeCustom "DiscordPermissionsError" msg
  else if (400 <=? resp_code) && (resp_code <=? 499) then
    if (30001 <=? code) && (code <=? 40000) then OeCustom "DiscordLimitReachedError" msg
    else OeCustom "DiscordGenericErrorResponse" msg
  else if (500 <=? resp_code) && (resp_code <=? 599) then
    OeCustom "DiscordServerErrorResponse"
      ("Discord failed handling the request (5xx response), http status: " +:+ u64_text resp_code +:+ ", code: " +:+
       u64_text code +:+ ", message: " +:+ message)
  else
    OeCustom "DiscordGenericErrorResponse"
      ("An error occured with the discord API, http status: " +:+ u64_text resp_code +:+ ", code: " +:+
       u64_text code +:+ ", message: " +:+ message).

(** The error the script gets. *)
Definition discord_error (e : HttpError) : OpError :=
  match e with
  | HeResponse status (Some (code, message)) => error_from_code status code message
  | _ => OeHttp e
  end.

(** ** The count of invalid requests *)

Record DiscordOpsState := mkOpsState { recent_bad_requests : list Z }.

Definition ops_state_init : DiscordOpsState := mkOpsState [].

(** [push_back], then [pop_front] while there are more than 29. *)
Definition add_failed_req (now : Z) (st : DiscordOpsState) : DiscordOpsState :=
  let l := recent_bad_requests st ++ [now] in mkOpsState (drop (length l - 29) l).

Definition should_suspend_guild (now : Z) (st : DiscordOpsState) : bool :=
  match recent_bad_requests st with
  | [] => false
  | t :: _ => if bool_decide (length (recent_bad_requests st) < 29)%nat then false else elapsed now t <? from_secs 60
  end.

Definition is_counted (e : HttpError) : bool :=
  match e with
  | HeResponse raw _ => (raw =? 401) || (raw =? 403) || (raw =? 429)
  | HeOther => false
  end.

(** [handle_discord_error] on the state of the vm; [true]: it sends [InvalidRequestsExceeded] and
    shuts the vm down. The error it returns is [discord_error]. *)
Definition handle_discord_error (now : Z) (e : HttpError) (st : DiscordOpsState) : DiscordOpsState * bool :=
  if is_counted e then
    let st := add_failed_req now st in (st, should_suspend_guild now st)
  else (st, false).

(** * Arguments and requests *)

Record EditChannel := mkEditChannel {
  ec_bitrate : option Z;
  ec_name : option string;
  ec_nsfw : option bool;
  ec_parent_id : option (option string);
  ec_permission_overwrites : option (list PermissionOverwrite);
  ec_position : option Z;
  ec_rate_limit_per_user : option Z;
  ec_topic : option string;
  ec_user_limit : option Z;
  ec_video_quality_mode : option VideoQualityMode;
}.

Record CreateChannel := mkCreateChannel {
  cc_name : string;
  cc_kind : option ChannelType;
  cc_bitrate : option Z;
  cc_nsfw : option bool;
  cc_parent_id : option string;
  cc_permission_overwrites : option (list PermissionOverwrite);
  cc_position : option Z;
  cc_rate_limit_per_user : option Z;
  cc_topic : option string;
  cc_user_limit : option Z;
}.

(** The fields of a request to create or change a channel. *)
Record ChannelFields := mkChannelFields {
  cf_bitrate : option Z;
  cf_name : option string;
  cf_nsfw : option bool;
  cf_parent_id : option (option Z);
  cf_overwrites : option (list TwOverwrite);
  cf_position : option Z;
  cf_rate_limit : option Z;
  cf_topic : option string;
  cf_user_limit : option Z;
  cf_video_quality : option TwVideoQualityMode;
}.

(** The message part of a request: [None] for what is not sent. *)
Record MessageBody := mkMessageBody {
  mb_content : option string;
  mb_embeds : option (list TwEmbed);
  mb_components : option (list TwComponent);
  mb_mentions : option TwMentions;
}.

Record MemberFields := mkMemberFields {
  uf_channel_id : option (option Z);
  uf_deaf : option bool;
  uf_mute : option bool;
  uf_nick : option (option string);
  uf_roles : option (list Z);
  uf_communication_disabled_until : option (option Z);
}.

Inductive Request :=
| QChannel (c : Z)
| QMessage (c m : Z)
| QChannelMessages (c limit : Z) (before after : option Z)
| QCreateMessage (c : Z) (b : MessageBody)
| QUpdateMessage (c m : Z) (b : MessageBody)
| QCrosspostMessage (c m : Z)
| QDeleteMessage (c m : Z)
| QDeleteMessages (c : Z) (ms : list Z)
| QCreateReaction (c m : Z) (emoji : RequestReactionType)
| QDeleteOwnReaction (c m : Z) (emoji : RequestReactionType)
| QDeleteReaction (c m : Z) (emoji : RequestReactionType) (u : Z)
| QReactions (c m : Z) (emoji : RequestReactionType) (after limit : option Z)
| QDeleteAllReactions (c m : Z)
| QDeleteAllReaction (c m : Z) (emoji : RequestReactionType)
| QUpdateChannel (c : Z) (f : ChannelFields)
| QDeleteChannel (c : Z)
| QUpdateChannelPermission (c : Z) (o : TwOverwrite)
| QDeleteChannelPermission (c : Z) (k : OverwriteKind) (id : Z)
| QPins (c : Z)
| QCreatePin (c m : Z)
| QDeletePin (c m : Z)
| QCreateGuildChannel (g : GuildId) (name : string) (f : ChannelFields)
| QGuildMember (g : GuildId) (u : Z)
| QAddMemberRole (g : GuildId) (u r : Z)
| QRemoveMemberRole (g : GuildId) (u r : Z)
| QUpdateMember (g : GuildId) (u : Z) (f : MemberFields)
| QCreateBan (g : GuildId) (u : Z) (delete_seconds : option Z) (reason : option string)
| QBan (g : GuildId) (u : Z)
| QBans (g : GuildId)
| QDeleteBan (g : GuildId) (u : Z) (reason : option string)
| QRemoveMember (g : GuildId) (u : Z) (reason : option string)
| QCreateResponse (id : Z) (token : string) (data : TwInteractionResponse)
| QResponse (token : string)
| QUpdateResponse (token : string) (b : MessageBody)
| QDeleteResponse (token : string)
| QFollowup (token : string) (m : Z)
| QCreateFollowup (token : string) (flags : option Z) (b : MessageBody)
| QUpdateFollowup (token : string) (m : Z) (b : MessageBody)
| QDeleteFollowup (token : string) (m : Z).

(** [twilight_model::channel::Channel] as far as the operations read it. *)
Record Channel := mkChannel {
  ch_id : Z;
  ch_guild_id : option GuildId;
  ch_kind : TwChannelType;
  ch_parent_id : option Z;
  ch_overwrites : option (list TwOverwrite);
}.

Record Role := mkRole { role_id : Z; role_permissions : Z }.
Record Member := mkMember { member_roles : list Z; member_model : JsonValue }.
Record Guild := mkGuild { guild_owner_id : Z; guild_model : JsonValue }.

(** The answers: of the state server ([None]: an error) and of Discord (an error, a body that is
    not what was expected, or the body). *)
Inductive DResp :=
| RsGuild (r : option (option Guild))
| RsChannel (r : option (option Channel))
| RsChannels (r : option (list Channel))
| RsRole (r : option (option Role))
| RsRoles (r : option (list Role))
| RhModel (r : result HttpError (option JsonValue))
| RhChannel (r : result HttpError (option Channel))
| RhMember (r : result HttpError (option Member)).

(** The calls; [EvSaw] records an answer about a channel, [EvFailed] an error answer. *)
Inductive DEv :=
| EvState (g : GuildId)
| EvRequest (q : Request)
| EvSaw (asked : Z) (ch : Channel)
| EvFailed (e : HttpError)
| EvHandleError (e : HttpError).

Inductive Reply :=
| YUnit
| YModel (v : JsonValue)
| YChannel (ch : Channel)
| YChannels (l : list Channel)
| YRole (r : Role)
| YRoles (l : list Role)
| YMembers (l : list (option JsonValue))
| YPermissions (guild_perms : string) (channel_perms : option string).

(** The checks of the request builders, and the permission calculator of [twilight_util]. *)
Class Twilight := {
  tw_timestamps :: Timestamps;
  tw_content : string → bool;
  tw_embeds : list TwEmbed → bool;
  tw_components : list TwComponent → bool;
  tw_limit : Z → bool;
  tw_channel_name : string → bool;
  tw_bitrate : Z → bool;
  tw_rate_limit : Z → bool;
  tw_topic : string → bool;
  tw_nick : string → bool;
  tw_reason : string → bool;
  tw_delete_seconds : Z → bool;
  tw_timestamp : Z → bool;
  tw_disabled_until : option Z → bool;
  tw_permissions : Z → Z;
  tw_root : GuildId → Z → Z → list (Z * Z) → Z → Z;
  tw_in_channel : GuildId → Z → Z → list (Z * Z) → Z → TwChannelType → list TwOverwrite → Z;
}.

Notation dio A := (async DResp DEv (result OpError A)).

Definition dret {A} (a : A) : dio A := aret (Ok a).
Definition fail {A} (e : OpError) : dio A := aret (Err e).
Definition from_option_or {A} (e : OpError) (o : option A) : dio A :=
  match o with
  | Some a => dret a
  | None => fail e
  end.
Definition guard_or (e : OpError) (b : bool) : dio unit := if b then dret tt else fail e.
Definition invalid_request : OpError := OeMsg "the request is not valid".
Definition valid_opt {A} (f : A → bool) (o : option A) : bool := match o with Some a => f a | None => true end.

(** ** All operations *)

Inductive DiscordOp :=
| Do_get_guild
| Do_get_message (channel_id message_id : Z)
| Do_get_messages (channel_id : string) (before after : option string) (limit : option Z)
| Do_create_message (channel_id : string) (fields : MessageFields)
| Do_edit_message (channel_id message_id : string) (fields : MessageFields)
| Do_crosspost_message (channel_id message_id : Z)
| Do_delete_message (channel_id message_id : string)
| Do_bulk_delete_messages (channel_id : string) (message_ids : list string)
| Do_interaction_callback (interaction_id token : string) (data : InteractionResponse)
| Do_interaction_get_original_response (token : string)
| Do_interaction_edit_original_response (token : string) (fields : MessageFields)
| Do_interaction_delete_original (token : string)
| Do_interaction_get_followup_message (token : string) (id : Z)
| Do_interaction_followup_message (token : string) (fields : MessageFields) (flags : option MessageFlags)
| Do_interaction_edit_followup_message (message_id : Z) (token : string) (fields : MessageFields)
| Do_interaction_delete_followup_message (token : string) (id : Z)
| Do_get_role (rid : Z)
| Do_get_roles
| Do_create_reaction (channel_id message_id : Z) (emoji : SendEmoji)
| Do_delete_own_reaction (channel_id message_id : Z) (emoji : SendEmoji)
| Do_delete_user_reaction (channel_id message_id user_id : Z) (emoji : SendEmoji)
| Do_get_reactions (channel_id message_id : Z) (emoji : SendEmoji) (after : option string) (limit : option Z)
| Do_delete_all_reactions (channel_id message_id : Z)
| Do_delete_all_reactions_for_emoji (channel_id message_id : Z) (emoji : SendEmoji)
| Do_get_channel (channel_id_str : string)
| Do_get_channels
| Do_edit_channel (channel_id : Z) (params : EditChannel)
| Do_create_channel (params : CreateChannel)
| Do_delete_channel (channel_id : Z)
| Do_update_channel_permission (channel_id : Z) (o : PermissionOverwrite)
| Do_delete_channel_permission (channel_id : Z) (kind : OverwriteKind) (overwrite_id : Z)
| Do_get_channel_pins (channel_id : Z)
| Do_create_pin (channel_id message_id : Z)
| Do_delete_pin (channel_id message_id : Z)
| Do_get_members (user_ids : list string)
| Do_add_member_role (user_id rid : Z)
| Do_remove_member_role (user_id rid : Z)
| Do_update_member (user_id : Z) (fields : MemberFields)
| Do_create_ban (user_id : Z) (audit_log_reason : option string) (delete_message_days : option Z)
| Do_get_ban (user_id : Z)
| Do_get_bans
| Do_delete_ban (user_id : Z) (reason : option string)
| Do_remove_member (user_id : Z) (reason : option string)
| Do_get_member_permissions (user_id : Z) (roles : option (list Z)) (channel_id : option Z).

Section operations.
Context `{!Twilight}.
Context (guild_id : GuildId).

(** ** Conversions of the arguments ([components/runtime-models]) *)

(** [TryFrom<PermissionOverwrite>]: [None] when the id is none; numbers that do not parse are 0. *)
Definition tw_overwrite (v : PermissionOverwrite) : option TwOverwrite :=
  id ← parse_id (po_id v);
  Some (mkTwOverwrite (tw_permissions (default 0 (parse_u64 (po_allow_raw v))))
                      (tw_permissions (default 0 (parse_u64 (po_deny_raw v)))) (tw_overwrite_kind (po_kind v)) id).

Definition tw_overwrites (l : list PermissionOverwrite) : list TwOverwrite := omap tw_overwrite l.

(** [EditChannel::apply] on a new request: [None] when a builder refuses its argument. *)
Definition apply_edit (e : EditChannel) : option ChannelFields :=
  if valid_opt tw_bitrate (ec_bitrate e) && valid_opt tw_channel_name (ec_name e) &&
     valid_opt tw_rate_limit (ec_rate_limit_per_user e) && valid_opt tw_topic (ec_topic e) then
    Some (mkChannelFields (ec_bitrate e) (ec_name e) (ec_nsfw e)
            ((λ parent : option string, s ← parent; parse_id s) <$> ec_parent_id e)
            (tw_overwrites <$> ec_permission_overwrites e)
            (ec_position e) (ec_rate_limit_per_user e) (ec_topic e) (ec_user_limit e) (tw_video_quality_mode <$> ec_video_quality_mode e))
  else None.

(** [CreateChannel::apply]; it does not use [kind]. *)
Definition apply_create (c : CreateChannel) : option ChannelFields :=
  if valid_opt tw_bitrate (cc_bitrate c) && valid_opt tw_rate_limit (cc_rate_limit_per_user c) &&
     valid_opt tw_topic (cc_topic c) then
    Some (mkChannelFields (cc_bitrate c) None (cc_nsfw c)
            (Some <$> (s ← cc_parent_id c; parse_id s))
            (tw_overwrites <$> cc_permission_overwrites c)
            (cc_position c) (cc_rate_limit_per_user c) (cc_topic c) (cc_user_limit c) None)
  else None.

(** ** Requests *)

Definition http {A} (f : DResp → option (result HttpError (option A))) (q : Request) : async DResp DEv (result HttpError (option A)) :=
  emit (EvRequest q) ;;;
  let! r := await f in
  match r with
  | Err e => emit (EvFailed e) ;;; aret (Err e)
  | Ok b => aret (Ok b)
  end.

(** [req.await.map_err(|err| handle_discord_error(&state, err))?] *)
Definition call {A} (f : DResp → option (result HttpError (option A))) (q : Request) : dio (option A) :=
  let! r := http f q in
  match r with
  | Err e => emit (EvHandleError e) ;;; fail (discord_error e)
  | Ok b => dret b
  end.

(** [req.await?] *)
Definition call_raw {A} (f : DResp → option (result HttpError (option A))) (q : Request) : dio (option A) :=
  let! r := http f q in
  match r with
  | Err e => fail (OeHttp e)
  | Ok b => dret b
  end.

(** [.model().await?] *)
Definition model {A} (b : option A) : dio A := from_option_or (OeMsg "the response could not be read") b.

Definition as_model (r : DResp) := match r with RhModel x => Some x | _ => None end.
Definition as_channel (r : DResp) := match r with RhChannel x => Some x | _ => None end.
Definition as_member (r : DResp) := match r with RhMember x => Some x | _ => None end.

Definition call_unit (q : Request) : dio Reply := try! _ := call as_model q in dret YUnit.
Definition call_model (q : Request) : dio Reply := try! b := call as_model q in try! v := model b in dret (YModel v).

(** ** The state server *)

Definition ask_state {A} (f : DResp → option (option A)) : dio A :=
  emit (EvState guild_id) ;;;
  let! r := await f in
  from_option_or (OeMsg "error calling state api") r.

Definition state_guild : dio (option Guild) := ask_state (λ r, match r with RsGuild x => Some x | _ => None end).
Definition state_channels : dio (list Channel) := ask_state (λ r, match r with RsChannels x => Some x | _ => None end).
Definition state_role : dio (option Role) := ask_state (λ r, match r with RsRole x => Some x | _ => None end).
Definition state_roles : dio (list Role) := ask_state (λ r, match r with RsRoles x => Some x | _ => None end).
Definition state_channel (channel_id : Z) : dio (option Channel) :=
  try! r := ask_state (λ r, match r with RsChannel x => Some x | _ => None end) in
  match r with
  | Some c => emit (EvSaw channel_id c) ;;; dret (Some c)
  | None => dret None
  end.

(** ** extensions/mod.rs *)

Definition channel_not_found (channel_id : Z) : OpError :=
  not_found_error ("channel `" +:+ u64_text channel_id +:+ " not found`").

Definition get_guild_channel (channel_id : Z) : dio Channel :=
  try! cached := state_channel channel_id in
  match cached with
  | Some c => if bool_decide (ch_guild_id c = Some guild_id) then dret c else fail (channel_not_found channel_id)
  | None =>
      try! b := call as_channel (QChannel channel_id) in
      try! channel := model b in
      emit (EvSaw channel_id channel) ;;;
      if bool_decide (ch_guild_id channel = Some guild_id) then dret channel else fail (channel_not_found channel_id)
  end.

(** [Id::new_checked(id_str.parse()?)], with the message for the id 0. *)
Definition parse_checked (msg id_str : string) : dio Z :=
  try! n := from_option_or (OeMsg "not a number") (parse_u64 id_str) in
  from_option_or (OeMsg msg) (new_checked n).

Definition parse_str_snowflake_id (id_str : string) : dio Z := parse_checked "invalid channel id" id_str.

Definition parse_get_guild_channel (channel_id_str : string) : dio Channel :=
  try! channel_id := parse_checked "invalid channel id" channel_id_str in
  get_guild_channel channel_id.

(** ** Guild and messages *)

Definition op_discord_get_guild : dio Reply :=
  try! g := state_guild in
  match g with
  | Some c => dret (YModel (guild_model c))
  | None => fail (OeMsg "guild not in state")
  end.

Definition op_discord_get_message (channel_id message_id : Z) : dio Reply :=
  try! channel := get_guild_channel channel_id in
  call_model (QMessage (ch_id channel) message_id).

Definition messages_limit (limit : option Z) : Z :=
  match limit with
  | Some limit => Z.max 1 (Z.min 100 limit)
  | None => 50
  end.

Definition op_discord_get_messages (channel_id : string) (before after : option string) (limit : option Z) : dio Reply :=
  try! channel := parse_get_guild_channel channel_id in
  let limit := messages_limit limit in
  try! _ := guard_or invalid_request (tw_limit limit) in
  match before, after with
  | Some before, _ =>
      try! id := parse_checked "invalid 'before' message id" before in
      call_model (QChannelMessages (ch_id channel) limit (Some id) None)
  | None, Some after =>
      try! id := parse_checked "invalid 'after' message id" after in
      call_model (QChannelMessages (ch_id channel) limit None (Some id))
  | None, None => call_model (QChannelMessages (ch_id channel) limit None None)
  end.

(** The fields of a new message: absent embeds and components are empty. *)
Definition new_message_body (f : MessageFields) : dio MessageBody :=
  let! embeds := lift (from (default [] (mf_embeds f))) in
  let! components := lift (from (default [] (mf_components f))) in
  try! _ := guard_or invalid_request (tw_embeds embeds && tw_components components && valid_opt tw_content (mf_content f)) in
  dret (mkMessageBody (mf_content f) (Some embeds) (Some components) (tw_mentions <$> mf_allowed_mentions f)).

(** The fields of a change of a message: absent ones stay as they are. *)
Definition edit_message_body (f : MessageFields) : dio MessageBody :=
  let! embeds := lift (from (mf_embeds f)) in
  let! components := lift (from (mf_components f)) in
  try! _ := guard_or invalid_request (valid_opt tw_content (mf_content f) && valid_opt tw_components components && valid_opt tw_embeds embeds) in
  dret (mkMessageBody (mf_content f) embeds components (tw_mentions <$> mf_allowed_mentions f)).

Definition op_discord_create_message (channel_id : string) (fields : MessageFields) : dio Reply :=
  try! channel := parse_get_guild_channel channel_id in
  try! b := new_message_body fields in
  call_model (QCreateMessage (ch_id channel) b).

Definition op_discord_edit_message (channel_id message_id : string) (fields : MessageFields) : dio Reply :=
  try! channel := parse_get_guild_channel channel_id in
  try! message_id := parse_str_snowflake_id message_id in
  try! b := edit_message_body fields in
  call_model (QUpdateMessage (ch_id channel) message_id b).

Definition op_discord_crosspost_message (channel_id message_id : Z) : dio Reply :=
  try! _ := get_guild_channel channel_id in
  call_unit (QCrosspostMessage channel_id message_id).

Definition op_discord_delete_message (channel_id message_id : string) : dio Reply :=
  try! channel := parse_get_guild_channel channel_id in
  try! message_id := parse_str_snowflake_id message_id in
  call_unit (QDeleteMessage (ch_id channel) message_id).

Definition op_discord_bulk_delete_messages (channel_id : string) (message_ids : list string) : dio Reply :=
  try! channel := parse_get_guild_channel channel_id in
  call_unit (QDeleteMessages (ch_id channel) (omap parse_id message_ids)).

(** ** Interactions *)

Definition op_discord_interaction_callback (interaction_id token : string) (data : InteractionResponse) : dio Reply :=
  try! id := from_option_or (OeMsg "invalid interaction id") (parse_id interaction_id) in
  let! data := lift (from data) in
  call_unit (QCreateResponse id token data).

Definition op_discord_interaction_get_original_response (token : string) : dio Reply := call_model (QResponse token).

Definition op_discord_interaction_edit_original_response (token : string) (fields : MessageFields) : dio Reply :=
  try! b := edit_message_body fields in
  call_model (QUpdateResponse token b).

Definition op_discord_interaction_delete_original (token : string) : dio Reply :=
  try! _ := call_raw as_model (QDeleteResponse token) in dret YUnit.

Definition op_discord_interaction_get_followup_message (token : string) (id : Z) : dio Reply := call_model (QFollowup token id).

Definition op_discord_interaction_followup_message (token : string) (fields : MessageFields) (flags : option MessageFlags) : dio Reply :=
  try! b := new_message_body fields in
  call_model (QCreateFollowup token (message_flags_to_tw <$> flags) b).

Definition op_discord_interaction_edit_followup_message (message_id : Z) (token : string) (fields : MessageFields) : dio Reply :=
  try! b := edit_message_body fields in
  call_unit (QUpdateFollowup token message_id b).

Definition op_discord_interaction_delete_followup_message (token : string) (id : Z) : dio Reply := call_unit (QDeleteFollowup token id).

(** ** Roles *)

Definition op_discord_get_role (rid : Z) : dio Reply :=
  try! r := state_role in
  match r with
  | Some c => dret (YRole c)
  | None => fail (not_found_error ("role `" +:+ u64_text rid +:+ "` not found"))
  end.

Definition op_discord_get_roles : dio Reply := try! roles := state_roles in dret (YRoles roles).

(** ** Reactions *)

Definition op_discord_create_reaction (channel_id message_id : Z) (emoji : SendEmoji) : dio Reply :=
  try! _ := get_guild_channel channel_id in
  call_unit (QCreateReaction channel_id message_id (send_emoji_request emoji)).

Definition op_discord_delete_own_reaction (channel_id message_id : Z) (emoji : SendEmoji) : dio Reply :=
  try! _ := get_guild_channel channel_id in
  call_unit (QDeleteOwnReaction channel_id message_id (send_emoji_request emoji)).

Definition op_discord_delete_user_reaction (channel_id message_id user_id : Z) (emoji : SendEmoji) : dio Reply :=
  try! _ := get_guild_channel channel_id in
  call_unit (QDeleteReaction channel_id message_id (send_emoji_request emoji) user_id).

(** [limit as u16] *)
Definition as_u16 (n : Z) : Z := n mod 2 ^ 16.

Definition op_discord_get_reactions (channel_id message_id : Z) (emoji : SendEmoji) (after : option string) (limit : option Z) : dio Reply :=
  try! _ := get_guild_channel channel_id in
  try! after := match after with
                | Some s => try! id := parse_str_snowflake_id s in dret (Some id)
                | None => dret None
                end in
  let limit := as_u16 <$> limit in
  try! _ := guard_or invalid_request (valid_opt tw_limit limit) in
  call_model (QReactions channel_id message_id (send_emoji_request emoji) after limit).

Definition op_discord_delete_all_reactions (channel_id message_id : Z) : dio Reply :=
  try! _ := get_guild_channel channel_id in
  call_unit (QDeleteAllReactions channel_id message_id).

Definition op_discord_delete_all_reactions_for_emoji (channel_id message_id : Z) (emoji : SendEmoji) : dio Reply :=
  try! _ := get_guild_channel channel_id in
  call_unit (QDeleteAllReaction channel_id message_id (send_emoji_request emoji)).

(** ** Channels *)

Definition op_discord_get_channel (channel_id_str : string) : dio Reply :=
  try! channel := parse_get_guild_channel channel_id_str in dret (YChannel channel).

Definition op_discord_get_channels : dio Reply := try! channels := state_channels in dret (YChannels channels).

Definition call_raw_channel (q : Request) : dio Reply :=
  try! b := call_raw as_channel q in try! ch := model b in dret (YChannel ch).

Definition op_discord_edit_channel (channel_id : Z) (params : EditChannel) : dio Reply :=
  try! _ := get_guild_channel channel_id in
  try! f := from_option_or invalid_request (apply_edit params) in
  call_raw_channel (QUpdateChannel channel_id f).

Definition op_discord_create_channel (params : CreateChannel) : dio Reply :=
  try! _ := guard_or invalid_request (tw_channel_name (cc_name params)) in
  try! f := from_option_or invalid_request (apply_create params) in
  call_raw_channel (QCreateGuildChannel guild_id (cc_name params) f).

Definition op_discord_delete_channel (channel_id : Z) : dio Reply :=
  try! _ := get_guild_channel channel_id in
  call_raw_channel (QDeleteChannel channel_id).

Definition op_discord_update_channel_permission (channel_id : Z) (o : PermissionOverwrite) : dio Reply :=
  try! _ := get_guild_channel channel_id in
  try! conv := from_option_or (OeMsg "invalid id") (tw_overwrite o) in
  try! _ := call_raw as_model (QUpdateChannelPermission channel_id conv) in dret YUnit.

Definition op_discord_delete_channel_permission (channel_id : Z) (kind : OverwriteKind) (overwrite_id : Z) : dio Reply :=
  try! _ := get_guild_channel channel_id in
  try! _ := call_raw as_model (QDeleteChannelPermission channel_id kind overwrite_id) in dret YUnit.

(** ** Pins *)

Definition op_discord_get_channel_pins (channel_id : Z) : dio Reply :=
  try! _ := get_guild_channel channel_id in
  call_model (QPins channel_id).

Definition op_discord_create_pin (channel_id message_id : Z) : dio Reply :=
  try! _ := get_guild_channel channel_id in
  call_unit (QCreatePin channel_id message_id).

Definition op_discord_delete_pin (channel_id message_id : Z) : dio Reply :=
  try! _ := get_guild_channel channel_id in
  call_unit (QDeletePin channel_id message_id).

(** ** Members and bans *)

Definition is_unknown_member (e : HttpError) : bool :=
  match e with
  | HeResponse _ (Some (code, _)) => code =? 10007
  | _ => false
  end.

Fixpoint get_members_loop (ids : list (option Z)) : dio (list (option JsonValue)) :=
  match ids with
  | [] => dret []
  | None :: ids => try! l := get_members_loop ids in dret (None :: l)
  | Some id :: ids =>
      let! r := http as_member (QGuildMember guild_id id) in
      match r with
      | Ok b =>
          try! member := model b in
          try! l := get_members_loop ids in dret (Some (member_model member) :: l)
      | Err e =>
          if is_unknown_member e then try! l := get_members_loop ids in dret (None :: l)
          else emit (EvHandleError e) ;;; fail (discord_error e)
      end
  end.

Definition op_discord_get_members (user_ids : list string) : dio Reply :=
  if bool_decide (100 < length user_ids)%nat then fail (OeMsg "too many user ids provided, max 100")
  else if bool_decide (user_ids = []) then dret (YMembers [])
  else try! l := get_members_loop (parse_id <$> user_ids) in dret (YMembers l).

Definition op_discord_add_member_role (user_id rid : Z) : dio Reply := call_unit (QAddMemberRole guild_id user_id rid).
Definition op_discord_remove_member_role (user_id rid : Z) : dio Reply := call_unit (QRemoveMemberRole guild_id user_id rid).

(** [v.0 as i64 * 1000] *)
Definition as_micros (v : Z) : outcome Z :=
  let n := u64_as_i64 v * 1000 in
  if (i64_min <=? n) && (n <=? i64_max) then Ret n else Panic.

(** [communication_disabled_until]: the timestamp in microseconds. *)
Definition disabled_until (ts : option Z) : dio (option Z) :=
  match ts with
  | None => dret None
  | Some v =>
      let! micros := lift (as_micros v) in
      try! _ := guard_or invalid_request (tw_timestamp micros) in dret (Some micros)
  end.

Definition op_discord_update_member (user_id : Z) (fields : MemberFields) : dio Reply :=
  try! _ := guard_or invalid_request (valid_opt (valid_opt tw_nick) (uf_nick fields)) in
  try! until := match uf_communication_disabled_until fields with
                | None => dret None
                | Some ts =>
                    try! t := disabled_until ts in
                    try! _ := guard_or invalid_request (tw_disabled_until t) in dret (Some t)
                end in
  call_model (QUpdateMember guild_id user_id
    (mkMemberFields (uf_channel_id fields) (uf_deaf fields) (uf_mute fields) (uf_nick fields) (uf_roles fields) until)).

(** [days * 24 * 60 * 60] in [u32], with overflow checks. *)
Definition ban_seconds (days : Z) : outcome Z :=
  if days * 24 * 60 * 60 <=? u32_max then Ret (days * 24 * 60 * 60) else Panic.

Definition op_discord_create_ban (user_id : Z) (audit_log_reason : option string) (delete_message_days : option Z) : dio Reply :=
  try! secs := match delete_message_days with
               | None => dret None
               | Some days =>
                   let! secs := lift (ban_seconds days) in
                   try! _ := guard_or invalid_request (tw_delete_seconds secs) in dret (Some secs)
               end in
  try! _ := guard_or invalid_request (valid_opt tw_reason audit_log_reason) in
  call_unit (QCreateBan guild_id user_id secs audit_log_reason).

Definition op_discord_get_ban (user_id : Z) : dio Reply := call_model (QBan guild_id user_id).
Definition op_discord_get_bans : dio Reply := call_model (QBans guild_id).

Definition op_discord_delete_ban (user_id : Z) (reason : option string) : dio Reply :=
  try! _ := guard_or invalid_request (valid_opt tw_reason reason) in
  call_unit (QDeleteBan guild_id user_id reason).

Definition op_discord_remove_member (user_id : Z) (reason : option string) : dio Reply :=
  try! _ := guard_or invalid_request (valid_opt tw_reason reason) in
  call_unit (QRemoveMember guild_id user_id reason).

(** ** Permissions *)

Definition is_thread (k : TwChannelType) : bool :=
  match k with
  | TwAnnouncementThread | TwPublicThread | TwPrivateThread => true
  | _ => false
  end.

(** The channel whose overwrites apply: the parent of a thread. *)
Definition permission_channel (channel_id : Z) : dio Channel :=
  try! channel := get_guild_channel channel_id in
  if is_thread (ch_kind channel) then
    try! parent := from_option_or (OeMsg "thread has no parent??") (ch_parent_id channel) in
    get_guild_channel parent
  else dret channel.

Definition op_discord_get_member_permissions (user_id : Z) (roles : option (list Z)) (channel_id : option Z) : dio Reply :=
  try! member_roles := match roles with
                       | Some roles => dret roles
                       | None =>
                           try! b := call_raw as_member (QGuildMember guild_id user_id) in
                           try! m := model b in dret (member_roles m)
                       end in
  try! guild_roles := state_roles in
  try! g := state_guild in
  try! guild := from_option_or (OeMsg "guild not in state") g in
  let role_perms := omap (λ rid, r ← find_first (λ r, role_id r =? rid) guild_roles; Some (rid, role_permissions r)) member_roles in
  let everyone := default 0 (role_permissions <$> find_first (λ r, role_id r =? guild_id) guild_roles) in
  let guild_perms := tw_root guild_id user_id everyone role_perms (guild_owner_id guild) in
  match channel_id with
  | None => dret (YPermissions (u64_text guild_perms) None)
  | Some channel_id =>
      try! channel := permission_channel channel_id in
      dret (YPermissions (u64_text guild_perms)
              (Some (u64_text (tw_in_channel guild_id user_id everyone role_perms (guild_owner_id guild)
                                 (ch_kind channel) (default [] (ch_overwrites channel))))))
  end.
(** What the script called. *)
Definition run_op (op : DiscordOp) : dio Reply :=
  match op with
  | Do_get_guild => op_discord_get_guild
  | Do_get_message channel_id message_id => op_discord_get_message channel_id message_id
  | Do_get_messages channel_id before after limit => op_discord_get_messages channel_id before after limit
  | Do_create_message channel_id fields => op_discord_create_message channel_id fields
  | Do_edit_message channel_id message_id fields => op_discord_edit_message channel_id message_id fields
  | Do_crosspost_message channel_id message_id => op_discord_crosspost_message channel_id message_id
  | Do_delete_message channel_id message_id => op_discord_delete_message channel_id message_id
  | Do_bulk_delete_messages channel_id message_ids => op_discord_bulk_delete_messages channel_id message_ids
  | Do_interaction_callback interaction_id token data => op_discord_interaction_callback interaction_id token data
  | Do_interaction_get_original_response token => op_discord_interaction_get_original_response token
  | Do_interaction_edit_original_response token fields => op_discord_interaction_edit_original_response token fields
  | Do_interaction_delete_original token => op_discord_interaction_delete_original token
  | Do_interaction_get_followup_message token id => op_discord_interaction_get_followup_message token id
  | Do_interaction_followup_message token fields flags => op_discord_interaction_followup_message token fields flags
  | Do_interaction_edit_followup_message message_id token fields => op_discord_interaction_edit_followup_message message_id token fields
  | Do_interaction_delete_followup_message token id => op_discord_interaction_delete_followup_message token id
  | Do_get_role rid => op_discord_get_role rid
  | Do_get_roles => op_discord_get_roles
  | Do_create_reaction channel_id message_id emoji => op_discord_create_reaction channel_id message_id emoji
  | Do_delete_own_reaction channel_id message_id emoji => op_discord_delete_own_reaction channel_id message_id emoji
  | Do_delete_user_reaction channel_id message_id user_id emoji => op_discord_delete_user_reaction channel_id message_id user_id emoji
  | Do_get_reactions channel_id message_id emoji after limit => op_discord_get_reactions channel_id message_id emoji after limit
  | Do_delete_all_reactions channel_id message_id => op_discord_delete_all_reactions channel_id message_id
  | Do_delete_all_reactions_for_emoji channel_id message_id emoji => op_discord_delete_all_reactions_for_emoji channel_id message_id emoji
  | Do_get_channel channel_id_str => op_discord_get_channel channel_id_str
  | Do_get_channels => op_discord_get_channels
  | Do_edit_channel channel_id params => op_discord_edit_channel channel_id params
  | Do_create_channel params => op_discord_create_channel params
  | Do_delete_channel channel_id => op_discord_delete_channel channel_id
  | Do_update_channel_permission channel_id o => op_discord_update_channel_permission channel_id o
  | Do_delete_channel_permission channel_id kind overwrite_id => op_discord_delete_channel_permission channel_id kind overwrite_id
  | Do_get_channel_pins channel_id => op_discord_get_channel_pins channel_id
  | Do_create_pin channel_id message_id => op_discord_create_pin channel_id message_id
  | Do_delete_pin channel_id message_id => op_discord_delete_pin channel_id message_id
  | Do_get_members user_ids => op_discord_get_members user_ids
  | Do_add_member_role user_id rid => op_discord_add_member_role user_id rid
  | Do_remove_member_role user_id rid => op_discord_remove_member_role user_id rid
  | Do_update_member user_id fields => op_discord_update_member user_id fields
  | Do_create_ban user_id audit_log_reason delete_message_days => op_discord_create_ban user_id audit_log_reason delete_message_days
  | Do_get_ban user_id => op_discord_get_ban user_id
  | Do_get_bans => op_discord_get_bans
  | Do_delete_ban user_id reason => op_discord_delete_ban user_id reason
  | Do_remove_member user_id reason => op_discord_remove_member user_id reason
  | Do_get_member_permissions user_id roles channel_id => op_discord_get_member_permissions user_id roles channel_id
  end.
End operations.

(** Unfolds an operation down to its requests. *)
Ltac unfold_ops :=
  unfold op_discord_get_guild, op_discord_get_message, op_discord_get_messages, op_discord_create_message,
      op_discord_edit_message, op_discord_crosspost_message, op_discord_delete_message, op_discord_bulk_delete_messages,
      op_discord_interaction_callback, op_discord_interaction_get_original_response,
      op_discord_interaction_edit_original_response, op_discord_interaction_delete_original,
      op_discord_interaction_get_followup_message, op_discord_interaction_followup_message,
      op_discord_interaction_edit_followup_message, op_discord_interaction_delete_followup_message,
      op_discord_get_role, op_discord_get_roles, op_discord_create_reaction, op_discord_delete_own_reaction,
      op_discord_delete_user_reaction, op_discord_get_reactions, op_discord_delete_all_reactions,
      op_discord_delete_all_reactions_for_emoji, op_discord_get_channel, op_discord_get_channels, op_discord_edit_channel,
      op_discord_create_channel, op_discord_delete_channel, op_discord_update_channel_permission,
      op_discord_delete_channel_permission, op_discord_get_channel_pins, op_discord_create_pin, op_discord_delete_pin,
      op_discord_get_members, op_discord_add_member_role, op_discord_remove_member_role, op_discord_update_member,
      op_discord_create_ban, op_discord_get_ban, op_discord_get_bans, op_discord_delete_ban, op_discord_remove_member,
      op_discord_get_member_permissions, call_unit, call_model, call_raw_channel, new_message_body, edit_message_body,
      parse_str_snowflake_id, disabled_until, permission_channel, state_guild, state_channels, state_role, state_roles.

(** * A script stays in its guild *)

Inductive Target := TChannel (c : Z) | TGuild (g : GuildId) | TInteraction | TLookup.

(** What a request is addressed to; asking for a channel changes nothing and is how a channel's
    guild is found out. *)
Definition request_target (q : Request) : Target :=
  match q with
  | QChannel _ => TLookup
  | QMessage c _ | QChannelMessages c _ _ _ | QCreateMessage c _ | QUpdateMessage c _ _ | QCrosspostMessage c _
  | QDeleteMessage c _ | QDeleteMessages c _ | QCreateReaction c _ _ | QDeleteOwnReaction c _ _ | QDeleteReaction c _ _ _
  | QReactions c _ _ _ _ | QDeleteAllReactions c _ | QDeleteAllReaction c _ _ | QUpdateChannel c _ | QDeleteChannel c
  | QUpdateChannelPermission c _ | QDeleteChannelPermission c _ _ | QPins c | QCreatePin c _ | QDeletePin c _ => TChannel c
  | QCreateGuildChannel g _ _ | QGuildMember g _ | QAddMemberRole g _ _ | QRemoveMemberRole g _ _ | QUpdateMember g _ _
  | QCreateBan g _ _ _ | QBan g _ | QBans g | QDeleteBan g _ _ | QRemoveMember g _ _ => TGuild g
  | QCreateResponse _ _ _ | QResponse _ | QUpdateResponse _ _ | QDeleteResponse _ | QFollowup _ _ | QCreateFollowup _ _ _
  | QUpdateFollowup _ _ _ | QDeleteFollowup _ _ => TInteraction
  end.

Section confinement.
Context `{!Twilight}.
Context (guild_id : GuildId).
(** The guild every channel of Discord belongs to. *)
Context (owner : Z → option GuildId).

(** The answers about channels are true. *)
Definition honest (ev : DEv) : Prop :=
  match ev with
  | EvSaw c ch => ch_id ch = c ∧ ch_guild_id ch = owner c
  | _ => True
  end.

Definition in_guild (ev : DEv) : Prop :=
  match ev with
  | EvState g => g = guild_id
  | EvRequest q =>
      match request_target q with
      | TChannel c => owner c = Some guild_id
      | TGuild g => g = guild_id
      | TInteraction | TLookup => True
      end
  | _ => True
  end.

(** The calls of [m] stay in the guild while the answers are true. *)
Notation confined := (guarded honest in_guild).

Lemma confined_http {A} (f : DResp → option (result HttpError (option A))) q :
  in_guild (EvRequest q) → confined (http f q) (λ _, True).
Proof.
  intros Hq. unfold http. eapply (guarded_bind _ _ _ _ (λ _, True)); [by apply guarded_emit|]. intros _ _.
  eapply guarded_bind; [apply guarded_await|]. intros [b|e] _; [by apply guarded_ret|].
  eapply (guarded_bind _ _ _ _ (λ _, True)); [by apply guarded_emit|]. intros. by apply guarded_ret.
Qed.

Lemma confined_call {A} (f : DResp → option (result HttpError (option A))) q :
  in_guild (EvRequest q) → confined (call f q) (on_ok (λ _, True)).
Proof.
  intros Hq. unfold call. eapply guarded_bind; [by apply confined_http|]. intros [b|e] _; [by apply guarded_ret|].
  eapply (guarded_bind _ _ _ _ (λ _, True)); [by apply guarded_emit|]. intros. by apply guarded_ret.
Qed.

Lemma confined_call_raw {A} (f : DResp → option (result HttpError (option A))) q :
  in_guild (EvRequest q) → confined (call_raw f q) (on_ok (λ _, True)).
Proof. intros Hq. unfold call_raw. eapply guarded_bind; [by apply confined_http|]. by intros [b|e] _; apply guarded_ret. Qed.

Lemma confined_option {A} e (o : option A) : confined (from_option_or e o) (on_ok (λ _, True)).
Proof. by destruct o; apply guarded_ret. Qed.

Lemma confined_guard e b : confined (guard_or e b) (on_ok (λ _, True)).
Proof. by destruct b; apply guarded_ret. Qed.

Lemma confined_ask {A} (f : DResp → option (option A)) : confined (ask_state guild_id f) (on_ok (λ _, True)).
Proof.
  unfold ask_state. eapply (guarded_bind _ _ _ _ (λ _, True)); [by apply guarded_emit|]. intros _ _.
  eapply guarded_bind; [apply guarded_await|]. intros r _. apply confined_option.
Qed.

(** The channel that passes the check is the one asked for and is in the guild. *)
Lemma confined_get_guild_channel c :
  confined (get_guild_channel guild_id c) (on_ok (λ ch, ch_id ch = c ∧ owner c = Some guild_id)).
Proof.
  assert (∀ ch, ch_id ch = c ∧ ch_guild_id ch = owner c →
    confined (if bool_decide (ch_guild_id ch = Some guild_id) then dret ch else fail (channel_not_found c))
             (on_ok (λ ch, ch_id ch = c ∧ owner c = Some guild_id))) as Hcheck.
  { intros ch [Hid Hg]. case_bool_decide; apply guarded_ret; simpl; [|done]. split; [done | congruence]. }
  unfold get_guild_channel. eapply (guarded_bindr _ _ _ _ (λ o, ∀ ch, o = Some ch → ch_id ch = c ∧ ch_guild_id ch = owner c)).
  - unfold state_channel. eapply guarded_bindr; [apply confined_ask|]. intros [ch|] _; [|by apply guarded_ret].
    eapply (guarded_bind _ _ _ _ (λ _, ch_id ch = c ∧ ch_guild_id ch = owner c)); [apply guarded_emit; by split|].
    intros _ Hch. apply guarded_ret. by intros ? [= <-].
  - intros [ch|] Hch; [by apply Hcheck, Hch|].
    eapply guarded_bindr; [by apply confined_call|]. intros b _.
    eapply guarded_bindr; [apply confined_option|]. intros ch _.
    eapply (guarded_bind _ _ _ _ (λ _, ch_id ch = c ∧ ch_guild_id ch = owner c)); [apply guarded_emit; by split|].
    intros _ Hch'. by apply Hcheck.
Qed.

Lemma confined_parse_checked msg s : confined (parse_checked msg s) (on_ok (λ _, True)).
Proof. eapply guarded_bindr; [apply confined_option|]. intros. apply confined_option. Qed.

Lemma confined_parse_channel s :
  confined (parse_get_guild_channel guild_id s) (on_ok (λ ch, owner (ch_id ch) = Some guild_id)).
Proof.
  eapply guarded_bindr; [apply confined_parse_checked|]. intros c _.
  eapply guarded_mono; [apply confined_get_guild_channel|]. intros [ch|e]; simpl; [|done]. by intros [-> ?].
Qed.

(** Follows the structure of an operation. *)
Ltac confined_tac :=
  repeat match goal with
  | |- guarded _ _ (aret _) _ => apply guarded_ret; exact I
  | |- guarded _ _ (dret _) _ => apply guarded_ret; exact I
  | |- guarded _ _ (fail _) _ => apply guarded_ret; exact I
  | |- guarded _ _ (get_guild_channel _ _) (on_ok (λ _, True)) =>
      eapply guarded_mono; [apply confined_get_guild_channel | by intros [?|?]]
  | |- guarded _ _ (abindr (get_guild_channel _ _) _) _ =>
      eapply guarded_bindr; [apply confined_get_guild_channel | intros ? [? ?]; simplify_eq/=]
  | |- guarded _ _ (abindr (parse_get_guild_channel _ _) _) _ =>
      eapply guarded_bindr; [apply confined_parse_channel | intros ? ?]
  | |- guarded _ _ (abindr _ _) _ => eapply (guarded_bindr _ _ _ _ (λ _, True)); [|intros ? _]
  | |- guarded _ _ (abind (emit _) _) _ => eapply (guarded_bind _ _ _ _ (λ _, True)); [by apply guarded_emit|intros _ _]
  | |- guarded _ _ (abind (lift _) _) _ => eapply guarded_bind; [apply guarded_lift|intros ? _]
  | |- guarded _ _ (call _ _) _ => by apply confined_call
  | |- guarded _ _ (call_raw _ _) _ => by apply confined_call_raw
  | |- guarded _ _ (from_option_or _ _) _ => apply confined_option
  | |- guarded _ _ (model _) _ => apply confined_option
  | |- guarded _ _ (guard_or _ _) _ => apply confined_guard
  | |- guarded _ _ (ask_state _ _) _ => apply confined_ask
  | |- guarded _ _ (parse_checked _ _) _ => apply confined_parse_checked
  | |- guarded _ _ (match ?x with _ => _ end) _ => destruct x
  | |- guarded _ _ (let _ := _ in _) _ => cbv zeta
  end.

Lemma confined_members ids : confined (get_members_loop guild_id ids) (on_ok (λ _, True)).
Proof.
  induction ids as [|[id|] ids IH]; simpl; [confined_tac | | confined_tac; exact IH].
  eapply guarded_bind; [by apply confined_http|]. intros r _. confined_tac; exact IH.
Qed.

Lemma confined_op op : confined (run_op guild_id op) (on_ok (λ _, True)).
Proof.
  destruct op; simpl; unfold_ops.
  all: confined_tac. apply confined_members.
Qed.

(** C5: A script cannot reach another guild: whatever operation it calls with whatever arguments,
    and whatever the state server and Discord answer, as long as their answers about channels are
    true, every query and every request the operation sends is addressed to the script's own
    guild, to a channel of that guild or to an interaction token, or only looks a channel up. *)
Theorem script_confined_to_guild op tape :
  Forall honest (trace_of (run_op guild_id op tape)) → Forall in_guild (trace_of (run_op guild_id op tape)).
Proof. intros Hh. apply (confined_op op tape Hh). Qed.
End confinement.

(** * Counting invalid requests *)

(** The errors that count, as Discord answered them and as they were handled; an unknown member
    is no error of [get_members]. *)
Definition counts (e : HttpError) : bool := is_counted e && negb (is_unknown_member e).

Definition answered (ev : DEv) : option HttpError :=
  match ev with
  | EvFailed e => if counts e then Some e else None
  | _ => None
  end.

Definition reported (ev : DEv) : option HttpError :=
  match ev with
  | EvHandleError e => if counts e then Some e else None
  | _ => None
  end.

(** The operations that pass an error of Discord on without [handle_discord_error]. *)
Definition reports_errors (op : DiscordOp) : bool :=
  match op with
  | Do_edit_channel _ _ | Do_create_channel _ | Do_delete_channel _ | Do_update_channel_permission _ _
  | Do_delete_channel_permission _ _ _ | Do_interaction_delete_original _ | Do_get_member_permissions _ _ _ => false
  | _ => true
  end.

Definition reporting {A} (m : async DResp DEv A) : Prop :=
  ∀ tape, omap answered (trace_of (m tape)) = omap reported (trace_of (m tape)).

Lemma reporting_ret {A} (a : A) : reporting (aret a).
Proof. done. Qed.

Lemma reporting_emit e : answered e = reported e → reporting (emit e).
Proof. intros He tape. simpl. by rewrite He. Qed.

Lemma reporting_await {A} (f : DResp → option A) : reporting (await f).
Proof. intros [|r tape]; unfold await; [done|]. by destruct (f r). Qed.

Lemma reporting_lift {A} (o : outcome A) : reporting (lift o).
Proof. by destruct o. Qed.

Lemma reporting_bind {A B} (m : async DResp DEv A) (k : A → async DResp DEv B) :
  reporting m → (∀ a, reporting (k a)) → reporting (abind m k).
Proof.
  intros Hm Hk tape. specialize (Hm tape). unfold abind. destruct (m tape) as [a rest tr|tr|tr]; [|done..].
  rewrite trace_prepend, !omap_app. f_equal; [exact Hm | apply Hk].
Qed.

Lemma reporting_bindr {A B} (m : dio A) (k : A → dio B) : reporting m → (∀ a, reporting (k a)) → reporting (abindr m k).
Proof. intros Hm Hk. apply reporting_bind; [done|]. intros [a|e]; [apply Hk | apply reporting_ret]. Qed.

Lemma http_run {A B} (f : DResp → option (result HttpError (option A))) q (k : result HttpError (option A) → async DResp DEv B) tape :
  abind (http f q) k tape =
  match await f tape with
  | Done (Ok b) rest tr => prepend (EvRequest q :: tr) (k (Ok b) rest)
  | Done (Err e) rest tr => prepend (EvRequest q :: tr ++ [EvFailed e]) (k (Err e) rest)
  | Panicked tr => Panicked (EvRequest q :: tr)
  | Suspended tr => Suspended (EvRequest q :: tr)
  end.
Proof.
  unfold http, abind, emit, aret. destruct (await f tape) as [[b|e] rest tr|tr|tr]; simpl; by rewrite ?app_nil_r.
Qed.

(** A request whose error is handled by what comes next. *)
Lemma reporting_http {A B} (f : DResp → option (result HttpError (option A))) q (k : result HttpError (option A) → async DResp DEv B) :
  (∀ b, reporting (k (Ok b))) →
  (∀ e tape, omap reported (trace_of (k (Err e) tape)) = option_list (answered (EvFailed e)) ++ omap answered (trace_of (k (Err e) tape))) →
  reporting (abind (http f q) k).
Proof.
  intros Hok Herr tape. rewrite http_run. pose proof (reporting_await f tape) as Hr.
  assert (∀ l, omap answered (EvRequest q :: l) = omap answered l) as Hqa by done.
  assert (∀ l, omap reported (EvRequest q :: l) = omap reported l) as Hqr by done.
  destruct (await f tape) as [[b|e] rest tr|tr|tr]; cbn [trace_of] in *; rewrite ?trace_prepend, ?omap_app, ?Hqa, ?Hqr.
  - f_equal; [exact Hr | apply Hok].
  - rewrite !omap_app, Herr, Hr, <- !app_assoc. by f_equal.
  - exact Hr.
  - exact Hr.
Qed.

Lemma reporting_handle {A} e (tape : list DResp) :
  omap reported (trace_of ((emit (EvHandleError e) ;;; @fail A (discord_error e)) tape)) =
  option_list (answered (EvFailed e)) ++ omap answered (trace_of ((emit (EvHandleError e) ;;; @fail A (discord_error e)) tape)).
Proof. rewrite abind_emit, trace_prepend. simpl. by destruct (counts e). Qed.

Lemma reporting_call {A} (f : DResp → option (result HttpError (option A))) q : reporting (call f q).
Proof. apply reporting_http; [intros; apply reporting_ret | intros; apply reporting_handle]. Qed.

Lemma reporting_option {A} e (o : option A) : reporting (from_option_or e o).
Proof. by destruct o. Qed.

Lemma reporting_guard e b : reporting (guard_or e b).
Proof. by destruct b. Qed.

Ltac reporting_tac :=
  repeat match goal with
  | |- reporting (aret _) => apply reporting_ret
  | |- reporting (dret _) => apply reporting_ret
  | |- reporting (fail _) => apply reporting_ret
  | |- reporting (abindr _ _) => apply reporting_bindr; [|intros ?]
  | |- reporting (abind (emit _) _) => apply reporting_bind; [by apply reporting_emit|intros ?]
  | |- reporting (abind (lift _) _) => apply reporting_bind; [apply reporting_lift|intros ?]
  | |- reporting (abind (await _) _) => apply reporting_bind; [apply reporting_await|intros ?]
  | |- reporting (call _ _) => apply reporting_call
  | |- reporting (from_option_or _ _) => apply reporting_option
  | |- reporting (model _) => apply reporting_option
  | |- reporting (guard_or _ _) => apply reporting_guard
  | |- reporting (match ?x with _ => _ end) => destruct x
  | |- reporting (let _ := _ in _) => cbv zeta
  end.

Section reporting.
Context `{!Twilight}.
Context (guild_id : GuildId).

Lemma reporting_ask {A} (f : DResp → option (option A)) : reporting (ask_state guild_id f).
Proof. unfold ask_state. reporting_tac. Qed.

Lemma reporting_channel c : reporting (get_guild_channel guild_id c).
Proof.
  unfold get_guild_channel, state_channel. reporting_tac; try apply reporting_ask.
Qed.

Lemma reporting_parse_checked msg s : reporting (parse_checked msg s).
Proof. unfold parse_checked. reporting_tac. Qed.

Lemma reporting_parse_channel s : reporting (parse_get_guild_channel guild_id s).
Proof. unfold parse_get_guild_channel. reporting_tac; [apply reporting_parse_checked | apply reporting_channel]. Qed.

Lemma reporting_members ids : reporting (get_members_loop guild_id ids).
Proof.
  induction ids as [|[id|] ids IH]; simpl; [reporting_tac | | reporting_tac; exact IH].
  apply reporting_http; [intros; reporting_tac; exact IH|]. intros e tape.
  destruct (is_unknown_member e) eqn:Hu; [|apply reporting_handle].
  unfold answered, counts. rewrite Hu, andb_false_r. simpl. symmetry.
  assert (reporting (try! l := get_members_loop guild_id ids in dret (None :: l))) as Hr by (reporting_tac; exact IH).
  apply Hr.
Qed.

Lemma reporting_op op : reports_errors op = true → reporting (run_op guild_id op).
Proof.
  destruct op; simpl; intros Hr; try discriminate Hr; clear Hr; unfold_ops.
  all: reporting_tac;
    first [apply reporting_ask | apply reporting_channel | apply reporting_parse_channel | apply reporting_parse_checked
          | apply reporting_members].
Qed.

(** Every operation but the seven of [reports_errors] counts its invalid requests: at any
    moment of a run, the 401, 403 and 429 answers it has got from Discord are exactly the ones it
    has handed to the guild's count, in order. *)
Theorem invalid_requests_counted op tape :
  reports_errors op = true →
  omap answered (trace_of (run_op guild_id op tape)) = omap reported (trace_of (run_op guild_id op tape)).
Proof. intros Hr. by apply reporting_op. Qed.

(** Changing a channel without the permission to do so is not counted: the operation gets a
    403 from Discord and passes it on, and nothing is handed to the guild's count, however often
    the script repeats it. *)
Theorem forbidden_edit_not_counted c e f msg ch :
  ch_guild_id ch = Some guild_id → apply_edit e = Some f →
  run_op guild_id (Do_edit_channel c e) [RsChannel (Some (Some ch)); RhChannel (Err (HeResponse 403 msg))] =
    Done (Err (OeHttp (HeResponse 403 msg))) []
      [EvState guild_id; EvSaw c ch; EvRequest (QUpdateChannel c f); EvFailed (HeResponse 403 msg)] ∧
  is_counted (HeResponse 403 msg) = true.
Proof.
  intros Hg Hf. split; [|done]. unfold run_op, op_discord_edit_channel, get_guild_channel, state_channel, ask_state, call_raw_channel,
    call_raw, http, abindr, abind, emit, await, aret, from_option_or, dret, fail. simpl. rewrite Hg, bool_decide_true by done.
  simpl. by rewrite Hf.
Qed.
End reporting.

(** * Suspending a guild *)

(** What concerns a guild's count: a vm is started for it, whose extension puts a new
    [DiscordOpsState], and an operation of the vm calls [handle_discord_error]. *)
Inductive OpsEvent := OpsVmStarted | OpsError (now : Z) (e : HttpError).

(** The state after some events, and whether the last one suspended the guild. *)
Definition ops_event (sb : DiscordOpsState * bool) (ev : OpsEvent) : DiscordOpsState * bool :=
  match ev with
  | OpsVmStarted => (ops_state_init, false)
  | OpsError now e => handle_discord_error now e sb.1
  end.

Definition guild_errors (evs : list OpsEvent) : DiscordOpsState * bool := foldl ops_event (ops_state_init, false) evs.

(** The errors handled since the last vm was started. *)
Definition current_vm (evs : list OpsEvent) : list (Z * HttpError) :=
  foldl (λ es ev, match ev with OpsVmStarted => [] | OpsError now e => es ++ [(now, e)] end) [] evs.

(** The errors handled by the operations of one vm with the times they were handled at: the state
    afterwards, and whether the last one suspended the guild. *)
Definition vm_errors (es : list (Z * HttpError)) : DiscordOpsState * bool :=
  foldl (λ sb te, handle_discord_error te.1 te.2 sb.1) (ops_state_init, false) es.

Definition counted_times (es : list (Z * HttpError)) : list Z :=
  omap (λ te, if is_counted te.2 then Some te.1 else None) es.

Lemma vm_errors_snoc es te : vm_errors (es ++ [te]) = handle_discord_error te.1 te.2 (vm_errors es).1.
Proof. unfold vm_errors. by rewrite foldl_app. Qed.

Lemma counted_times_snoc es te :
  counted_times (es ++ [te]) = counted_times es ++ (if is_counted te.2 then [te.1] else []).
Proof. unfold counted_times. rewrite omap_app. simpl. by destruct (is_counted te.2). Qed.

Lemma vm_errors_recent es :
  recent_bad_requests (vm_errors es).1 = drop (length (counted_times es) - 29) (counted_times es).
Proof.
  induction es as [|te es IH] using rev_ind; [done|]. rewrite vm_errors_snoc, counted_times_snoc.
  unfold handle_discord_error. destruct (is_counted te.2); simpl; [|by rewrite app_nil_r].
  rewrite IH, !length_app, length_drop. simpl. set (l := counted_times es).
  destruct (decide (length l ≤ 29)%nat) as [Hle|Hle].
  - replace (length l - 29)%nat with 0%nat by lia. rewrite drop_0. by replace (length l - 0)%nat with (length l) by lia.
  - replace (length l - (length l - 29) + 1 - 29)%nat with 1%nat by lia.
    replace (length l + 1 - 29)%nat with (length l - 29 + 1)%nat by lia.
    rewrite <- (drop_drop (_ ++ _)). f_equal. rewrite drop_app_le by lia. done.
Qed.

(** The times of the last [w]. *)
Definition window (now w : Z) (l : list Z) : list Z := List.filter (λ t, now - t <? w) l.

Lemma window_all now w l : Forall (λ t, now - t < w) l → window now w l = l.
Proof.
  induction 1 as [|t l Ht Hl IH]; simpl; [done|]. rewrite (proj2 (Z.ltb_lt _ _)) by done. by rewrite IH.
Qed.

Lemma window_none now w l : Forall (λ t, w ≤ now - t) l → window now w l = [].
Proof. induction 1 as [|t l Ht Hl IH]; simpl; [done|]. by rewrite (proj2 (Z.ltb_ge _ _)). Qed.

Lemma window_length now w l : (length (window now w l) ≤ length l)%nat.
Proof. induction l as [|t l IH]; simpl; [lia|]. destruct (now - t <? w); simpl; lia. Qed.

(** In a sorted list the time [t] decides whether it and all later ones are in the window. *)
Lemma window_split now w a t b :
  StronglySorted Z.le (a ++ t :: b) →
  if now - t <? w then (S (length b) ≤ length (window now w (a ++ t :: b)))%nat
  else (length (window now w (a ++ t :: b)) ≤ length b)%nat.
Proof.
  intros Hs. unfold window. rewrite List.filter_app, length_app. fold (window now w a) (window now w (t :: b)).
  apply StronglySorted_app_1_r in Hs as Hb. apply StronglySorted_inv in Hb as [_ Hb].
  destruct (Z.ltb_spec (now - t) w) as [Hin|Hout].
  - rewrite (window_all now w (t :: b)); [simpl; lia|]. constructor; [done|]. eapply Forall_impl; [exact Hb|]. simpl. lia.
  - rewrite (window_none now w a); simpl.
    + rewrite (proj2 (Z.ltb_ge _ _)) by done. pose proof (window_length now w b). unfold window in *. lia.
    + apply Forall_forall. intros x Hx.
      assert (x ≤ t) by (eapply (StronglySorted_app_1_elem_of _ _ _ x t Hs Hx); constructor). lia.
Qed.

Lemma vm_errors_suspend es now e :
  StronglySorted Z.le (counted_times (es ++ [(now, e)])) →
  (vm_errors (es ++ [(now, e)])).2 =
  is_counted e && bool_decide (29 ≤ length (window now (from_secs 60) (counted_times (es ++ [(now, e)]))))%nat.
Proof.
  intros Hs. pose proof (vm_errors_recent (es ++ [(now, e)])) as Hrec. rewrite vm_errors_snoc in *.
  rewrite counted_times_snoc in *. unfold handle_discord_error in *. cbn [fst snd] in *.
  destruct (is_counted e); [|done]. cbn [fst snd andb] in *. set (l := counted_times es ++ [now]) in *.
  unfold should_suspend_guild. rewrite Hrec. clear Hrec.
  destruct (decide (length l < 29)%nat) as [Hlt|Hge].
  - rewrite (bool_decide_false (29 ≤ _)%nat); [|pose proof (window_length now (from_secs 60) l); lia].
    replace (length l - 29)%nat with 0%nat by lia. rewrite drop_0. destruct l; [done|]. by rewrite bool_decide_true by done.
  - destruct (drop (length l - 29) l) as [|t b] eqn:Hd; pose proof (f_equal length Hd) as Hlen; rewrite length_drop in Hlen; simpl in Hlen; [lia|].
    rewrite bool_decide_false by (simpl; lia).
    rewrite <- (take_drop (length l - 29) l), Hd in Hs. pose proof (window_split now (from_secs 60) _ _ _ Hs) as Hw.
    rewrite <- Hd, take_drop in Hw.
    assert (t ≤ now) as Ht.
    { assert (now ∈ t :: b) as Hin.
      { rewrite <- Hd. unfold l. rewrite drop_app_le by (unfold l in *; rewrite length_app in *; simpl in *; lia). set_solver. }
      apply StronglySorted_app_1_r, StronglySorted_inv in Hs as [_ Hb]. apply elem_of_cons in Hin as [-> | Hin]; [lia|].
      by eapply Forall_forall in Hb. }
    unfold elapsed. rewrite Z.max_r by lia. destruct (now - t <? from_secs 60); symmetry.
    + apply bool_decide_eq_true. lia.
    + apply bool_decide_eq_false. lia.
Qed.

Lemma guild_errors_vm evs : guild_errors evs = ((vm_errors (current_vm evs)).1, (guild_errors evs).2).
Proof.
  induction evs as [|[|now e] evs IH] using rev_ind; [done|..]; unfold guild_errors, current_vm in *; rewrite !foldl_app; simpl; [done|].
  rewrite IH, vm_errors_snoc. simpl. by destruct (handle_discord_error _ _ _).
Qed.

(** C30: When a guild is suspended for invalid requests. Handling an error sends
    [InvalidRequestsExceeded] and shuts the vm down if and only if it is a 401, 403 or 429 and at
    least 29 of these, itself included, were handled by the guild's current vm less than 60
    seconds before it, however many were handled earlier; a vm that is started counts from none.
    What is handled are, for every operation but the seven of [reports_errors], exactly the 401,
    403 and 429 answers it has got from Discord (a missing member is not an error of
    [get_members]). *)
Theorem suspended_iff_29_in_window `{!Twilight} guild_id op tape evs now e :
  StronglySorted Z.le (counted_times (current_vm (evs ++ [OpsError now e]))) →
  (guild_errors (evs ++ [OpsError now e])).2 =
    is_counted e && bool_decide (29 ≤ length (window now (from_secs 60) (counted_times (current_vm (evs ++ [OpsError now e])))))%nat ∧
  (reports_errors op = true →
   omap answered (trace_of (run_op guild_id op tape)) = omap reported (trace_of (run_op guild_id op tape))).
Proof.
  assert (current_vm (evs ++ [OpsError now e]) = current_vm evs ++ [(now, e)]) as -> by (unfold current_vm; by rewrite foldl_app).
  intros Hs. split; [|intros Hop; by apply reporting_op].
  unfold guild_errors. rewrite foldl_app. simpl. fold (guild_errors evs). rewrite guild_errors_vm. simpl.
  rewrite <- (vm_errors_suspend _ _ _ Hs), vm_errors_snoc. done.
Qed.

(** * Witnesses *)

Definition ex_twilight : Twilight := {|
  tw_timestamps := {| ts_in_range _ := true |};
  tw_content s := bool_decide (String.length s ≤ 2000)%nat;
  tw_embeds l := bool_decide (length l ≤ 10)%nat;
  tw_components l := bool_decide (length l ≤ 5)%nat;
  tw_limit n := (1 <=? n) && (n <=? 100);
  tw_channel_name s := bool_decide (1 ≤ String.length s ≤ 100)%nat;
  tw_bitrate n := 8000 <=? n;
  tw_rate_limit n := n <=? 21600;
  tw_topic s := bool_decide (String.length s ≤ 1024)%nat;
  tw_nick s := bool_decide (1 ≤ String.length s ≤ 32)%nat;
  tw_reason s := bool_decide (String.length s ≤ 512)%nat;
  tw_delete_seconds n := n <=? 604800;
  tw_timestamp n := true;
  tw_disabled_until t := true;
  tw_permissions n := n mod 2 ^ 41;
  tw_root _ _ everyone pairs _ := foldr (λ p acc, Z.lor p.2 acc) everyone pairs;
  tw_in_channel _ _ everyone pairs _ _ _ := foldr (λ p acc, Z.lor p.2 acc) everyone pairs;
|}.

Definition ex_owner (c : Z) : option GuildId := if c =? 5 then Some 1 else if c =? 6 then Some 2 else None.
Definition ex_channel (c g : Z) : Channel := mkChannel c (Some g) TwGuildText None None.
Definition ex_message : MessageFields := mkMessageFields (Some "hi") None None None.

(** Channel 5 is not cached and Discord is asked; the message goes to the channel. *)
Definition ex_own_tape : list DResp :=
  [RsChannel (Some None); RhChannel (Ok (Some (ex_channel 5 1))); RhModel (Ok (Some (JBool true)))].
(** Channel 6 belongs to guild 2: the operation sends nothing to it. *)
Definition ex_foreign_tape : list DResp :=
  [RsChannel (Some None); RhChannel (Ok (Some (ex_channel 6 2))); RhModel (Ok (Some (JBool true)))].

Lemma script_confined_to_guild_witness :
  (Forall (in_guild 1 ex_owner) (trace_of (@run_op ex_twilight 1 (Do_create_message "5" ex_message) ex_own_tape)) ∧
   EvRequest (QCreateMessage 5 (mkMessageBody (Some "hi") (Some []) (Some []) None)) ∈
     trace_of (@run_op ex_twilight 1 (Do_create_message "5" ex_message) ex_own_tape)) ∧
  Forall (in_guild 1 ex_owner) (trace_of (@run_op ex_twilight 1 (Do_create_message "6" ex_message) ex_foreign_tape)).
Proof.
  split; [split|].
  - apply (@script_confined_to_guild ex_twilight 1 ex_owner (Do_create_message "5" ex_message) ex_own_tape).
    vm_compute. repeat constructor.
  - vm_compute. repeat constructor.
  - apply (@script_confined_to_guild ex_twilight 1 ex_owner (Do_create_message "6" ex_message) ex_foreign_tape).
    vm_compute. repeat constructor.
Defined.

Lemma invalid_requests_counted_witness :
  omap answered (trace_of (@run_op ex_twilight 1 (Do_create_pin 5 9)
    [RsChannel (Some (Some (ex_channel 5 1))); RhModel (Err (HeResponse 403 None))])) = [HeResponse 403 None] ∧
  omap reported (trace_of (@run_op ex_twilight 1 (Do_create_pin 5 9)
    [RsChannel (Some (Some (ex_channel 5 1))); RhModel (Err (HeResponse 403 None))])) = [HeResponse 403 None].
Proof.
  split; [vm_compute; reflexivity|].
  refine (eq_trans (eq_sym (@invalid_requests_counted ex_twilight 1 (Do_create_pin 5 9)
    [RsChannel (Some (Some (ex_channel 5 1))); RhModel (Err (HeResponse 403 None))] eq_refl)) _).
  vm_compute. reflexivity.
Defined.

Definition ex_edit : EditChannel := mkEditChannel None (Some "x") None None None None None None None None.

Lemma forbidden_edit_not_counted_witness :
  omap reported (trace_of (@run_op ex_twilight 1 (Do_edit_channel 5 ex_edit)
    [RsChannel (Some (Some (ex_channel 5 1))); RhChannel (Err (HeResponse 403 None))])) = [].
Proof.
  destruct (@forbidden_edit_not_counted ex_twilight 1 5 ex_edit
    (mkChannelFields None (Some "x") None None None None None None None None) None (ex_channel 5 1)) as [-> _];
    vm_compute; reflexivity.
Defined.

(** 29 requests without permission, two seconds apart, and the 29th suspends; three seconds apart
    they do not. *)
Definition ex_errors (n : nat) (step : Z) : list OpsEvent :=
  (λ i, OpsError (from_secs (step * Z.of_nat i)) (HeResponse 403 None)) <$> seq 0 n.

(** They do not either if the vm was restarted in between. *)
Lemma suspended_iff_29_in_window_witness :
  (guild_errors (ex_errors 28 2 ++ [OpsError (from_secs 56) (HeResponse 403 None)])).2 = true ∧
  (guild_errors (ex_errors 40 3 ++ [OpsError (from_secs 120) (HeResponse 403 None)])).2 = false ∧
  (guild_errors ((ex_errors 28 2 ++ [OpsVmStarted]) ++ [OpsError (from_secs 56) (HeResponse 403 None)])).2 = false ∧
  omap reported (trace_of (@run_op ex_twilight 1 (Do_create_pin 5 9)
    [RsChannel (Some (Some (ex_channel 5 1))); RhModel (Err (HeResponse 403 None))])) = [HeResponse 403 None].
Proof.
  pose (tape := [RsChannel (Some (Some (ex_channel 5 1))); RhModel (Err (HeResponse 403 None))]).
  pose (thm := @suspended_iff_29_in_window ex_twilight 1 (Do_create_pin 5 9) tape).
  split_and!.
  - refine (eq_trans (proj1 (thm (ex_errors 28 2) (from_secs 56) (HeResponse 403 None) _)) _).
    + apply Sorted_StronglySorted; [exact Z.le_trans|]. vm_compute. repeat constructor; discriminate.
    + vm_compute. reflexivity.
  - refine (eq_trans (proj1 (thm (ex_errors 40 3) (from_secs 120) (HeResponse 403 None) _)) _).
    + apply Sorted_StronglySorted; [exact Z.le_trans|]. vm_compute. repeat constructor; discriminate.
    + vm_compute. reflexivity.
  - refine (eq_trans (proj1 (thm (ex_errors 28 2 ++ [OpsVmStarted]) (from_secs 56) (HeResponse 403 None) _)) _).
    + vm_compute. repeat constructor.
    + vm_compute. reflexivity.
  - refine (eq_trans (eq_sym (proj2 (thm [] 0 (HeResponse 403 None) _) eq_refl)) _).
    + vm_compute. repeat constructor.
    + vm_compute. reflexivity.
Defined.

(** The kind of a channel that is to be created is dropped. *)
Lemma create_channel_ignores_kind `{Twilight} c k :
  apply_create (mkCreateChannel (cc_name c) k (cc_bitrate c) (cc_nsfw c) (cc_parent_id c) (cc_permission_overwrites c)
    (cc_position c) (cc_rate_limit_per_user c) (cc_topic c) (cc_user_limit c)) = apply_create c.
Proof. done. Qed.
