(* ===== verification/Echo.v ===== *)
(** A script that reads a message and sends its parts again: the conversions of [Entities] and
    [Payloads] composed with the message operations of [DiscordOps]. *)
From stdpp Require Import base list strings.
From S2P Require Import Prelude Numbers Models Commands Payloads Entities Interactions DiscordOps.

Section echo.
Context `{!ImageHashes, !TwilightText, !Twilight}.

(** What a script passes to the edit operation to set a message to what it has read. *)
Definition echo_fields (m : Message) : MessageFields :=
  mkMessageFields (Some (m_content m)) (Some (m_embeds m)) None (Some (m_components m)).

(** The parts that survive the way to the script and back. *)
Record echoes (v : TwMessage) : Prop := {
  ec_embeds : Forall embed_ok (tg_embeds v);
  ec_components : Forall (λ c, component_ids c) (tg_components v);
}.

Lemma known_components v m : message_of_tw_fix v = Ret m → Forall (λ c, component_known c) (tg_components v).
Proof.
  intros (_ & _ & _ & _ & _ & _ & Hc & _)%message_of_tw_inv. apply forallb_Forall.
  rewrite <- (converts (tg_components v)). by rewrite Hc.
Qed.

Lemma back_unique {A B} `{RoundTrip A B P} a b : P a → from a = Ret b → from b = Ret a.
Proof. intros Ha Hb. destruct (round_trip a Ha) as (b' & Hb' & Hback). rewrite Hb in Hb'. by injection Hb' as ->. Qed.

Lemma echo_parts v m : message_of_tw_fix v = Ret m → echoes v →
  from (m_embeds m) = Ret (tg_embeds v) ∧ from (m_components m) = Ret (tg_components v).
Proof.
  intros Hm [He Hc]. pose proof (known_components v m Hm) as Hk.
  apply message_of_tw_inv in Hm as (_ & _ & _ & _ & _ & _ & Ec & Ee & _). split.
  - by apply (back_unique (P := Forall embed_ok)).
  - apply (back_unique (P := Forall (λ c, component_known c ∧ component_ids c))); [|done]. by apply Forall_and.
Qed.

(** A script that edits a message to what it has read of it changes nothing: the request carries
    the content, the embeds and the components Discord had sent, provided that the message is
    within the limits of requests, that its embeds name their kind, that their sizes are within 31
    bits and their timestamps whole milliseconds since 1970, and that emojis have identifiers. *)
Theorem edit_to_what_was_read v m tape :
  from v = Ret m → echoes v →
  tw_content (tg_content v) = true → tw_components (tg_components v) = true → tw_embeds (tg_embeds v) = true →
  edit_message_body (echo_fields m) tape =
    Done (Ok (mkMessageBody (Some (tg_content v)) (Some (tg_embeds v)) (Some (tg_components v)) None)) tape [].
Proof.
  intros Hm Hok Hcn Hcm Hem. change (message_of_tw_fix v = Ret m) in Hm. destruct (echo_parts v m Hm Hok) as [He Hc].
  apply message_of_tw_inv in Hm as (_ & _ & _ & _ & _ & Ecn & _).
  assert (∀ {A B} `{From A B} (l : list A) l', from l = Ret l' → from (Some l) = Ret (Some l' : option (list B))) as Hsome.
  { intros A B HF l l' Hl. change (do! x := from l in Ret (Some x)) with (from (Some l) : outcome (option (list B))).
    unfold from at 1, from_option. by rewrite Hl. }
  unfold edit_message_body, echo_fields. cbn [mf_embeds mf_components mf_content mf_allowed_mentions].
  rewrite (Hsome _ _ _ _ _ He), (Hsome _ _ _ _ _ Hc), Ecn. unfold abind, lift, aret. simpl. by rewrite Hcn, Hcm, Hem.
Qed.
End echo.

Definition ex_embed : TwEmbed :=
  mkTwEmbed None (Some 255) (Some "text") [mkTwEmbedField true "a" "b"] None (Some (mkTwEmbedImage (Some 10) None "u" (Some 20))) "rich"
    None None (Some 1700000000000000) None None None.
Definition ex_row : TwComponent :=
  TwcActionRow [TwcButton (mkTwButton (Some "id") false (Some (TwrCustom false 77 None)) (Some "press") TbsDanger None); TwcUnknown 9].
#[local] Existing Instances ex_hashes ex_text ex_twilight.

Definition ex_read_message : TwMessage :=
  mkTwMessage None None [] (mkTwUser None false 1 5 None "ann" None None None) 8 "hello" [ex_row] None [ex_embed] None (Some 7) 9 TmtRegular
    None [] false [] [] false [] None None 0 false None.

Lemma edit_to_what_was_read_witness :
  ∃ m, from ex_read_message = Ret m ∧
    edit_message_body (echo_fields m) [] = Done (Ok (mkMessageBody (Some "hello") (Some [ex_embed]) (Some [ex_row]) None)) [] [].
Proof.
  destruct (from ex_read_message) as [m|] eqn:Hm; [|discriminate Hm]. exists m. split; [reflexivity|].
  apply (edit_to_what_was_read ex_read_message m []); [exact Hm| |reflexivity|reflexivity|reflexivity].
  split; [|by repeat constructor]. apply Forall_cons. split; [|constructor].
  split; simpl; [done|intros x [= <-]|intros x [=]|intros x [=]|intros x [= <-]].
  - split; intros x [= <-]; lia.
  - by vm_compute.
Defined.
