(* ===== verification/StateApi.v ===== *)
(** The broker's state server and its client ([cmd/discordbroker/src/http_api.rs],
    [components/dbrokerapi/src/state_client.rs]): the scheduler and the vm workers ask the broker
    over HTTP for what its cache of Discord's state holds of a guild.

    The server is a function of the cache and the path of a request, the client a function of the
    answer; [serve] composes them. [twilight_cache_inmemory] is the record [Cache] of the maps the
    server reads, the JSON of the bodies is the interface [StateJson]. *)
From stdpp Require Import base gmap list strings.
From S2P Require Import Prelude Numbers Models Commands Payloads Entities.

Section state_api.
Context `{!ImageHashes, !TwilightText}.

(** [InMemoryCache]: a guild's channels and roles are sets of identifiers, listed in some order. *)
Record Cache := mkCache {
  cache_guilds : gmap Z CachedGuild;
  cache_channels : gmap Z TwChannelData;
  cache_guild_channels : gmap Z (list Z);
  cache_roles : gmap Z (Z * TwRole);
  cache_guild_roles : gmap Z (list Z);
}.

Inductive ConnectedGuildsResponse := NotReady | Ready (guilds : list Z).

(** The bytes of a text and of the JSON of the bodies, and what the client reads of them. *)
Class StateJson := {
  Bytes : Type;
  text : string → Bytes;
  write_guild : option CachedGuild → Bytes;
  write_channel : option TwChannelData → Bytes;
  write_channels : option (list TwChannelData) → Bytes;
  write_role : option TwRole → Bytes;
  write_roles : option (list TwRole) → Bytes;
  write_connected : ConnectedGuildsResponse → Bytes;
  read_guild : Bytes → option BrokerGuild;
  read_channel : Bytes → option TwChannelData;
  read_channels : Bytes → option (list TwChannelData);
  read_role : Bytes → option TwRole;
  read_roles : Bytes → option (list TwRole);
  read_connected : Bytes → option ConnectedGuildsResponse;
}.

(** What was written reads back; a cached guild reads as the broker's guild. *)
Class StateJsonLaws (J : StateJson) : Prop := {
  guild_json : ∀ g, read_guild (write_guild (Some g)) = Some (broker_of_cached g);
  channel_json : ∀ c, read_channel (write_channel (Some c)) = Some c;
  channels_json : ∀ l, read_channels (write_channels (Some l)) = Some l;
  role_json : ∀ r, read_role (write_role (Some r)) = Some r;
  roles_json : ∀ l, read_roles (write_roles (Some l)) = Some l;
  connected_json : ∀ r, read_connected (write_connected r) = Some r;
}.

Context {J : StateJson}.

(** * http_api.rs *)

Record HttpAnswer := mkAnswer { status : Z; body : Bytes }.

(** [Result<(StatusCode, Json<..>), String>] as axum answers it: a bare text has status 200. *)
Definition answer_of (r : result string (Z * Bytes)) : HttpAnswer :=
  match r with
  | Ok (st, b) => mkAnswer st b
  | Err msg => mkAnswer 200 (text msg)
  end.

Definition checked (name : string) (n : Z) : result string Z :=
  match new_checked n with
  | Some id => Ok id
  | None => Err ("bad " +:+ name)
  end.

Definition handle_get_guild (c : Cache) (guild_id_u : Z) : result string (Z * Bytes) :=
  match checked "guild_id" guild_id_u with
  | Err e => Err e
  | Ok guild_id =>
      match cache_guilds c !! guild_id with
      | Some g => Ok (200, write_guild (Some g))
      | None => Ok (404, write_guild None)
      end
  end.

Definition handle_get_channel (c : Cache) (guild_id_u channel_id_u : Z) : result string (Z * Bytes) :=
  match checked "guild_id" guild_id_u with
  | Err e => Err e
  | Ok guild_id =>
      match checked "channel_id" channel_id_u with
      | Err e => Err e
      | Ok channel_id =>
          match cache_channels c !! channel_id with
          | Some ch =>
              if bool_decide (tc_guild_id ch = Some guild_id) then Ok (200, write_channel (Some ch)) else Ok (404, write_channel None)
          | None => Ok (404, write_channel None)
          end
      end
  end.

Definition handle_get_channels (c : Cache) (guild_id_u : Z) : result string (Z * Bytes) :=
  match checked "guild_id" guild_id_u with
  | Err e => Err e
  | Ok guild_id =>
      match cache_guild_channels c !! guild_id with
      | Some ids => Ok (200, write_channels (Some (omap (λ v, cache_channels c !! v) ids)))
      | None => Ok (404, write_channels None)
      end
  end.

Definition handle_get_role (c : Cache) (guild_id_u role_id_u : Z) : result string (Z * Bytes) :=
  match checked "guild_id" guild_id_u with
  | Err e => Err e
  | Ok guild_id =>
      match checked "role_id" role_id_u with
      | Err e => Err e
      | Ok role_id =>
          match cache_roles c !! role_id with
          | Some (g, r) => if g =? guild_id then Ok (200, write_role (Some r)) else Ok (404, write_role None)
          | None => Ok (404, write_role None)
          end
      end
  end.

Definition handle_get_roles (c : Cache) (guild_id_u : Z) : result string (Z * Bytes) :=
  match checked "guild_id" guild_id_u with
  | Err e => Err e
  | Ok guild_id =>
      match cache_guild_roles c !! guild_id with
      | Some ids => Ok (200, write_roles (Some (omap (λ v, snd <$> cache_roles c !! v) ids)))
      | None => Ok (404, write_roles None)
      end
  end.

Definition handle_get_connected_guilds (c : Cache) (ready : bool) : HttpAnswer :=
  if ready then mkAnswer 200 (write_connected (Ready ((λ kv : Z * CachedGuild, gd_id kv.2) <$> map_to_list (cache_guilds c))))
  else mkAnswer 200 (write_connected NotReady).

(** The routes of [run_http_server] by the segments of the path; a segment that is no number is
    refused by the extractor, a path without a route is not found. *)
Definition seg (s : string) (k : Z → HttpAnswer) : HttpAnswer :=
  match parse_u64 s with
  | Some n => k n
  | None => mkAnswer 400 (text "")
  end.

Definition run_http_server (c : Cache) (ready : bool) (path : list string) : HttpAnswer :=
  match path with
  | ["guilds"; g; "roles"] => seg g (λ g, answer_of (handle_get_roles c g))
  | ["guilds"; g; "roles"; r] => seg g (λ g, seg r (λ r, answer_of (handle_get_role c g r)))
  | ["guilds"; g; "channels"] => seg g (λ g, answer_of (handle_get_channels c g))
  | ["guilds"; g; "channels"; ch] => seg g (λ g, seg ch (λ ch, answer_of (handle_get_channel c g ch)))
  | ["guilds"; g] => seg g (λ g, answer_of (handle_get_guild c g))
  | ["connected_guilds"] => handle_get_connected_guilds c ready
  | _ => mkAnswer 404 (text "")
  end.

(** * state_client.rs *)

Inductive ApiError := HTtpError | DesError.

(** [Client::get]: [None] is a request that failed. A body that does not decode is an error of
    [reqwest], too; [DesError] is never made. *)
Definition client_get {T} (read : Bytes → option T) (resp : option HttpAnswer) : result ApiError (option T) :=
  match resp with
  | None => Err HTtpError
  | Some resp =>
      if status resp =? 404 then Ok None
      else match read (body resp) with
           | Some t => Ok (Some t)
           | None => Err HTtpError
           end
  end.

(** The server reached over the network: [send] gives its answer to a path, if any. *)
Section client.
Context (send : list string → option HttpAnswer).

Definition get_guild (guild_id : Z) : result ApiError (option BrokerGuild) :=
  client_get read_guild (send ["guilds"; u64_text guild_id]).
Definition get_channel (guild_id channel_id : Z) : result ApiError (option TwChannelData) :=
  client_get read_channel (send ["guilds"; u64_text guild_id; "channels"; u64_text channel_id]).
Definition get_channels (guild_id : Z) : result ApiError (list TwChannelData) :=
  match client_get read_channels (send ["guilds"; u64_text guild_id; "channels"]) with
  | Ok v => Ok (default [] v)
  | Err e => Err e
  end.
Definition get_role (guild_id role_id : Z) : result ApiError (option TwRole) :=
  client_get read_role (send ["guilds"; u64_text guild_id; "roles"; u64_text role_id]).
Definition get_roles (guild_id : Z) : result ApiError (list TwRole) :=
  match client_get read_roles (send ["guilds"; u64_text guild_id; "roles"]) with
  | Ok v => Ok (default [] v)
  | Err e => Err e
  end.
Definition get_connected_guilds : outcome (result ApiError ConnectedGuildsResponse) :=
  match client_get read_connected (send ["connected_guilds"]) with
  | Ok inner => do! v := unwrap inner in Ret (Ok v)
  | Err e => Ret (Err e)
  end.
End client.

(** * The server and the client together *)

Context {JL : StateJsonLaws J}.

Lemma checked_id name n : is_id n → checked name n = Ok n.
Proof. intros [Hpos Hmax]. unfold checked, new_checked. by destruct (Z.eqb_spec n 0); [lia|]. Qed.

Lemma seg_text n k : 0 ≤ n ≤ u64_max → seg (u64_text n) k = k n.
Proof. intros Hn. unfold seg. by rewrite parse_u64_text. Qed.

Lemma is_id_range n : is_id n → 0 ≤ n ≤ u64_max.
Proof. unfold is_id. lia. Qed.

Ltac served := rewrite ?seg_text by (by apply is_id_range); simpl; unfold answer_of.

Section served.
Context (c : Cache) (ready : bool).
Let send (path : list string) : option HttpAnswer := Some (run_http_server c ready path).

Lemma served_guild g : is_id g → get_guild send g = Ok (broker_of_cached <$> cache_guilds c !! g).
Proof.
  intros Hg. unfold get_guild, send. simpl. served. unfold handle_get_guild. rewrite checked_id by done.
  destruct (cache_guilds c !! g); [|done]. simpl; by rewrite guild_json.
Qed.

Lemma served_channel g ch : is_id g → is_id ch →
  get_channel send g ch = Ok (x ← cache_channels c !! ch; if decide (tc_guild_id x = Some g) then Some x else None).
Proof.
  intros Hg Hch. unfold get_channel, send. simpl. served. unfold handle_get_channel. rewrite !checked_id by done.
  destruct (cache_channels c !! ch) as [x|]; [|done]. simpl. case_bool_decide; case_decide; try done.
  simpl; by rewrite channel_json.
Qed.

Lemma served_channels g : is_id g →
  get_channels send g = Ok (omap (λ v, cache_channels c !! v) (default [] (cache_guild_channels c !! g))).
Proof.
  intros Hg. unfold get_channels, send. simpl. served. unfold handle_get_channels. rewrite checked_id by done.
  destruct (cache_guild_channels c !! g) as [ids|]; [|done]. simpl; by rewrite channels_json.
Qed.

Lemma served_role g r : is_id g → is_id r →
  get_role send g r = Ok (x ← cache_roles c !! r; if decide (x.1 = g) then Some x.2 else None).
Proof.
  intros Hg Hr. unfold get_role, send. simpl. served. unfold handle_get_role. rewrite !checked_id by done.
  destruct (cache_roles c !! r) as [[g' x]|]; [|done]. simpl. destruct (Z.eqb_spec g' g); case_decide; try done.
  simpl; by rewrite role_json.
Qed.

Lemma served_roles g : is_id g →
  get_roles send g = Ok (omap (λ v, snd <$> cache_roles c !! v) (default [] (cache_guild_roles c !! g))).
Proof.
  intros Hg. unfold get_roles, send. simpl. served. unfold handle_get_roles. rewrite checked_id by done.
  destruct (cache_guild_roles c !! g) as [ids|]; [|done]. simpl; by rewrite roles_json.
Qed.

Lemma served_connected :
  get_connected_guilds send = Ret (Ok (if ready then Ready ((λ kv, gd_id kv.2) <$> map_to_list (cache_guilds c)) else NotReady)).
Proof.
  unfold get_connected_guilds, send. simpl. unfold handle_get_connected_guilds.
  destruct ready; simpl; by rewrite connected_json.
Qed.

(** * Properties *)

(** C22: Through the client and the server, what one asks of a guild is what the broker's cache holds of
    that guild: a channel or role of another guild is not found, what the cache does not have is
    absent or empty and not an error, and the query for the connected guilds, whose client unwraps
    an option, does not panic. *)
Theorem state_client_sees_cache g : is_id g →
  get_guild send g = Ok (broker_of_cached <$> cache_guilds c !! g) ∧
  (∀ ch, is_id ch → get_channel send g ch = Ok (x ← cache_channels c !! ch; if decide (tc_guild_id x = Some g) then Some x else None)) ∧
  (∀ r, is_id r → get_role send g r = Ok (x ← cache_roles c !! r; if decide (x.1 = g) then Some x.2 else None)) ∧
  get_channels send g = Ok (omap (λ v, cache_channels c !! v) (default [] (cache_guild_channels c !! g))) ∧
  get_roles send g = Ok (omap (λ v, snd <$> cache_roles c !! v) (default [] (cache_guild_roles c !! g))) ∧
  get_connected_guilds send = Ret (Ok (if ready then Ready ((λ kv, gd_id kv.2) <$> map_to_list (cache_guilds c)) else NotReady)).
Proof.
  intros Hg. split_and!; [by apply served_guild|intros; by apply served_channel|intros; by apply served_role|by apply served_channels|
    by apply served_roles|apply served_connected].
Qed.
End served.

(** An identifier that is zero is refused with a text of status 200, which a client takes for an
    answer. *)
Lemma bad_id_has_status_200 c ready : run_http_server c ready ["guilds"; "0"] = mkAnswer 200 (text "bad guild_id").
Proof. reflexivity. Qed.
End state_api.

(** ** Example *)

#[local] Existing Instances ex_hashes ex_text.

Inductive ExBody :=
| XText (s : string)
| XGuild (g : option CachedGuild)
| XChannel (c : option TwChannelData)
| XChannels (l : option (list TwChannelData))
| XRole (r : option TwRole)
| XRoles (l : option (list TwRole))
| XConnected (r : ConnectedGuildsResponse).

Definition ex_json : StateJson := {|
  Bytes := ExBody;
  text := XText;
  write_guild := XGuild;
  write_channel := XChannel;
  write_channels := XChannels;
  write_role := XRole;
  write_roles := XRoles;
  write_connected := XConnected;
  read_guild b := match b with XGuild (Some g) => Some (broker_of_cached g) | _ => None end;
  read_channel b := match b with XChannel c => c | _ => None end;
  read_channels b := match b with XChannels l => l | _ => None end;
  read_role b := match b with XRole r => r | _ => None end;
  read_roles b := match b with XRoles l => l | _ => None end;
  read_connected b := match b with XConnected r => Some r | _ => None end;
|}.
Lemma ex_json_laws : StateJsonLaws ex_json.
Proof. by split. Qed.

Definition ex_channel (guild_id : Z) : TwChannelData :=
  mkTwChannelData None None (Some guild_id) 8 None TwGuildText None None None None (Some "general") None None None None None None None None
    None None None.
Definition ex_cache : Cache := mkCache ∅ {[8 := ex_channel 7]} {[7 := [8]]} ∅ ∅.

(** The channel of guild 7 is found there and not in guild 9. *)
Lemma state_client_sees_cache_witness :
  let send path := Some (run_http_server (J := ex_json) ex_cache true path) in
  get_channel send 7 8 = Ok (Some (ex_channel 7)) ∧ get_channel send 9 8 = Ok None ∧ get_channels send 7 = Ok [ex_channel 7].
Proof.
  pose proof (state_client_sees_cache (JL := ex_json_laws) ex_cache true 7 ltac:(by vm_compute)) as (_ & Hc & _ & Hcs & _).
  pose proof (state_client_sees_cache (JL := ex_json_laws) ex_cache true 9 ltac:(by vm_compute)) as (_ & Hc' & _).
  split; [|split]; [exact (Hc 8 ltac:(by vm_compute))|exact (Hc' 8 ltac:(by vm_compute))|exact Hcs].
Defined.
