(* ===== verification/Jobs.v ===== *)
(** The jobs that find the guilds the bot has left and delete their data ([cmd/jobs/src/main.rs]),
    over the broker's state client ([StateApi]), Discord and the Postgres stores ([ConfigStore],
    [BucketStore], [TimerStore]).

    A job is a sequence of calls: [envs k] is the database's answer to its [k]-th statement, and
    [others k] what the rest of the system does to the tables before it. *)
From stdpp Require Import base gmap list strings.
From S2P Require Import Prelude Numbers Models WorkerPool Commands World IntervalTimers Payloads Entities Postgres BucketStore TimerStore ConfigStore StateApi.

(** The tables of the three stores, which are one database. *)
Record Dbs := mkDbs { d_buckets : BucketTable; d_timers : TimerDb; d_config : ConfigDb }.

Record Others := mkOthers {
  o_buckets : BucketTable → BucketTable;
  o_timers : TimerDb → TimerDb;
  o_config : ConfigDb → ConfigDb;
}.
Definition idle : Others := mkOthers id id id.
Definition meanwhile (o : Others) (d : Dbs) : Dbs := mkDbs (o_buckets o (d_buckets d)) (o_timers o (d_timers d)) (o_config o (d_config d)).

Inductive JobError := JeApi (e : ApiError) | JeConfig (e : ConfigStoreError) | JeBuckets (e : SqlxError) | JeTimers (e : TimerStoreError) | JeDiscord.

(** Discord's answer to the request for a guild: the guild, an error response with its status, or
    another error. *)
Inductive GuildAnswer := GaFound | GaStatus (status : Z) | GaError.
#[global] Instance GuildAnswer_eq_dec : EqDecision GuildAnswer.
Proof. solve_decision. Defined.

Section jobs.
Context `{!Calendar, !Pg, !ColumnSize, !ContribCodec, !HashOrder Z, !HashOrder BucketKey, !HashOrder (Z * Z * string)}.

(** * delete_left_guilds *)

Definition delete_guild (envs : nat → PgEnv) (others : nat → Others) (k : nat) (g : GuildId) (d : Dbs) : Dbs * result JobError unit :=
  let d := meanwhile (others k) d in
  let (b, r) := delete_guild_bucket_store_data (envs k) g (d_buckets d) in
  let d := mkDbs b (d_timers d) (d_config d) in
  match r with
  | Err e => (d, Err (JeBuckets e))
  | Ok _ =>
      let d := meanwhile (others (k + 1)%nat) d in
      let (t, r) := delete_guild_timer_data (envs (k + 1)%nat) (envs (k + 2)%nat) (o_timers (others (k + 2)%nat)) g (d_timers d) in
      let d := mkDbs (d_buckets d) t (d_config d) in
      match r with
      | Err e => (d, Err (JeTimers e))
      | Ok _ =>
          let d := meanwhile (others (k + 3)%nat) d in
          let (c, r) := delete_guild_config_data (envs (k + 3)%nat) g (d_config d) in
          let d := mkDbs (d_buckets d) (d_timers d) c in
          match r with
          | Err e => (d, Err (JeConfig e))
          | Ok _ => (d, Ok tt)
          end
      end
  end.

Fixpoint delete_guilds (envs : nat → PgEnv) (others : nat → Others) (k : nat) (guilds : list JoinedGuild) (d : Dbs) : Dbs * result JobError unit :=
  match guilds with
  | [] => (d, Ok tt)
  | g :: guilds =>
      let (d, r) := delete_guild envs others k (jg_id g) d in
      match r with
      | Err e => (d, Err e)
      | Ok _ => delete_guilds envs others (k + 4)%nat guilds d
      end
  end.

Definition delete_left_guilds (envs : nat → PgEnv) (others : nat → Others) (min_age_days : Z) (d : Dbs) : outcome (Dbs * result JobError unit) :=
  if min_age_days <? 1 then Panic else
  do! (c, r) := get_left_guilds (envs O) (min_age_days * 24) (d_config d) in
  let d := mkDbs (d_buckets d) (d_timers d) c in
  match r with
  | Err e => Ret (d, Err (JeConfig e))
  | Ok guilds => Ret (delete_guilds envs others 1 guilds d)
  end.

(** * scan_for_left_guilds *)

Fixpoint scan_guilds (envs : nat → PgEnv) (ask : GuildId → GuildAnswer) (k : nat) (guilds : list JoinedGuild) (c : ConfigDb)
    : outcome (ConfigDb * result JobError unit) :=
  match guilds with
  | [] => Ret (c, Ok tt)
  | guild :: guilds =>
      match ask (jg_id guild) with
      | GaFound => scan_guilds envs ask k guilds c
      | GaStatus status =>
          if status =? 403 then
            do! (c, r) := set_guild_left_status (envs k) (jg_id guild) true c in
            match r with
            | Err e => Ret (c, Err (JeConfig e))
            | Ok _ => scan_guilds envs ask (S k) guilds c
            end
          else Ret (c, Err JeDiscord)
      | GaError => Ret (c, Err JeDiscord)
      end
  end.

Definition scan_for_left_guilds (envs : nat → PgEnv) (connected : outcome (result ApiError ConnectedGuildsResponse))
    (ask : GuildId → GuildAnswer) (c : ConfigDb) : outcome (ConfigDb * result JobError unit) :=
  do! r := connected in
  match r with
  | Err e => Ret (c, Err (JeApi e))
  | Ok NotReady => Ret (c, Ok tt)
  | Ok (Ready connected_guilds) =>
      do! (c, r) := get_joined_guilds_not_in (envs O) connected_guilds c in
      match r with
      | Err e => Ret (c, Err (JeConfig e))
      | Ok left_guilds => scan_guilds envs ask 1 left_guilds c
      end
  end.

(** * What the deletion does *)

(** The data of a guild in each of the tables, by the guild's column. *)
Definition bucket_data (g : Z) (d : Dbs) : gmap BucketKey DbEntry := filter (λ kr : BucketKey * DbEntry, kr.1.1.1 = g) (d_buckets d).
Definition task_data (g : Z) (d : Dbs) : gmap Z DbScheduledTask := filter (λ ir : Z * DbScheduledTask, dt_guild_id ir.2 = g) (scheduled_tasks (d_timers d)).
Definition timer_data (g : Z) (d : Dbs) : gmap (Z * Z * string) DbIntervalTimer :=
  filter (λ kr : (Z * Z * string) * DbIntervalTimer, kr.1.1.1 = g) (interval_timers (d_timers d)).

(** The data that the job deletes, as it was and gone: the buckets, tasks and timers of a guild and
    its row. The guild's scripts, settings and premium slots are not among it. *)
Record same_job_data (g : Z) (d d' : Dbs) : Prop := {
  sd_buckets : bucket_data g d' = bucket_data g d;
  sd_tasks : task_data g d' = task_data g d;
  sd_timers : timer_data g d' = timer_data g d;
  sd_guild : joined_guilds (d_config d') !! g = joined_guilds (d_config d) !! g;
}.
Record no_job_data (g : Z) (d : Dbs) : Prop := {
  nd_buckets : bucket_data g d = ∅;
  nd_tasks : task_data g d = ∅;
  nd_timers : timer_data g d = ∅;
  nd_guild : joined_guilds (d_config d) !! g = None;
}.

(** Of the configuration, rows of guilds may have gone and nothing else has changed. *)
Definition only_rows (d d' : Dbs) : Prop := d_config d' = set_guilds (joined_guilds (d_config d')) (d_config d).

#[global] Instance only_rows_preorder : PreOrder only_rows.
Proof.
  split; [intros d; unfold only_rows; by destruct (d_config d)|]. unfold only_rows. intros a b c Hab Hbc. rewrite Hbc, Hab. done.
Qed.

#[global] Instance same_job_data_preorder g : PreOrder (same_job_data g).
Proof. split; [by split|]. intros a b c [] []. split; congruence. Qed.

Lemma filter_other {K A} `{Countable K} (col : K * A → Z) (m : gmap K A) g g' : g ≠ g' →
  filter (λ x, col x = g) (filter (λ x, col x ≠ g') m) = filter (λ x, col x = g) m.
Proof.
  intros Hne. rewrite map_filter_filter. apply map_filter_ext. intros i x _. split; [naive_solver|]. intros ->. done.
Qed.

Lemma filter_same {K A} `{Countable K} (col : K * A → Z) (m : gmap K A) g : filter (λ x, col x = g) (filter (λ x, col x ≠ g) m) = ∅.
Proof. apply map_empty. intros i. apply map_lookup_filter_None. right. intros x [_ Hx]%map_lookup_filter_Some. done. Qed.

Lemma delete_guild_spec envs k g d d' r : delete_guild envs (λ _, idle) k g d = (d', r) →
  (∀ g', g' ≠ u64_as_i64 g → same_job_data g' d d') ∧ (r = Ok tt → no_job_data (u64_as_i64 g) d') ∧
  only_rows d d' ∧ ((∀ k, pg_error (envs k) = None) → r = Ok tt).
Proof.
  unfold delete_guild, delete_guild_bucket_store_data, delete_guild_timer_data, delete_guild_config_data, exec, meanwhile, idle. simpl.
  intros Hd. repeat (match type of Hd with context [pg_error ?e] => destruct (pg_error e) eqn:?; simpl in Hd end).
  all: injection Hd as <- <-; split; [intros g' Hne|split; [try done|split; [unfold only_rows; by destruct (d_config d)|]]].
  all: try (intros Hnone; done || (exfalso; match goal with He : pg_error _ = Some _ |- _ => by rewrite Hnone in He end)).
  all: try (split; unfold bucket_data, task_data, timer_data; simpl; try done;
    rewrite ?(filter_other (λ x : BucketKey * DbEntry, x.1.1.1)), ?(filter_other (λ x : Z * DbScheduledTask, dt_guild_id x.2)),
      ?(filter_other (λ x : (Z * Z * string) * DbIntervalTimer, x.1.1.1)) by done; try done; by rewrite lookup_delete_ne).
  intros _. split; unfold bucket_data, task_data, timer_data; simpl;
    [apply (filter_same (λ x : BucketKey * DbEntry, x.1.1.1))|apply (filter_same (λ x : Z * DbScheduledTask, dt_guild_id x.2))|
     apply (filter_same (λ x : (Z * Z * string) * DbIntervalTimer, x.1.1.1))|apply lookup_delete_eq].
Qed.

Lemma no_job_data_same g d d' : same_job_data g d d' → no_job_data g d → no_job_data g d'.
Proof. intros [] []. split; congruence. Qed.

Definition column_of (g : JoinedGuild) : Z := u64_as_i64 (jg_id g).

Lemma delete_guilds_spec envs k gs d d' r : delete_guilds envs (λ _, idle) k gs d = (d', r) →
  (∀ g, g ∉ column_of <$> gs → same_job_data g d d') ∧ (r = Ok tt → ∀ g, g ∈ column_of <$> gs → no_job_data g d') ∧
  only_rows d d' ∧ ((∀ k, pg_error (envs k) = None) → r = Ok tt).
Proof.
  revert k d. induction gs as [|g gs IH]; intros k d; cbn [delete_guilds].
  - intros [= <- <-]. split; [done|]. split; [|done]. intros _ g Hg. by apply not_elem_of_nil in Hg.
  - destruct (delete_guild _ _ _ _ _) as [d1 r1] eqn:Hd. apply delete_guild_spec in Hd as (Hsame & Hgone & Honly & Herr). csimpl.
    setoid_rewrite elem_of_cons. destruct r1 as [[]|e].
    + intros (Hs & Hg & Ho & Hn)%IH. split_and!; [| |by etrans|done].
      * intros g' Hg'. etrans; [apply Hsame|apply Hs]; intros ?; apply Hg'; auto.
      * intros Hr g' Hg'. destruct (decide (g' ∈ column_of <$> gs)) as [Hin|Hnin]; [by apply Hg|].
        destruct Hg' as [->|Hin]; [|done]. by eapply no_job_data_same; [apply Hs|apply Hgone].
    + intros [= <- <-]. split_and!; [|done|done|done]. intros g' Hg'. apply Hsame. intros ->. apply Hg'. by left.
Qed.

(** A guild, by its column, whose row says that it has been left for more than so many days. *)
Definition left_for (now days : Z) (c : ConfigDb) (g : Z) : Prop :=
  ∃ row t, joined_guilds c !! g = Some row ∧ dg_left_at row = Some t ∧ t < now - days * 24 * nanos_per_hour.

(** Keys of the table are values of its 64-bit column. *)
Definition columns_ok (c : ConfigDb) : Prop := ∀ g row, joined_guilds c !! g = Some row → i64_min ≤ g ≤ i64_max.

Lemma i64_u64_i64 v : i64_min ≤ v ≤ i64_max → u64_as_i64 (i64_as_u64 v) = v.
Proof.
  intros Hv. unfold u64_as_i64, i64_as_u64, i64_min, i64_max in *. destruct (decide (0 ≤ v)).
  - rewrite Z.mod_small by lia. by destruct (Z.leb_spec v (2 ^ 63 - 1)); [|lia].
  - rewrite <- (Z.mod_add v 1 (2 ^ 64)), Z.mod_small by lia. destruct (Z.leb_spec (v + 1 * 2 ^ 64) (2 ^ 63 - 1)); lia.
Qed.

Lemma listed_left_for env days c c' gs g : 0 ≤ days ≤ 65535 → columns_ok c → get_left_guilds env (days * 24) c = Ret (c', Ok gs) →
  (∀ i row, joined_guilds c !! i = Some row → ∃ y, guild_of_db i row = Ret y) →
  g ∈ column_of <$> gs ↔ left_for (pg_now env) days c g.
Proof.
  intros Hd Hc Hl Hconv. assert (u64_as_i64 (days * 24) = days * 24) as Hcast.
  { unfold u64_as_i64, i64_max. by destruct (Z.leb_spec (days * 24) (2 ^ 63 - 1)); [|lia]. }
  assert (∀ i row y, joined_guilds c !! i = Some row → guild_of_db i row = Ret y → column_of y = i) as Hcol.
  { intros i row y Hrow. unfold guild_of_db, id_new. destruct (_ =? 0); [done|]. simpl. destruct (_ =? 0); [done|]. simpl.
    intros [= <-]. unfold column_of. simpl. by eapply i64_u64_i64, Hc. }
  rewrite list_elem_of_fmap. split.
  - intros (y & -> & Hy). apply (left_guilds_exact _ _ _ _ _ _ Hl) in Hy as (i & row & t & Hrow & Ht & Hlt & Hof).
    rewrite (Hcol i row y Hrow Hof), Hcast in *. by exists row, t.
  - intros (row & t & Hrow & Ht & Hlt). destruct (Hconv g row Hrow) as [y Hy]. exists y. split; [by symmetry; eapply Hcol|].
    apply (left_guilds_exact _ _ _ _ _ _ Hl). rewrite Hcast. eauto 10.
Qed.

Lemma get_left_guilds_db env h c c' r : get_left_guilds env h c = Ret (c', r) → c' = c.
Proof.
  unfold get_left_guilds, threshold_micros. destruct (_ && _); [|done]. simpl. unfold select_guilds, convert_rows, exec.
  destruct (pg_error env); simpl; [by intros [= <- _]|]. destruct (map_outcome _ _); simpl; [|done]. by intros [= <- _].
Qed.

(** * What the scan does *)

(** The guilds a selection gives: one for every row that fits, with the row's key as its column. *)
Lemma select_guilds_spec env p c c' gs : config_ok c → columns_ok c → select_guilds env p c = Ret (c', Ok gs) →
  c' = c ∧ NoDup (column_of <$> gs) ∧
  (∀ y, y ∈ gs → jg_id y = i64_as_u64 (column_of y) ∧ ∃ row, joined_guilds c !! column_of y = Some row ∧ p (column_of y, row) = true) ∧
  (∀ g row, joined_guilds c !! g = Some row → p (g, row) = true → g ∈ column_of <$> gs).
Proof.
  intros Hok Hc. unfold select_guilds, convert_rows, exec. destruct (pg_error env); [done|]. simpl.
  destruct (map_outcome _ _) as [ys|] eqn:Hmap; [|done]. simpl. intros [= <- <-]. apply map_outcome_Forall2 in Hmap.
  assert (∀ (x : Z * DbJoinedGuild) y, x ∈ select_rows p (joined_guilds c) → guild_of_db x.1 x.2 = Ret y →
    column_of y = x.1 ∧ jg_id y = i64_as_u64 x.1) as Hcol.
  { intros [i row] y [Hrow _]%elem_of_select_rows Hy. simpl in *. rewrite guild_of_db_ok in Hy by by apply (ok_guilds c Hok).
    injection Hy as <-. split; [|done]. by eapply i64_u64_i64, Hc. }
  assert (column_of <$> ys = (select_rows p (joined_guilds c)).*1) as Hcols.
  { clear -Hmap Hcol. revert Hcol. induction Hmap as [|x y xs ys Hxy _ IH]; intros Hcol; [done|]. csimpl.
    destruct (Hcol x y ltac:(by left) Hxy) as [-> _]. f_equal. apply IH. intros x' y' Hx'. apply Hcol. by right. }
  split; [done|]. split; [|split].
  - rewrite Hcols. unfold select_rows. apply NoDup_fst_List_filter, NoDup_hiter.
  - intros y [k Hk]%list_elem_of_lookup. destruct (Forall2_lookup_r _ _ _ _ _ Hmap Hk) as ([i row] & Hx & Hy).
    apply list_elem_of_lookup_2 in Hx. destruct (Hcol (i, row) y Hx Hy) as [-> Hid]. simpl in *.
    apply elem_of_select_rows in Hx. eauto.
  - intros g row Hg Hp. rewrite Hcols. apply list_elem_of_fmap. exists (g, row). split; [done|]. by apply elem_of_select_rows.
Qed.

Definition marked (row : DbJoinedGuild) (t : Z) : DbJoinedGuild := mkDbGuild (dg_name row) (dg_icon row) (dg_owner_id row) (Some t).

(** What happened to the row of a guild: nothing, or it was marked by one of the statements. *)
Definition row_after (envs : nat → PgEnv) (c c' : ConfigDb) (g : Z) : Prop :=
  joined_guilds c' !! g = joined_guilds c !! g ∨
  ∃ row k, joined_guilds c !! g = Some row ∧ joined_guilds c' !! g = Some (marked row (pg_now (envs k))).

Lemma mark_left_spec envs k y row c c' r :
  joined_guilds c !! column_of y = Some row → dg_left_at row = None → set_guild_left_status (envs k) (jg_id y) true c = Ret (c', r) →
  (∀ g, row_after envs c c' g) ∧ (∀ g, g ≠ column_of y → joined_guilds c' !! g = joined_guilds c !! g) ∧
  (∀ jg, r = Ok jg → joined_guilds c' !! column_of y = Some (marked row (pg_now (envs k)))).
Proof.
  intros Hrow Hleft Hset. unfold set_guild_left_status, convert_row, exec in Hset. fold (column_of y) in Hset.
  destruct (pg_error (envs k)); simpl in Hset; [injection Hset as <- <-; split_and!; [by left|done|done]|].
  rewrite Hrow, Hleft in Hset. simpl in Hset. destruct (guild_of_db _ _); simpl in Hset; [|done]. injection Hset as <- <-. simpl.
  split_and!; [|intros g Hg; by rewrite lookup_insert_ne|intros ? _; apply lookup_insert_eq].
  intros g. destruct (decide (g = column_of y)) as [->|Hg]; [right|left; simpl; by rewrite lookup_insert_ne].
  exists row, k. simpl. by rewrite lookup_insert_eq.
Qed.

Lemma scan_guilds_spec envs ask k gs c c' r :
  NoDup (column_of <$> gs) → (∀ y, y ∈ gs → ∃ row, joined_guilds c !! column_of y = Some row ∧ dg_left_at row = None) →
  scan_guilds envs ask k gs c = Ret (c', r) →
  (∀ g, (∀ y, y ∈ gs → column_of y = g → ask (jg_id y) ≠ GaStatus 403) → joined_guilds c' !! g = joined_guilds c !! g) ∧
  (∀ g, row_after envs c c' g) ∧
  (r = Ok tt → ∀ y, y ∈ gs → ask (jg_id y) = GaStatus 403 →
     ∃ row j, joined_guilds c !! column_of y = Some row ∧ joined_guilds c' !! column_of y = Some (marked row (pg_now (envs j)))).
Proof.
  revert k c. induction gs as [|y gs IH]; intros k c Hnd Hrows; cbn [scan_guilds].
  { intros [= <- <-]. split; [done|]. split; [by left|]. intros _ y Hy. by apply not_elem_of_nil in Hy. }
  csimpl in Hnd. apply NoDup_cons in Hnd as [Hny Hnd].
  assert (∀ z, z ∈ gs → ∃ row, joined_guilds c !! column_of z = Some row ∧ dg_left_at row = None) as Hrest by (intros; apply Hrows; by right).
  setoid_rewrite elem_of_cons. destruct (ask (jg_id y)) as [|st|] eqn:Hask.
  - intros Hs. destruct (IH k c Hnd Hrest Hs) as (Hs1 & Hs2 & Hs3). split_and!; [by auto|done|].
    intros Hr z [->|Hz] Hz'; [congruence|by apply Hs3].
  - destruct (Z.eqb_spec st 403) as [->|Hne]; [|intros [= <- <-]; split_and!; [done|by left|done]].
    destruct (Hrows y) as (row & Hrow & Hleft); [by left|].
    destruct (set_guild_left_status (envs k) (jg_id y) true c) as [[c1 r1]|] eqn:Hset; simpl; [|done].
    destruct (mark_left_spec _ _ _ _ _ _ _ Hrow Hleft Hset) as (Hafter & Hother & Hmark).
    assert (∀ z, z ∈ gs → column_of z ≠ column_of y) as Hdistinct by (intros z Hz Heq; apply Hny; rewrite <- Heq; by apply list_elem_of_fmap_2).
    destruct r1 as [jg|e].
    + intros Hs. destruct (IH (S k) c1 Hnd) as (Hs1 & Hs2 & Hs3); [|exact Hs|].
      { intros z Hz. rewrite Hother by by apply Hdistinct. by apply Hrest. }
      assert (joined_guilds c' !! column_of y = joined_guilds c1 !! column_of y) as Hkept.
      { apply Hs1. intros z Hz Heq. by apply Hdistinct in Hz. }
      split_and!.
      * intros g Hg. assert (g ≠ column_of y) as Hgy by (intros ->; by apply (Hg y); [left|..]).
        rewrite <- Hother by done. apply Hs1. intros z Hz. apply Hg. by right.
      * intros g. destruct (decide (g = column_of y)) as [->|Hgy].
        -- right. exists row, k. rewrite Hkept. eauto.
        -- destruct (Hs2 g) as [He|(row' & j & Hr1 & Hr2)]; [left|right]; rewrite Hother in * by done; eauto.
      * intros Hr z [->|Hz] Hz'; [exists row, k; rewrite Hkept; eauto|].
        destruct (Hs3 Hr z Hz Hz') as (row' & j & Hr1 & Hr2). rewrite Hother in Hr1 by by apply Hdistinct. eauto.
    + intros [= <- <-]. split_and!; [|done|done]. intros g Hg. destruct (decide (g = column_of y)) as [->|Hgy]; [|by apply Hother].
      exfalso. by apply (Hg y); [left|..].
  - intros [= <- <-]. split_and!; [done|by left|done].
Qed.

(** * Properties *)

Lemma get_left_guilds_returns env days c :
  0 ≤ days ≤ 65535 → config_ok c →
  ∃ r, get_left_guilds env (days * 24) c = Ret (c, r) ∧ (pg_error env = None → ∃ gs, r = Ok gs).
Proof.
  intros Hd Hok. unfold get_left_guilds, threshold_micros. assert (u64_as_i64 (days * 24) = days * 24) as ->.
  { unfold u64_as_i64, i64_max. by destruct (Z.leb_spec (days * 24) (2 ^ 63 - 1)); [|lia]. }
  unfold i64_min, i64_max. rewrite (proj2 (Z.leb_le _ _)), (proj2 (Z.leb_le _ _)) by lia. simpl. unfold select_guilds.
  set (p := λ ir : Z * DbJoinedGuild, match dg_left_at ir.2 with Some _ => _ | None => _ end).
  destruct (convert_rows_ok (λ ir : Z * DbJoinedGuild, guild_of_db ir.1 ir.2) env p joined_guilds c) as [r Hr];
    [intros; by apply (guild_row_ok c)|].
  exists r. split; [done|]. intros He. unfold convert_rows, exec in Hr. rewrite He in Hr. simpl in Hr.
  destruct (map_outcome _ _); simpl in Hr; [|done]. injection Hr as <-. eauto.
Qed.

(** C39: The deletion job removes the stored values, the tasks, the interval timers and the row of
    exactly the guilds that were left more than the given number of days ago; whatever statement
    fails, this data of every other guild is as it was, and if none fails the job completes. The
    scripts, the settings and the premium slots of all guilds, and everything else in the
    configuration, stay as they were. Less than one day is refused with a panic, and no other
    number panics. Nothing else changes the tables meanwhile, see
    [rejoined_guild_loses_its_data]. *)
Theorem left_guilds_data_deleted envs days d :
  0 ≤ days ≤ 65535 → config_ok (d_config d) → columns_ok (d_config d) →
  if days <? 1 then delete_left_guilds envs (λ _, idle) days d = Panic
  else ∃ d' r, delete_left_guilds envs (λ _, idle) days d = Ret (d', r) ∧
    (∀ g, ¬ left_for (pg_now (envs O)) days (d_config d) g → same_job_data g d d') ∧
    (r = Ok tt → ∀ g, left_for (pg_now (envs O)) days (d_config d) g → no_job_data g d') ∧
    d_config d' = set_guilds (joined_guilds (d_config d')) (d_config d) ∧
    ((∀ k, pg_error (envs k) = None) → r = Ok tt).
Proof.
  intros Hdays Hok Hc. unfold delete_left_guilds. destruct (days <? 1); [done|].
  destruct (get_left_guilds_returns (envs O) days (d_config d) Hdays Hok) as (r & Hl & Hdb). rewrite Hl. simpl.
  destruct d as [b t c]. simpl in *. destruct r as [gs|e].
  - destruct (delete_guilds envs (λ _, idle) 1 gs (mkDbs b t c)) as [d' r] eqn:Hdel.
    apply delete_guilds_spec in Hdel as (Hsame & Hgone & Honly & Herr). exists d', r.
    assert (∀ g, g ∈ column_of <$> gs ↔ left_for (pg_now (envs 0%nat)) days c g) as Hin
      by (intros g; eapply listed_left_for; eauto using guild_row_ok).
    split_and!; [done| | |exact Honly|exact Herr].
    + intros g Hg. apply Hsame. by rewrite Hin.
    + intros Hr g Hg. apply Hgone; [done|]. by rewrite Hin.
  - eexists _, _. split_and!; [done..|by destruct c|]. intros Hnone. by destruct (Hdb (Hnone O)).
Qed.

(** The scan marks as left exactly guilds that the broker is not connected to, that were not
    marked before and that Discord forbids; a guild the bot is still in keeps its row whatever
    fails, and when the scan completes all of them are marked with the time of a statement. *)
Theorem scan_marks_left_guilds envs connected ask c c' r :
  config_ok c → columns_ok c →
  scan_for_left_guilds envs (Ret (Ok (Ready connected))) ask c = Ret (c', r) →
  let left g row := joined_guilds c !! g = Some row ∧ dg_left_at row = None ∧ g ∉ u64_as_i64 <$> connected ∧
                    ask (i64_as_u64 g) = GaStatus 403 in
  (∀ g, joined_guilds c' !! g = joined_guilds c !! g ∨
        ∃ row k, left g row ∧ joined_guilds c' !! g = Some (marked row (pg_now (envs k)))) ∧
  (r = Ok tt → ∀ g row, left g row → ∃ k, joined_guilds c' !! g = Some (marked row (pg_now (envs k)))).
Proof.
  intros Hok Hc Hscan left. cbn in Hscan. destruct (get_joined_guilds_not_in _ _ _) as [[c1 [gs|e]]|] eqn:Hsel; simpl in Hscan; [| |done].
  2: { injection Hscan as <- <-. split; [|done]. unfold get_joined_guilds_not_in, select_guilds, convert_rows, exec in Hsel.
       destruct (pg_error _); simpl in Hsel; [injection Hsel as <- _; by left|].
       destruct (map_outcome _ _); simpl in Hsel; [|done]. by injection Hsel as <- ?. }
  destruct (select_guilds_spec _ _ _ _ _ Hok Hc Hsel) as (-> & Hnd & Hin & Hall).
  destruct (scan_guilds_spec envs ask 1 gs c c' r Hnd) as (Hs1 & Hs2 & Hs3); [|exact Hscan|].
  { intros y Hy. destruct (Hin y Hy) as (_ & row & Hrow & Hp). exists row. split; [done|]. unfold still_joined in Hp. simpl in Hp.
    destruct (dg_left_at row); [|done]. by rewrite andb_false_r in Hp. }
  split.
  - intros g. destruct (decide (Exists (λ y, column_of y = g ∧ ask (jg_id y) = GaStatus 403) gs)) as [(y & Hy & <- & Hask)%Exists_exists|Hno].
    + destruct (Hs2 (column_of y)) as [He|(row & k & Hrow & Hrow')]; [by left|right]. exists row, k. split; [|done].
      destruct (Hin y Hy) as (Hid & row1 & Hrow1 & Hp). rewrite Hrow in Hrow1. injection Hrow1 as <-. unfold left.
      apply andb_true_iff in Hp as [Hp1 Hp2]. rewrite <- Hid. split_and!; [done| | |done].
      * unfold still_joined in Hp2. simpl in Hp2. by destruct (dg_left_at row).
      * apply negb_true_iff, bool_decide_eq_false in Hp1. done.
    + left. apply Hs1. intros y Hy Hg Hask. apply Hno, Exists_exists. eauto.
  - intros Hr g row (Hrow & Hleft & Hnin & Hask).
    assert (g ∈ column_of <$> gs) as (y & Hg & Hy)%list_elem_of_fmap.
    { eapply Hall; [exact Hrow|]. simpl. rewrite bool_decide_eq_false_2 by done. unfold still_joined. simpl. by rewrite Hleft. }
    subst g. destruct (Hin y Hy) as (Hid & _). destruct (Hs3 Hr y Hy) as (row' & k & Hrow1 & Hrow'); [by rewrite Hid|].
    rewrite Hrow in Hrow1. injection Hrow1 as <-. eauto.
Qed.
End jobs.

(** ** Examples *)

#[local] Existing Instances ex_pg ex_codec list_order.

Definition ex_left (left_at : option Z) : ConfigDb :=
  set_guilds {[7 := mkDbGuild "gone" "" 5 left_at; 8 := mkDbGuild "here" "" 5 None]} config_init.
Definition ex_dbs (left_at : option Z) : Dbs :=
  mkDbs {[(7, "b", "k") := mkDbEntry 0 0 None None (Some (F64 0)); (8, "b", "k") := mkDbEntry 0 0 None None (Some (F64 0))]}
    (mkTimerDb 0 ∅ ∅) (ex_left left_at).
Definition ex_env : nat → PgEnv := λ _, mkPgEnv (10 * 24 * nanos_per_hour) None.

Lemma ex_left_ok left_at : config_ok (ex_left left_at) ∧ columns_ok (ex_left left_at).
Proof.
  assert (∀ g row, joined_guilds (ex_left left_at) !! g = Some row → (g = 7 ∨ g = 8) ∧ dg_owner_id row = 5) as Hrows.
  { intros g row. simpl. rewrite lookup_insert_Some, lookup_singleton_Some. naive_solver. }
  split.
  - split; simpl; try apply map_Forall_empty; try (unfold i64_max; lia); [|intros ? ? ? ? Hx; by rewrite lookup_empty in Hx].
    intros g row Hg. destruct (Hrows g row Hg) as [[-> | ->] Ho]; by split; [|rewrite Ho].
  - intros g row Hg. destruct (Hrows g row Hg) as [[-> | ->] _]; by vm_compute.
Qed.

Definition ex_deleted : Dbs :=
  match delete_left_guilds ex_env (λ _, idle) 3 (ex_dbs (Some 0)) with Ret (d, _) => d | Panic => ex_dbs None end.
Definition ex_scanned : ConfigDb :=
  match scan_for_left_guilds ex_env (Ret (Ok (Ready [8]))) (λ _, GaStatus 403) (ex_left None) with Ret (c, _) => c | Panic => config_init end.

Lemma left_guilds_data_deleted_witness :
  delete_left_guilds ex_env (λ _, idle) 3 (ex_dbs (Some 0)) = Ret (ex_deleted, Ok tt) ∧ no_job_data 7 ex_deleted ∧
  same_job_data 8 (ex_dbs (Some 0)) ex_deleted ∧ delete_left_guilds ex_env (λ _, idle) 0 (ex_dbs (Some 0)) = Panic.
Proof.
  destruct (left_guilds_data_deleted ex_env 3 (ex_dbs (Some 0)) ltac:(lia) (proj1 (ex_left_ok (Some 0)))
    (proj2 (ex_left_ok (Some 0)))) as (d' & r & Hrun & Hsame & Hgone & _ & Hall).
  assert (Ret (d', r) = Ret (ex_deleted, Ok tt)) as Heq by (rewrite <- Hrun; vm_compute; reflexivity).
  injection Heq as -> ->. split; [exact Hrun|]. split; [|split].
  - apply Hgone; [reflexivity|]. exists (mkDbGuild "gone" "" 5 (Some 0)), 0. split; [vm_compute; reflexivity|]. split; [reflexivity|].
    vm_compute. reflexivity.
  - apply Hsame. intros (row & t & Hrow & Ht & _). vm_compute in Hrow. injection Hrow as <-. discriminate Ht.
  - exact (left_guilds_data_deleted ex_env 0 (ex_dbs (Some 0)) ltac:(lia) (proj1 (ex_left_ok (Some 0))) (proj2 (ex_left_ok (Some 0)))).
Defined.

(** Discord does not let the bot see guild 7; the broker is connected to guild 8. *)
Lemma scan_marks_left_guilds_witness :
  scan_for_left_guilds ex_env (Ret (Ok (Ready [8]))) (λ _, GaStatus 403) (ex_left None) = Ret (ex_scanned, Ok tt) ∧
  (∃ k, joined_guilds ex_scanned !! 7 = Some (marked (mkDbGuild "gone" "" 5 None) (pg_now (ex_env k)))) ∧
  joined_guilds ex_scanned !! 8 = joined_guilds (ex_left None) !! 8.
Proof.
  assert (scan_for_left_guilds ex_env (Ret (Ok (Ready [8]))) (λ _, GaStatus 403) (ex_left None) = Ret (ex_scanned, Ok tt)) as Hrun
    by (vm_compute; reflexivity).
  split; [exact Hrun|].
  destruct (scan_marks_left_guilds ex_env [8] (λ _, GaStatus 403) (ex_left None) ex_scanned (Ok tt) (proj1 (ex_left_ok None))
    (proj2 (ex_left_ok None)) Hrun) as [Hrows Hmark]. split.
  - apply Hmark; [reflexivity|]. split; [vm_compute; reflexivity|]. split; [reflexivity|]. split; [|reflexivity].
    intros Hin. apply list_elem_of_singleton in Hin. discriminate Hin.
  - destruct (Hrows 8) as [He|(row & k & (_ & _ & Hn & _) & _)]; [exact He|]. exfalso. apply Hn. by left.
Defined.

(** A guild the bot joins again after the list was read loses its data all the same: the deletion
    does not look at the row again. *)
Lemma rejoined_guild_loses_its_data :
  let rejoin c := set_guilds (<[7 := mkDbGuild "gone" "" 5 None]> (joined_guilds c)) c in
  let others k := if bool_decide (k = 1%nat) then mkOthers id id rejoin else idle in
  ∃ d', delete_left_guilds ex_env others 3 (ex_dbs (Some 0)) = Ret (d', Ok tt) ∧
    dg_left_at <$> joined_guilds (rejoin (ex_left (Some 0))) !! 7 = Some None ∧
    d_buckets d' !! (7, "b", "k") = None ∧ joined_guilds (d_config d') !! 7 = None.
Proof. vm_compute. by eexists. Qed.
