(* ===== verification/Runtime.v ===== *)
(** The core operations of the script runtime ([components/runtime/src/lib.rs]) and the console
    ([extensions/console.rs]): what a script does to be started, and what it may not call. *)
From stdpp Require Import base list strings pretty.
From S2P Require Import Prelude Models Validation ScriptStore VmWorker GuildLogger.

(** * Which operations exist *)

(** [create_extensions]: the middleware replaces operations of deno by [disabled_op]. *)
Definition disabled (name : string) : bool :=
  bool_decide (name ∈ ["op_print"; "op_wasm_streaming_feed"; "op_wasm_streaming_set_url"]).

Definition disabled_op : result string unit := Err "this op is disabled".

Definition op_middleware {A} (name : string) (deno_op : result string A) : result string A :=
  if disabled name then Err "this op is disabled" else deno_op.

(** * The start of a script *)

(** What an operation leaves in the guild's log and sends to the worker. *)
Record RtEffects := mkEffects { re_logs : list LogEntry; re_events : list RuntimeEvent }.
Definition no_effects : RtEffects := mkEffects [] [].

(** [Display for ValidationError] *)
Definition verr_text (e : ValidationError) : string := ve_field e +:+ ": " +:+ ve_msg e.

Definition verrs_text (what name : string) (errs : list ValidationError) : string :=
  foldr (λ e acc, String newline_char what +:+ " " +:+ name +:+ ": " +:+ verr_text e +:+ acc) "" errs.

Section start.
Context `{Text}.

(** The text one checked value adds to [outbuf]. *)
Definition invalid_text {T} `{Validator T} (what name : string) (v : T) : string :=
  match validate v with Ok _ => "" | Err errs => verrs_text what name errs end.

Definition outbuf (meta : ScriptMeta) : string :=
  foldr (λ c acc, invalid_text "command" (c_name c) c +:+ acc) "" (sm_commands meta) +:+
  foldr (λ g acc, invalid_text "command group" (cg_name g) g +:+ acc) "" (sm_command_groups meta).

Definition validate_script_meta (meta : ScriptMeta) : result string unit :=
  if bool_decide (outbuf meta = "") then Ok tt else Err ("failed validating script: " +:+ outbuf meta).

(** [serde_json] reads the metadata. *)
Context {JsValue : Type} (from_value : JsValue → result string ScriptMeta).

Definition op_botloader_script_start (guild_id : Z) (args : JsValue) : RtEffects * result string unit :=
  match from_value args with
  | Err e => (no_effects, Err e)
  | Ok des =>
      match validate_script_meta des with
      | Err err =>
          (mkEffects [script_error guild_id ("script meta validation failed: " +:+ err) (pretty (Z.to_N (sm_script_id des))) None] [],
           Err err)
      | Ok _ => (mkEffects [] [RtScriptStarted des], Ok tt)
      end
  end.
End start.

(** * The console *)

Record ConsoleLogMessage := mkConsole {
  cl_file_name : option string;
  cl_line_number : option Z;
  cl_col_number : option Z;
  cl_message : string;
}.

Section console.
Context `{Compiler}.

(** [op_botloader_log]; [line], [col] are [u32]s. *)
Definition op_botloader_log (guild_id : Z) (scripts : Store) (args : ConsoleLogMessage) : outcome LogEntry :=
  do! (name, line_col) :=
    match cl_file_name args, cl_line_number args with
    | Some orig_name, Some line =>
        let col := default 0 (cl_col_number args) in
        do! r := get_original_line_col orig_name line col scripts in
        match r with
        | Some (src_name, src_line, src_col) => Ret (src_name, Some (src_line, src_col))
        | None => Ret (orig_name, Some (line, col))
        end
    | _, _ => Ret ("", None)
    end in
  Ret (script_console guild_id (cl_message args) name line_col).
End console.

(** * Facts *)

Lemma append_empty (s t : string) : s +:+ t = "" ↔ s = "" ∧ t = "".
Proof. destruct s; simpl; [naive_solver|]. split; [done|by intros [? _]]. Qed.

Lemma verrs_text_empty what name errs : verrs_text what name errs = "" ↔ errs = [].
Proof. by destruct errs. Qed.

Section facts.
Context `{Text}.

Lemma invalid_text_empty {T} `{Validator T} what name (v : T) :
  invalid_text what name v = "" ↔ validate v = Ok tt.
Proof.
  unfold invalid_text, validate. destruct (errs _) as [|e l]; [done|]. rewrite verrs_text_empty. naive_solver.
Qed.

Lemma texts_empty {T} (f : T → string) l : foldr (λ c acc, f c +:+ acc) "" l = "" ↔ Forall (λ c, f c = "") l.
Proof.
  induction l as [|c l IH]; simpl; [by split; [constructor|]|]. by rewrite append_empty, Forall_cons, IH.
Qed.

Definition meta_valid (meta : ScriptMeta) : Prop :=
  Forall (λ c, validate c = Ok tt) (sm_commands meta) ∧ Forall (λ g, validate g = Ok tt) (sm_command_groups meta).

Lemma outbuf_empty meta : outbuf meta = "" ↔ meta_valid meta.
Proof.
  unfold outbuf, meta_valid. rewrite append_empty, !texts_empty.
  by setoid_rewrite invalid_text_empty.
Qed.
End facts.

(** * Properties *)

(** A script is announced to the worker exactly when its metadata can be read and each of its
    commands and groups passes validation; otherwise the script gets an error, nothing is
    announced, and if the metadata was readable one error entry of its guild and with its id
    says so. *)
Theorem only_valid_scripts_start `{Text} {JsValue} (from_value : JsValue → result string ScriptMeta) g args eff r :
  op_botloader_script_start from_value g args = (eff, r) →
  (r = Ok tt ∧ ∃ des, from_value args = Ok des ∧ meta_valid des ∧ eff = mkEffects [] [RtScriptStarted des]) ∨
  (∃ e, r = Err e ∧ re_events eff = [] ∧
    (from_value args = Err e ∧ re_logs eff = [] ∨
     ∃ des, from_value args = Ok des ∧ ¬ meta_valid des ∧
       re_logs eff = [script_error g ("script meta validation failed: " +:+ e) (pretty (Z.to_N (sm_script_id des))) None])).
Proof.
  unfold op_botloader_script_start, validate_script_meta. destruct (from_value args) as [des|e].
  - case_bool_decide as Ho; intros [= <- <-]; rewrite outbuf_empty in Ho; [left|right]; [by eauto|].
    eexists. split; [done|]. split; [done|]. right. by exists des.
  - intros [= <- <-]. right. exists e. by auto.
Qed.

(** A console line is logged for the script's own guild with the message unchanged, at the
    place of the TypeScript source that the source map gives, and otherwise at the place the
    caller named. *)
Theorem console_logs_for_guild `{Compiler} g scripts args e :
  op_botloader_log g scripts args = Ret e →
  le_guild_id e = g ∧ le_message e = cl_message args ∧ le_level e = LConsoleLog ∧
  ∃ name line_col, le_script_context e = Some (mkScriptContext name line_col) ∧
    ∀ f line, cl_file_name args = Some f → cl_line_number args = Some line →
    match get_original_line_col f line (default 0 (cl_col_number args)) scripts with
    | Ret (Some (n, l, c)) => name = n ∧ line_col = Some (l, c)
    | Ret None => name = f ∧ line_col = Some (line, default 0 (cl_col_number args))
    | Panic => False
    end.
Proof.
  unfold op_botloader_log. destruct (cl_file_name args) as [f|]; [destruct (cl_line_number args) as [line|]|];
    cbn [outcome_bind].
  - destruct (get_original_line_col f line _ scripts) as [[[[n l] c]|]|] eqn:Ho; cbn [outcome_bind]; [| |done];
      intros [= <-]; (split; [reflexivity|]); (split; [reflexivity|]); (split; [reflexivity|]);
      eexists _, _; (split; [reflexivity|]); intros ? ? [= <-] [= <-]; by rewrite Ho.
  - intros [= <-]. split_and!; [done..|]. eexists _, _. split; [reflexivity|]. intros ? ? _ [=].
  - intros [= <-]. split_and!; [done..|]. eexists _, _. split; [reflexivity|]. intros ? ? [=].
Qed.

(** ** Instances *)

Definition ex_meta (name : string) : ScriptMeta := mkScriptMeta "" 7 [] [mkGroup name "things" []] [] [].

Lemma only_valid_scripts_start_witness :
  (meta_valid (H := ex_text) (ex_meta "good") ∧
   re_events (op_botloader_script_start (H := ex_text) (λ m : ScriptMeta, Ok m) 5 (ex_meta "good")).1 = [RtScriptStarted (ex_meta "good")]) ∧
  ¬ meta_valid (H := ex_text) (ex_meta "Ban").
Proof.
  split.
  - destruct (op_botloader_script_start (H := ex_text) (λ m : ScriptMeta, Ok m) 5 (ex_meta "good")) as [eff r] eqn:Ho.
    destruct (only_valid_scripts_start (H := ex_text) _ _ _ _ _ Ho) as [(_ & des & [= <-] & Hv & ->)|(e & He & _)]; [by split|].
    rewrite He in Ho. vm_compute in Ho. discriminate Ho.
  - destruct (op_botloader_script_start (H := ex_text) (λ m : ScriptMeta, Ok m) 5 (ex_meta "Ban")) as [eff r] eqn:Ho.
    destruct (only_valid_scripts_start (H := ex_text) _ _ _ _ _ Ho) as [(He & _)|(e & _ & _ & [[[=] _]|(des & [= <-] & Hv & _)])]; [|exact Hv].
    rewrite He in Ho. vm_compute in Ho. discriminate Ho.
Defined.
