(* ===== verification/HttpClient.v ===== *)
(** The http client of scripts ([components/runtime/src/extensions/httpclient.rs], the resource
    limit of [components/runtime/src/lib.rs]): request bodies and responses are streams behind
    the ids of deno's resource table.

    The operations are cut at their awaits; [http_step] is one stretch of an operation, or
    something that the client, the script or the clock does in between. The resource table of
    deno_core is an interface. Times are milliseconds. *)
From stdpp Require Import base gmap list strings relations.
From S2P Require Import Prelude Numbers Models.

(** deno_core's [ResourceTable]: ids are given out once and never again. *)
Class ResourceTable (R : Type) := {
  table : Type;
  table_new : table;
  resources : table → gmap Z R;
  issued : table → gset Z;
  table_add : R → table → table * Z;
  table_close : Z → table → table;
}.

Class ResourceTableLaws (R : Type) `{ResourceTable R} := {
  new_empty : resources table_new = ∅;
  resources_issued t : dom (resources t) ⊆ issued t;
  add_fresh r t : (table_add r t).2 ∉ issued t;
  add_resources r t : resources (table_add r t).1 = <[(table_add r t).2 := r]> (resources t);
  add_issued r t : issued (table_add r t).1 = {[(table_add r t).2]} ∪ issued t;
  close_resources i t : resources (table_close i t) = delete i (resources t);
  close_issued i t : issued (table_close i t) = issued t;
}.

(** [Url::parse] and [Method::from_str]. *)
Class HttpTexts := { url_ok : string → bool; method_ok : string → bool }.

(** * Data *)

Definition bytes := list Z.

(** Who has the receiving end of a body: its resource, a request, or nobody. *)
Inductive RxState := RxKept | RxSending (req : nat) | RxDropped.

(** The channel of a request body, which holds two chunks. [ch_written] and [ch_received] are
    all the chunks that went in and came out. *)
Record Chan := mkChan {
  ch_queue : list bytes;
  ch_rx : RxState;
  ch_tx : bool;
  ch_written : list bytes;
  ch_received : list bytes;
}.

(** The reader of a response's body; [rd_read] are the bytes that were read, [rd_opened] when
    the response came. *)
Record Reader := mkReader { rd_rest : bytes; rd_read : bytes; rd_body : bytes; rd_opened : Z }.

Inductive Resource :=
| RequestBodyResource (chan : nat)
| RequestReponseBodyResource (reader : nat).

Record ClientHttpRequest := mkRequest {
  hr_path : string;
  hr_method : string;
  hr_headers : list (string * string);
  hr_body_resource_id : option Z;
}.

Record ClientHttpResponse := mkResponse {
  hp_headers : gmap string string;
  hp_status_code : Z;
  hp_body_resource_id : Z;
}.

(** What the client gives: header values that are not text are [None]. *)
Record HttpAnswer := mkAnswer {
  ha_status : Z;
  ha_headers : list (string * option string);
  ha_body : bytes;
}.

Section http.
Context `{ResourceTable Resource} `{HttpTexts}.

(** A request that is being sent: its body's resource and channel. *)
Record Sending := mkSending { sq_rid : option Z; sq_chan : option nat }.

(** [hs_closers] are the tasks that close a response: when, and which resource. *)
Record HttpState := mkHttp {
  hs_now : Z;
  hs_table : table;
  hs_chans : gmap nat Chan;
  hs_readers : gmap nat Reader;
  hs_requests : gmap nat Sending;
  hs_closers : list (Z * Z);
}.

Definition http_new : HttpState := mkHttp 0 table_new ∅ ∅ ∅ [].

Definition with_table t s := mkHttp (hs_now s) t (hs_chans s) (hs_readers s) (hs_requests s) (hs_closers s).
Definition with_chans c s := mkHttp (hs_now s) (hs_table s) c (hs_readers s) (hs_requests s) (hs_closers s).
Definition with_readers r s := mkHttp (hs_now s) (hs_table s) (hs_chans s) r (hs_requests s) (hs_closers s).
Definition with_requests q s := mkHttp (hs_now s) (hs_table s) (hs_chans s) (hs_readers s) q (hs_closers s).
Definition with_closers c s := mkHttp (hs_now s) (hs_table s) (hs_chans s) (hs_readers s) (hs_requests s) c.

Definition resource_at (rid : Z) (s : HttpState) : option Resource := resources (hs_table s) !! rid.

Definition put_rx (rx : RxState) (c : Chan) : Chan := mkChan (ch_queue c) rx (ch_tx c) (ch_written c) (ch_received c).
Definition drop_tx (c : Chan) : Chan := mkChan (ch_queue c) (ch_rx c) false (ch_written c) (ch_received c).

(** * Operations *)

(** [try_insert_resource_table] *)
Definition try_insert_resource_table (r : Resource) (t : table) : result string (table * Z) :=
  let count := size (resources t) in
  if bool_decide (100 < count)%nat then
    Err "exhausted resource table limit, make sure to close your resources when you're done with them."
  else Ok (table_add r t).

Definition op_bl_http_client_stream (s : HttpState) : HttpState * result string Z :=
  let chan := fresh (dom (hs_chans s)) in
  match try_insert_resource_table (RequestBodyResource chan) (hs_table s) with
  | Ok (t, rid) => (with_chans (<[chan := mkChan [] RxKept true [] []]> (hs_chans s)) (with_table t s), Ok rid)
  | Err e => (s, Err e)
  end.

(** [resource_table.get::<RequestBodyResource>(rid)] *)
Definition get_body (rid : Z) (s : HttpState) : result string nat :=
  match resource_at rid s with
  | Some (RequestBodyResource chan) => Ok chan
  | _ => Err "Bad resource ID"
  end.

(** [op_bl_http_request_send] up to [send().await]: the request is under way as [req]. *)
Definition send_start (args : ClientHttpRequest) (s : HttpState) : HttpState * result string nat :=
  let req := fresh (dom (hs_requests s)) in
  let start rid chan s := (with_requests (<[req := mkSending rid chan]> (hs_requests s)) s, Ok req) in
  match (match hr_body_resource_id args with
         | Some rid => match get_body rid s with Ok c => Ok (Some c) | Err e => Err e end
         | None => Ok None
         end) with
  | Err e => (s, Err e)
  | Ok body =>
      if negb (url_ok (hr_path args)) then (s, Err "url")
      else if negb (method_ok (hr_method args)) then (s, Err "method")
      else match body with
      | None => start None None s
      | Some chan =>
          match hs_chans s !! chan with
          | Some (mkChan q RxKept tx w r) =>
              start (hr_body_resource_id args) (Some chan)
                (with_chans (<[chan := mkChan q (RxSending req) tx w r]> (hs_chans s)) s)
          | _ => (s, Err "failed retrieving body resource stream")
          end
      end
  end.

(** [resource_table.close(rid)]: a body's sender is dropped with its resource. *)
Definition close_resource (rid : Z) (s : HttpState) : HttpState :=
  let s' := with_table (table_close rid (hs_table s)) s in
  match resource_at rid s with
  | Some (RequestBodyResource chan) => with_chans (alter drop_tx chan (hs_chans s)) s'
  | _ => s'
  end.

(** [handle_response]: the first header that is not text fails the whole response. *)
Fixpoint response_headers (l : list (string * option string)) (acc : gmap string string) : option (gmap string string) :=
  match l with
  | [] => Some acc
  | (k, Some v) :: l => response_headers l (<[k := v]> acc)
  | (_, None) :: _ => None
  end.

Definition close_after : Z := 30000.

Definition handle_response (a : HttpAnswer) (s : HttpState) : HttpState * result string ClientHttpResponse :=
  match response_headers (ha_headers a) ∅ with
  | None => (s, Err "failed to convert header to a str")
  | Some headers =>
      let reader := fresh (dom (hs_readers s)) in
      let '(t, rid) := table_add (RequestReponseBodyResource reader) (hs_table s) in
      let s := with_readers (<[reader := mkReader (ha_body a) [] (ha_body a) (hs_now s)]> (hs_readers s)) (with_table t s) in
      (with_closers (hs_closers s ++ [(hs_now s + close_after, rid)]) s, Ok (mkResponse headers (ha_status a) rid))
  end.

(** ... and from there on: the body's stream is dropped with the request, and its resource is
    closed. *)
Definition send_finish (req : nat) (answer : result string HttpAnswer) (s : HttpState)
    : HttpState * option (result string ClientHttpResponse) :=
  match hs_requests s !! req with
  | None => (s, None)
  | Some sending =>
      let s := with_requests (delete req (hs_requests s)) s in
      let s := match sq_chan sending with
               | Some chan => with_chans (alter (put_rx RxDropped) chan (hs_chans s)) s
               | None => s
               end in
      let s := match sq_rid sending with Some rid => close_resource rid s | None => s end in
      match answer with
      | Ok a => let '(s, r) := handle_response a s in (s, Some r)
      | Err e => (s, Some (Err e))
      end
  end.

(** The client takes the next chunk of a body. *)
Definition pull (req : nat) (s : HttpState) : HttpState :=
  match hs_requests s !! req with
  | Some (mkSending _ (Some chan)) =>
      match hs_chans s !! chan with
      | Some (mkChan (b :: q) rx tx w r) => with_chans (<[chan := mkChan q rx tx w (r ++ [b])]> (hs_chans s)) s
      | _ => s
      end
  | _ => s
  end.

(** [RequestBodyResource::write]; [None]: the channel is full, the write waits. *)
Definition body_write (chan : nat) (buf : bytes) (s : HttpState) : option (HttpState * result string Z) :=
  match hs_chans s !! chan with
  | Some (mkChan q RxDropped tx w r) => Some (s, Err "body is closed")
  | Some (mkChan q rx tx w r) =>
      if bool_decide (length q < 2)%nat then
        Some (with_chans (<[chan := mkChan (q ++ [buf]) rx tx (w ++ [buf]) r]> (hs_chans s)) s, Ok (Z.of_nat (length buf)))
      else None
  | None => Some (s, Err "body is closed")
  end.

(** [RequestReponseBodyResource::read] with a buffer of [min limit 1024]; [read_byob] brings its own.
    The reader gives [n] of the bytes that are left: at least one if there are any and the
    buffer has room. *)
Definition buf_size (limit : nat) : nat := if bool_decide (limit < 1024)%nat then limit else 1024.

Definition readable (room n : nat) (rest : bytes) : bool :=
  bool_decide (n ≤ room)%nat && bool_decide (n ≤ length rest)%nat &&
  (bool_decide (0 < n)%nat || bool_decide (room = 0%nat) || bool_decide (rest = [])).

Definition response_read (reader room n : nat) (s : HttpState) : option (HttpState * bytes) :=
  rd ← hs_readers s !! reader;
  if readable room n (rd_rest rd) then
    Some (with_readers (<[reader := mkReader (drop n (rd_rest rd)) (rd_read rd ++ take n (rd_rest rd)) (rd_body rd) (rd_opened rd)]>
                          (hs_readers s)) s,
          take n (rd_rest rd))
  else None.

(** The task that [handle_response] spawns, once its time has come. *)
Definition closer_fires (i : nat) (s : HttpState) : option HttpState :=
  '(due, rid) ← hs_closers s !! i;
  if bool_decide (due ≤ hs_now s) then
    let s := match resource_at rid s with Some _ => close_resource rid s | None => s end in
    Some (with_closers (delete i (hs_closers s)) s)
  else None.

(** * Runs *)

(** A closer is a task of the vm's thread: it may run long after it is due, if scripts keep the
    thread busy. *)
Inductive http_step : HttpState → HttpState → Prop :=
| step_stream s : http_step s (op_bl_http_client_stream s).1
| step_start args s : http_step s (send_start args s).1
| step_finish req answer s : http_step s (send_finish req answer s).1
| step_pull req s : http_step s (pull req s)
| step_write rid chan buf s s' r :
    resource_at rid s = Some (RequestBodyResource chan) → body_write chan buf s = Some (s', r) → http_step s s'
| step_read rid reader limit n s s' b :
    resource_at rid s = Some (RequestReponseBodyResource reader) → response_read reader (buf_size limit) n s = Some (s', b) → http_step s s'
| step_read_byob rid reader room n s s' b :
    resource_at rid s = Some (RequestReponseBodyResource reader) → response_read reader room n s = Some (s', b) → http_step s s'
| step_close rid s : http_step s (close_resource rid s)
| step_closer i s s' : closer_fires i s = Some s' → http_step s s'
| step_time d s :
    0 ≤ d →
    http_step s (mkHttp (hs_now s + d) (hs_table s) (hs_chans s) (hs_readers s) (hs_requests s) (hs_closers s)).

Definition http_reachable : HttpState → Prop := rtc http_step http_new.

(** * Facts *)

Context `{!ResourceTableLaws Resource}.

Definition is_body (r : Resource) : bool := match r with RequestBodyResource _ => true | _ => false end.
Definition bodies (s : HttpState) : gmap Z Resource := filter (λ kr : Z * Resource, is_body kr.2 = true) (resources (hs_table s)).

Definition chan_ok (c : Chan) : Prop := ch_received c ++ ch_queue c = ch_written c ∧ (length (ch_queue c) ≤ 2)%nat.

(** The invariant: no more than 101 bodies; the closers are those of the responses, and an open
    response has its own; what went into a stream is what came out and what is still in it; a request that is
    being sent has its body for itself. *)
Record http_wf (s : HttpState) : Prop := {
  hw_bodies : (size (bodies s) ≤ 101)%nat;
  hw_closers due rid : (due, rid) ∈ hs_closers s →
    rid ∈ issued (hs_table s) ∧ ∀ c, resource_at rid s ≠ Some (RequestBodyResource c);
  hw_responses rid i : resource_at rid s = Some (RequestReponseBodyResource i) →
    ∃ rd, hs_readers s !! i = Some rd ∧ (rd_opened rd + 30000, rid) ∈ hs_closers s;
  hw_readers i rd : hs_readers s !! i = Some rd → rd_read rd ++ rd_rest rd = rd_body rd ∧ rd_opened rd ≤ hs_now s;
  hw_chans c ch : hs_chans s !! c = Some ch → chan_ok ch;
  hw_requests q sq c : hs_requests s !! q = Some sq → sq_chan sq = Some c →
    ∃ ch, hs_chans s !! c = Some ch ∧ ch_rx ch = RxSending q;
}.

Lemma http_new_wf : http_wf http_new.
Proof.
  constructor; unfold bodies, resource_at; simpl; rewrite ?new_empty.
  - rewrite map_filter_empty, map_size_empty. lia.
  - by intros ? ? ?%not_elem_of_nil.
  - by intros ? ?; rewrite lookup_empty.
  - by intros ? ?; rewrite lookup_empty.
  - by intros ? ?; rewrite lookup_empty.
  - by intros ? ? ?; rewrite lookup_empty.
Qed.

(** Channels that keep their contents and whose receiver is not taken from a request. *)
Lemma chans_wf s cs :
  http_wf s → (∀ c ch, cs !! c = Some ch → chan_ok ch) →
  (∀ c ch q, hs_chans s !! c = Some ch → ch_rx ch = RxSending q → ∃ ch', cs !! c = Some ch' ∧ ch_rx ch' = RxSending q) →
  http_wf (with_chans cs s).
Proof.
  intros Hwf Hok Hrx. destruct Hwf. constructor; try done. intros q sq c Hq Hc.
  destruct (hw_requests0 q sq c Hq Hc) as (ch & Hch & Hr). by eapply Hrx.
Qed.

Lemma put_chan_wf s c ch ch' :
  http_wf s → hs_chans s !! c = Some ch → chan_ok ch' → ch_rx ch' = ch_rx ch →
  http_wf (with_chans (<[c := ch']> (hs_chans s)) s).
Proof.
  intros Hwf Hc Hok Hrx. apply chans_wf; [done|..].
  - intros c1 ch1 [[<- <-]|[_ ?%(hw_chans _ Hwf)]]%lookup_insert_Some; done.
  - intros c1 ch1 q Hc1 Hr. destruct (decide (c = c1)) as [<-|Hne].
    + exists ch'. rewrite lookup_insert_eq. split; [done|]. congruence.
    + exists ch1. by rewrite lookup_insert_ne.
Qed.

Lemma resource_closed rid s : resources (hs_table (close_resource rid s)) = delete rid (resources (hs_table s)).
Proof. unfold close_resource. destruct (resource_at rid s) as [[]|]; simpl; apply close_resources. Qed.

Lemma closed_fields rid s :
  hs_now (close_resource rid s) = hs_now s ∧ hs_readers (close_resource rid s) = hs_readers s ∧
  hs_requests (close_resource rid s) = hs_requests s ∧ hs_closers (close_resource rid s) = hs_closers s ∧
  issued (hs_table (close_resource rid s)) = issued (hs_table s).
Proof. unfold close_resource. destruct (resource_at rid s) as [[]|]; simpl; by rewrite close_issued. Qed.

Lemma closed_chan rid s c ch :
  hs_chans (close_resource rid s) !! c = Some ch →
  ∃ ch0, hs_chans s !! c = Some ch0 ∧ (ch = ch0 ∨ ch = drop_tx ch0).
Proof.
  unfold close_resource. destruct (resource_at rid s) as [[c'|]|]; simpl; [|by eauto..].
  intros Hl. destruct (decide (c' = c)) as [<-|Hne].
  - rewrite lookup_alter_eq in Hl. destruct (hs_chans s !! c'); [|done]. injection Hl as <-. by eauto.
  - rewrite lookup_alter_ne in Hl by done. by eauto.
Qed.

Lemma closed_chan_sending rid s c ch q :
  hs_chans s !! c = Some ch → ch_rx ch = RxSending q →
  ∃ ch', hs_chans (close_resource rid s) !! c = Some ch' ∧ ch_rx ch' = RxSending q.
Proof.
  unfold close_resource. destruct (resource_at rid s) as [[c'|]|]; simpl; [|by eauto..].
  intros Hl Hr. destruct (decide (c' = c)) as [<-|Hne].
  - rewrite lookup_alter_eq, Hl. by eexists.
  - rewrite lookup_alter_ne by done. by eauto.
Qed.

Lemma close_wf rid s : http_wf s → http_wf (close_resource rid s).
Proof.
  intros Hwf. destruct (closed_fields rid s) as (Hn & Hrd & Hq & Hcl & Hi). constructor.
  - unfold bodies. rewrite resource_closed, map_filter_delete.
    pose proof (hw_bodies _ Hwf). pose proof (map_subseteq_size _ _ (delete_subseteq (bodies s) rid)). unfold bodies in *. lia.
  - intros due rid'. rewrite Hcl, Hi. intros Hin. destruct (hw_closers _ Hwf due rid' Hin) as (? & Hr).
    split; [done|]. intros c. unfold resource_at in *. rewrite resource_closed. intros [_ ?]%lookup_delete_Some. by eapply Hr.
  - intros rid' i. unfold resource_at. rewrite resource_closed, Hrd, Hcl. intros [_ Hl]%lookup_delete_Some.
    by apply (hw_responses _ Hwf).
  - rewrite Hrd, Hn. apply (hw_readers _ Hwf).
  - intros c ch (ch0 & Hch0%(hw_chans _ Hwf) & [->| ->])%closed_chan; done.
  - intros q sq c. rewrite Hq. intros Hl Hc. destruct (hw_requests _ Hwf q sq c Hl Hc) as (ch & Hch & Hr).
    by eapply closed_chan_sending.
Qed.

Lemma add_not_there r t : resources t !! (table_add r t).2 = None.
Proof.
  apply not_elem_of_dom. intros Hin. pose proof (resources_issued t _ Hin). by apply (add_fresh r t).
Qed.

(** A new resource leaves the closers of the others alone. *)
Lemma add_closers r s due rid :
  http_wf s → (due, rid) ∈ hs_closers s →
  rid ∈ issued (table_add r (hs_table s)).1 ∧
  ∀ c, resources (table_add r (hs_table s)).1 !! rid ≠ Some (RequestBodyResource c).
Proof.
  intros Hwf Hin. destruct (hw_closers _ Hwf due rid Hin) as (Hi & Hr). rewrite add_issued, add_resources.
  split; [set_solver|]. intros c. rewrite lookup_insert_ne; [apply Hr|].
  intros <-. by apply (add_fresh r (hs_table s)).
Qed.

Lemma stream_wf s : http_wf s → http_wf (op_bl_http_client_stream s).1.
Proof.
  intros Hwf. unfold op_bl_http_client_stream, try_insert_resource_table. case_bool_decide as Hc; [done|].
  set (r := RequestBodyResource _). destruct (table_add r (hs_table s)) as [t rid] eqn:Hadd. simpl.
  pose proof (add_not_there r (hs_table s)) as Hnone. pose proof (add_resources r (hs_table s)) as Hres.
  pose proof (λ due rid, add_closers r s due rid Hwf) as Hcl. rewrite Hadd in *. simpl in *.
  set (s0 := with_table t s). assert (http_wf s0) as Hwf0.
  { constructor; unfold bodies, resource_at; simpl; try apply Hwf.
    - rewrite Hres, map_filter_insert_True by done. rewrite map_size_insert_None.
      + pose proof (map_subseteq_size _ _ (map_filter_subseteq (λ kr : Z * Resource, is_body kr.2 = true) (resources (hs_table s)))).
        lia.
      + rewrite map_lookup_filter, Hnone. done.
    - exact Hcl.
    - intros rid' i. rewrite Hres. intros [[_ [=]]|[_ Hl]]%lookup_insert_Some. by apply (hw_responses _ Hwf). }
  apply (chans_wf s0); [done|..]; simpl.
  - intros c ch [[_ <-]|[_ ?%(hw_chans _ Hwf)]]%lookup_insert_Some; [by split; simpl; [|lia]|done].
  - intros c ch q Hl Hr. exists ch. rewrite lookup_insert_ne; [done|]. intros <-.
    apply (elem_of_dom_2 (D := gset nat)) in Hl. by apply (is_fresh (dom (hs_chans s))) in Hl.
Qed.

Lemma start_wf args s : http_wf s → http_wf (send_start args s).1.
Proof.
  intros Hwf. unfold send_start. set (req := fresh _).
  assert (hs_requests s !! req = None) as Hreq by (apply not_elem_of_dom, is_fresh).
  destruct (match hr_body_resource_id args with Some _ => _ | None => _ end) as [body|]; [|done].
  destruct (negb (url_ok _)); [done|]. destruct (negb (method_ok _)); [done|].
  destruct body as [chan|]; simpl.
  - destruct (hs_chans s !! chan) as [[q [] tx w r]|] eqn:Hch; try done. simpl. destruct (Hwf). constructor; simpl; try done.
    + intros c ch [[_ <-]|[_ ?%hw_chans0]]%lookup_insert_Some; [|done]. exact (hw_chans0 _ _ Hch).
    + intros q' sq c [[<- <-]|[_ Hl]]%lookup_insert_Some Hc; simpl in *.
      * injection Hc as <-. eexists. rewrite lookup_insert_eq. by split.
      * destruct (hw_requests0 q' sq c Hl Hc) as (ch & Hch' & Hr). exists ch. rewrite lookup_insert_ne; [done|].
        intros <-. rewrite Hch in Hch'. by injection Hch' as <-.
  - destruct (Hwf). constructor; simpl; try done.
    intros q' sq c [[<- <-]|[_ Hl]]%lookup_insert_Some Hc; [done|]. by eapply hw_requests0.
Qed.

Lemma handle_response_wf a s : http_wf s → http_wf (handle_response a s).1.
Proof.
  intros Hwf. unfold handle_response. destruct (response_headers (ha_headers a) ∅); [|done].
  set (i := fresh _). set (r := RequestReponseBodyResource i). destruct (table_add r (hs_table s)) as [t rid] eqn:Hadd. simpl.
  assert (hs_readers s !! i = None) as Hi by (apply not_elem_of_dom, is_fresh).
  pose proof (add_not_there r (hs_table s)) as Hnone. pose proof (add_resources r (hs_table s)) as Hres.
  pose proof (add_issued r (hs_table s)) as Hiss.
  pose proof (λ due rid, add_closers r s due rid Hwf) as Hcl. rewrite Hadd in *. simpl in *.
  constructor; unfold bodies, resource_at; simpl; try apply Hwf.
  - rewrite Hres, map_filter_insert_False by done. rewrite delete_id by done. apply Hwf.
  - intros due rid' [Hin%Hcl|[= -> ->]%list_elem_of_singleton]%elem_of_app; [done|].
    split; [rewrite Hiss; set_solver|]. intros c. by rewrite Hres, lookup_insert_eq.
  - intros rid' i'. rewrite Hres. intros [[<- [= <-]]|[_ Hl]]%lookup_insert_Some.
    + eexists. rewrite lookup_insert_eq. split; [done|]. apply elem_of_app. right. by apply list_elem_of_singleton.
    + destruct (hw_responses _ Hwf rid' i' Hl) as (rd & Hrd & Hin). exists rd. rewrite lookup_insert_ne by congruence.
      split; [done|]. apply elem_of_app. by left.
  - intros i' rd [[_ <-]|[_ ?%(hw_readers _ Hwf)]]%lookup_insert_Some; [by split; simpl; [|lia]|done].
Qed.

Lemma finish_wf req answer s : http_wf s → http_wf (send_finish req answer s).1.
Proof.
  intros Hwf. unfold send_finish. destruct (hs_requests s !! req) as [sq|] eqn:Hreq; [|done].
  set (s1 := with_requests _ s).
  set (s2 := match sq_chan sq with Some _ => _ | None => _ end).
  assert (http_wf s2) as Hwf2.
  { assert (http_wf s1) as Hwf1.
    { destruct (Hwf). constructor; simpl; try done. intros q sq' c [_ Hl]%lookup_delete_Some. by apply hw_requests0. }
    unfold s2. destruct (sq_chan sq) as [chan|] eqn:Hc; [|done]. destruct (Hwf1). constructor; simpl in *; try done.
    - intros c ch. destruct (decide (chan = c)) as [<-|Hne].
      + rewrite lookup_alter_eq. destruct (hs_chans s !! chan) eqn:Hch; [|done]. intros [= <-]. exact (hw_chans0 _ _ Hch).
      + rewrite lookup_alter_ne by done. apply hw_chans0.
    - intros q sq' c Hl Hc'. destruct (hw_requests0 q sq' c Hl Hc') as (ch & Hch & Hr). exists ch.
      rewrite lookup_alter_ne; [done|]. intros <-. destruct (hw_requests _ Hwf req sq chan Hreq Hc) as (ch' & Hch' & Hr').
      apply lookup_delete_Some in Hl as [Hne _]. congruence. }
  set (s3 := match sq_rid sq with Some _ => _ | None => _ end).
  assert (http_wf s3) as Hwf3 by (unfold s3; destruct (sq_rid sq); [by apply close_wf|done]).
  destruct answer as [a|e]; [|done]. pose proof (handle_response_wf a s3 Hwf3) as Hh.
  by destruct (handle_response a s3).
Qed.

Lemma pull_wf req s : http_wf s → http_wf (pull req s).
Proof.
  intros Hwf. unfold pull. destruct (hs_requests s !! req) as [[rid [c|]]|]; try done.
  destruct (hs_chans s !! c) as [[[|b q] rx tx w r]|] eqn:Hch; try done.
  destruct (hw_chans _ Hwf _ _ Hch) as [Hf Hq]. apply (put_chan_wf _ _ _ _ Hwf Hch); [|done].
  split; simpl in *; [by rewrite <- app_assoc|lia].
Qed.

Lemma write_wf c buf s s' r : http_wf s → body_write c buf s = Some (s', r) → http_wf s'.
Proof.
  intros Hwf. unfold body_write. destruct (hs_chans s !! c) as [[q rx tx w rc]|] eqn:Hch; [|by intros [= <- _]].
  destruct (hw_chans _ Hwf _ _ Hch) as [Hf Hq]. simpl in *.
  assert (∀ rx', rx' = rx → (length q < 2)%nat →
    http_wf (with_chans (<[c := mkChan (q ++ [buf]) rx' tx (w ++ [buf]) rc]> (hs_chans s)) s)) as Hput.
  { intros rx' -> Hlen. apply (put_chan_wf _ _ _ _ Hwf Hch); [|done]. split; simpl; [by rewrite app_assoc, Hf|].
    rewrite length_app. simpl. lia. }
  destruct rx; [case_bool_decide; [|done]|case_bool_decide; [|done]|by intros [= <- _]]; intros [= <- _]; by apply Hput.
Qed.

Lemma read_wf i room n s s' b : http_wf s → response_read i room n s = Some (s', b) → http_wf s'.
Proof.
  intros Hwf. unfold response_read. destruct (hs_readers s !! i) as [rd|] eqn:Hrd; [|done]. simpl.
  destruct (readable _ _ _); [|done]. intros [= <- _]. destruct (Hwf). constructor; simpl; try done.
  - intros rid i' Hl. destruct (hw_responses0 rid i' Hl) as (rd' & Hrd' & Hin).
    destruct (decide (i = i')) as [<-|Hne]; [|exists rd'; by rewrite lookup_insert_ne].
    eexists. rewrite lookup_insert_eq. split; [done|]. simpl. rewrite Hrd in Hrd'. by injection Hrd' as <-.
  - intros i' rd' [[_ <-]|[_ ?%hw_readers0]]%lookup_insert_Some; [|done]. destruct (hw_readers0 _ _ Hrd) as [Hb Ht].
    split; simpl; [|done]. by rewrite <- app_assoc, take_drop.
Qed.

Lemma closer_wf i s s' : http_wf s → closer_fires i s = Some s' → http_wf s'.
Proof.
  intros Hwf. unfold closer_fires. destruct (hs_closers s !! i) as [[due rid]|] eqn:Hi; [|done]. simpl.
  case_bool_decide as Hdue; [|done]. intros [= <-].
  set (s1 := match resource_at rid s with Some _ => _ | None => _ end).
  assert (http_wf s1 ∧ resource_at rid s1 = None ∧ hs_closers s1 = hs_closers s) as (Hwf1 & Hr1 & Hc1).
  { unfold s1. destruct (resource_at rid s) eqn:Hr; [|done]. split; [by apply close_wf|].
    unfold resource_at. rewrite resource_closed, lookup_delete_eq. split; [done|]. apply closed_fields. }
  rewrite <- Hc1 in Hi. pose proof (delete_Permutation _ _ _ Hi) as Hp.
  destruct (Hwf1). constructor; simpl; try done.
  - intros due' rid' Hin. apply (hw_closers0 due' rid'). rewrite Hp. by right.
  - intros rid' i' Hl. destruct (hw_responses0 rid' i' Hl) as (rd & Hrd & Hin). exists rd. split; [done|].
    rewrite Hp in Hin. apply elem_of_cons in Hin as [[= _ ->]|Hin]; [|done]. unfold resource_at in *. simpl in *. congruence.
Qed.

Lemma time_wf d s :
  http_wf s → 0 ≤ d →
  http_wf (mkHttp (hs_now s + d) (hs_table s) (hs_chans s) (hs_readers s) (hs_requests s) (hs_closers s)).
Proof.
  intros Hwf Hd. destruct Hwf. constructor; simpl; try done.
  intros i rd Hl. destruct (hw_readers0 i rd Hl). split; [done|lia].
Qed.

Lemma http_step_wf s s' : http_step s s' → http_wf s → http_wf s'.
Proof.
  intros Hstep Hwf. destruct Hstep; [by apply stream_wf|by apply start_wf|by apply finish_wf|by apply pull_wf|by eapply write_wf
    |by eapply read_wf|by eapply read_wf|by apply close_wf|by eapply closer_wf|by apply time_wf].
Qed.

Lemma http_reachable_wf s : http_reachable s → http_wf s.
Proof.
  intros Hr. assert (∀ s0, rtc http_step s0 s → http_wf s0 → http_wf s) as Hind.
  { intros s0 Hs. induction Hs; [done|]. intros ?. by eauto using http_step_wf. }
  by eapply Hind; [|exact http_new_wf].
Qed.

(** ** A body that has been taken *)

(** [rid] was the id of the body with channel [c], whose receiver is gone from the resource. *)
Record spent (rid : Z) (c : nat) (s : HttpState) : Prop := {
  sp_issued : rid ∈ issued (hs_table s);
  sp_resource r : resource_at rid s = Some r → r = RequestBodyResource c;
  sp_taken : ∃ ch, hs_chans s !! c = Some ch ∧ ch_rx ch ≠ RxKept;
}.

Lemma spent_table rid c s t :
  spent rid c s → rid ∈ issued t → (∀ r, resources t !! rid = Some r → resource_at rid s = Some r) → spent rid c (with_table t s).
Proof. intros [] Hi Hr. constructor; [done| |done]. intros r Hl. by apply sp_resource0, Hr. Qed.

Lemma spent_add rid c s r : spent rid c s → spent rid c (with_table (table_add r (hs_table s)).1 s).
Proof.
  intros Hsp. apply spent_table; [done|rewrite add_issued; pose proof (sp_issued _ _ _ Hsp); set_solver|].
  intros r'. rewrite add_resources. intros [[<- _]|[_ ?]]%lookup_insert_Some; [|done].
  exfalso. by apply (add_fresh r (hs_table s)), (sp_issued _ _ _ Hsp).
Qed.

Lemma spent_chans rid c s cs :
  spent rid c s → (∀ ch, hs_chans s !! c = Some ch → ch_rx ch ≠ RxKept → ∃ ch', cs !! c = Some ch' ∧ ch_rx ch' ≠ RxKept) →
  spent rid c (with_chans cs s).
Proof. intros [? ? (ch & Hch & Hrx)] Hcs. constructor; [done..|]. by eapply Hcs. Qed.

Lemma spent_put rid c s c' ch :
  spent rid c s → (c = c' → ch_rx ch ≠ RxKept) → spent rid c (with_chans (<[c' := ch]> (hs_chans s)) s).
Proof.
  intros Hsp Hne. apply spent_chans; [done|]. intros ch0 Hch0 Hrx. destruct (decide (c = c')) as [<-|Hn].
  - exists ch. rewrite lookup_insert_eq. by auto.
  - exists ch0. by rewrite lookup_insert_ne.
Qed.

Lemma spent_close rid c rid' s : spent rid c s → spent rid c (close_resource rid' s).
Proof.
  intros Hsp. assert (spent rid c (with_table (table_close rid' (hs_table s)) s)) as Hsp'.
  { apply spent_table; [done|rewrite close_issued; by apply Hsp|]. intros r. rewrite close_resources.
    by intros [_ ?]%lookup_delete_Some. }
  unfold close_resource. destruct (resource_at rid' s) as [[c'|]|]; [|done..].
  apply (spent_chans _ _ _ _ Hsp'). intros ch Hch Hrx. simpl in *. destruct (decide (c' = c)) as [->|Hn].
  - rewrite lookup_alter_eq, Hch. by eexists.
  - rewrite lookup_alter_ne by done. by exists ch.
Qed.

Lemma spent_response rid c a s : spent rid c s → spent rid c (handle_response a s).1.
Proof.
  intros Hsp. unfold handle_response. destruct (response_headers _ _); [|done]. set (r := RequestReponseBodyResource _).
  pose proof (spent_add _ _ _ r Hsp) as Hadd. destruct (table_add r (hs_table s)) as [t rid'].
  destruct Hadd. by constructor.
Qed.

Lemma spent_finish rid c req answer s : spent rid c s → spent rid c (send_finish req answer s).1.
Proof.
  intros Hsp. unfold send_finish. destruct (hs_requests s !! req) as [sq|]; [|done].
  set (s1 := with_requests _ s). assert (spent rid c s1) as Hsp1 by (destruct Hsp; by constructor).
  set (s2 := match sq_chan sq with Some _ => _ | None => _ end). assert (spent rid c s2) as Hsp2.
  { unfold s2. destruct (sq_chan sq) as [c'|]; [|done]. apply (spent_chans _ _ _ _ Hsp1). intros ch Hch Hrx. simpl in *.
    destruct (decide (c' = c)) as [->|Hn]; [rewrite lookup_alter_eq, Hch; by eexists|].
    rewrite lookup_alter_ne by done. by exists ch. }
  set (s3 := match sq_rid sq with Some _ => _ | None => _ end).
  assert (spent rid c s3) as Hsp3 by (unfold s3; destruct (sq_rid sq); [by apply spent_close|done]).
  destruct answer as [a|]; [|done]. pose proof (spent_response _ _ a _ Hsp3). by destruct (handle_response a s3).
Qed.

Lemma spent_stream rid c s : spent rid c s → spent rid c (op_bl_http_client_stream s).1.
Proof.
  intros Hsp. unfold op_bl_http_client_stream, try_insert_resource_table. case_bool_decide; [done|].
  set (r := RequestBodyResource _). pose proof (spent_add _ _ _ r Hsp) as Hadd. destruct (table_add r (hs_table s)) as [t rid'].
  simpl in *. apply (spent_put _ _ _ _ _ Hadd). intros ->. destruct (sp_taken _ _ _ Hsp) as (ch & Hch & _).
  exfalso. apply (is_fresh (dom (hs_chans s))). by apply elem_of_dom_2 in Hch.
Qed.

Lemma spent_start rid c args s : spent rid c s → spent rid c (send_start args s).1.
Proof.
  intros Hsp. unfold send_start. destruct (match hr_body_resource_id args with Some _ => _ | None => _ end) as [body|]; [|done].
  destruct (negb (url_ok _)); [done|]. destruct (negb (method_ok _)); [done|].
  destruct body as [c'|]; simpl; [|destruct Hsp; by constructor].
  destruct (hs_chans s !! c') as [[q [] tx w r]|]; try done. simpl.
  assert (spent rid c (with_chans (<[c' := mkChan q (RxSending (fresh (dom (hs_requests s)))) tx w r]> (hs_chans s)) s)) as Hp
    by by apply spent_put.
  destruct Hp. by constructor.
Qed.

Lemma spent_step rid c s s' : http_step s s' → spent rid c s → spent rid c s'.
Proof.
  intros Hstep Hsp. destruct Hstep as [s|args s|req answer s|req s|rid' c' buf s s' r _ Hw|? i ? n s s' b _ Hr|? i ? n s s' b _ Hr|rid' s|i s s' Hc|d s Hd];
    eauto using spent_stream, spent_start, spent_finish, spent_close.
  - unfold pull. destruct (hs_requests s !! req) as [[? [c'|]]|]; try done.
    destruct (hs_chans s !! c') as [[[|b q] rx tx w r]|] eqn:Hch; try done. apply spent_put; [done|]. intros <-.
    destruct (sp_taken _ _ _ Hsp) as (ch & Hch' & Hrx). rewrite Hch in Hch'. by injection Hch' as <-.
  - unfold body_write in Hw. destruct (hs_chans s !! c') as [[q rx tx w rc]|] eqn:Hch; [|by injection Hw as <- _].
    destruct rx; [case_bool_decide; [|done]|case_bool_decide; [|done]|by injection Hw as <- _]; injection Hw as <- _;
      (apply spent_put; [done|]); intros <-; destruct (sp_taken _ _ _ Hsp) as (ch & Hch' & Hrx);
      rewrite Hch in Hch'; by injection Hch' as <-.
  - unfold response_read in Hr. destruct (hs_readers s !! i); [|done]. simpl in Hr. destruct (readable _ _ _); [|done].
    injection Hr as <- _. destruct Hsp. by constructor.
  - unfold response_read in Hr. destruct (hs_readers s !! i); [|done]. simpl in Hr. destruct (readable _ _ _); [|done].
    injection Hr as <- _. destruct Hsp. by constructor.
  - unfold closer_fires in Hc. destruct (hs_closers s !! i) as [[due rid']|]; [|done]. simpl in Hc.
    case_bool_decide; [|done]. injection Hc as <-. destruct (resource_at rid' s).
    + destruct (spent_close rid c rid' s Hsp). by constructor.
    + destruct Hsp. by constructor.
  - destruct Hsp. by constructor.
Qed.

(** * Properties *)

(** C37: The streams of the http client, in every state that scripts, the client and the clock can
    bring about: there are at most 101 request bodies; of each, the request has got the chunks
    that were written, in order, except for at most two that are under way, and no two requests
    share one; and what was read of a response is the beginning of its body. Every response that is
    open has a task of its own that closes it, which cannot before 30 seconds after the response
    came, and does whenever it runs from then on; when it runs, a busy thread decides. *)
Theorem http_streams_sound s :
  http_reachable s →
  (size (bodies s) ≤ 101)%nat ∧
  (∀ c ch, hs_chans s !! c = Some ch → ∃ l, ch_written ch = ch_received ch ++ l ∧ (length l ≤ 2)%nat) ∧
  (∀ q q' sq sq' c, hs_requests s !! q = Some sq → hs_requests s !! q' = Some sq' →
     sq_chan sq = Some c → sq_chan sq' = Some c → q = q') ∧
  (∀ i rd, hs_readers s !! i = Some rd → rd_read rd `prefix_of` rd_body rd) ∧
  (∀ rid i, resource_at rid s = Some (RequestReponseBodyResource i) →
     ∃ rd k, hs_readers s !! i = Some rd ∧ hs_closers s !! k = Some (rd_opened rd + 30000, rid) ∧
       if hs_now s <? rd_opened rd + 30000 then closer_fires k s = None
       else ∃ s', closer_fires k s = Some s' ∧ resources (hs_table s') = delete rid (resources (hs_table s))).
Proof.
  intros Hwf%http_reachable_wf. destruct Hwf as [Hb Hc Hr Hrd Hch Hq]. split_and!; [done|..].
  - intros c ch Hl. destruct (Hch c ch Hl) as [<- ?]. by eexists.
  - intros q q' sq sq' c Hl Hl' Hsc Hsc'. destruct (Hq q sq c Hl Hsc) as (ch & Hch1 & Hr1).
    destruct (Hq q' sq' c Hl' Hsc') as (ch' & Hch2 & Hr2). congruence.
  - intros i rd Hl. destruct (Hrd i rd Hl) as [<- _]. by eexists.
  - intros rid i Hl. destruct (Hr rid i Hl) as (rd & Hrd' & Hin). apply list_elem_of_lookup in Hin as [k Hk].
    exists rd, k. split_and!; [done..|]. unfold closer_fires. rewrite Hk. simpl. destruct (Z.ltb_spec (hs_now s) (rd_opened rd + 30000)).
    + by rewrite bool_decide_false by lia.
    + rewrite bool_decide_true, Hl by done. eexists. split; [done|]. apply resource_closed.
Qed.

(** The task that closes a response when its time has come closes that response or nothing. *)
Theorem closer_spares_others s i due rid s' :
  http_reachable s → hs_closers s !! i = Some (due, rid) → closer_fires i s = Some s' →
  hs_chans s' = hs_chans s ∧ resources (hs_table s') = delete rid (resources (hs_table s)) ∧
  ∀ r, resource_at rid s = Some r → is_body r = false.
Proof.
  intros Hwf%http_reachable_wf Hi. unfold closer_fires. rewrite Hi. simpl. case_bool_decide; [|done]. intros [= <-]. simpl.
  destruct (hw_closers _ Hwf due rid) as (_ & Hn); [by eapply list_elem_of_lookup_2|].
  destruct (resource_at rid s) as [[c|j]|] eqn:Hr.
  - by destruct (Hn c).
  - unfold close_resource. rewrite Hr. simpl. split_and!; [done|apply close_resources|]. by intros r [= <-].
  - split_and!; [done| |done]. by rewrite delete_id.
Qed.

(** A request body is sent at most once: once a request with it is under way, whatever happens,
    every later request that names its id is refused. *)
Theorem body_sent_once args s req s1 s2 rid args' :
  hr_body_resource_id args = Some rid → send_start args s = (s1, Ok req) → rtc http_step s1 s2 →
  hr_body_resource_id args' = Some rid → ∃ e, send_start args' s2 = (s2, Err e).
Proof.
  intros Hb Hs Hsteps Hb'. assert (∃ c, spent rid c s1) as [c Hsp].
  { revert Hs. unfold send_start, get_body. rewrite Hb. destruct (resource_at rid s) as [[c|]|] eqn:Hr; [|done..].
    destruct (negb (url_ok _)); [done|]. destruct (negb (method_ok _)); [done|].
    destruct (hs_chans s !! c) as [[q [] tx w r]|] eqn:Hch; [|done..]. intros [= <- <-]. exists c. constructor; simpl.
    - apply (resources_issued (hs_table s)). unfold resource_at in Hr. by apply elem_of_dom_2 in Hr.
    - intros r' Hr'. unfold resource_at in *. simpl in Hr'. congruence.
    - eexists. rewrite lookup_insert_eq. by split. }
  assert (spent rid c s2) as [_ Hres (ch & Hch & Hrx)].
  { clear Hs. induction Hsteps; [done|]. by eauto using spent_step. }
  unfold send_start, get_body. rewrite Hb'. destruct (resource_at rid s2) as [r|] eqn:Hr; [|by eexists].
  rewrite (Hres r eq_refl). destruct (negb (url_ok _)); [by eexists|]. destruct (negb (method_ok _)); [by eexists|].
  rewrite Hch. destruct ch as [q [] tx w rc]; [done|by eexists..].
Qed.
End http.

(** ** Instances *)

(** A table that remembers the ids it gave out. *)
#[global] Instance ex_table R : ResourceTable R := {|
  table := gmap Z (option R);
  table_new := ∅;
  resources t := omap id t;
  issued t := dom t;
  table_add r t := let i := fresh (dom t) in (<[i := Some r]> t, i);
  table_close i t := match t !! i with Some _ => <[i := None]> t | None => t end;
|}.

#[global] Instance ex_table_laws R : ResourceTableLaws R.
Proof.
  constructor; simpl.
  - apply omap_empty.
  - intros t i. rewrite !elem_of_dom, lookup_omap. intros [r Hr]. destruct (t !! i); by eauto.
  - intros r t. apply is_fresh.
  - intros r t. by apply omap_insert_Some.
  - intros r t. by rewrite dom_insert_L.
  - intros i t. destruct (t !! i) eqn:Hi; [by apply omap_insert_None|]. rewrite delete_id; [done|]. by rewrite lookup_omap, Hi.
  - intros i t. destruct (t !! i) eqn:Hi; [|done]. rewrite dom_insert_L. apply elem_of_dom_2 in Hi. set_solver.
Qed.

#[global] Instance ex_http_texts : HttpTexts := {| url_ok u := bool_decide (u ≠ ""); method_ok _ := true |}.

Definition ex_request (body : option Z) : ClientHttpRequest := mkRequest "http://a.b" "POST" [] body.
Definition ex_answer : HttpAnswer := mkAnswer 200 [("a", Some "1"); ("b", Some "2"); ("a", Some "3")] [1; 2; 3].

Definition ex_streamed : HttpState := (op_bl_http_client_stream http_new).1.
Definition ex_sending : HttpState := (send_start (ex_request (Some 0)) ex_streamed).1.
Definition ex_answered : HttpState := (send_finish 0 (Ok ex_answer) ex_sending).1.

Lemma ex_reachable : http_reachable ex_answered.
Proof.
  eapply rtc_l; [exact (step_stream http_new)|]. eapply rtc_l; [exact (step_start (ex_request (Some 0)) ex_streamed)|].
  apply rtc_once. exact (step_finish 0 (Ok ex_answer) ex_sending).
Defined.

Definition ex_at (t : Z) : HttpState :=
  mkHttp t (hs_table ex_answered) (hs_chans ex_answered) (hs_readers ex_answered) (hs_requests ex_answered) (hs_closers ex_answered).
Definition ex_later : HttpState := ex_at 30000.

Lemma ex_later_reachable t : 0 ≤ t → http_reachable (ex_at t).
Proof. intros Ht. eapply rtc_r; [exact ex_reachable|]. exact (step_time t ex_answered Ht). Qed.

(** The response of a request with a body, before its time and, on a busy thread, long after. *)
Lemma http_streams_sound_witness :
  (size (bodies ex_answered) ≤ 101)%nat ∧
  (∃ rd k, hs_readers (ex_at 29999) !! 0%nat = Some rd ∧ hs_closers (ex_at 29999) !! k = Some (rd_opened rd + 30000, 1) ∧
     if 29999 <? rd_opened rd + 30000 then closer_fires k (ex_at 29999) = None else ∃ s', closer_fires k (ex_at 29999) = Some s' ∧
       resources (hs_table s') = delete 1 (resources (hs_table (ex_at 29999)))) ∧
  (∃ rd k, hs_readers (ex_at 70000) !! 0%nat = Some rd ∧ hs_closers (ex_at 70000) !! k = Some (rd_opened rd + 30000, 1) ∧
     if 70000 <? rd_opened rd + 30000 then closer_fires k (ex_at 70000) = None else ∃ s', closer_fires k (ex_at 70000) = Some s' ∧
       resources (hs_table s') = delete 1 (resources (hs_table (ex_at 70000)))).
Proof.
  assert (∀ t, resource_at 1 (ex_at t) = Some (RequestReponseBodyResource 0)) as Hres by (intros t; vm_compute; reflexivity).
  split; [exact (proj1 (http_streams_sound ex_answered ex_reachable))|]. split.
  - destruct (http_streams_sound (ex_at 29999) (ex_later_reachable 29999 ltac:(lia))) as (_ & _ & _ & _ & Hr). exact (Hr 1 0%nat (Hres _)).
  - destruct (http_streams_sound (ex_at 70000) (ex_later_reachable 70000 ltac:(lia))) as (_ & _ & _ & _ & Hr). exact (Hr 1 0%nat (Hres _)).
Defined.

Definition ex_closed : HttpState := default http_new (closer_fires 0 ex_later).

Lemma closer_spares_others_witness : resources (hs_table ex_closed) = delete 1 (resources (hs_table ex_later)).
Proof.
  refine (proj1 (proj2 (closer_spares_others ex_later 0 30000 1 ex_closed _ _ _))).
  - exact (ex_later_reachable 30000 ltac:(lia)).
  - vm_compute. reflexivity.
  - vm_compute. reflexivity.
Defined.

Lemma body_sent_once_witness : ∃ e, send_start (ex_request (Some 0)) ex_answered = (ex_answered, Err e).
Proof.
  apply (body_sent_once (ex_request (Some 0)) ex_streamed 0 ex_sending ex_answered 0 (ex_request (Some 0))).
  - reflexivity.
  - vm_compute. reflexivity.
  - apply rtc_once. exact (step_finish 0 (Ok ex_answer) ex_sending).
  - reflexivity.
Defined.

(** Only the creation of bodies looks at the limit of the table: any number of responses can be
    open at once, and they keep bodies from being created. *)
Definition ex_many (n : nat) : HttpState :=
  Nat.iter n (λ s, (send_finish 0 (Ok ex_answer) (send_start (ex_request None) s).1).1) http_new.

Example responses_unlimited :
  size (resources (hs_table (ex_many 150))) = 150%nat ∧
  (op_bl_http_client_stream (ex_many 150)).2 =
    Err "exhausted resource table limit, make sure to close your resources when you're done with them.".
Proof. vm_compute. by split. Qed.

(** Of the values of a repeated header only the last one reaches the script. *)
Example repeated_header_lost :
  response_headers (ha_headers ex_answer) ∅ = Some (<["a" := "3"]> (<["b" := "2"]> ∅)).
Proof. reflexivity. Qed.
