(* ===== verification/OauthClient.v ===== *)
(** The client of Discord's API for logged-in users ([components/discordoauthwrapper/src]:
    [lib.rs], [cache.rs], [twilight_api_provider.rs]), and the world of the web API: the answers
    it gets from the stores, from Discord and from the scheduler, and the calls it makes.

    A client holds a user's bearer token and caches what Discord answered for ten seconds; when
    the token is refused it refreshes it once, and when that fails it is marked broken. *)
From stdpp Require Import base gmap list strings.
From S2P Require Import Prelude Numbers Models WorkerPool Commands World Postgres BucketStore ConfigStore Sessions.

(** * The world of the web API *)

(** [twilight_model::user::CurrentUser] by its id; the rest is only shown. *)
Record LoginUser := mkLoginUser { lu_id : Z; lu_model : JsonValue }.

(** [stores::web::Session] as the web API uses it. *)
Record WebSession := mkWebSession {
  ws_token : string;
  ws_kind : SessionType;
  ws_user : LoginUser;
  ws_access_token : string;
  ws_created_at : Z;
}.

(** [twilight_model::user::CurrentUserGuild] *)
Record UserGuild := mkUserGuild { ug_id : GuildId; ug_permissions : Z; ug_owner : bool }.

(** [oauth2]'s token response: access token, refresh token, seconds it is valid. *)
Record OauthGrant := mkGrant { gr_access : string; gr_refresh : option string; gr_expires_in : option Z }.

(** [twilight_http::Error]: a response with its status and, if it is a ratelimit, the wait. *)
Inductive TwError :=
| TeResponse (status : Z) (ratelimited : option Z)
| TeOther.

(** The client and its provider. *)
Record ApiClient := mkClient {
  ac_user_id : Z;
  ac_bearer : string;
  ac_cached_guilds : option (Z * list UserGuild);
  ac_cached_user : option (Z * LoginUser);
  ac_broken : bool;
}.

(** [axum::extract::ws::Message]; text by its bytes, a close frame by its code and reason. *)
Inductive WsMessage :=
| MText (s : list Z)
| MBinary (b : list Z)
| MPing (d : list Z)
| MPong (d : list Z)
| MClose (frame : option (Z * string)).

(** What a websocket connection's [select!] ended with: an item of one of its log streams or an
    error of it, the end of the last stream, a message or the end of the socket, the ticker. *)
Inductive WsSelected :=
| SelLog (g : GuildId) (item : option LogEntry)
| SelNoStream
| SelRecv (msg : option WsMessage)
| SelTick.

(** [None] in an answer of a store is an error; in an answer of Discord it is a body that could
    not be read. *)
Inductive WResp :=
| WrNow (t : Z)
| WrGuilds (r : result TwError (option (list UserGuild)))
| WrUser (r : result TwError (option LoginUser))
| WrToken (r : option DiscordOauthToken)
| WrGrant (r : option OauthGrant)
| WrTokenSet (ok : bool)
| WrSession (r : option (option WebSession))
| WrSessions (r : option (list WebSession))
| WrNewSession (r : option WebSession)
| WrSessionDeleted (ok : bool)
| WrCsrf (r : option string)
| WrCsrfChecked (r : option bool)
| WrScripts (r : option (list Script))
| WrScript (r : option Script)
| WrScriptDeleted (ok : bool)
| WrMeta (r : option GuildMetaConfig)
| WrSlots (r : option (list PremiumSlot))
| WrSlot (r : option PremiumSlot)
| WrJoined (r : option (list JoinedGuild))
| WrPlugin (r : result ConfigStoreError Plugin)
| WrPlugins (r : option (list Plugin))
| WrPublished (r : option (list GuildId))
| WrRestarted (ok : bool)
| WrSent (ok : bool)
| WrStream (ok : bool)
| WrStreamOrder (ids : list GuildId)
| WrSelect (ended : list GuildId) (sel : WsSelected)
| WrClient (client : ApiClient).

Inductive WebCall :=
| CUserGuilds (u : Z) (bearer : string)
| CCurrentUser (u : Z) (bearer : string)
| CLoginUser (bearer : string)
| CGetToken (u : Z)
| CRefresh (refresh_token : string)
| CExchangeCode (code : string)
| CSetToken (t : DiscordOauthToken)
| CSleep (nanos : Z)
| CGetSession (token : string)
| CGetAllSessions (u : Z)
| CCreateSession (u : Z) (kind : SessionType)
| CLogin (t : DiscordOauthToken) (u : Z)
| CDelSession (token : string)
| CDelAllSessions (u : Z)
| CGenerateCsrf
| CCheckCsrf (token : string)
| CListScripts (g : GuildId)
| CCreateScript (g : GuildId) (c : CreateScript)
| CUpdateScript (g : GuildId) (u : UpdateScript)
| CGetScript (g : GuildId) (id : Z)
| CDelScript (g : GuildId) (name : string)
| CGetMeta (g : GuildId)
| CGuildSlots (g : GuildId)
| CUserSlots (u : Z)
| CAttachSlot (u slot : Z) (g : option GuildId)
| CJoinedGuilds (ids : list GuildId)
| CGetPlugin (id : Z)
| CUserPlugins (u : Z)
| CPublicPlugins
| CCreatePlugin (c : CreatePlugin)
| CUpdatePlugin (id : Z) (u : UpdatePluginMeta)
| CDevVersion (id : Z) (source : string)
| CPublish (id : Z) (source : string)
| CAddPlugin (g : GuildId) (id : Z) (auto_update : bool)
| CRestartVm (g : GuildId)
| CWsSend (m : WsMessage)
| CLogStream (g : GuildId)
| CUsedClient (u : Z) (client : ApiClient).

(** Calls, and the answers that decide what a request may do. *)
Inductive WEv :=
| WAsk (c : WebCall)
| WSawSession (token : string) (s : WebSession)
| WSawGuilds (u : Z) (l : list UserGuild)
| WSawPlugin (id : Z) (p : Plugin)
| WSawCsrf (token : string)
| WSawAttached (u slot : Z) (asked : option GuildId) (s : PremiumSlot)
| WSawPublished (plugin_id : Z) (guilds : list GuildId)
| WSawLog (stream : GuildId) (e : LogEntry)
| WSawClient (u : Z) (client : ApiClient).

Notation wio := (async WResp WEv).

Definition ask {A} (c : WebCall) (f : WResp → option A) : wio A := emit (WAsk c) ;;; await f.
Definition ask_clock : wio Z := await (λ r, match r with WrNow t => Some t | _ => None end).

(** * twilight_api_provider.rs *)

Inductive ApiProviderError :=
| InvalidToken
| Ratelimit (nanos : Z)
| OtherError (e : TwError).

Definition provider_error (te : TwError) : ApiProviderError :=
  match te with
  | TeResponse status ratelimited =>
      if status =? 401 then InvalidToken
      else match ratelimited with
           | Some millis => Ratelimit (millis * 1000000)
           | None => OtherError te
           end
  | TeOther => OtherError te
  end.

Definition new_twilight (user_id : Z) (bearer_token : string) : ApiClient := mkClient user_id bearer_token None None false.

Definition set_cached_guilds (x : Z * list UserGuild) (c : ApiClient) : ApiClient :=
  mkClient (ac_user_id c) (ac_bearer c) (Some x) (ac_cached_user c) (ac_broken c).
Definition set_cached_user (x : Z * LoginUser) (c : ApiClient) : ApiClient :=
  mkClient (ac_user_id c) (ac_bearer c) (ac_cached_guilds c) (Some x) (ac_broken c).
Definition provider_update_token (access_token : string) (c : ApiClient) : ApiClient :=
  mkClient (ac_user_id c) access_token (ac_cached_guilds c) (ac_cached_user c) (ac_broken c).
Definition mark_broken (c : ApiClient) : ApiClient :=
  mkClient (ac_user_id c) (ac_bearer c) (ac_cached_guilds c) (ac_cached_user c) true.

(** A value cached less than ten seconds ago. *)
Definition fresh {A} (cached : option (Z * A)) : wio (option A) :=
  match cached with
  | None => aret None
  | Some (t, a) => let! now := ask_clock in aret (if elapsed now t <? from_secs 10 then Some a else None)
  end.

(** [client.call().await?.model().await.unwrap()], then the cache. *)
Definition fetched {A} (r : result TwError (option A)) (store : Z * A → ApiClient → ApiClient) (c : ApiClient)
    : wio (ApiClient * result ApiProviderError A) :=
  match r with
  | Err te => aret (c, Err (provider_error te))
  | Ok body =>
      let! a := lift (unwrap body) in
      let! now := ask_clock in
      aret (store (now, a) c, Ok a)
  end.

Definition get_current_user (c : ApiClient) : wio (ApiClient * result ApiProviderError LoginUser) :=
  let! cached := fresh (ac_cached_user c) in
  match cached with
  | Some u => aret (c, Ok u)
  | None =>
      let! r := ask (CCurrentUser (ac_user_id c) (ac_bearer c)) (λ r, match r with WrUser x => Some x | _ => None end) in
      fetched r set_cached_user c
  end.

Definition get_user_guilds (c : ApiClient) : wio (ApiClient * result ApiProviderError (list UserGuild)) :=
  let! cached := fresh (ac_cached_guilds c) in
  match cached with
  | Some l => aret (c, Ok l)
  | None =>
      let! r := ask (CUserGuilds (ac_user_id c) (ac_bearer c)) (λ r, match r with WrGuilds x => Some x | _ => None end) in
      match r with
      | Ok (Some l) => emit (WSawGuilds (ac_user_id c) l) ;;; fetched r set_cached_guilds c
      | _ => fetched r set_cached_guilds c
      end
  end.

(** * lib.rs *)

Section oauth_client.
Context `{!Calendar}.

(** [update_token]: [false] when a step fails. *)
Definition update_token (c : ApiClient) : wio (ApiClient * bool) :=
  let! current := ask (CGetToken (ac_user_id c)) (λ r, match r with WrToken x => Some x | _ => None end) in
  match current with
  | None => aret (c, false)
  | Some current =>
      let! grant := ask (CRefresh (oa_refresh_token current)) (λ r, match r with WrGrant x => Some x | _ => None end) in
      match grant with
      | None => aret (c, false)
      | Some gr =>
          let! now := ask_clock in
          let! new_token := lift (oauth_token_new now (ac_user_id c) (gr_access gr) (gr_refresh gr) (gr_expires_in gr)) in
          let! ok := ask (CSetToken new_token) (λ r, match r with WrTokenSet x => Some x | _ => None end) in
          aret (if ok then (provider_update_token (gr_access gr) c, true) else (c, false))
      end
  end.

(** One round of [run_api_check_err]: the call, and what its result leads to; [updated_token] is
    whether the token was refreshed before. *)
Definition api_round {A} (f : ApiClient → wio (ApiClient * result ApiProviderError A)) (cu : ApiClient * bool)
    : wio (ApiClient * bool + ApiClient * option A) :=
  let (c, updated_token) := cu in
  let! (c, r) := f c in
  match r with
  | Ok v => aret (inr (c, Some v))
  | Err InvalidToken =>
      if updated_token then aret (inr (mark_broken c, None))
      else
        let! (c, ok) := update_token c in
        aret (if ok then inl (c, true) else inr (mark_broken c, None))
  | Err (Ratelimit dur) => emit (WAsk (CSleep dur)) ;;; aret (inl (c, updated_token))
  | Err (OtherError _) => aret (inr (c, None))
  end.

Definition run_api_check_err {A} (f : ApiClient → wio (ApiClient * result ApiProviderError A)) (c : ApiClient)
    : wio (ApiClient * option A) := iter (api_round f) (c, false).

Definition current_user (c : ApiClient) : wio (ApiClient * option LoginUser) := run_api_check_err get_current_user c.
Definition current_user_guilds (c : ApiClient) : wio (ApiClient * option (list UserGuild)) := run_api_check_err get_user_guilds c.
End oauth_client.

(** * cache.rs: the least recently used client is dropped over the capacity. *)

Definition CLIENT_CACHE_SIZE : nat := 10000.
Arguments CLIENT_CACHE_SIZE : simpl never.

Definition ClientCache := list (Z * ApiClient).

Definition cache_get (u : Z) (l : ClientCache) : option ApiClient := snd <$> find_first (λ kc, kc.1 =? u) l.
Definition cache_remove (u : Z) (l : ClientCache) : ClientCache := List.filter (λ kc, negb (kc.1 =? u)) l.

(** A used entry is moved to the front. *)
Definition cache_fetch (u : Z) (new : ApiClient) (l : ClientCache) : ApiClient * ClientCache :=
  match cache_get u l with
  | Some c => (c, (u, c) :: cache_remove u l)
  | None => (new, take CLIENT_CACHE_SIZE ((u, new) :: l))
  end.

(** What a request did to the client it shares with the cache. *)
Definition cache_update (u : Z) (c : ApiClient) (l : ClientCache) : ClientCache :=
  (λ kc : Z * ApiClient, if kc.1 =? u then (u, c) else kc) <$> l.

(** * A broken client stays broken *)

(** [m] returns a client that is broken if [c] was. *)
Definition stays_broken {A} (c : ApiClient) (m : wio (ApiClient * A)) : Prop :=
  wp True m (λ x _, ac_broken c = true → ac_broken x.1 = true).

Lemma fetched_broken {A} (r : result TwError (option A)) store c :
  (∀ x c, ac_broken (store x c) = ac_broken c) → stays_broken c (fetched r store c).
Proof.
  intros Hs. unfold fetched, stays_broken. destruct r as [body|te]; [|by apply wp_ret].
  apply wp_bind, wp_lift. destruct body as [a|]; simpl; [|done]. apply wp_bind, wp_await. intros _ now _.
  apply wp_ret. simpl. by rewrite Hs.
Qed.

Lemma fresh_wp {A} (cached : option (Z * A)) (Q : option A → list WEv → Prop) : (∀ o, Q o []) → wp True (fresh cached) Q.
Proof.
  intros HQ. destruct cached as [[t a]|]; simpl; [|by apply wp_ret]. apply wp_bind, wp_await. intros _ now _. by apply wp_ret.
Qed.

Lemma ask_wp {A} c (f : WResp → option A) (Q : A → list WEv → Prop) : (∀ a, Q a [WAsk c]) → wp True (ask c f) Q.
Proof. intros HQ. apply wp_bind, wp_emit, wp_await. intros. apply HQ. Qed.

Lemma abind_ask {A B} c (f : WResp → option A) (k : A → wio B) r a tape :
  f r = Some a → abind (ask c f) k (r :: tape) = prepend [WAsk c] (k a tape).
Proof. intros Hf. unfold ask. rewrite abind_assoc, abind_emit. by rewrite (abind_await _ _ _ a). Qed.

Lemma get_user_guilds_broken c : stays_broken c (get_user_guilds c).
Proof.
  unfold get_user_guilds, stays_broken. apply wp_bind, fresh_wp. intros [l|]; [by apply wp_ret|].
  apply wp_bind, ask_wp. intros r.
  assert (wp True (fetched r set_cached_guilds c) (λ x _, ac_broken c = true → ac_broken x.1 = true)) as Hf by by apply fetched_broken.
  destruct r as [[l|]|te]; [apply wp_bind, wp_emit; exact Hf | exact Hf | exact Hf].
Qed.

Lemma get_current_user_broken c : stays_broken c (get_current_user c).
Proof.
  unfold get_current_user, stays_broken. apply wp_bind, fresh_wp. intros [l|]; [by apply wp_ret|].
  apply wp_bind, ask_wp. intros r. by apply fetched_broken.
Qed.

Section oauth_theorems.
Context `{!Calendar}.

Lemma update_token_broken c : stays_broken c (update_token c).
Proof.
  unfold update_token, stays_broken. apply wp_bind, ask_wp. intros [current|]; [|by apply wp_ret].
  apply wp_bind, ask_wp. intros [gr|]; [|by apply wp_ret]. apply wp_bind, wp_await. intros _ now _.
  apply wp_bind, wp_lift. destruct (oauth_token_new _ _ _ _ _) as [t|]; [|done].
  apply wp_bind, ask_wp. intros []; by apply wp_ret.
Qed.

Lemma run_api_broken {A} (f : ApiClient → wio (ApiClient * result ApiProviderError A)) c :
  (∀ c, stays_broken c (f c)) → stays_broken c (run_api_check_err f c).
Proof.
  intros Hf. apply (wp_iter _ _ (λ cb _, ac_broken c = true → ac_broken cb.1 = true)); [done|].
  intros [c1 b] tr Hc1. simpl in Hc1. unfold api_round. apply wp_bind.
  eapply wp_mono; [apply Hf | done|]. intros [c2 x] tr2 Hc2. simpl in Hc2.
  destruct x as [a|[]]; try (apply wp_ret; simpl; by auto).
  - destruct b; [apply wp_ret; simpl; by auto|]. apply wp_bind. eapply wp_mono; [apply update_token_broken | done|].
    intros [c3 []] tr3 Hc3; apply wp_ret; simpl in *; auto.
  - apply wp_bind, wp_emit, wp_ret. simpl. auto.
Qed.

(** ** The calls of a client *)

(** The events of a client: its requests, and what it learns about its user. *)
Definition client_event (ev : WEv) : Prop :=
  match ev with
  | WAsk (CUserGuilds _ _ | CCurrentUser _ _ | CGetToken _ | CRefresh _ | CSetToken _ | CSleep _) | WSawGuilds _ _ => True
  | _ => False
  end.

Lemma always_ask {A} c (f : WResp → option A) p : p (WAsk c) → always p (ask c f).
Proof. intros Hc. apply always_bind; [by apply always_emit|]. intros. apply always_await. Qed.

Lemma always_fetched {A} (r : result TwError (option A)) store c p : always p (fetched r store c).
Proof.
  destruct r; [|apply always_ret]. apply always_bind; [apply always_lift|]. intros x.
  apply always_bind; [apply always_await|]. intros. apply always_ret.
Qed.

Lemma always_update_token c : always client_event (update_token c).
Proof.
  apply always_bind; [by apply always_ask|]. intros [t|]; [|apply always_ret].
  apply always_bind; [by apply always_ask|]. intros [gr|]; [|apply always_ret].
  apply always_bind; [apply always_await|]. intros now. apply always_bind; [apply always_lift|]. intros nt.
  apply always_bind; [by apply always_ask|]. intros. apply always_ret.
Qed.

Lemma always_user_guilds c : always client_event (current_user_guilds c).
Proof.
  apply always_iter. intros [c1 b]. apply always_bind.
  - unfold get_user_guilds. apply always_bind.
    { destruct (ac_cached_guilds c1) as [[t l]|]; [|apply always_ret]. apply always_bind; [apply always_await|]. intros. apply always_ret. }
    intros [l|]; [apply always_ret|]. apply always_bind; [by apply always_ask|].
    intros [[l|]|te]; try apply always_fetched. apply always_bind; [by apply always_emit|]. intros. apply always_fetched.
  - intros [c2 r]. destruct r as [a|[]]; try apply always_ret.
    + destruct b; [apply always_ret|]. apply always_bind; [apply always_update_token|]. intros [c3 ok]. apply always_ret.
    + apply always_bind; [by apply always_emit|]. intros. apply always_ret.
Qed.

(** ** Refreshing *)

Definition is_refresh (ev : WEv) : bool := match ev with WAsk (CRefresh _) => true | _ => false end.
Definition refreshes (tr : list WEv) : nat := length (List.filter is_refresh tr).

Lemma refreshes_app a b : refreshes (a ++ b) = (refreshes a + refreshes b)%nat.
Proof. unfold refreshes. by rewrite List.filter_app, length_app. Qed.

Lemma get_user_guilds_refreshes c : wp True (get_user_guilds c) (λ _ tr, refreshes tr = 0%nat).
Proof.
  unfold get_user_guilds. apply wp_bind, fresh_wp. intros [l|]; [by apply wp_ret|]. apply wp_bind, ask_wp. intros r.
  assert (∀ r, wp True (fetched r set_cached_guilds c) (λ _ tr, tr = [])) as Hf.
  { intros [body|te]; [|by apply wp_ret]. apply wp_bind, wp_lift. destruct body as [a|]; [|done].
    apply wp_bind, wp_await. intros _ now _. by apply wp_ret. }
  destruct r as [[l|]|te].
  - apply wp_bind, wp_emit. eapply wp_mono; [apply Hf | done|]. by intros ? ? ->.
  - eapply wp_mono; [apply Hf | done|]. by intros ? ? ->.
  - eapply wp_mono; [apply Hf | done|]. by intros ? ? ->.
Qed.

Lemma update_token_refreshes c : wp True (update_token c) (λ _ tr, (refreshes tr ≤ 1)%nat).
Proof.
  unfold update_token. apply wp_bind, ask_wp. intros [current|]; [|apply wp_ret; unfold refreshes; simpl; lia].
  apply wp_bind, ask_wp. intros [gr|]; [|apply wp_ret; unfold refreshes; simpl; lia]. apply wp_bind, wp_await. intros _ now _.
  apply wp_bind, wp_lift. destruct (oauth_token_new _ _ _ _ _) as [t|]; [|done].
  apply wp_bind, ask_wp. intros b. apply wp_ret. unfold refreshes. simpl. lia.
Qed.

(** Listing a user's guilds refreshes the token at most once, however often Discord refuses it or
    asks to wait. *)
Theorem refresh_at_most_once c : wp True (current_user_guilds c) (λ _ tr, (refreshes tr ≤ 1)%nat).
Proof.
  apply (wp_iter _ _ (λ (cb : ApiClient * bool) tr, (refreshes tr ≤ if cb.2 then 1 else 0)%nat)); [done|]. intros [c1 b] tr Hb. simpl in Hb.
  assert (refreshes tr ≤ 1)%nat as Hb' by (destruct b; lia).
  unfold api_round. apply wp_bind. eapply wp_mono; [apply get_user_guilds_refreshes | done|]. intros [c2 x] tr2 Hx.
  destruct x as [a|[]].
  - apply wp_ret. rewrite !refreshes_app, Hx. unfold refreshes in *. simpl. lia.
  - destruct b; [apply wp_ret; rewrite !refreshes_app, Hx; unfold refreshes in *; simpl; lia|]. apply wp_bind.
    eapply wp_mono; [apply update_token_refreshes | done|]. intros [c3 []] tr3 H3; apply wp_ret;
      rewrite !refreshes_app, Hx; unfold refreshes in *; simpl in *; lia.
  - apply wp_bind, wp_emit, wp_ret. rewrite !refreshes_app, Hx. unfold refreshes in *. simpl in *. lia.
  - apply wp_ret. rewrite !refreshes_app, Hx. unfold refreshes in *. simpl. lia.
Qed.

(** A refused token whose refresh fails leaves the client broken. *)
Lemma failed_refresh_breaks u bearer tok :
  current_user_guilds (new_twilight u bearer) [WrGuilds (Err (TeResponse 401 None)); WrToken (Some tok); WrGrant None] =
  Done (mark_broken (new_twilight u bearer), None) []
    [WAsk (CUserGuilds u bearer); WAsk (CGetToken u); WAsk (CRefresh (oa_refresh_token tok))].
Proof. reflexivity. Qed.
End oauth_theorems.
