(* ===== verification/WebApi.v ===== *)
(** The web API ([cmd/webapi/src]: [main.rs], [errors.rs], the middlewares and the routes).

    A request passes the session middleware, which looks up the session of its token; the routes
    under [/api] that need a login refuse requests without one, the routes of a guild need a
    user who may manage the guild, and the routes of a plugin its author. A request is an
    asynchronous program ([serve]) over the answers of the stores, of Discord and of the
    scheduler. The connection behind the websocket route is in [WebSocket]. *)
From stdpp Require Import base gmap list strings.
From S2P Require Import Prelude Numbers Models WorkerPool Commands World Validation Postgres BucketStore ConfigStore Sessions OauthClient.

(** * errors.rs *)

Inductive ApiError :=
| BadCsrfToken
| SessionExpired
| ValidationFailed (errs : list ValidationError)
| InternalError
| NoActiveGuild
| NotGuildAdmin
| ApiPluginNotFound
| NoAccessToPlugin
| UserPluginLimitReached.

(** [public_desc]: the status and the code. *)
Definition public_desc (e : ApiError) : Z * Z :=
  match e with
  | SessionExpired => (400, 1)
  | BadCsrfToken => (400, 2)
  | InternalError => (500, 3)
  | ValidationFailed _ => (400, 4)
  | NoActiveGuild => (400, 5)
  | NotGuildAdmin => (403, 6)
  | NoAccessToPlugin => (403, 7)
  | UserPluginLimitReached => (400, 8)
  | ApiPluginNotFound => (400, 9)
  end.

(** * Requests *)

(** The routes of [main.rs] with their path and body. *)
Inductive GuildRoute :=
| GReloadVm
| GSettings
| GPremiumSlots
| GListScripts
| GCreateScript (name original_source : string) (enabled : bool)
| GUpdateScript (script_id : Z) (name original_source : option string) (enabled : option bool)
| GDeleteScript (script_id : Z)
| GAddPlugin (plugin_id : Z) (auto_update : bool).

Inductive PluginRoute :=
| PUpdateMeta (name short_description long_description : option string) (is_public : option bool)
| PDevSource (new_source : string)
| PPublish (new_source : string).

Inductive AuthRoute :=
| AGuild (guild : Z) (r : GuildRoute)
| AListGuilds
| AUpdateSlot (slot : Z) (guild_id : option GuildId)
| AListSlots
| AGetSessions
| ADelSession (token : string)
| ACreateApiToken
| ADelAllSessions
| ACurrentUser
| AUserPlugins
| ACreatePlugin (name short_description long_description : string)
| APlugin (plugin_id : Z) (r : PluginRoute)
| ALogout.

Inductive Route :=
| RLogin
| RConfirmLogin (code state : string)
| RPublicPlugins
| RGetPlugin (plugin_id : Z)
| RNews
| RWs
| RAuth (r : AuthRoute).

(** [GuildPremiumSlot] *)
Record GuildPremiumSlot := mkGuildSlot {
  gs_id : Z;
  gs_title : string;
  gs_user_id : option Z;
  gs_tier : PremiumSlotTier;
  gs_created_at : Z;
  gs_updated_at : Z;
  gs_expires_at : Z;
  gs_attached_guild_id : option Z;
}.

Definition guild_slot (v : PremiumSlot) : GuildPremiumSlot :=
  mkGuildSlot (slot_id v) (slot_title v) (slot_user_id v) (slot_tier v) (slot_created_at v) (slot_updated_at v)
    (slot_expires_at v) (slot_attached_guild_id v).

Inductive WReply :=
| YEmpty
| YRedirect (csrf_token : string)
| YLoggedIn (user : LoginUser) (token : string)
| YScripts (l : list Script)
| YScript (s : Script)
| YMeta (m : GuildMetaConfig)
| YGuildSlots (l : list GuildPremiumSlot)
| YSlots (l : list PremiumSlot)
| YSlot (s : PremiumSlot)
| YGuilds (l : list (bool * UserGuild))
| YSessionMetas (l : list (SessionType * Z))
| YApiKey (kind : SessionType) (created_at : Z) (token : string)
| YUser (u : LoginUser)
| YPlugins (l : list Plugin)
| YPlugin (p : Plugin)
| YNews
| YUpgrade.

Notation api A := (wio (result ApiError A)).
Definition reply {A} (a : A) : api A := aret (Ok a).
Definition refuse {A} (e : ApiError) : api A := aret (Err e).
(** [.map_err(|err| ApiErrorResponse::InternalError)?] *)
Definition or_internal {A} (o : option A) : api A :=
  match o with
  | Some a => reply a
  | None => refuse InternalError
  end.
Definition checked (b : bool) (e : ApiError) : api unit := if b then reply tt else refuse e.
Definition validated (r : result (list ValidationError) unit) : api unit :=
  match r with
  | Ok _ => reply tt
  | Err verr => refuse (ValidationFailed verr)
  end.
Definition ask_ok {A} (c : WebCall) (f : WResp → option (option A)) : api A :=
  let! r := ask c f in or_internal r.
Definition as_ok (ok : bool) : option unit := if ok then Some tt else None.

Definition wr_script (r : WResp) := match r with WrScript x => Some x | _ => None end.
Definition wr_plugins (r : WResp) := match r with WrPlugins x => Some x | _ => None end.
Definition wr_restarted (r : WResp) := match r with WrRestarted x => Some (as_ok x) | _ => None end.

Section web.
Context `{!Calendar, !Text}.

(** ** middlewares/plugins.rs *)

Definition fetch_plugin (plugin_id : Z) : api Plugin :=
  let! r := ask (CGetPlugin plugin_id) (λ r, match r with WrPlugin x => Some x | _ => None end) in
  match r with
  | Ok p => emit (WSawPlugin plugin_id p) ;;; reply p
  | Err (PluginNotFound _) => refuse ApiPluginNotFound
  | Err _ => refuse InternalError
  end.

Definition is_author (p : Plugin) (s : WebSession) : bool := p_author_id p =? lu_id (ws_user s).

Definition plugin_middleware (plugin_id : Z) (session : option WebSession) : api Plugin :=
  try! plugin := fetch_plugin plugin_id in
  if p_is_public plugin then reply plugin
  else match session with
       | Some s => if is_author plugin s then reply plugin else refuse NoAccessToPlugin
       | None => refuse NoAccessToPlugin
       end.

(** ** middlewares/guild.rs *)

(** [Permissions::ADMINISTRATOR | Permissions::MANAGE_GUILD] *)
Definition may_manage (g : UserGuild) : bool := negb (Z.land (ug_permissions g) (Z.lor 8 32) =? 0).

Definition fetch_guild (client : ApiClient) (guild_id : GuildId) : wio (ApiClient * result ApiError (option UserGuild)) :=
  let! (client, guilds) := current_user_guilds client in
  aret (client, match guilds with
                | Some l => Ok (find_first (λ g, ug_id g =? guild_id) l)
                | None => Err InternalError
                end).

Definition current_guild_injector (client : ApiClient) (guild : Z) : wio (ApiClient * result ApiError (option UserGuild)) :=
  if guild =? 0 then aret (client, Ok None) else fetch_guild client guild.

Definition require_current_guild_admin (g : option UserGuild) : api UserGuild :=
  match g with
  | None => refuse NoActiveGuild
  | Some g => if may_manage g then reply g else refuse NotGuildAdmin
  end.

(** ** routes/vm.rs, scripts.rs, guilds.rs *)

Definition restart_guild_vm (g : GuildId) : api unit := ask_ok (CRestartVm g) wr_restarted.

Definition reload_guild_vm (g : UserGuild) : api WReply := try! _ := restart_guild_vm (ug_id g) in reply YEmpty.

Definition get_all_guild_scripts (g : UserGuild) : api WReply :=
  try! scripts := ask_ok (CListScripts (ug_id g)) (λ r, match r with WrScripts x => Some x | _ => None end) in
  reply (YScripts scripts).

Definition create_guild_script (g : UserGuild) (name original_source : string) (enabled : bool) : api WReply :=
  let cs := mkCreateScript name original_source enabled None None in
  try! _ := validated (validate (Validation.mkCreateScript name original_source)) in
  try! script := ask_ok (CCreateScript (ug_id g) cs) wr_script in
  reply (YScript script).

Definition update_guild_script (g : UserGuild) (script_id : Z) (name original_source : option string) (enabled : option bool) : api WReply :=
  let sc := mkUpdateScript script_id name original_source enabled None in
  try! _ := validated (validate (Validation.mkUpdateScript name original_source)) in
  try! script := ask_ok (CUpdateScript (ug_id g) sc) wr_script in
  reply (YScript script).

Definition delete_guild_script (g : UserGuild) (script_id : Z) : api WReply :=
  try! script := ask_ok (CGetScript (ug_id g) script_id) wr_script in
  try! _ := ask_ok (CDelScript (ug_id g) (script_name script)) (λ r, match r with WrScriptDeleted x => Some (as_ok x) | _ => None end) in
  reply (YScript script).

Definition get_guild_settings (g : UserGuild) : api WReply :=
  try! settings := ask_ok (CGetMeta (ug_id g)) (λ r, match r with WrMeta x => Some x | _ => None end) in
  reply (YMeta settings).

Definition web_get_guild_premium_slots (g : UserGuild) : api WReply :=
  try! slots := ask_ok (CGuildSlots (ug_id g)) (λ r, match r with WrSlots x => Some x | _ => None end) in
  reply (YGuildSlots (guild_slot <$> slots)).

(** ** routes/plugins.rs *)

Definition get_published_public_plugins_route : api WReply :=
  try! plugins := ask_ok CPublicPlugins wr_plugins in reply (YPlugins plugins).

Definition get_user_plugins_route (s : WebSession) : api WReply :=
  try! plugins := ask_ok (CUserPlugins (lu_id (ws_user s))) wr_plugins in reply (YPlugins plugins).

Definition create_plugin_route (s : WebSession) (name short_description long_description : string) : api WReply :=
  let create := mkCreatePlugin name short_description long_description false false (lu_id (ws_user s)) PtScript in
  try! _ := validated (validate (Validation.mkCreatePlugin name short_description long_description)) in
  try! plugins := ask_ok (CUserPlugins (lu_id (ws_user s))) wr_plugins in
  try! _ := checked (bool_decide (length plugins ≤ 50)%nat) UserPluginLimitReached in
  try! plugin := ask_ok (CCreatePlugin create) (λ r, match r with WrPlugin (Ok x) => Some (Some x) | WrPlugin (Err _) => Some None | _ => None end) in
  reply (YPlugin plugin).

Definition wr_plugin (r : WResp) : option (option Plugin) :=
  match r with
  | WrPlugin (Ok x) => Some (Some x)
  | WrPlugin (Err _) => Some None
  | _ => None
  end.

Definition update_plugin_meta_route (s : WebSession) (plugin : Plugin) (name short long : option string) (is_public : option bool) : api WReply :=
  let update := mkUpdatePlugin name short long None None is_public None in
  try! _ := validated (validate (Validation.mkUpdatePlugin name short long)) in
  try! _ := checked (is_author plugin s) NoAccessToPlugin in
  try! plugin := ask_ok (CUpdatePlugin (p_id plugin) update) wr_plugin in
  reply (YPlugin plugin).

(** [UpdatePluginDevSourceRequest], [PublishPluginVersionData] *)
Definition validate_source (new_source : string) : result (list ValidationError) unit :=
  match errs (check_script_source "new_source" new_source ctx_new) with
  | [] => Ok tt
  | l => Err l
  end.

Definition update_plugin_dev_source (s : WebSession) (plugin : Plugin) (new_source : string) : api WReply :=
  try! _ := validated (validate_source new_source) in
  try! _ := checked (is_author plugin s) NoAccessToPlugin in
  try! plugin := ask_ok (CDevVersion (p_id plugin) new_source) wr_plugin in
  reply (YPlugin plugin).

(** A guild's vm that could not be restarted is only logged. *)
Fixpoint restart_all (guilds : list GuildId) : api unit :=
  match guilds with
  | [] => reply tt
  | g :: guilds => let! _ := ask (CRestartVm g) wr_restarted in restart_all guilds
  end.

Definition publish_plugin_version (s : WebSession) (plugin : Plugin) (new_source : string) : api WReply :=
  try! _ := validated (validate_source new_source) in
  try! _ := checked (is_author plugin s) NoAccessToPlugin in
  try! guilds := ask_ok (CPublish (p_id plugin) new_source) (λ r, match r with WrPublished x => Some x | _ => None end) in
  emit (WSawPublished (p_id plugin) guilds) ;;;
  try! _ := restart_all guilds in
  reply YEmpty.

Definition guild_add_plugin (s : WebSession) (g : UserGuild) (plugin_id : Z) (auto_update : bool) : api WReply :=
  try! plugin := fetch_plugin plugin_id in
  try! _ := checked (p_is_public plugin || is_author plugin s) NoAccessToPlugin in
  try! script := ask_ok (CAddPlugin (ug_id g) (p_id plugin) auto_update) wr_script in
  try! _ := restart_guild_vm (ug_id g) in
  reply (YScript script).

(** ** routes/premium.rs, sessions.rs, general.rs *)

Definition list_user_premium_slots (s : WebSession) : api WReply :=
  try! slots := ask_ok (CUserSlots (lu_id (ws_user s))) (λ r, match r with WrSlots x => Some x | _ => None end) in
  reply (YSlots slots).

Definition update_premium_slot_guild (s : WebSession) (slot : Z) (guild_id : option GuildId) : api WReply :=
  try! res := ask_ok (CAttachSlot (lu_id (ws_user s)) slot guild_id) (λ r, match r with WrSlot x => Some x | _ => None end) in
  emit (WSawAttached (lu_id (ws_user s)) slot guild_id res) ;;;
  try! _ := match slot_attached_guild_id res with
            | Some g => restart_guild_vm g
            | None => reply tt
            end in
  reply (YSlot res).

Definition wr_session (r : WResp) := match r with WrSession x => Some x | _ => None end.
Definition wr_deleted (r : WResp) := match r with WrSessionDeleted x => Some (as_ok x) | _ => None end.

Definition get_all_sessions_route (s : WebSession) : api WReply :=
  try! l := ask_ok (CGetAllSessions (lu_id (ws_user s))) (λ r, match r with WrSessions x => Some x | _ => None end) in
  reply (YSessionMetas ((λ x, (ws_kind x, ws_created_at x)) <$> l)).

Definition create_api_token (s : WebSession) : api WReply :=
  try! x := ask_ok (CCreateSession (lu_id (ws_user s)) ApiKey) (λ r, match r with WrNewSession x => Some x | _ => None end) in
  reply (YApiKey (ws_kind x) (ws_created_at x) (ws_token x)).

Definition saw_session (token : string) (o : option WebSession) : wio unit :=
  match o with
  | Some s => emit (WSawSession token s)
  | None => aret tt
  end.

Definition del_session_route (s : WebSession) (token : string) : api WReply :=
  try! deleting := ask_ok (CGetSession token) wr_session in
  saw_session token deleting ;;;
  try! _ := checked (match deleting with
                     | Some d => lu_id (ws_user d) =? lu_id (ws_user s)
                     | None => false
                     end) InternalError in
  try! _ := ask_ok (CDelSession token) wr_deleted in
  reply YEmpty.

Definition del_all_sessions_route (s : WebSession) : api WReply :=
  try! _ := ask_ok (CDelAllSessions (lu_id (ws_user s))) wr_deleted in reply YEmpty.

(** ** routes/auth.rs *)

Definition handle_login : api WReply :=
  try! token := ask_ok CGenerateCsrf (λ r, match r with WrCsrf x => Some x | _ => None end) in reply (YRedirect token).

Definition handle_confirm_login (code state : string) : api WReply :=
  try! valid := ask_ok (CCheckCsrf state) (λ r, match r with WrCsrfChecked x => Some x | _ => None end) in
  if valid then
    emit (WSawCsrf state) ;;;
    try! gr := ask_ok (CExchangeCode code) (λ r, match r with WrGrant x => Some x | _ => None end) in
    try! user := ask_ok (CLoginUser (gr_access gr)) (λ r, match r with WrUser (Ok x) => Some x | WrUser (Err _) => Some None | _ => None end) in
    let! now := ask_clock in
    let! t := lift (oauth_token_new now (lu_id user) (gr_access gr) (gr_refresh gr) (gr_expires_in gr)) in
    try! s := ask_ok (CLogin t (lu_id user)) (λ r, match r with WrNewSession x => Some x | _ => None end) in
    reply (YLoggedIn user (ws_token s))
  else refuse BadCsrfToken.

Definition handle_logout (s : WebSession) : api WReply :=
  try! _ := ask_ok (CDelSession (ws_token s)) wr_deleted in reply YEmpty.

(** ** The router of main.rs *)

Definition guild_route (s : WebSession) (g : UserGuild) (r : GuildRoute) : api WReply :=
  match r with
  | GReloadVm => reload_guild_vm g
  | GSettings => get_guild_settings g
  | GPremiumSlots => web_get_guild_premium_slots g
  | GListScripts => get_all_guild_scripts g
  | GCreateScript name source enabled => create_guild_script g name source enabled
  | GUpdateScript id name source enabled => update_guild_script g id name source enabled
  | GDeleteScript id => delete_guild_script g id
  | GAddPlugin id auto => guild_add_plugin s g id auto
  end.

Definition plugin_route (s : WebSession) (p : Plugin) (r : PluginRoute) : api WReply :=
  match r with
  | PUpdateMeta name short long public => update_plugin_meta_route s p name short long public
  | PDevSource source => update_plugin_dev_source s p source
  | PPublish source => publish_plugin_version s p source
  end.

(** The routes that call Discord change the client, which the cache shares. *)
Definition keep {A} (c : ApiClient) (m : wio A) : wio (ApiClient * A) := let! a := m in aret (c, a).

Definition list_user_guilds_route (client : ApiClient) : wio (ApiClient * result ApiError WReply) :=
  let! (client, guilds) := current_user_guilds client in
  keep client
    (try! l := or_internal guilds in
     try! joined := ask_ok (CJoinedGuilds (ug_id <$> l)) (λ r, match r with WrJoined x => Some x | _ => None end) in
     reply (YGuilds ((λ g, (existsb (λ e, jg_id e =? ug_id g) joined, g)) <$> l))).

Definition auth_route (s : WebSession) (client : ApiClient) (r : AuthRoute) : wio (ApiClient * result ApiError WReply) :=
  match r with
  | AGuild guild r =>
      let! (client, g) := current_guild_injector client guild in
      keep client
        (match g with
         | Err e => refuse e
         | Ok g => try! g := require_current_guild_admin g in guild_route s g r
         end)
  | AListGuilds => list_user_guilds_route client
  | AUpdateSlot slot g => keep client (update_premium_slot_guild s slot g)
  | AListSlots => keep client (list_user_premium_slots s)
  | AGetSessions => keep client (get_all_sessions_route s)
  | ADelSession token => keep client (del_session_route s token)
  | ACreateApiToken => keep client (create_api_token s)
  | ADelAllSessions => keep client (del_all_sessions_route s)
  | ACurrentUser =>
      let! (client, u) := current_user client in
      keep client (try! u := or_internal u in reply (YUser u))
  | AUserPlugins => keep client (get_user_plugins_route s)
  | ACreatePlugin name short long => keep client (create_plugin_route s name short long)
  | APlugin id r => keep client (try! p := plugin_middleware id (Some s) in plugin_route s p r)
  | ALogout => keep client (handle_logout s)
  end.

(** The session and the client behind the middlewares, when there is a session. *)
Definition route (login : option (WebSession * ApiClient)) (r : Route) : wio (option ApiClient * result ApiError WReply) :=
  let client := snd <$> login in
  let plain (m : api WReply) := let! a := m in aret (client, a) in
  match r with
  | RLogin => plain handle_login
  | RConfirmLogin code state => plain (handle_confirm_login code state)
  | RPublicPlugins => plain get_published_public_plugins_route
  | RGetPlugin id => plain (try! p := plugin_middleware id (fst <$> login) in reply (YPlugin p))
  | RNews => plain (reply YNews)
  | RWs => plain (reply YUpgrade)
  | RAuth r =>
      match login with
      | None => plain (refuse SessionExpired)
      | Some (s, client) => let! (client, a) := auth_route s client r in aret (Some client, a)
      end
  end.

(** ** middlewares/mw_session.rs *)

(** A request with its [Authorization] header: absent, not text, or a token. *)
Inductive AuthHeader := HNone | HInvalid | HToken (t : string).

(** [SessionMiddleware::call] around the routes: the cache of clients before and after. *)
Definition serve (header : AuthHeader) (r : Route) (cache : ClientCache) : wio (ClientCache * result ApiError WReply) :=
  match header with
  | HInvalid => aret (cache, Err InternalError)
  | HNone => let! (_, a) := route None r in aret (cache, a)
  | HToken t =>
      let! found := ask (CGetSession t) wr_session in
      match found with
      | None => aret (cache, Err InternalError)
      | Some None => let! (_, a) := route None r in aret (cache, a)
      | Some (Some s) =>
          emit (WSawSession t s) ;;;
          let u := lu_id (ws_user s) in
          let (client, cache) := cache_fetch u (new_twilight u (ws_access_token s)) cache in
          let! (client', a) := route (Some (s, client)) r in
          let client' := default client client' in
          let cache := cache_update u client' cache in
          (if ac_broken client' then let! _ := ask (CDelAllSessions u) wr_deleted in aret tt else aret tt) ;;;
          aret (cache, a)
      end
  end.
End web.

(** ** middlewares/cors.rs *)

Definition starts_with (p s : string) : bool := bool_decide (String.substring 0 (String.length p) s = p).

Definition is_origin_allowed (origin prod_origin : string) : bool :=
  bool_decide (origin = prod_origin) ||
  bool_decide (origin = "http://localhost") || starts_with "http://localhost:" origin ||
  bool_decide (origin = "https://localhost") || starts_with "https://localhost:" origin.

Example origins :
  is_origin_allowed "https://botloader.io" "https://botloader.io" = true ∧
  is_origin_allowed "https://banana.io" "https://botloader.io" = false ∧
  is_origin_allowed "https://localhost:3000" "https://botloader.io" = true ∧
  is_origin_allowed "http://localhost.banana.io" "https://botloader.io" = false.
Proof. vm_compute. done. Qed.

(** * Access control *)

Section access.
Context `{!Calendar, !Text}.
(** What is so: whose session a token is, which guilds Discord lists for a user, who wrote a
    plugin and whether it is public, the CSRF tokens that were handed out, whose a premium slot is
    and which guilds have a plugin. *)
Context (session_of : string → option Z) (guilds_of : Z → list UserGuild).
Context (author_of : Z → Z) (public : Z → bool) (csrf_issued : string → Prop).
Context (slot_owner : Z → option Z) (has_plugin : Z → GuildId → Prop).

(** What a client has cached is what Discord answered for its user. *)
Definition client_ok (u : Z) (c : ApiClient) : Prop :=
  ac_user_id c = u ∧ ∀ t l, ac_cached_guilds c = Some (t, l) → guilds_of u = l.

(** The answers are true. *)
Definition truthful (ev : WEv) : Prop :=
  match ev with
  | WSawSession t s => session_of t = Some (lu_id (ws_user s)) ∧ ws_token s = t
  | WSawGuilds u l => guilds_of u = l
  | WSawPlugin id p => p_id p = id ∧ author_of id = p_author_id p ∧ public id = p_is_public p
  | WSawCsrf t => csrf_issued t
  | WSawAttached u slot g s => slot_owner slot = Some u ∧ slot_attached_guild_id s = g
  | WSawPublished id guilds => Forall (has_plugin id) guilds
  | WSawLog g e => le_guild_id e = g
  | WSawClient u c => client_ok u c
  | WAsk _ => True
  end.

Definition manages (u : Z) (g : GuildId) : Prop := ∃ x, x ∈ guilds_of u ∧ ug_id x = g ∧ may_manage x = true.
(** The websocket route also admits the owner. *)
Definition reads_logs (u : Z) (g : GuildId) : Prop :=
  ∃ x, x ∈ guilds_of u ∧ ug_id x = g ∧ may_manage x || ug_owner x = true.

(** The guilds whose vm a request may restart. Under a guild's path it is that guild, which the
    user must manage. Attaching a slot restarts the guild it is attached to: the slot must be the
    user's own, but nothing is asked of the guild. Publishing a plugin is for its author and
    restarts the guilds that have it. No other route restarts anything. *)
Definition may_restart (me : option Z) (r : Route) (g : GuildId) : Prop :=
  match r with
  | RAuth (AGuild guild _) => g = guild ∧ ∃ u, me = Some u ∧ manages u g
  | RAuth (AUpdateSlot slot guild) => guild = Some g ∧ ∃ u, me = Some u ∧ slot_owner slot = Some u
  | RAuth (APlugin id _) => me = Some (author_of id) ∧ has_plugin id g
  | _ => False
  end.

(** What the user [me] of a request [r] may have done. *)
Definition allowed (me : option Z) (r : Route) (c : WebCall) : Prop :=
  match c with
  | CUserGuilds u _ | CCurrentUser u _ | CGetToken u | CGetAllSessions u | CCreateSession u _ | CDelAllSessions u
  | CUserSlots u | CUserPlugins u => me = Some u
  | CAttachSlot u slot g => me = Some u ∧ r = RAuth (AUpdateSlot slot g)
  | CSetToken t => me = Some (oa_user_id t)
  | CCreatePlugin c => me = Some (cp_author_id c) ∧ cp_is_official c = false ∧ cp_is_public c = false
  | CListScripts g | CCreateScript g _ | CUpdateScript g _ | CGetScript g _ | CDelScript g _ | CGetMeta g | CGuildSlots g =>
      ∃ u, me = Some u ∧ manages u g
  | CAddPlugin g id _ => ∃ u, me = Some u ∧ manages u g ∧ (public id = true ∨ author_of id = u)
  | CUpdatePlugin id u => me = Some (author_of id) ∧ up_is_official u = None ∧ up_author_id u = None
  | CDevVersion id _ | CPublish id _ => me = Some (author_of id)
  | CDelSession t => ∃ u, me = Some u ∧ session_of t = Some u
  | CLogin t u => oa_user_id t = u ∧ ∃ code state, r = RConfirmLogin code state ∧ csrf_issued state
  | CExchangeCode _ | CLoginUser _ => ∃ code state, r = RConfirmLogin code state ∧ csrf_issued state
  | CRestartVm g => may_restart me r g
  | CJoinedGuilds ids => ∃ u, me = Some u ∧ ids = ug_id <$> guilds_of u
  | CLogStream g => r = RWs ∧ ∃ u, me = Some u ∧ reads_logs u g
  | CUsedClient u c => me = Some u ∧ client_ok u c
  | CWsSend _ => r = RWs
  | CGetSession _ | CGenerateCsrf | CCheckCsrf _ | CGetPlugin _ | CPublicPlugins | CRefresh _ | CSleep _ => True
  end.

Definition permitted (me : option Z) (r : Route) (ev : WEv) : Prop :=
  match ev with
  | WAsk c => allowed me r c
  | _ => True
  end.

Definition cache_ok (l : ClientCache) : Prop := Forall (λ kc, client_ok kc.1 kc.2) l.

Section request.
Context (me : option Z) (r : Route).
Notation secure := (guarded truthful (permitted me r)).

Lemma secure_ask {A} c (f : WResp → option A) : allowed me r c → secure (ask c f) (λ _, True).
Proof. intros Hc. eapply (guarded_bind _ _ _ _ (λ _, True)); [by apply guarded_emit|]. intros. apply guarded_await. Qed.

Lemma secure_or_internal {A} (o : option A) : secure (or_internal o) (on_ok (λ a, o = Some a)).
Proof. by destruct o; apply guarded_ret. Qed.

Lemma secure_ask_ok {A} c (f : WResp → option (option A)) : allowed me r c → secure (ask_ok c f) (on_ok (λ _, True)).
Proof.
  intros Hc. eapply guarded_bind; [by apply secure_ask|]. intros o _.
  eapply guarded_mono; [apply secure_or_internal|]. by intros [?|?].
Qed.

Lemma secure_checked b e : secure (checked b e) (on_ok (λ _, b = true)).
Proof. by destruct b; apply guarded_ret. Qed.

Lemma secure_validated x : secure (validated x) (on_ok (λ _, True)).
Proof. by destruct x; apply guarded_ret. Qed.

Lemma secure_fetch_plugin id :
  secure (fetch_plugin id) (on_ok (λ p, p_id p = id ∧ author_of id = p_author_id p ∧ public id = p_is_public p)).
Proof.
  eapply guarded_bind; [by apply secure_ask|]. intros [p|[]] _; try (by apply guarded_ret).
  eapply (guarded_bind _ _ _ _ (λ _, truthful (WSawPlugin id p))); [by apply guarded_emit|]. intros _ Hp. by apply guarded_ret.
Qed.

(** The routes of a logged-in user. *)
Section logged_in.
Context (s : WebSession) (Hme : me = Some (lu_id (ws_user s))).
Context (Htoken : session_of (ws_token s) = Some (lu_id (ws_user s))).

Lemma secure_restart g : may_restart me r g → secure (restart_guild_vm g) (on_ok (λ _, True)).
Proof. intros Hg. by apply secure_ask_ok. Qed.

Lemma secure_restart_all l : Forall (may_restart me r) l → secure (restart_all l) (on_ok (λ _, True)).
Proof.
  induction 1 as [|g l Hg Hl IH]; simpl; [by apply guarded_ret|].
  eapply guarded_bind; [by apply secure_ask|]. intros _ _. exact IH.
Qed.

Lemma author_is_me p id :
  is_author p s = true → p_id p = id ∧ author_of id = p_author_id p ∧ public id = p_is_public p → me = Some (author_of (p_id p)).
Proof. unfold is_author. intros Ha%Z.eqb_eq (Hid & Hp & _). rewrite Hid. congruence. Qed.

(** The user of the session does what it may do. *)
Ltac secure_side := simpl; first
  [ done | by rewrite Hme | (rewrite Hme; by eauto) | (split; [done | by eauto]) | (eapply author_is_me; [done | split_and!; by eauto])
  | (split_and!; [eapply author_is_me; [done | split_and!; by eauto] | done..]) | by eauto ].

Ltac secure_tac :=
  repeat match goal with
  | |- guarded _ _ (reply _) _ => apply guarded_ret; exact I
  | |- guarded _ _ (refuse _) _ => apply guarded_ret; exact I
  | |- guarded _ _ (abindr (fetch_plugin _) _) _ => eapply guarded_bindr; [apply secure_fetch_plugin | intros ? (? & ? & ?)]
  | |- guarded _ _ (abindr (checked _ _) _) _ => eapply guarded_bindr; [apply secure_checked | intros ? ?; cbv beta in *]
  | |- guarded _ _ (abindr (or_internal _) _) _ => eapply guarded_bindr; [apply secure_or_internal | intros ? ?; cbv beta in *]
  | |- guarded _ _ (abindr _ _) _ => eapply (guarded_bindr _ _ _ _ (λ _, True)); [|intros ? _]
  | |- guarded _ _ (ask_ok _ _) _ => apply secure_ask_ok; secure_side
  | |- guarded _ _ (validated _) _ => apply secure_validated
  | |- guarded _ _ (restart_guild_vm _) _ => apply secure_restart; secure_side
  | |- guarded _ _ (restart_all _) _ => apply secure_restart_all; secure_side
  | |- guarded _ _ (match ?x with _ => _ end) _ => destruct x eqn:?
  end.

Lemma secure_guild_route g gr :
  r = RAuth (AGuild (ug_id g) gr) → manages (lu_id (ws_user s)) (ug_id g) → secure (guild_route s g gr) (on_ok (λ _, True)).
Proof.
  intros Hr Hg. assert (∃ u, me = Some u ∧ manages u (ug_id g)) as Hm by eauto.
  assert (may_restart me r (ug_id g)) as Hrs by (rewrite Hr; by split).
  destruct gr; unfold guild_route, reload_guild_vm, get_guild_settings, web_get_guild_premium_slots, get_all_guild_scripts,
    create_guild_script, update_guild_script, delete_guild_script, guild_add_plugin; cbv zeta; secure_tac.
  apply secure_ask_ok. simpl. exists (lu_id (ws_user s)). split_and!; [done..|]. subst.
  match goal with Ho : _ || _ = true |- _ => apply orb_true_iff in Ho as [Ho|Ho] end; [left; congruence|right].
  unfold is_author in *. rewrite Z.eqb_eq in *. congruence.
Qed.

Lemma secure_plugin_middleware id o :
  secure (plugin_middleware id o) (on_ok (λ p, p_id p = id ∧ author_of id = p_author_id p ∧ public id = p_is_public p)).
Proof.
  eapply guarded_bindr; [apply secure_fetch_plugin|]. intros p Hp. cbv beta in *.
  repeat match goal with |- guarded _ _ (match ?x with _ => _ end) _ => destruct x eqn:? end; apply guarded_ret; simpl; congruence || done.
Qed.

Lemma secure_plugin_route id p pr :
  r = RAuth (APlugin id pr) → p_id p = id ∧ author_of id = p_author_id p ∧ public id = p_is_public p →
  secure (plugin_route s p pr) (on_ok (λ _, True)).
Proof.
  intros Hr (? & ? & ?). destruct pr; unfold plugin_route, update_plugin_meta_route, update_plugin_dev_source, publish_plugin_version;
    cbv zeta; secure_tac.
  match goal with |- guarded _ _ (_ (emit (WSawPublished _ ?l)) _) _ =>
    eapply (guarded_bind _ _ _ _ (λ _, Forall (has_plugin (p_id p)) l)); [by apply guarded_emit|] end.
  intros _ Hl. cbv beta in *. eapply (guarded_bindr _ _ _ _ (λ _, True)); [|intros; by apply guarded_ret]. apply secure_restart_all.
  eapply Forall_impl; [exact Hl|]. intros g Hg. rewrite Hr. subst id. split; [|done].
  eapply author_is_me; [done | by split_and!].
Qed.

Lemma secure_update_slot slot g : r = RAuth (AUpdateSlot slot g) → secure (update_premium_slot_guild s slot g) (on_ok (λ _, True)).
Proof.
  intros Hr. unfold update_premium_slot_guild. eapply (guarded_bindr _ _ _ _ (λ _, True)); [by apply secure_ask_ok|]. intros res _.
  eapply (guarded_bind _ _ _ _ (λ _, truthful (WSawAttached (lu_id (ws_user s)) slot g res))); [by apply guarded_emit|].
  intros _ [Ho Hg]. eapply (guarded_bindr _ _ _ _ (λ _, True)); [|intros; by apply guarded_ret].
  destruct (slot_attached_guild_id res) as [g'|] eqn:Hres; [|by apply guarded_ret]. apply secure_restart.
  rewrite Hr. split; [done|]. by eauto.
Qed.

Lemma secure_del_session t : secure (del_session_route s t) (on_ok (λ _, True)).
Proof.
  unfold del_session_route. eapply (guarded_bindr _ _ _ _ (λ _, True)); [by apply secure_ask_ok|]. intros d _.
  eapply (guarded_bind _ _ _ _ (λ _, ∀ x, d = Some x → session_of t = Some (lu_id (ws_user x)))).
  { destruct d as [x|]; simpl; [apply guarded_emit | by apply guarded_ret]. simpl. intros [Hx _]. split; [done|]. by intros ? [= <-]. }
  intros _ Hd. cbv beta in *. eapply guarded_bindr; [apply secure_checked|]. intros ? Hu. cbv beta in *.
  destruct d as [x|]; [|done]. apply Z.eqb_eq in Hu. specialize (Hd x eq_refl). secure_tac.
  apply secure_ask_ok. simpl. exists (lu_id (ws_user s)). split; [done | congruence].
Qed.

(** ** The client of the session's user *)

Notation u := (lu_id (ws_user s)).

Lemma secure_clock : secure ask_clock (λ _, True).
Proof. apply guarded_await. Qed.

Lemma secure_fresh {A} (cached : option (Z * A)) : secure (fresh cached) (λ o, ∀ a, o = Some a → ∃ t, cached = Some (t, a)).
Proof.
  destruct cached as [[t a]|]; simpl; [|by apply guarded_ret]. eapply guarded_bind; [apply secure_clock|]. intros now _.
  apply guarded_ret. intros b. destruct (elapsed now t <? from_secs 10); [|done]. intros [= ->]. eauto.
Qed.

Lemma secure_fetched {A} (x : result TwError (option A)) store c (P : ApiClient * result ApiProviderError A → Prop) :
  (∀ e, P (c, Err e)) → (∀ a now, x = Ok (Some a) → P (store (now, a) c, Ok a)) → secure (fetched x store c) P.
Proof.
  intros He Hok. destruct x as [[a|]|te]; simpl; [| |by apply guarded_ret].
  - eapply guarded_bind; [by apply (guarded_ret _ _ a (λ b, b = a))|]. intros ? ->.
    eapply guarded_bind; [apply secure_clock|]. intros now _. by apply guarded_ret, Hok.
  - intros tape _. by split; [constructor|].
Qed.

Lemma secure_get_user_guilds c :
  client_ok u c →
  secure (get_user_guilds c) (λ cr, client_ok u cr.1 ∧ on_ok (λ l, guilds_of u = l) cr.2).
Proof.
  intros [Hu Hc]. unfold get_user_guilds. eapply guarded_bind; [apply secure_fresh|]. intros [l|] Hf; cbv beta in *.
  { apply guarded_ret. split; [done|]. simpl. destruct (Hf l eq_refl) as [t Ht]. eauto. }
  eapply guarded_bind; [apply secure_ask; simpl; congruence|]. intros x _.
  assert (∀ x, (∀ l, x = Ok (Some l) → guilds_of u = l) →
    secure (fetched x set_cached_guilds c) (λ cr, client_ok u cr.1 ∧ on_ok (λ l, guilds_of u = l) cr.2)) as Hfetch.
  { intros y Hy. apply secure_fetched; [done|]. intros l now ->. simpl. specialize (Hy l eq_refl).
    split; [|done]. split; simpl; [done|]. by intros ? ? [= <- <-]. }
  destruct x as [[l|]|te]; try (by apply Hfetch).
  eapply (guarded_bind _ _ _ _ (λ _, guilds_of u = l)); [apply guarded_emit; simpl; rewrite Hu; by auto|].
  intros _ Hl. apply Hfetch. by intros ? [= <-].
Qed.

Lemma secure_get_current_user c : client_ok u c → secure (get_current_user c) (λ cr, client_ok u cr.1).
Proof.
  intros [Hu Hc]. unfold get_current_user. eapply guarded_bind; [apply secure_fresh|]. intros [l|] _; [by apply guarded_ret|].
  eapply guarded_bind; [apply secure_ask; simpl; congruence|]. intros x _. by apply secure_fetched.
Qed.

Lemma secure_update_token c : client_ok u c → secure (update_token c) (λ cb, client_ok u cb.1).
Proof.
  intros [Hu Hc]. unfold update_token. eapply guarded_bind; [apply secure_ask; simpl; congruence|].
  intros [current|] _; [|by apply guarded_ret]. eapply guarded_bind; [by apply secure_ask|].
  intros [gr|] _; [|by apply guarded_ret]. eapply guarded_bind; [apply secure_clock|]. intros now _.
  destruct (oauth_token_new now (ac_user_id c) (gr_access gr) (gr_refresh gr) (gr_expires_in gr)) as [t|] eqn:Ht;
    [|intros tape _; by split; [constructor|]].
  assert (oa_user_id t = u) as Htu.
  { unfold oauth_token_new in Ht. destruct (unwrap _) as [d|]; [|done]. simpl in Ht.
    destruct (dt_add now d) as [e|]; [|done]. simpl in Ht. by injection Ht as <-. }
  eapply guarded_bind; [by apply (guarded_ret _ _ t (λ x, x = t))|]. intros ? ->.
  eapply guarded_bind; [apply secure_ask; simpl; congruence|]. intros [] _; by apply guarded_ret.
Qed.

Lemma secure_run_api {A} (f : ApiClient → wio (ApiClient * result ApiProviderError A)) (P : A → Prop) c :
  (∀ c, client_ok u c → secure (f c) (λ cr, client_ok u cr.1 ∧ on_ok P cr.2)) → client_ok u c →
  secure (run_api_check_err f c) (λ cr, client_ok u cr.1 ∧ ∀ a, cr.2 = Some a → P a).
Proof.
  intros Hf Hc. apply (guarded_iter _ _ _ (λ cb, client_ok u cb.1)); [done|]. intros [c1 b] Hc1. simpl in Hc1.
  unfold api_round. eapply guarded_bind; [by apply Hf|]. intros [c2 x] [Hc2 Hx]. simpl in *.
  destruct x as [a|[]]; [apply guarded_ret; simpl; split; [done|]; by intros ? [= <-] | | |by apply guarded_ret].
  - destruct b; [by apply guarded_ret|]. eapply guarded_bind; [by apply secure_update_token|].
    intros [c3 []] Hc3; by apply guarded_ret.
  - eapply (guarded_bind _ _ _ _ (λ _, True)); [by apply guarded_emit|]. intros _ _. by apply guarded_ret.
Qed.

Lemma secure_user_guilds c :
  client_ok u c → secure (current_user_guilds c) (λ cr, client_ok u cr.1 ∧ ∀ l, cr.2 = Some l → guilds_of u = l).
Proof. apply secure_run_api, secure_get_user_guilds. Qed.

Lemma secure_current_user c : client_ok u c → secure (current_user c) (λ cr, client_ok u cr.1 ∧ ∀ l, cr.2 = Some l → True).
Proof.
  apply secure_run_api. intros c' Hc'. eapply guarded_mono; [by apply secure_get_current_user|].
  intros [c2 []] ?; by split.
Qed.

(** ** All routes *)

Lemma secure_keep {A} c (m : wio A) P : client_ok u c → secure m P → secure (keep c m) (λ ca, client_ok u ca.1).
Proof. intros Hc Hm. eapply guarded_bind; [exact Hm|]. intros. by apply guarded_ret. Qed.

Lemma secure_auth_route c ar : r = RAuth ar → client_ok u c → secure (auth_route s c ar) (λ ca, client_ok u ca.1).
Proof.
  intros Hr Hc. destruct ar as [guild gr| | | | |t| | | | | |id pr|]; simpl.
  - unfold current_guild_injector. eapply (guarded_bind _ _ _ _ (λ cg, client_ok u cg.1 ∧
      on_ok (λ o, ∀ g, o = Some g → g ∈ guilds_of u ∧ ug_id g = guild) cg.2)).
    + destruct (Z.eqb_spec guild 0); [by apply guarded_ret|]. unfold fetch_guild.
      eapply guarded_bind; [by apply secure_user_guilds|]. intros [c' [l|]] [Hc' Hl]; apply guarded_ret; simpl in *; [|done].
      split; [done|]. intros g [Hg Hid]%find_first_Some. rewrite (Hl l eq_refl). apply Z.eqb_eq in Hid. done.
    + intros [c' o] [Hc' Ho]. simpl in *. apply (secure_keep _ _ (on_ok (λ _, True))); [done|].
      destruct o as [o|e]; [|by apply guarded_ret]. simpl in Ho. eapply (guarded_bindr _ _ _ _ (λ g, manages u (ug_id g) ∧ ug_id g = guild)).
      * destruct o as [g|]; simpl; [|by apply guarded_ret]. destruct (may_manage g) eqn:Hg; apply guarded_ret; simpl; [|done].
        destruct (Ho g eq_refl). split; [by exists g | done].
      * intros g [Hg Hid]. apply secure_guild_route; [by rewrite Hid|done].
  - eapply guarded_bind; [by apply secure_user_guilds|]. intros [c' l] [Hc' Hl]. simpl in *.
    apply (secure_keep _ _ (on_ok (λ _, True))); [done|]. secure_tac.
    apply secure_ask_ok. exists u. split; [done|]. by rewrite (Hl _ ltac:(eassumption)).
  - apply (secure_keep _ _ (on_ok (λ _, True))); [done|]. by apply secure_update_slot.
  - apply (secure_keep _ _ (on_ok (λ _, True))); [done|]. unfold list_user_premium_slots. secure_tac.
  - apply (secure_keep _ _ (on_ok (λ _, True))); [done|]. unfold get_all_sessions_route. secure_tac.
  - eapply secure_keep; [done|]. apply secure_del_session.
  - apply (secure_keep _ _ (on_ok (λ _, True))); [done|]. unfold create_api_token. secure_tac.
  - apply (secure_keep _ _ (on_ok (λ _, True))); [done|]. unfold del_all_sessions_route. secure_tac.
  - eapply guarded_bind; [by apply secure_current_user|]. intros [c' x] [Hc' _]. simpl in *.
    apply (secure_keep _ _ (on_ok (λ _, True))); [done|]. secure_tac.
  - apply (secure_keep _ _ (on_ok (λ _, True))); [done|]. unfold get_user_plugins_route. secure_tac.
  - apply (secure_keep _ _ (on_ok (λ _, True))); [done|]. unfold create_plugin_route. cbv zeta. secure_tac.
  - apply (secure_keep _ _ (on_ok (λ _, True))); [done|].
    eapply guarded_bindr; [apply secure_plugin_middleware|]. intros p Hp. by eapply secure_plugin_route.
  - apply (secure_keep _ _ (on_ok (λ _, True))); [done|]. unfold handle_logout. secure_tac.
Qed.
End logged_in.

Lemma secure_confirm_login code state : r = RConfirmLogin code state → secure (handle_confirm_login code state) (on_ok (λ _, True)).
Proof.
  intros Hr. unfold handle_confirm_login. eapply (guarded_bindr _ _ _ _ (λ _, True)); [by apply secure_ask_ok|]. intros [] _; [|by apply guarded_ret].
  eapply (guarded_bind _ _ _ _ (λ _, csrf_issued state)); [by apply guarded_emit|]. intros ? Hcsrf. cbv beta in *.
  eapply (guarded_bindr _ _ _ _ (λ _, True)); [apply secure_ask_ok; simpl; by eauto|]. intros gr _.
  eapply (guarded_bindr _ _ _ _ (λ _, True)); [apply secure_ask_ok; simpl; by eauto|]. intros user _.
  eapply guarded_bind; [apply guarded_await|]. intros now _.
  destruct (oauth_token_new now (lu_id user) (gr_access gr) (gr_refresh gr) (gr_expires_in gr)) as [t|] eqn:Ht;
    [|intros tape _; by split; [constructor|]].
  assert (oa_user_id t = lu_id user) as Htu.
  { unfold oauth_token_new in Ht. destruct (unwrap _) as [d|]; [|done]. simpl in Ht.
    destruct (dt_add now d) as [e|]; [|done]. simpl in Ht. by injection Ht as <-. }
  eapply guarded_bind; [by apply (guarded_ret _ _ t (λ x, x = t))|]. intros ? ->.
  eapply (guarded_bindr _ _ _ _ (λ _, True)); [apply secure_ask_ok; simpl; by eauto|]. intros x _. by apply guarded_ret.
Qed.

Lemma secure_route r0 login :
  r0 = r → (∀ s c, login = Some (s, c) → me = Some (lu_id (ws_user s)) ∧ session_of (ws_token s) = Some (lu_id (ws_user s)) ∧
     client_ok (lu_id (ws_user s)) c) →
  secure (route login r0) (λ x, ∀ s c, login = Some (s, c) → client_ok (lu_id (ws_user s)) (default c x.1)).
Proof.
  intros Hr Hl. unfold route.
  assert (∀ m : api WReply, secure m (λ _, True) →
    secure (let! a := m in aret (snd <$> login, a)) (λ x, ∀ s c, login = Some (s, c) → client_ok (lu_id (ws_user s)) (default c x.1))) as Hplain.
  { intros m Hm. eapply guarded_bind; [exact Hm|]. intros a _. apply guarded_ret. intros s c ->. simpl. by destruct (Hl s c eq_refl) as (_ & _ & ?). }
  assert (∀ m : api WReply, secure m (on_ok (λ _, True)) → secure m (λ _, True)) as Hweak by (intros; by eapply guarded_mono).
  destruct r0 as [|code state| |id| | |ar].
  - apply Hplain, Hweak. eapply (guarded_bindr _ _ _ _ (λ _, True)); [by apply secure_ask_ok|]. intros. by apply guarded_ret.
  - apply Hplain, Hweak. by apply secure_confirm_login.
  - apply Hplain, Hweak. eapply (guarded_bindr _ _ _ _ (λ _, True)); [by apply secure_ask_ok|]. intros. by apply guarded_ret.
  - apply Hplain, Hweak. eapply guarded_bindr; [apply secure_plugin_middleware|]. intros. by apply guarded_ret.
  - apply Hplain. by apply guarded_ret.
  - apply Hplain. by apply guarded_ret.
  - destruct login as [[s c]|]; [|apply Hplain; by apply guarded_ret]. destruct (Hl s c eq_refl) as (Hme & Ht & Hc).
    eapply guarded_bind; [by eapply secure_auth_route|]. intros [c' a] Hc'. apply guarded_ret.
    intros ? ? [= <- <-]. exact Hc'.
Qed.
End request.

Lemma cache_fetch_ok u new l :
  cache_ok l → client_ok u new → client_ok u (cache_fetch u new l).1 ∧ cache_ok (cache_fetch u new l).2.
Proof.
  intros Hl Hn. unfold cache_fetch, cache_get. destruct (find_first _ l) as [[k c0]|] eqn:Hf; cbn [fmap option_fmap option_map snd fst].
  - apply find_first_Some in Hf as [Hin Hk]. simpl in Hk. apply Z.eqb_eq in Hk as ->.
    pose proof (proj1 (Forall_forall _ _) Hl _ Hin) as Hc. simpl in Hc. split; [done|]. constructor; [done|].
    apply Forall_forall. intros x [Hx _]%list_elem_of_In%filter_In. apply list_elem_of_In in Hx. by eapply Forall_forall in Hl.
  - split; [done|]. apply Forall_take. by constructor.
Qed.

Lemma cache_update_ok u c l : cache_ok l → client_ok u c → cache_ok (cache_update u c l).
Proof.
  intros Hl Hc. apply Forall_fmap. eapply Forall_impl; [exact Hl|]. intros [k c0] Hk. simpl in *. by destruct (Z.eqb_spec k u).
Qed.

(** The user of a request. *)
Definition user_of (header : AuthHeader) : option Z :=
  match header with
  | HToken t => session_of t
  | _ => None
  end.

Lemma serve_secure header r cache :
  cache_ok cache → guarded truthful (permitted (user_of header) r) (serve header r cache) (λ x, cache_ok x.1).
Proof.
  intros Hc. unfold serve.
  assert (∀ me, guarded truthful (permitted me r) (let! (_, a) := route None r in aret (cache, a)) (λ x, cache_ok x.1)) as Hnone.
  { intros me. eapply guarded_bind; [by apply secure_route|]. intros [? a] _. by apply guarded_ret. }
  destruct header as [| |t]; [apply Hnone | by apply guarded_ret|].
  eapply guarded_bind; [by apply secure_ask|]. intros [[s|]|] _; [|apply Hnone | by apply guarded_ret].
  eapply (guarded_bind _ _ _ _ (λ _, truthful (WSawSession t s))); [by apply guarded_emit|]. intros ? [Hs Ht]. simpl.
  pose proof (cache_fetch_ok (lu_id (ws_user s)) (new_twilight (lu_id (ws_user s)) (ws_access_token s)) cache Hc ltac:(by split)) as Hf.
  destruct (cache_fetch _ _ cache) as [c l]. destruct Hf as [Hcl Hl].
  eapply guarded_bind; [apply secure_route; [done|]|].
  { intros ? ? [= <- <-]. split; [done|]. split; [congruence | done]. }
  intros [c' y] Hr. specialize (Hr s c eq_refl). simpl in Hr.
  eapply (guarded_bind _ _ _ _ (λ _, True)); [|intros _ _; apply guarded_ret; by apply cache_update_ok].
  destruct (ac_broken (default c c')); [|by apply guarded_ret].
  eapply guarded_bind; [by apply secure_ask|]. intros. by apply guarded_ret.
Qed.

(** C4: Nobody can act for somebody else: whatever a request is, with whatever token, and
    whatever the stores, Discord and the scheduler answer, as long as their answers about
    sessions, guilds, plugins and CSRF tokens are true, every call it makes is one its user may
    make. The scripts and settings of a guild are read and changed, and its vm is reloaded, only
    for a user to whom Discord gives the administrator or manage-guild permission in it, a plugin
    is changed only for its author and added only if it is public or the author's own, sessions,
    slots and plugins are listed and sessions are deleted only for their owner, and a session is
    created by a login only for a CSRF token that was handed out. Besides, the vm of a guild is
    restarted for the owner of a slot who attaches it to the guild, whatever guild that is, and
    for the author of a plugin the guild has. The clients it leaves in the cache are again ones
    for which this holds. *)
Theorem web_access_control header r cache tape :
  cache_ok cache → Forall truthful (trace_of (serve header r cache tape)) →
  Forall (permitted (user_of header) r) (trace_of (serve header r cache tape)) ∧
  match serve header r cache tape with Done x _ _ => cache_ok x.1 | _ => True end.
Proof. intros Hc Ht. by apply (serve_secure header r cache Hc tape). Qed.
End access.

(** * A client once broken *)

Section broken.
Context `{!Calendar, !Text}.

Lemma keep_broken {A} c0 c (m : wio A) : (ac_broken c0 = true → ac_broken c = true) → stays_broken c0 (keep c m).
Proof. intros Hc tape. unfold keep, abind. destruct (m tape); simpl; [|done..]. intros Hb. by apply Hc. Qed.

Lemma auth_route_broken s c r : stays_broken c (auth_route s c r).
Proof.
  assert (stays_broken c (current_user_guilds c)) as Hg by apply run_api_broken, get_user_guilds_broken.
  destruct r; simpl; try (apply keep_broken; by auto).
  - unfold current_guild_injector, fetch_guild. apply wp_bind.
    assert (∀ (x : wio (result ApiError WReply)) (c' : ApiClient), (ac_broken c = true → ac_broken c' = true) →
      wp True (keep c' x) (λ y _, ac_broken c = true → ac_broken y.1 = true)) as Hk.
    { intros x c' Hc'. exact (keep_broken c c' x Hc'). }
    destruct (guild =? 0); [apply wp_ret; by apply Hk|]. apply wp_bind. eapply wp_mono; [apply Hg | done|].
    intros [c' l] tr Hc'. apply wp_ret. simpl in *. by apply Hk.
  - apply wp_bind. eapply wp_mono; [apply Hg | done|]. intros [c' l] tr Hc'. simpl in *.
    eapply wp_mono; [by apply (keep_broken c c') | done | done].
  - apply wp_bind. eapply wp_mono; [apply run_api_broken, get_current_user_broken | done|]. intros [c' l] tr Hc'. simpl in *.
    eapply wp_mono; [by apply (keep_broken c c') | done | done].
Qed.

Lemma route_broken s c r : wp True (route (Some (s, c)) r) (λ x _, ac_broken c = true → ac_broken (default c x.1) = true).
Proof.
  assert (∀ m : api WReply, wp True (let! a := m in aret (Some c, a))
    (λ (x : option ApiClient * result ApiError WReply) _, ac_broken c = true → ac_broken (default c x.1) = true)) as Hplain.
  { intros m tape. unfold abind. destruct (m tape); simpl; auto. }
  destruct r; simpl; try apply Hplain. apply wp_bind. eapply wp_mono; [apply auth_route_broken | done|].
  intros [c' a] tr Hc'. apply wp_ret. exact Hc'.
Qed.

(** A client that was marked broken once is never used up: as long as it is in the cache,
    every request of its user that completes, also one that succeeds right after a new login,
    ends by deleting all sessions of the user, and leaves the client in the cache, broken. *)
Theorem broken_client_revokes_every_login t r cache s c tape x rest tr :
  cache_get (lu_id (ws_user s)) cache = Some c → ac_broken c = true →
  serve (HToken t) r cache (WrSession (Some (Some s)) :: tape) = Done x rest tr →
  WAsk (CDelAllSessions (lu_id (ws_user s))) ∈ tr ∧
  ∃ c', cache_get (lu_id (ws_user s)) x.1 = Some c' ∧ ac_broken c' = true.
Proof.
  intros Hget Hb. set (u := lu_id (ws_user s)) in *. unfold serve. rewrite (abind_ask _ _ _ _ (Some (Some s))) by done.
  rewrite abind_emit. fold u. unfold cache_fetch. rewrite Hget. unfold abind at 1.
  pose proof (route_broken s c r tape) as Hroute. destruct (route (Some (s, c)) r tape) as [[c' a] rest1 tr1|tr1|tr1]; [|done..].
  simpl in Hroute. specialize (Hroute Hb). rewrite Hroute. destruct rest1 as [|[] rest1]; simpl; try done.
  intros [= <- <- <-]. split; [set_solver|]. exists (default c c'). split; [|done].
  unfold cache_get, cache_update. simpl. rewrite !Z.eqb_refl. simpl. done.
Qed.
End broken.

(** * Witnesses *)

Definition ex_session : WebSession := mkWebSession "tok" UserSession (mkLoginUser 5 (JBool true)) "acc" 0.
Definition ex_session_of (t : string) : option Z := if bool_decide (t = "tok") then Some 5 else None.
Definition ex_guilds_of (u : Z) : list UserGuild := if u =? 5 then [mkUserGuild 7 32 false; mkUserGuild 8 0 false] else [].
Definition ex_script_row : Script := mkScript 3 "s" "src" true (mkContributes [] []) None None.

(** User 5 manages guild 7: the new script is stored. Guild 8 is one the user is only a member of. *)
Definition ex_create (g : Z) : Route := RAuth (AGuild g (GCreateScript "s" "src" true)).
Definition ex_create_tape : list WResp :=
  [WrSession (Some (Some ex_session)); WrGuilds (Ok (Some (ex_guilds_of 5))); WrNow 100; WrScript (Some ex_script_row)].

Definition ex_serve (r : Route) (tape : list WResp) := @serve ex_bucket_calendar ex_text (HToken "tok") r [] tape.

Example ex_serve_own : trace_of (ex_serve (ex_create 7) ex_create_tape) =
  [WAsk (CGetSession "tok"); WSawSession "tok" ex_session; WAsk (CUserGuilds 5 "acc"); WSawGuilds 5 (ex_guilds_of 5);
   WAsk (CCreateScript 7 (mkCreateScript "s" "src" true None None))].
Proof. vm_compute. reflexivity. Qed.

(** User 5 attaches slot 4 to guild 9, of which it is not even a member: the guild's vm is restarted. *)
Definition ex_slot_row : PremiumSlot := mkPremiumSlot 4 "t" (Some 5) "m" "src" "sid" Premium Active 0 0 100 "url" (Some 9).
Definition ex_attach : Route := RAuth (AUpdateSlot 4 (Some 9)).
Definition ex_attach_tape : list WResp := [WrSession (Some (Some ex_session)); WrSlot (Some ex_slot_row); WrRestarted true].
Definition ex_slot_owner (slot : Z) : option Z := if slot =? 4 then Some 5 else None.

(** A reload of guild 8 is refused before anything is restarted. *)
Definition ex_reload : Route := RAuth (AGuild 8 GReloadVm).
Definition ex_permitted := permitted ex_session_of ex_guilds_of (λ _, 5) (λ _, true) (λ _, True) ex_slot_owner (λ _ _, False) (Some 5).

Example ex_attach_restarts : WAsk (CRestartVm 9) ∈ trace_of (ex_serve ex_attach ex_attach_tape).
Proof. vm_compute. repeat constructor. Qed.

Lemma web_access_control_witness :
  Forall (ex_permitted (ex_create 7)) (trace_of (ex_serve (ex_create 7) ex_create_tape)) ∧
  Forall (ex_permitted ex_reload) (trace_of (ex_serve ex_reload ex_create_tape)) ∧
  Forall (ex_permitted ex_attach) (trace_of (ex_serve ex_attach ex_attach_tape)).
Proof.
  split_and!.
  - refine (proj1 (@web_access_control ex_bucket_calendar ex_text ex_session_of ex_guilds_of (λ _, 5) (λ _, true) (λ _, True)
      ex_slot_owner (λ _ _, False) (HToken "tok") (ex_create 7) [] ex_create_tape _ _)); [constructor|].
    vm_compute. repeat constructor.
  - refine (proj1 (@web_access_control ex_bucket_calendar ex_text ex_session_of ex_guilds_of (λ _, 5) (λ _, true) (λ _, True)
      ex_slot_owner (λ _ _, False) (HToken "tok") ex_reload [] ex_create_tape _ _)); [constructor|].
    vm_compute. repeat constructor.
  - refine (proj1 (@web_access_control ex_bucket_calendar ex_text ex_session_of ex_guilds_of (λ _, 5) (λ _, true) (λ _, True)
      ex_slot_owner (λ _ _, False) (HToken "tok") ex_attach [] ex_attach_tape _ _)); [constructor|].
    vm_compute. repeat constructor.
Defined.

(** The refresh token of user 5 was refused once; the user has logged in again since. *)
Definition ex_broken_cache : ClientCache := [(5, mark_broken (new_twilight 5 "old"))].

Lemma broken_client_revokes_every_login_witness :
  ∃ x tr, @serve ex_bucket_calendar ex_text (HToken "tok") (RAuth AGetSessions) ex_broken_cache
    [WrSession (Some (Some ex_session)); WrSessions (Some [ex_session]); WrSessionDeleted true] = Done x [] tr ∧
  x.2 = Ok (YSessionMetas [(UserSession, 0)]) ∧ WAsk (CDelAllSessions 5) ∈ tr.
Proof.
  destruct (@serve ex_bucket_calendar ex_text (HToken "tok") (RAuth AGetSessions) ex_broken_cache
    [WrSession (Some (Some ex_session)); WrSessions (Some [ex_session]); WrSessionDeleted true]) as [x rest tr|tr|tr] eqn:E;
    [|exfalso; vm_compute in E; discriminate..].
  destruct (@broken_client_revokes_every_login ex_bucket_calendar ex_text "tok" (RAuth AGetSessions) ex_broken_cache ex_session
    (mark_broken (new_twilight 5 "old")) _ x rest tr eq_refl eq_refl E) as [Hin _].
  exists x, tr. assert (rest = [] ∧ x.2 = Ok (YSessionMetas [(UserSession, 0)])) as [-> Hx].
  { vm_compute in E. injection E as <- <- <-. split; reflexivity. }
  split; [reflexivity | split; [exact Hx | exact Hin]].
Defined.
