(* ===== verification/Cors.v ===== *)
(** The layers around the routes of the web server ([cmd/webapi/src/middlewares/cors.rs], the
    authentication layer of [mw_session.rs] and the error handlers of [main.rs]): which responses
    a page of another origin may read, and that the layers change nothing else.

    The layers of [main] from the outside in: the handler of middleware errors, the sessions, the
    CORS layer, and the routes, of which the authorized ones have the authentication layer and its
    error handler around them. *)
From Stdlib Require Import Ascii.
From stdpp Require Import base gmap list strings.
From S2P Require Import Prelude Models World Validation Postgres BucketStore ConfigStore Sessions OauthClient WebApi.

(** * Header values *)

Fixpoint bytes_all (p : nat → bool) (s : string) : bool :=
  match s with
  | EmptyString => true
  | String a s => p (nat_of_ascii a) && bytes_all p s
  end.

(** [HeaderValue::to_str]: visible ASCII, spaces and tabs. *)
Definition to_str (v : string) : option string :=
  if bytes_all (λ b, bool_decide (b = 9 ∨ 32 ≤ b < 127)%nat) v then Some v else None.

(** [HeaderValue::from_str]: no control characters other than tabs. *)
Definition header_value (s : string) : option string :=
  if bytes_all (λ b, bool_decide (b = 9 ∨ 32 ≤ b ∧ b ≠ 127)%nat) s then Some s else None.

Lemma to_str_header v s : to_str v = Some s → header_value s = Some s.
Proof.
  unfold to_str, header_value. destruct (bytes_all _ v) eqn:Hv; [|done]. intros [= <-].
  assert (bytes_all (λ b, bool_decide (b = 9 ∨ 32 ≤ b ∧ b ≠ 127)%nat) v = true) as ->; [|done].
  induction v as [|a v IH]; [done|]. simpl in *. apply andb_true_iff in Hv as [Ha Hv]. rewrite (IH Hv), andb_true_r.
  apply bool_decide_eq_true in Ha. apply bool_decide_eq_true. lia.
Qed.

(** * cors.rs *)

Record HttpRequest := mkHttpRequest {
  hr_options : bool;            (* the method is OPTIONS *)
  hr_origin : option string;    (* the bytes of the Origin header *)
  hr_auth : AuthHeader;
  hr_route : Route;
}.

(** A response: what a route answered, or an empty body, and the headers of interest. *)
Record HttpResponse := mkHttpResponse {
  rs_answer : option (result ApiError WReply);
  rs_headers : gmap string string;
}.

Definition insert_headers (host_base : string) (headers : gmap string string) : outcome (gmap string string) :=
  do! v := unwrap (header_value host_base) in
  Ret (<["access-control-allow-credentials" := "true"]> (<["access-control-allow-methods" := "*"]>
      (<["access-control-allow-headers" := "*"]> (<["access-control-allow-origin" := v]> headers)))).

(** [req.headers().get(ORIGIN)], as text. *)
Definition request_origin (r : HttpRequest) : string :=
  match hr_origin r with Some v => default "" (to_str v) | None => "" end.

Definition with_cors (origin : string) (valid : bool) (resp : HttpResponse) : outcome HttpResponse :=
  if valid then do! h := insert_headers origin (rs_headers resp) in Ret (mkHttpResponse (rs_answer resp) h)
  else Ret resp.

Section layers.
Context `{!Calendar, !Text}.

(** [CorsMiddleware::call], around what the routes do with the session. *)
Definition cors_call (frontend_host_base : string) (req : HttpRequest)
    (inner : option (WebSession * ApiClient) → wio (option ApiClient * HttpResponse)) (login : option (WebSession * ApiClient))
    : wio (option ApiClient * HttpResponse) :=
  let origin := request_origin req in
  let valid := is_origin_allowed origin frontend_host_base in
  if hr_options req then
    let! resp := lift (with_cors origin valid (mkHttpResponse None ∅)) in aret (snd <$> login, resp)
  else
    let! (client, resp) := inner login in
    let! resp := lift (with_cors origin valid resp) in
    aret (client, resp).

(** * mw_session.rs *)

(** The error of a layer: [NoSession], or any other boxed error. *)
Inductive MwError := NoSession | MwOther.

(** [RequireAuthMiddleware::call]: the inner service, or the error [NoSession]. *)
Definition require_auth {A} (inner : WebSession * ApiClient → wio A) (login : option (WebSession * ApiClient)) : wio (result MwError A) :=
  match login with
  | Some l => let! a := inner l in aret (Ok a)
  | None => aret (Err NoSession)
  end.

(** [handle_mw_err_no_auth] of [main.rs]. *)
Definition handle_mw_err_no_auth (a : result MwError (option ApiClient * HttpResponse)) : option ApiClient * HttpResponse :=
  match a with
  | Ok a => a
  | Err NoSession => (None, mkHttpResponse (Some (Err SessionExpired)) ∅)
  | Err MwOther => (None, mkHttpResponse (Some (Err InternalError)) ∅)
  end.

(** [SessionMiddleware::call] around any service: [None] is its own error. *)
Definition session_call {A} (header : AuthHeader) (inner : option (WebSession * ApiClient) → wio (option ApiClient * A)) (cache : ClientCache)
    : wio (ClientCache * option A) :=
  match header with
  | HInvalid => aret (cache, None)
  | HNone => let! (_, a) := inner None in aret (cache, Some a)
  | HToken t =>
      let! found := ask (CGetSession t) wr_session in
      match found with
      | None => aret (cache, None)
      | Some None => let! (_, a) := inner None in aret (cache, Some a)
      | Some (Some s) =>
          emit (WSawSession t s) ;;;
          let u := lu_id (ws_user s) in
          let (client, cache) := cache_fetch u (new_twilight u (ws_access_token s)) cache in
          let! (client', a) := inner (Some (s, client)) in
          let client' := default client client' in
          let cache := cache_update u client' cache in
          (if ac_broken client' then let! _ := ask (CDelAllSessions u) wr_deleted in aret tt else aret tt) ;;;
          aret (cache, Some a)
      end
  end.

(** [handle_mw_err_internal_err] of [main.rs]. *)
Definition handle_mw_err_internal_err (a : option HttpResponse) : HttpResponse :=
  match a with
  | Some resp => resp
  | None => mkHttpResponse (Some (Err InternalError)) ∅
  end.

(** The routes: the authorized ones are behind the authentication layer and its error handler. *)
Definition routes (req : HttpRequest) (login : option (WebSession * ApiClient)) : wio (option ApiClient * HttpResponse) :=
  match hr_route req with
  | RAuth r =>
      let! a := require_auth (λ l, let! (client, a) := auth_route l.1 l.2 r in aret (Some client, mkHttpResponse (Some a) ∅)) login in
      aret (handle_mw_err_no_auth a)
  | r => let! (client, a) := route login r in aret (client, mkHttpResponse (Some a) ∅)
  end.

(** The whole stack of [main]. *)
Definition app (frontend_host_base : string) (req : HttpRequest) (cache : ClientCache) : wio (ClientCache * HttpResponse) :=
  let! (cache, a) := session_call (hr_auth req) (cors_call frontend_host_base req (routes req)) cache in
  aret (cache, handle_mw_err_internal_err a).

(** * Facts *)

(** ** The origin allowed is the one that asked *)

Definition cors_headers (origin : string) : gmap string string :=
  <["access-control-allow-credentials" := "true"]> (<["access-control-allow-methods" := "*"]>
    (<["access-control-allow-headers" := "*"]> (<["access-control-allow-origin" := origin]> ∅))).

Definition cors_of (frontend_host_base : string) (req : HttpRequest) : gmap string string :=
  if is_origin_allowed (request_origin req) frontend_host_base then cors_headers (request_origin req) else ∅.

Lemma request_origin_header req : header_value (request_origin req) = Some (request_origin req).
Proof.
  unfold request_origin. destruct (hr_origin req) as [v|]; [|done]. destruct (to_str v) as [s|] eqn:Hv; [|done].
  simpl. by eapply to_str_header.
Qed.

(** The headers can always be written. *)
Lemma with_cors_ok frontend req a :
  with_cors (request_origin req) (is_origin_allowed (request_origin req) frontend) (mkHttpResponse a ∅) =
  Ret (mkHttpResponse a (cors_of frontend req)).
Proof.
  unfold with_cors, cors_of, insert_headers. destruct (is_origin_allowed _ _); [|done]. rewrite request_origin_header. done.
Qed.

(** ** Runs that agree *)

Definition sim {A B} (R : A → B → Prop) (m : wio A) (n : wio B) : Prop :=
  ∀ tape, match m tape, n tape with
          | Done a t tr, Done b t' tr' => t = t' ∧ tr = tr' ∧ R a b
          | Panicked tr, Panicked tr' => tr = tr'
          | Suspended tr, Suspended tr' => tr = tr'
          | _, _ => False
          end.

Lemma sim_ret {A B} (R : A → B → Prop) a b : R a b → sim R (aret a) (aret b).
Proof. intros HR tape. by split_and!. Qed.

Lemma sim_refl {A} (m : wio A) : sim eq m m.
Proof. intros tape. by destruct (m tape). Qed.

Lemma sim_bind {A B A' B'} (R : A → B → Prop) (S : A' → B' → Prop) m n k l :
  sim R m n → (∀ a b, R a b → sim S (k a) (l b)) → sim S (abind m k) (abind n l).
Proof.
  intros Hm Hk tape. specialize (Hm tape). unfold abind.
  destruct (m tape) as [a t tr| |], (n tape) as [b t' tr'| |]; simpl; try done. destruct Hm as (<- & <- & HR).
  specialize (Hk a b HR t). destruct (k a t), (l b t); simpl; try done; [destruct Hk as (-> & -> & ?)|subst..]; done.
Qed.

Lemma sim_bind_eq {A A' B'} (S : A' → B' → Prop) (m : wio A) k l : (∀ a, sim S (k a) (l a)) → sim S (abind m k) (abind m l).
Proof. intros Hk. eapply sim_bind; [apply sim_refl|]. by intros a ? <-. Qed.

(** The session layer does the same with services that do the same. *)
Lemma session_call_sim {A B} (S : A → B → Prop) header i1 i2 cache :
  (∀ login, sim (λ x y, x.1 = y.1 ∧ S x.2 y.2) (i1 login) (i2 login)) →
  sim (λ x y, x.1 = y.1 ∧ option_Forall2 S x.2 y.2) (session_call header i1 cache) (session_call header i2 cache).
Proof.
  intros Hi. unfold session_call.
  assert (sim (λ x y, x.1 = y.1 ∧ option_Forall2 S x.2 y.2) (let! (_, a) := i1 None in aret (cache, Some a))
            (let! (_, a) := i2 None in aret (cache, Some a))) as Hnone.
  { eapply sim_bind; [apply Hi|]. intros [c a] [c' b] [_ HS]. apply sim_ret. split; [done|by constructor]. }
  destruct header as [| |t]; [done|apply sim_ret; by split; [|constructor]|].
  apply sim_bind_eq. intros [[s|]|]; [|done|apply sim_ret; by split; [|constructor]].
  apply sim_bind_eq. intros _. destruct (cache_fetch _ _ cache) as [client cache'].
  eapply sim_bind; [apply Hi|]. intros [c a] [c' b] [Hc HS]. simpl in Hc. subst c'.
  apply sim_bind_eq. intros _. apply sim_ret. split; [done|by constructor].
Qed.

(** The session layer fails by itself: the header is no text, or the store answers with an error. *)
Definition session_fails (header : AuthHeader) (tape : list WResp) : bool :=
  match header with
  | HNone => false
  | HInvalid => true
  | HToken _ => match tape with WrSession None :: _ => true | _ => false end
  end.

(** Whatever the service around which it is does, the session layer has its response unless it fails. *)
Lemma session_call_fails {A} header (inner : option (WebSession * ApiClient) → wio (option ApiClient * A)) cache tape :
  match session_call header inner cache tape with
  | Done x _ _ => match x.2 with Some _ => session_fails header tape = false | None => session_fails header tape = true end
  | _ => session_fails header tape = false
  end.
Proof.
  assert (∀ tape', match (let! (_, a) := inner None in aret (cache, Some a)) tape' with Done x _ _ => is_Some x.2 | _ => True end) as Hnone.
  { intros tape'. unfold abind. destruct (inner None tape') as [[? a] ? ?| |]; simpl; by eauto. }
  unfold session_call. destruct header as [| |t]; [|done|].
  - specialize (Hnone tape). destruct (abind _ _ tape) as [[? [a|]] ? ?| |]; simpl in *; try done; by destruct Hnone.
  - assert (∀ found rest, session_fails (HToken t) (WrSession found :: rest) = bool_decide (found = None)) as Hfail.
    { by intros [found|] rest. }
    unfold abind at 1. destruct tape as [|resp tape]; [done|]. destruct resp as [| | | | | |found| | | | | | | | | | | | | | | | | | | | |];
      try done. rewrite Hfail. simpl. destruct found as [[s|]|]; simpl; [| |done].
    + unfold abind at 1. simpl. destruct (cache_fetch _ _ cache) as [client cache'].
      unfold abind at 1. destruct (inner _ tape) as [[c a] ? ?| |]; simpl; try done.
      unfold abind at 1. destruct (ac_broken _); simpl; [|done].
      unfold abind at 1. by destruct (ask _ _ _).
    + specialize (Hnone tape). destruct (abind _ _ tape) as [[? [a|]] ? ?| |]; simpl in *; try done; by destruct Hnone.
Qed.

(** [serve] of the web API is the session layer around the routes. *)
Lemma serve_session header r cache :
  sim (λ x y, x.1 = y.1 ∧ y.2 = default (Err InternalError) x.2) (session_call header (λ login, route login r) cache) (serve header r cache).
Proof.
  unfold session_call, serve.
  assert (sim (λ x y, x.1 = y.1 ∧ y.2 = default (Err InternalError) x.2) (let! (_, a) := route None r in aret (cache, Some a))
            (let! (_, a) := route None r in aret (cache, a))) as Hnone.
  { apply sim_bind_eq. intros [c a]. by apply sim_ret. }
  destruct header as [| |t]; [done|by apply sim_ret|]. apply sim_bind_eq. intros [[s|]|]; [|done|by apply sim_ret].
  apply sim_bind_eq. intros _. destruct (cache_fetch _ _ cache) as [client cache']. apply sim_bind_eq. intros [c a].
  apply sim_bind_eq. intros _. by apply sim_ret.
Qed.

(** The routes with the authentication layer answer as the bare ones. *)
Lemma routes_route req login :
  sim (λ x y, x.1 = y.1 ∧ x.2 = mkHttpResponse (Some y.2) ∅) (routes req login) (route login (hr_route req)).
Proof.
  unfold routes. destruct (hr_route req) as [| | | | | |r];
    try (intros tape; unfold abind at 1; destruct (route login _ tape) as [[c a] t tr| |]; simpl; by rewrite ?app_nil_r).
  destruct login as [[s c]|]; unfold route, require_auth; [|by apply sim_ret].
  intros tape. unfold abind. simpl. destruct (auth_route s c r tape) as [[c' a] t tr| |]; simpl; [|done..]. by rewrite !app_nil_r.
Qed.

Lemma cors_call_routes frontend req login :
  hr_options req = false →
  sim (λ x y, x.1 = y.1 ∧ x.2 = mkHttpResponse (Some y.2) (cors_of frontend req))
    (cors_call frontend req (routes req) login) (route login (hr_route req)).
Proof.
  intros Ho tape. unfold cors_call. rewrite Ho. unfold abind. pose proof (routes_route req login tape) as Hr.
  destruct (routes req login tape) as [[c a] t tr| |], (route login (hr_route req) tape) as [[c' a'] t' tr'| |]; simpl in *; try done.
  destruct Hr as (<- & <- & -> & ->). rewrite with_cors_ok. simpl. by rewrite !app_nil_r.
Qed.

(** C36: Requests other than preflights: the layers, from the error handler over the sessions and the
    CORS headers to the authentication of the authorized routes, ask the same of the stores, of
    Discord and of the scheduler as the session layer around the bare routes, in the same order,
    and give the same answer. If the session layer itself fails, for a header that is no text or
    an error of the store, the response is an internal error without CORS headers; every other
    response has the headers for the request's origin if that is allowed, and none otherwise. *)
Theorem layers_transparent frontend req cache tape :
  hr_options req = false →
  match app frontend req cache tape, serve (hr_auth req) (hr_route req) cache tape with
  | Done (cache1, resp) rest tr, Done (cache2, a) rest' tr' =>
      cache1 = cache2 ∧ rest = rest' ∧ tr = tr' ∧ rs_answer resp = Some a ∧
      if session_fails (hr_auth req) tape then a = Err InternalError ∧ rs_headers resp = ∅
      else rs_headers resp = (if is_origin_allowed (request_origin req) frontend then cors_headers (request_origin req) else ∅)
  | Panicked tr, Panicked tr' => tr = tr'
  | Suspended tr, Suspended tr' => tr = tr'
  | _, _ => False
  end.
Proof.
  intros Ho. assert (sim (λ x y, x.1 = y.1 ∧ option_Forall2 (λ r a, r = mkHttpResponse (Some a) (cors_of frontend req)) x.2 y.2)
    (session_call (hr_auth req) (cors_call frontend req (routes req)) cache) (session_call (hr_auth req) (λ login, route login (hr_route req)) cache)) as Hs.
  { apply session_call_sim. intros login. by apply cors_call_routes. }
  specialize (Hs tape). pose proof (serve_session (hr_auth req) (hr_route req) cache tape) as Hv.
  pose proof (session_call_fails (hr_auth req) (λ login, route login (hr_route req)) cache tape) as Hf. unfold app, abind.
  destruct (session_call _ (cors_call _ _ _) _ tape) as [[c1 a1] t1 tr1| |], (session_call _ (λ login, _) _ tape) as [[c2 a2] t2 tr2| |],
    (serve _ _ _ tape) as [[c3 a3] t3 tr3| |]; simpl in *; try done; [|congruence..].
  destruct Hs as (-> & -> & -> & Ha), Hv as (-> & -> & -> & ->). rewrite app_nil_r.
  split_and!; [done..| |]; destruct Ha as [? ? ->|]; simpl in *; rewrite ?Hf; done.
Qed.

(** ** Preflights *)

(** What the session layer does on its own. *)
Definition session_event (e : WEv) : Prop :=
  (∃ t, e = WAsk (CGetSession t)) ∨ (∃ t s, e = WSawSession t s) ∨ ∃ u, e = WAsk (CDelAllSessions u).

Lemma wp_ask p {A} c (f : WResp → option A) (Q : A → list WEv → Prop) : (∀ a, Q a [WAsk c]) → wp p (ask c f) Q.
Proof. intros HQ. apply wp_bind, wp_emit, wp_await. intros. apply HQ. Qed.

(** The session layer around a service that asks nothing. *)
Lemma session_call_quiet {A} header (inner : option (WebSession * ApiClient) → wio (option ApiClient * A)) cache (P : A → Prop) :
  (∀ login, wp False (inner login) (λ x tr, tr = [] ∧ P x.2)) →
  wp False (session_call header inner cache) (λ x tr, Forall session_event tr ∧ match x.2 with Some a => P a | None => True end).
Proof.
  intros Hi. unfold session_call, session_event.
  assert (∀ tr0, Forall session_event tr0 → wp False (let! (_, a) := inner None in aret (cache, Some a))
    (λ x tr, Forall session_event (tr0 ++ tr) ∧ match x.2 with Some a => P a | None => True end)) as Hnone.
  { intros tr0 Htr0. apply wp_bind. eapply wp_mono; [apply Hi|done|]. intros [c a] tr [-> HP]. apply wp_ret. simpl. by rewrite app_nil_r. }
  destruct header as [| |t]; [by apply (Hnone [])|apply wp_ret; by split; [constructor|]|].
  assert (Forall session_event [WAsk (CGetSession t)]) as Ht by (constructor; [left; eauto|constructor]).
  apply wp_bind, wp_ask. intros [[s|]|]; [|by apply Hnone|by apply wp_ret].
  apply wp_bind, wp_emit. destruct (cache_fetch _ _ cache) as [client cache'].
  apply wp_bind. eapply wp_mono; [apply Hi|done|]. intros [c a] tr [-> HP]. simpl.
  assert (Forall session_event [WAsk (CGetSession t); WSawSession t s]) as Hts
    by (constructor; [left; eauto|constructor; [right; left; eauto|constructor]]).
  apply wp_bind. destruct (ac_broken _); [|apply wp_ret, wp_ret; by split].
  apply wp_bind, wp_ask. intros _. apply wp_ret, wp_ret. simpl. split; [|done].
  apply Forall_cons. apply Forall_cons in Hts as [? Hts]. split; [done|]. apply Forall_cons in Hts as [? _]. constructor; [done|].
  constructor; [right; right; eauto|constructor].
Qed.

(** A preflight reaches no route: it is answered with an empty body and the headers for its
    origin, if allowed, after at most what the session layer does for its token, and it never
    panics. *)
Theorem preflight_inert frontend req cache :
  hr_options req = true →
  wp False (app frontend req cache) (λ x tr,
    Forall session_event tr ∧
    (x.2 = mkHttpResponse None (cors_of frontend req) ∨ x.2 = mkHttpResponse (Some (Err InternalError)) ∅)).
Proof.
  intros Ho. unfold app. apply wp_bind.
  eapply wp_mono; [apply (session_call_quiet _ _ _ (λ r, r = mkHttpResponse None (cors_of frontend req)))|done|].
  - intros login. unfold cors_call. rewrite Ho, with_cors_ok. apply wp_bind, wp_lift. simpl. apply wp_ret. by split.
  - intros [c [r|]] tr [Htr Hr]; apply wp_ret; rewrite app_nil_r; simpl in *; subst; auto.
Qed.
End layers.

(** * Examples *)

#[local] Existing Instances ex_bucket_calendar ex_text.

Definition ex_preflight : HttpRequest := mkHttpRequest true (Some "https://botloader.io") HNone (ex_create 7).
Definition ex_request : HttpRequest := mkHttpRequest false (Some "http://localhost:3000") (HToken "tok") (ex_create 7).

(** A request of a page on localhost, without and with an answer of the session store. *)
Lemma layers_transparent_witness :
  match app "https://botloader.io" ex_request [] ex_create_tape, serve (HToken "tok") (ex_create 7) [] ex_create_tape with
  | Done (_, resp) _ _, Done (_, a) _ _ => rs_answer resp = Some a ∧ rs_headers resp = cors_headers "http://localhost:3000"
  | _, _ => False
  end ∧
  match app "https://botloader.io" ex_request [] [WrSession None] with
  | Done (_, resp) _ _ => rs_headers resp = ∅
  | _ => False
  end.
Proof.
  pose proof (layers_transparent "https://botloader.io" ex_request [] ex_create_tape eq_refl) as H1.
  pose proof (layers_transparent "https://botloader.io" ex_request [] [WrSession None] eq_refl) as H2.
  split.
  - destruct (app _ _ _ ex_create_tape) as [[c1 resp] t1 tr1| |] eqn:Ha; [|vm_compute in Ha; discriminate Ha..].
    change (serve (HToken "tok") (ex_create 7)) with (serve (hr_auth ex_request) (hr_route ex_request)).
    destruct (serve _ _ _ _) as [[c2 a] t2 tr2| |]; try done. destruct H1 as (_ & _ & _ & H1 & H3). split; [exact H1|exact H3].
  - vm_compute in H2. destruct H2 as (_ & _ & _ & _ & _ & H2). vm_compute. exact H2.
Defined.

Example ex_request_headers :
  match app "https://botloader.io" ex_request [] ex_create_tape with
  | Done (_, resp) _ _ => rs_headers resp !! "access-control-allow-origin" = Some "http://localhost:3000"
  | _ => False
  end.
Proof. vm_compute. reflexivity. Qed.

Lemma preflight_inert_witness :
  wp False (app "https://botloader.io" ex_preflight []) (λ x tr,
    Forall session_event tr ∧
    (x.2 = mkHttpResponse None (cors_of "https://botloader.io" ex_preflight) ∨ x.2 = mkHttpResponse (Some (Err InternalError)) ∅)).
Proof. apply (preflight_inert "https://botloader.io" ex_preflight []). reflexivity. Defined.

(** The session layer is outside the CORS layer: when the store fails, the page that asked cannot read the answer. *)
Example session_error_unreadable :
  match app "https://botloader.io" ex_request [] [WrSession None] with
  | Done (_, resp) _ _ => resp = mkHttpResponse (Some (Err InternalError)) ∅
  | _ => False
  end.
Proof. vm_compute. reflexivity. Qed.
