(* ===== verification/WebSocket.v ===== *)
(** The websocket connections of the web API ([cmd/webapi/src/routes/ws.rs]), over which the front
    end follows the logs of guilds.

    A connection starts unauthorized, logs in with a session token, subscribes to guilds' logs
    and gets every entry as an event. It is an asynchronous program ([ws_run]) in the world of
    the web API; the client of its user is shared with the requests the user makes at the same
    time, so its state is an answer, and what a call leaves of it is recorded. The order in which
    [SelectAll] lists its streams is an answer too. *)
From stdpp Require Import base gmap list strings.
From S2P Require Import Prelude Numbers Models WorkerPool Commands World Validation Postgres BucketStore ConfigStore Sessions SimpleProto OauthClient WebApi.

Inductive WsEvent :=
| AuthSuccess (user : LoginUser)
| SubscriptionsUpdated (ids : list GuildId)
| ScriptLogMessage (e : LogEntry).

Inductive WsCommand :=
| Authorize (token : string)
| SubscribeLogs (g : GuildId)
| UnSubscribeLogs (g : GuildId).

Inductive WsCloseReason :=
| ClientDisconnected
| WsInternalError
| JsonDecodeError
| JsonEncodeError
| BadToken
| NotAuthorized
| AuthWhenAuthorized
| UnknownGuild
| GuildMissingAccess
| BotRpcError.

Definition close_code (r : WsCloseReason) : Z :=
  match r with
  | ClientDisconnected => 1000
  | WsInternalError => 1011
  | JsonDecodeError => 1007
  | JsonEncodeError => 4005
  | BadToken => 4001
  | NotAuthorized => 4000
  | AuthWhenAuthorized => 4002
  | UnknownGuild => 4003
  | GuildMissingAccess => 4004
  | BotRpcError => 4006
  end.

Definition close_description (r : WsCloseReason) : string :=
  match r with
  | ClientDisconnected => "client disconnected"
  | WsInternalError => "internal error occured"
  | JsonDecodeError => "failed decoding json payload"
  | JsonEncodeError => "failed encoding json payload"
  | BadToken => "bad auth token provided"
  | NotAuthorized => "not authorized"
  | AuthWhenAuthorized => "already authorized"
  | UnknownGuild => "unknown guild"
  | GuildMissingAccess => "missing access to guild"
  | BotRpcError => "error on communication with bot"
  end.

Inductive WsState := UnAuth | Authorized (session : WebSession).

(** The active log streams by their guild, and the login. *)
Record WsConn := mkWs { wc_streams : list GuildId; wc_state : WsState }.

Definition ws_new : WsConn := mkWs [] UnAuth.

Notation ws A := (wio (result WsCloseReason A)).

Section connection.
Context `{!Calendar, !Serde WsEvent, !Serde WsCommand}.

(** ** Sending *)

Definition wr_sent (r : WResp) : option bool := match r with WrSent ok => Some ok | _ => None end.

Definition ws_send (msg : WsMessage) : ws unit :=
  let! ok := ask (CWsSend msg) wr_sent in
  aret (if ok then Ok tt else Err ClientDisconnected).

Definition send_event (evt : WsEvent) : ws unit :=
  match to_json evt with
  | Some encoded => ws_send (MText encoded)
  | None => aret (Err JsonEncodeError)
  end.

Definition ws_close (reason : WsCloseReason) : wio unit :=
  match reason with
  | ClientDisconnected => aret tt
  | _ => let! _ := ask (CWsSend (MClose (Some (close_code reason, close_description reason)))) wr_sent in aret tt
  end.

(** [false] ends the connection. *)
Definition or_close {A} (r : result WsCloseReason A) : wio (option A) :=
  match r with
  | Ok a => aret (Some a)
  | Err reason => ws_close reason ;;; aret None
  end.

(** ** Commands *)

Definition emit_subscriptions (c : WsConn) : ws unit :=
  let! ids := await (λ r, match r with WrStreamOrder l => if bool_decide (l ≡ₚ wc_streams c) then Some l else None | _ => None end) in
  send_event (SubscriptionsUpdated ids).

(** The client in the cache, as other requests left it. *)
Definition shared_client (u : Z) : wio ApiClient :=
  let! client := await (λ r, match r with WrClient x => if ac_user_id x =? u then Some x else None | _ => None end) in
  emit (WSawClient u client) ;;; aret client.

Definition check_guild_acces (c : WsConn) (guild_id : GuildId) : ws unit :=
  match wc_state c with
  | UnAuth => apanic
  | Authorized s =>
      let u := lu_id (ws_user s) in
      let! client := shared_client u in
      let! (client, user_guilds) := current_user_guilds client in
      emit (WAsk (CUsedClient u client)) ;;;
      aret match user_guilds with
           | None => Err WsInternalError
           | Some l =>
               match find_first (λ e, ug_id e =? guild_id) l with
               | Some ug => if may_manage ug then Ok tt else if ug_owner ug then Ok tt else Err GuildMissingAccess
               | None => Err UnknownGuild
               end
           end
  end.

Definition subscribe_logs (c : WsConn) (guild_id : GuildId) : ws WsConn :=
  if existsb (λ g, g =? guild_id) (wc_streams c) then aret (Ok c)
  else
    try! _ := check_guild_acces c guild_id in
    let! ok := ask (CLogStream guild_id) (λ r, match r with WrStream ok => Some ok | _ => None end) in
    if ok : bool then
      let c := mkWs (wc_streams c ++ [guild_id]) (wc_state c) in
      try! _ := emit_subscriptions c in aret (Ok c)
    else aret (Err BotRpcError).

(** [current_streams.into_iter().filter(|e| e.guild_id == guild_id).collect()] *)
Definition unsubscribe_logs (c : WsConn) (guild_id : GuildId) : ws WsConn :=
  let c := mkWs (List.filter (λ g, g =? guild_id) (wc_streams c)) (wc_state c) in
  try! _ := emit_subscriptions c in aret (Ok c).

(** The lookup in the cache of clients, which adds one if there is none, is left to [shared_client]. *)
Definition do_login (c : WsConn) (token : string) : ws WsConn :=
  let! found := ask (CGetSession token) wr_session in
  match found with
  | None => aret (Err WsInternalError)
  | Some None => aret (Err BadToken)
  | Some (Some session) =>
      emit (WSawSession token session) ;;;
      try! _ := send_event (AuthSuccess (ws_user session)) in
      aret (Ok (mkWs (wc_streams c) (Authorized session)))
  end.

Definition handle_ws_command_unauth (c : WsConn) (cmd : WsCommand) : ws WsConn :=
  match cmd with
  | Authorize token => do_login c token
  | _ => aret (Err NotAuthorized)
  end.

Definition handle_ws_command_auth (c : WsConn) (cmd : WsCommand) : ws WsConn :=
  match cmd with
  | SubscribeLogs g => subscribe_logs c g
  | UnSubscribeLogs g => unsubscribe_logs c g
  | Authorize _ => aret (Err AuthWhenAuthorized)
  end.

Definition handle_ws_command (c : WsConn) (cmd : WsCommand) : ws WsConn :=
  match wc_state c with
  | UnAuth => handle_ws_command_unauth c cmd
  | Authorized _ => handle_ws_command_auth c cmd
  end.

Definition handle_encoded (c : WsConn) (b : list Z) : ws WsConn :=
  match from_json b with
  | Some cmd => handle_ws_command c cmd
  | None => aret (Err JsonDecodeError)
  end.

Definition handle_ws_message (c : WsConn) (msg : WsMessage) : ws WsConn :=
  match msg with
  | MText s => handle_encoded c s
  | MBinary b => handle_encoded c b
  | MPing d => try! _ := ws_send (MPong d) in aret (Ok c)
  | MPong _ => aret (Ok c)
  | MClose _ => aret (Err ClientDisconnected)
  end.

(** ** The loop *)

(** [None] ends the connection. *)
Definition handle_log_stream_item (c : WsConn) (g : GuildId) (item : option LogEntry) : wio (option WsConn) :=
  match item with
  | Some e =>
      emit (WSawLog g e) ;;;
      let! r := send_event (ScriptLogMessage e) in
      let! o := or_close r in aret ((λ _, c) <$> o)
  | None => ws_close BotRpcError ;;; aret None
  end.

Definition handle_ws_rcv (c : WsConn) (ws_msg : option WsMessage) : wio (option WsConn) :=
  match ws_msg with
  | None => aret None
  | Some msg => let! r := handle_ws_message c msg in or_close r
  end.

Definition send_ping (c : WsConn) : wio (option WsConn) :=
  let! r := ws_send (MPing [69]) in
  let! o := or_close r in aret ((λ _, c) <$> o).

(** [select!], without the streams that have ended by then; without a stream only the socket and
    the ticker are waited for. *)
Definition ws_select (c : WsConn) : wio (WsConn * WsSelected) :=
  await (λ r, match r with
    | WrSelect ended sel =>
        let streams := filter (λ g, g ∉ ended) (wc_streams c) in
        let next := Some (mkWs streams (wc_state c), sel) in
        match sel with
        | SelLog g _ => if bool_decide (g ∈ streams) then next else None
        | SelNoStream => if bool_decide (streams = [] ∧ wc_streams c ≠ []) then next else None
        | SelRecv _ | SelTick => next
        end
    | _ => None
    end).

Definition ws_round (c : WsConn) : wio (WsConn + unit) :=
  let! (c, sel) := ws_select c in
  let! o := match sel with
            | SelLog g item => handle_log_stream_item c g item
            | SelNoStream => aret (Some c)
            | SelRecv msg => handle_ws_rcv c msg
            | SelTick => send_ping c
            end in
  aret match o with Some c => inl c | None => inr tt end.

Definition ws_run : wio unit := iter ws_round ws_new.
End connection.

(** * What a connection may do *)

(** What the events of a connection say about it: the user that has logged in, the guilds whose
    log streams were asked for, whether it has sent a close frame. *)
Record WsGhost := mkGhost { gh_user : option Z; gh_opened : list GuildId; gh_closed : bool }.
Definition ghost_new : WsGhost := mkGhost None [] false.

Definition ws_upd (σ : WsGhost) (ev : WEv) : WsGhost :=
  match ev with
  | WSawSession _ s => mkGhost (Some (lu_id (ws_user s))) (gh_opened σ) (gh_closed σ)
  | WAsk (CLogStream g) => mkGhost (gh_user σ) (g :: gh_opened σ) (gh_closed σ)
  | WAsk (CWsSend (MClose _)) => mkGhost (gh_user σ) (gh_opened σ) true
  | _ => σ
  end.

Section safety.
Context `{!Calendar, !Serde WsEvent, !Serde WsCommand}.
Context (session_of : string → option Z) (guilds_of : Z → list UserGuild).
Context (author_of : Z → Z) (public : Z → bool) (csrf_issued : string → Prop).
Context (slot_owner : Z → option Z) (has_plugin : Z → GuildId → Prop).
Notation true_answer := (truthful session_of guilds_of author_of public csrf_issued slot_owner has_plugin).
Notation may_read := (reads_logs guilds_of).

(** A guild the connection may speak about. *)
Definition subscribed (σ : WsGhost) (g : GuildId) : Prop :=
  g ∈ gh_opened σ ∧ ∃ u, gh_user σ = Some u ∧ may_read u g.

Definition ws_event_ok (σ : WsGhost) (evt : WsEvent) : Prop :=
  match evt with
  | AuthSuccess x => gh_user σ = Some (lu_id x)
  | SubscriptionsUpdated ids => Forall (subscribed σ) ids
  | ScriptLogMessage e => subscribed σ (le_guild_id e)
  end.

(** What may follow: nothing after a close frame, one login, and calls and events the user that
    has logged in may cause. *)
Definition ws_permitted (σ : WsGhost) (ev : WEv) : Prop :=
  permitted session_of guilds_of author_of public csrf_issued slot_owner has_plugin (gh_user σ) RWs ev ∧ gh_closed σ = false ∧
  match ev with
  | WSawSession _ _ => gh_user σ = None
  | WAsk (CWsSend (MText b)) => ∃ evt, to_json evt = Some b ∧ ws_event_ok σ evt
  | WAsk (CWsSend (MBinary _)) => False
  | _ => True
  end.

Notation obeys := (tracked ws_upd (λ _, true_answer) ws_permitted).

(** The connection is open and its state is what the events say. *)
Definition conn_ok (c : WsConn) (σ : WsGhost) : Prop :=
  gh_closed σ = false ∧ Forall (subscribed σ) (wc_streams c) ∧
  match wc_state c with
  | UnAuth => gh_user σ = None
  | Authorized s => gh_user σ = Some (lu_id (ws_user s)) ∧ session_of (ws_token s) = Some (lu_id (ws_user s))
  end.

(** The connection after a fallible step: as it should be, or still open to be closed. *)
Definition ws_ok {A} (P : A → WsGhost → Prop) (r : result WsCloseReason A) (σ : WsGhost) : Prop :=
  match r with
  | Ok a => P a σ
  | Err _ => gh_closed σ = false
  end.
Arguments ws_ok {A} P !r σ /.

Lemma obeys_send σ m :
  gh_closed σ = false → ws_upd σ (WAsk (CWsSend m)) = σ →
  match m with MText b => ∃ evt, to_json evt = Some b ∧ ws_event_ok σ evt | MBinary _ => False | _ => True end →
  obeys σ (ws_send m) (λ _ σ', σ' = σ).
Proof.
  intros Ho Hu Hm. unfold ws_send, ask. eapply (tracked_bind _ _ _ _ _ _ (λ _ σ', σ' = σ)).
  - eapply (tracked_bind _ _ _ _ _ _ (λ _ σ', σ' = σ)).
    + apply tracked_emit. intros _. split; [|done]. split; [done|]. split; [done|]. by destruct m.
    + intros _ ? ->. by apply tracked_await.
  - intros ok ? ->. by apply tracked_ret.
Qed.

Lemma obeys_event σ evt : gh_closed σ = false → ws_event_ok σ evt → obeys σ (send_event evt) (λ _ σ', σ' = σ).
Proof.
  intros Ho He. unfold send_event. destruct (to_json evt) as [b|] eqn:Hb; [|by apply tracked_ret].
  apply obeys_send; [done|done|]. by exists evt.
Qed.

Lemma obeys_close σ reason (Q : unit → WsGhost → Prop) : gh_closed σ = false → (∀ σ', Q tt σ') → obeys σ (ws_close reason) Q.
Proof.
  intros Ho HQ. destruct reason; try (by apply tracked_ret);
    (eapply (tracked_bind _ _ _ _ _ _ (λ _ _, True)); [|intros [] ? _; by apply tracked_ret]);
    (eapply (tracked_bind _ _ _ _ _ _ (λ _ _, True)); [by apply tracked_emit | intros; by apply tracked_await]).
Qed.

Lemma obeys_or_close {A} σ (r : result WsCloseReason A) (P : A → WsGhost → Prop) :
  ws_ok P r σ → obeys σ (or_close r) (λ o σ', ∀ a, o = Some a → P a σ').
Proof.
  destruct r as [a|reason]; simpl; intros Hr; [apply tracked_ret; by intros ? [= <-]|].
  eapply (tracked_bind _ _ _ _ _ _ (λ _ _, True)); [by apply obeys_close|]. intros _ ? _. by apply tracked_ret.
Qed.

Lemma obeys_emit_subscriptions c σ : conn_ok c σ → obeys σ (emit_subscriptions c) (λ _ σ', σ' = σ).
Proof.
  intros (Ho & Hs & _). eapply (tracked_bind _ _ _ _ _ _ (λ ids σ', σ' = σ ∧ Forall (subscribed σ) ids)).
  - apply tracked_await. intros r ids. destruct r; try done. case_bool_decide as Hp; [|done]. intros [= <-].
    split; [done|]. by rewrite Hp.
  - intros ids ? [-> Hids]. by apply obeys_event.
Qed.

Lemma obeys_user_guilds s σ client :
  gh_closed σ = false → gh_user σ = Some (lu_id (ws_user s)) → session_of (ws_token s) = Some (lu_id (ws_user s)) →
  client_ok guilds_of (lu_id (ws_user s)) client →
  obeys σ (current_user_guilds client) (λ cl σ', σ' = σ ∧ client_ok guilds_of (lu_id (ws_user s)) cl.1 ∧
    ∀ l, cl.2 = Some l → guilds_of (lu_id (ws_user s)) = l).
Proof.
  intros Ho Hu Ht Hc. apply tracked_guarded.
  - eapply guarded_always; [by eapply (secure_user_guilds _ _ _ _ _ _ _ (gh_user σ) RWs)|apply always_user_guilds|].
    intros e Hp He. split; [done | split; [done|]]. destruct e as [[]| | | | | | | |]; try done.
  - intros tape. eapply Forall_impl; [apply always_user_guilds|]. intros [[]| | | | | | | |] He; done.
Qed.

Lemma obeys_check_access c σ g :
  conn_ok c σ → obeys σ (check_guild_acces c g)
    (λ r σ', σ' = σ ∧ on_ok (λ _, ∃ u, gh_user σ = Some u ∧ may_read u g) r).
Proof.
  intros (Ho & _ & Hst). unfold check_guild_acces. destruct (wc_state c) as [|s]; [apply tracked_panic|]. destruct Hst as [Hu Ht].
  set (u := lu_id (ws_user s)) in *.
  eapply (tracked_bind _ _ _ _ _ _ (λ client σ', σ' = σ ∧ client_ok guilds_of u client)).
  { eapply (tracked_bind _ _ _ _ _ _ (λ _ σ', σ' = σ)); [by apply tracked_await|]. intros client ? ->.
    eapply (tracked_bind _ _ _ _ _ _ (λ _ σ', σ' = σ ∧ client_ok guilds_of u client)); [by apply tracked_emit|].
    intros _ ? [-> ?]. by apply tracked_ret. }
  intros client ? [-> Hcl]. eapply tracked_bind; [by apply (obeys_user_guilds s)|]. intros [client' l] ? (-> & Hcl' & Hl).
  simpl in Hcl', Hl. eapply (tracked_bind _ _ _ _ _ _ (λ _ σ', σ' = σ)); [by apply tracked_emit|]. intros _ ? ->.
  apply tracked_ret. split; [done|]. destruct l as [l|]; [|done]. specialize (Hl l eq_refl). fold u in Hl. simpl.
  destruct (find_first _ l) as [ug|] eqn:Hf; [|done]. apply find_first_Some in Hf as [Hin Hg]. apply Z.eqb_eq in Hg.
  destruct (may_manage ug) eqn:Hm; [|destruct (ug_owner ug) eqn:Hw]; simpl; try done;
    (exists u; split; [done|]; exists ug; rewrite Hl, Hm, ?Hw; done).
Qed.

Lemma subscribed_open σ g g0 : subscribed σ g → subscribed (ws_upd σ (WAsk (CLogStream g0))) g.
Proof. intros [Hg Hu]. split; [by right | done]. Qed.

Lemma obeys_subscribe c σ g : conn_ok c σ → obeys σ (subscribe_logs c g) (ws_ok conn_ok).
Proof.
  intros Hc. unfold subscribe_logs. destruct (existsb _ _); [by apply tracked_ret|].
  eapply tracked_bindr; [by apply obeys_check_access| |]; [|intros e ? [-> _]; by apply Hc].
  intros [] ? [-> Hr]. simpl in Hr. destruct Hc as (Ho & Hs & Hst).
  set (σ1 := ws_upd σ (WAsk (CLogStream g))).
  eapply (tracked_bind _ _ _ _ _ _ (λ _ σ', σ' = σ1)).
  { eapply (tracked_bind _ _ _ _ _ _ (λ _ σ', σ' = σ1)); [|intros _ ? ->; by apply tracked_await].
    apply tracked_emit. intros _. split; [|done]. split; [|done]. by split. }
  intros ok ? ->. destruct ok; [|by apply tracked_ret].
  assert (conn_ok (mkWs (wc_streams c ++ [g]) (wc_state c)) σ1) as Hc1.
  { split; [done | split; [|exact Hst]]. simpl. apply Forall_app. split; [|constructor; [|done]].
    - eapply Forall_impl; [exact Hs|]. intros. by apply subscribed_open.
    - split; [by left | done]. }
  eapply tracked_bindr; [by apply obeys_emit_subscriptions| |]; [|by intros ? ? ->]. intros _ ? ->. by apply tracked_ret.
Qed.

Lemma obeys_unsubscribe c σ g : conn_ok c σ → obeys σ (unsubscribe_logs c g) (ws_ok conn_ok).
Proof.
  intros (Ho & Hs & Hst). assert (conn_ok (mkWs (List.filter (λ g', g' =? g) (wc_streams c)) (wc_state c)) σ) as Hc1.
  { split; [done | split; [|exact Hst]]. simpl. apply Forall_forall. intros x [Hx _]%list_elem_of_In%filter_In.
    apply list_elem_of_In in Hx. by eapply Forall_forall in Hs. }
  eapply tracked_bindr; [by apply obeys_emit_subscriptions| |]; [|by intros ? ? ->]. intros _ ? ->. by apply tracked_ret.
Qed.

Lemma obeys_login c σ t : conn_ok c σ → wc_state c = UnAuth → obeys σ (do_login c t) (ws_ok conn_ok).
Proof.
  intros (Ho & Hs & Hst) Hun. rewrite Hun in Hst. unfold do_login. eapply (tracked_bind _ _ _ _ _ _ (λ _ σ', σ' = σ)).
  { eapply (tracked_bind _ _ _ _ _ _ (λ _ σ', σ' = σ)); [by apply tracked_emit|]. intros _ ? ->. by apply tracked_await. }
  intros [[s|]|] ? ->; try by apply tracked_ret. set (σ1 := mkGhost (Some (lu_id (ws_user s))) (gh_opened σ) (gh_closed σ)).
  eapply (tracked_bind _ _ _ _ _ _ (λ _ σ', σ' = σ1 ∧ session_of (ws_token s) = Some (lu_id (ws_user s)))).
  { apply tracked_emit. intros [Hsess <-]. by split; [split|]. }
  intros _ ? [-> Htok]. eapply tracked_bindr; [by apply obeys_event| |]; [|by intros ? ? ->]. intros _ ? ->. apply tracked_ret.
  split; [done | split; [|done]]. simpl. eapply Forall_impl; [exact Hs|]. intros x [_ (u & Hu & _)]. congruence.
Qed.

Lemma obeys_command c σ cmd : conn_ok c σ → obeys σ (handle_ws_command c cmd) (ws_ok conn_ok).
Proof.
  intros Hc. pose proof (proj1 Hc) as Ho. unfold handle_ws_command. destruct (wc_state c) eqn:Hst, cmd; simpl; try by apply tracked_ret.
  - by apply obeys_login.
  - by apply obeys_subscribe.
  - by apply obeys_unsubscribe.
Qed.

Lemma obeys_message c σ msg : conn_ok c σ → obeys σ (handle_ws_message c msg) (ws_ok conn_ok).
Proof.
  intros Hc. pose proof (proj1 Hc) as Ho.
  assert (∀ b, obeys σ (handle_encoded c b) (ws_ok conn_ok)) as Henc.
  { intros b. unfold handle_encoded. destruct (from_json b); [by apply obeys_command | by apply tracked_ret]. }
  destruct msg; simpl; try by apply tracked_ret. 1, 2: apply Henc.
  eapply tracked_bindr; [by apply obeys_send| |]; [|by intros ? ? ->]. intros _ ? ->. by apply tracked_ret.
Qed.

Lemma obeys_then_keep {A} c σ (m : ws A) :
  conn_ok c σ → obeys σ m (λ _ σ', σ' = σ) →
  obeys σ (let! r := m in let! o := or_close r in aret ((λ _, c) <$> o)) (λ o σ', ∀ c', o = Some c' → conn_ok c' σ').
Proof.
  intros Hc Hm. eapply tracked_bind; [exact Hm|]. intros r ? ->.
  eapply tracked_bind; [apply (obeys_or_close σ r (λ _ σ', conn_ok c σ')); by destruct r; [|apply Hc]|].
  intros o σ' Ho. apply tracked_ret. intros c' Hc'. apply fmap_Some in Hc' as (a & -> & ->). by apply (Ho a).
Qed.

Lemma obeys_round c σ :
  conn_ok c σ → obeys σ (ws_round c) (λ r σ', match r with inl c' => conn_ok c' σ' | inr _ => True end).
Proof.
  intros (Ho & Hs & Hst).
  eapply (tracked_bind _ _ _ _ _ _ (λ x σ', σ' = σ ∧ conn_ok x.1 σ ∧
    match x.2 with SelLog g _ => g ∈ wc_streams x.1 | _ => True end)).
  - apply tracked_await. intros r x. destruct r; try done. set (streams := filter _ _).
    assert (conn_ok (mkWs streams (wc_state c)) σ) as Hc1.
    { split; [done | split; [|exact Hst]]. apply Forall_forall. intros g [_ Hg]%list_elem_of_filter. by eapply Forall_forall in Hs. }
    cbv zeta. destruct sel; repeat case_bool_decide; intros Hx; simplify_eq; by split_and!.
  - intros [c1 sel] ? (-> & Hc1 & Hsel). simpl in Hc1, Hsel.
    eapply (tracked_bind _ _ _ _ _ _ (λ o σ', ∀ c', o = Some c' → conn_ok c' σ')).
    + destruct sel as [g [e|]| |[msg|]|].
      * eapply (tracked_bind _ _ _ _ _ _ (λ _ σ', σ' = σ ∧ le_guild_id e = g)); [by apply tracked_emit|].
        intros _ ? [-> He]. apply obeys_then_keep; [done|]. apply obeys_event; [done|]. simpl. rewrite He.
        destruct Hc1 as (_ & Hs1 & _). by eapply Forall_forall in Hs1.
      * eapply (tracked_bind _ _ _ _ _ _ (λ _ _, True)); [by apply obeys_close|]. intros _ ? _. by apply tracked_ret.
      * apply tracked_ret. by intros ? [= <-].
      * eapply tracked_bind; [by apply obeys_message|]. intros r σ' Hr. by apply obeys_or_close.
      * by apply tracked_ret.
      * apply obeys_then_keep; [done|]. by apply obeys_send.
    + intros [c'|] σ' Hc'; apply tracked_ret; [by apply Hc' | done].
Qed.

(** C11: A websocket connection tells nobody anything they may not know: at every moment of its
    life, whatever the client sends and whatever the stores, Discord and the scheduler answer, as
    long as the answers are true, everything it has done was permitted to the user that had
    logged in before. Log streams are opened only for guilds the user manages or owns, log
    entries and subscriptions are sent only for guilds whose stream was opened, nothing but a
    close frame or a control frame is sent before a login, a connection logs in once, and nothing
    at all happens after a close frame. *)
Theorem ws_connection_safe tape :
  Forall true_answer (trace_of (ws_run tape)) → along ws_upd ws_permitted ghost_new (trace_of (ws_run tape)).
Proof.
  intros Ht. refine (proj1 (tracked_iter _ _ _ conn_ok ws_round (λ _ _, True) ws_new ghost_new _ _ tape _)).
  - by split_and!.
  - exact obeys_round.
  - by apply along_const.
Qed.
End safety.

(** * The loop and its commands *)

Section commands.
Context `{!Calendar, !Serde WsEvent, !Serde WsCommand}.

Ltac uses_tac :=
  repeat match goal with
  | |- uses 0 (abind _ _) => apply (uses_bind 0 0); [|intros]
  | |- uses 0 (abindr _ _) => apply (uses_bind 0 0); [|intros]
  | |- uses 0 (aret _) => apply uses_ret
  | |- uses 0 (emit _) => apply uses_emit
  | |- uses 0 (lift _) => apply uses_lift
  | |- uses 0 apanic => apply uses_panic
  | |- uses 0 (await _) => apply (uses_weaken 1); [apply uses_await | lia]
  | |- uses 0 (iter _ _) => apply uses_iter; intros
  | |- uses 0 (match ?x with _ => _ end) => destruct x
  end.

Lemma uses_user_guilds c : uses 0 (current_user_guilds c).
Proof.
  unfold current_user_guilds, run_api_check_err, api_round, get_user_guilds, fresh, fetched, update_token, ask, ask_clock.
  uses_tac.
Qed.

Lemma uses_command c cmd : uses 0 (handle_ws_command c cmd).
Proof.
  unfold handle_ws_command, handle_ws_command_unauth, handle_ws_command_auth, do_login, subscribe_logs, check_guild_acces,
    shared_client, unsubscribe_logs, emit_subscriptions, send_event, ws_send, ask.
  uses_tac. all: apply uses_user_guilds.
Qed.

(** Every round takes an answer, so the loop goes on until the connection ends. *)
Lemma ws_round_consuming : consuming ws_round.
Proof.
  apply uses_consuming. intros c. apply (uses_bind 1 0); [apply uses_await|]. intros [c1 sel].
  unfold handle_log_stream_item, handle_ws_rcv, handle_ws_message, handle_encoded, send_ping, or_close, ws_close, send_event, ws_send, ask.
  uses_tac. all: apply uses_command.
Qed.

(** Unsubscribing does the opposite of what is asked: a connection that unsubscribes from a
    guild keeps the stream of that guild, if it has one, and drops the streams of all others. *)
Theorem unsubscribe_keeps_only_that_guild s l g ids b tape :
  ids ≡ₚ List.filter (λ x, x =? g) l → to_json (SubscriptionsUpdated ids) = Some b →
  ∃ c, handle_ws_command (mkWs l (Authorized s)) (UnSubscribeLogs g) (WrStreamOrder ids :: WrSent true :: tape) =
         Done (Ok c) tape [WAsk (CWsSend (MText b))] ∧
       (∀ x, x ∈ wc_streams c ↔ x = g ∧ g ∈ l) ∧ (∀ x, x ∈ ids ↔ x = g ∧ g ∈ l).
Proof.
  intros Hids Hb. exists (mkWs (List.filter (λ x, x =? g) l) (Authorized s)).
  assert (∀ x, x ∈ List.filter (λ x, x =? g) l ↔ x = g ∧ g ∈ l) as Hin.
  { intros x. rewrite list_elem_of_In, filter_In, <- list_elem_of_In, Z.eqb_eq. naive_solver. }
  split; [|split; [exact Hin | intros x; by rewrite Hids]].
  unfold handle_ws_command, handle_ws_command_auth, unsubscribe_logs, emit_subscriptions, abindr, abind, await, ask, emit. simpl.
  rewrite bool_decide_true by done. unfold send_event. rewrite Hb. reflexivity.
Qed.
End commands.

(** * Examples *)

#[local] Instance ex_ws_event : Serde WsEvent := {|
  to_json e := Some match e with
                    | AuthSuccess u => [1; lu_id u]
                    | SubscriptionsUpdated ids => 2 :: ids
                    | ScriptLogMessage e => [3; le_guild_id e]
                    end;
  from_json _ := None |}.
#[local] Instance ex_ws_command : Serde WsCommand := {|
  to_json _ := None;
  from_json b := match b with
                 | [1] => Some (Authorize "tok")
                 | [2; g] => Some (SubscribeLogs g)
                 | [3; g] => Some (UnSubscribeLogs g)
                 | _ => None
                 end |}.

Definition ex_log (g : Z) : LogEntry := log_info g "hello".
Definition ex_guild_list : list UserGuild := [mkUserGuild 7 32 false; mkUserGuild 8 0 true; mkUserGuild 9 0 false].

(** User 5 logs in, follows guilds 7 (which it manages) and 8 (which it owns), gets an entry of 8,
    and is cut off when it asks for guild 9, of which it is only a member. *)
Definition ex_ws_tape : list WResp :=
  let client := new_twilight 5 "acc" in
  let cached := mkClient 5 "acc" (Some (100, ex_guild_list)) None false in
  [WrSelect [] (SelRecv (Some (MText [1]))); WrSession (Some (Some ex_session)); WrSent true;
   WrSelect [] (SelRecv (Some (MText [2; 7]))); WrClient client; WrGuilds (Ok (Some ex_guild_list)); WrNow 100;
     WrStream true; WrStreamOrder [7]; WrSent true;
   WrSelect [] (SelRecv (Some (MText [2; 8]))); WrClient cached; WrNow 200; WrStream true; WrStreamOrder [8; 7]; WrSent true;
   WrSelect [] (SelLog 8 (Some (ex_log 8))); WrSent true;
   WrSelect [7] SelTick; WrSent true;
   WrSelect [] (SelRecv (Some (MText [2; 9]))); WrClient cached; WrNow 300; WrSent true].

Definition ex_ws_run : list WResp → run WResp WEv unit := @ws_run ex_bucket_calendar _ _.

Definition sent (ev : WEv) : option WsMessage := match ev with WAsk (CWsSend m) => Some m | _ => None end.

Example ex_ws_sends :
  omap sent (trace_of (ex_ws_run ex_ws_tape)) =
  [MText [1; 5]; MText [2; 7]; MText [2; 8; 7]; MText [3; 8]; MPing [69]; MClose (Some (4004, "missing access to guild"))].
Proof. vm_compute. reflexivity. Qed.

Lemma ws_connection_safe_witness :
  along ws_upd (ws_permitted ex_session_of (λ _, ex_guild_list) (λ _, 0) (λ _, false) (λ _, False) (λ _, None) (λ _ _, False)) ghost_new
    (trace_of (ex_ws_run ex_ws_tape)).
Proof.
  refine (@ws_connection_safe ex_bucket_calendar _ _ ex_session_of (λ _, ex_guild_list) (λ _, 0) (λ _, false) (λ _, False) (λ _, None) (λ _ _, False) ex_ws_tape _).
  vm_compute. repeat constructor. all: intros ? ? E; first [discriminate E | injection E as <- <-; reflexivity].
Defined.

Lemma unsubscribe_keeps_only_that_guild_witness :
  ∃ c, @handle_ws_command ex_bucket_calendar _ (mkWs [7; 8] (Authorized ex_session)) (UnSubscribeLogs 7) [WrStreamOrder [7]; WrSent true] =
    Done (Ok c) [] [WAsk (CWsSend (MText [2; 7]))] ∧ 7 ∈ wc_streams c.
Proof.
  destruct (@unsubscribe_keeps_only_that_guild ex_bucket_calendar _ ex_session [7; 8] 7 [7] [2; 7] [] ltac:(reflexivity) eq_refl)
    as (c & Hr & Hin & _).
  exists c. split; [exact Hr|]. apply Hin. split; [reflexivity | left].
Defined.
