(* ===== verification/BrokerClient.v ===== *)
(** The scheduler's end of the connection to the broker ([cmd/scheduler/src/broker_client.rs]), and
    the way of an event from Discord's gateway to the scheduler.

    The client reads a message, hands it to the scheduler as a command and only then acknowledges
    it; the broker ([Broker]) sends the next message when the last one is acknowledged, and
    queues what was not while no scheduler is connected. The connection may break at any moment.
    Together they deliver every event at least once and in order. *)
From stdpp Require Import base gmap list strings.
From S2P Require Import Prelude Models WorkerPool Commands World Scheduler Broker.

(** [dbrokerapi::broker_scheduler_rpc::BrokerEvent] *)
Inductive WireMsg :=
| MsHello (connected_guilds : list Z)
| MsEvent (guild_id : Z) (evt : Event).

(** How twilight writes the type of an event, and what it reads back from the JSON of one. *)
Class EventCodec := {
  event_type : Event → string;
  decode_dispatch : Event → option (GuildEventKind * outcome (option (string * JsonValue)));
}.

Inductive CResp :=
| CClosed (b : bool)
| CConnect (ok : bool)
| CRead (m : option WireMsg)
| CSent (ok : bool)
| CWritten (ok : bool).

Inductive CEv :=
| CeRead (m : WireMsg)
| CeCommand (c : SchedulerCommand)
| CeAck
| CeSleep.

Notation cio := (async CResp CEv).

Section client.
Context `{!EventCodec}.

(** [GuildEvent::try_from] *)
Definition guild_event_of (guild_id : Z) (evt : Event) : option GuildEvent :=
  (λ kd : GuildEventKind * outcome (option (string * JsonValue)), mkGuildEvent guild_id (event_type evt) kd.1 kd.2) <$> decode_dispatch evt.

(** [scheduler_tx.send(cmd)]: [false] when the scheduler is gone. *)
Definition send_command (c : SchedulerCommand) : cio bool :=
  let! ok := await (λ r, match r with CSent ok => Some ok | _ => None end) in
  if ok : bool then emit (CeCommand c) ;;; aret true else aret false.

(** The rest of a round of [BrokerConn::run]: the command, then the acknowledgement. *)
Definition pass_on (c : SchedulerCommand) : cio (unit + bool) :=
  let! ok := send_command c in
  if ok : bool then
    let! written := await (λ r, match r with CWritten ok => Some ok | _ => None end) in
    if written : bool then emit CeAck ;;; aret (inl tt) else aret (inr false)
  else aret (inr true).

Definition conn_round (_ : unit) : cio (unit + bool) :=
  let! next := await (λ r, match r with CRead m => Some m | _ => None end) in
  match next with
  | None => aret (inr false)
  | Some m =>
      emit (CeRead m) ;;;
      match m with
      | MsHello h => pass_on (BrokerHello h)
      | MsEvent g evt => let! decoded := lift (unwrap (guild_event_of g evt)) in pass_on (DiscordEvent decoded)
      end
  end.

(** [BrokerConn::run]: [false] is an [io::Error]. *)
Definition conn_run : cio bool :=
  let! _ := send_command BrokerConnected in
  iter conn_round tt.

Definition client_round (_ : unit) : cio (unit + unit) :=
  let! closed := await (λ r, match r with CClosed b => Some b | _ => None end) in
  if closed : bool then aret (inr tt)
  else
    let! connected := await (λ r, match r with CConnect ok => Some ok | _ => None end) in
    if connected : bool then
      let! _ := conn_run in
      let! _ := send_command BrokerDisconnected in aret (inl tt)
    else emit CeSleep ;;; aret (inl tt).

Definition broker_client : cio unit := iter client_round tt.

(** * What a connection's client does *)

(** The command for a message. *)
Definition command_of (m : WireMsg) : option SchedulerCommand :=
  match m with
  | MsHello h => Some (BrokerHello h)
  | MsEvent g evt => DiscordEvent <$> guild_event_of g evt
  end.

(** Between two messages, with a message read, with its command passed on. *)
Inductive Phase := PIdle | PRead (m : WireMsg) | PPassed (m : WireMsg).

Definition ph_upd (p : Phase) (ev : CEv) : Phase :=
  match ev, p with
  | CeRead m, _ => PRead m
  | CeCommand _, PRead m => PPassed m
  | CeAck, _ => PIdle
  | _, _ => p
  end.

(** Messages are read one at a time, passed on as the command for them, then acknowledged. *)
Definition ph_ok (p : Phase) (ev : CEv) : Prop :=
  match ev with
  | CeRead _ => p = PIdle
  | CeCommand c => match p with
                   | PIdle => c = BrokerConnected
                   | PRead m => command_of m = Some c
                   | PPassed _ => False
                   end
  | CeAck => ∃ m, p = PPassed m
  | CeSleep => False
  end.

Notation orderly := (tracked ph_upd (λ _ _, True) ph_ok).

Lemma orderly_pass m c : command_of m = Some c → orderly (PRead m) (pass_on c) (λ r p, r = inl tt → p = PIdle).
Proof.
  intros Hm. eapply (tracked_bind _ _ _ _ _ _ (λ ok p, ok = true → p = PPassed m)).
  - eapply (tracked_bind _ _ _ _ _ _ (λ _ p, p = PRead m)); [by apply tracked_await|]. intros [] ? ->; [|by apply tracked_ret].
    eapply (tracked_bind _ _ _ _ _ _ (λ _ p, p = PPassed m)); [by apply tracked_emit|]. intros _ ? ->. by apply tracked_ret.
  - intros [] p Hp; [|by apply tracked_ret]. rewrite (Hp eq_refl).
    eapply (tracked_bind _ _ _ _ _ _ (λ _ p, p = PPassed m)); [by apply tracked_await|]. intros [] ? ->; [|by apply tracked_ret].
    eapply (tracked_bind _ _ _ _ _ _ (λ _ p, p = PIdle)); [apply tracked_emit; intros _; split; [by exists m | done]|].
    intros _ ? ->. by apply tracked_ret.
Qed.

Lemma orderly_round : orderly PIdle (conn_round tt) (λ r p, r = inl tt → p = PIdle).
Proof.
  eapply (tracked_bind _ _ _ _ _ _ (λ _ p, p = PIdle)); [by apply tracked_await|]. intros [m|] ? ->; [|by apply tracked_ret].
  eapply (tracked_bind _ _ _ _ _ _ (λ _ p, p = PRead m)); [by apply tracked_emit|]. intros _ ? ->.
  destruct m as [h|g evt]; [by apply orderly_pass|]. destruct (guild_event_of g evt) as [d|] eqn:Hd; [|by intros tape _].
  eapply (tracked_bind _ _ _ _ _ _ (λ x p, x = d ∧ p = PRead (MsEvent g evt))); [by apply tracked_ret|]. intros ? ? [-> ->].
  apply orderly_pass. simpl. by rewrite Hd.
Qed.

Lemma orderly_conn tape : along ph_upd ph_ok PIdle (trace_of (conn_run tape)).
Proof.
  assert (orderly PIdle conn_run (λ _ _, True)) as Hc.
  { eapply (tracked_bind _ _ _ _ _ _ (λ _ p, p = PIdle)).
    - eapply (tracked_bind _ _ _ _ _ _ (λ _ p, p = PIdle)); [by apply tracked_await|]. intros [] ? ->; [|by apply tracked_ret].
      eapply (tracked_bind _ _ _ _ _ _ (λ _ p, p = PIdle)); [by apply tracked_emit|]. intros _ ? ->. by apply tracked_ret.
    - intros _ ? ->. apply (tracked_iter _ _ _ (λ _ p, p = PIdle)); [done|]. intros [] ? ->.
      eapply tracked_mono; [apply orderly_round|]. intros [[]|] p Hp; auto. }
  apply Hc. apply along_const. by apply Forall_true.
Qed.

Definition reads (ct : list CEv) : list WireMsg := omap (λ ev, match ev with CeRead m => Some m | _ => None end) ct.
Definition acks (ct : list CEv) : nat := length (omap (λ ev, match ev with CeAck => Some tt | _ => None end) ct).
Definition passed (ct : list CEv) : list SchedulerCommand :=
  omap (λ ev, match ev with CeCommand BrokerConnected => None | CeCommand c => Some c | _ => None end) ct.
Definition heard (ct : list CEv) : list GuildEvent :=
  omap (λ c, match c with DiscordEvent e => Some e | _ => None end) (passed ct).

Definition in_hand (p : Phase) : list WireMsg := match p with PIdle => [] | PRead m | PPassed m => [m] end.
Definition already (p : Phase) : nat := match p with PPassed _ => 1 | _ => 0 end.

Lemma command_passed m c ct : command_of m = Some c → passed (CeCommand c :: ct) = c :: passed ct.
Proof. destruct m as [h|g evt]; simpl; [by intros [= <-]|]. destruct (guild_event_of g evt); [|done]. by intros [= <-]. Qed.

Lemma orderly_counts p ct :
  along ph_upd ph_ok p ct →
  ∃ k, (already p ≤ k)%nat ∧ (acks ct ≤ k)%nat ∧ (k ≤ length (in_hand p ++ reads ct))%nat ∧
       Some <$> passed ct = command_of <$> drop (already p) (take k (in_hand p ++ reads ct)).
Proof.
  revert p. induction ct as [|ev ct IH]; intros p; simpl along.
  { intros _. exists (already p). unfold acks, reads, passed. destruct p; simpl; split_and!; try done; lia. }
  intros [He Ht]. destruct (IH _ Ht) as (k & Hk1 & Hk2 & Hk3 & Hp). clear IH Ht. destruct ev as [m|c| |]; simpl in He.
  - subst p. simpl in *. exists k. split_and!; [lia|exact Hk2|exact Hk3|exact Hp].
  - destruct p as [|m|m]; [subst c; simpl in *; by exists k| |done]. cbn [ph_upd already in_hand] in *. exists k.
    split_and!; [lia|exact Hk2|exact Hk3|]. rewrite (command_passed m) by done. destruct k as [|k]; [lia|].
    change (reads (CeCommand c :: ct)) with (reads ct). rewrite fmap_cons, Hp. simpl. by rewrite He, drop_0.
  - destruct He as [m ->]. simpl in *. exists (S k). change (reads (CeAck :: ct)) with (reads ct). change (acks (CeAck :: ct)) with (S (acks ct)).
    split_and!; [lia|lia|simpl; lia|]. simpl. rewrite drop_0 in *. exact Hp.
  - done.
Qed.

(** The client of a connection passes on, in order, the commands for a first part of the
    messages it reads, which includes those it acknowledges. *)
Lemma client_passes tape :
  let ct := trace_of (conn_run tape) in
  ∃ k, (acks ct ≤ k ≤ length (reads ct))%nat ∧ Some <$> passed ct = command_of <$> take k (reads ct).
Proof.
  intros ct. destruct (orderly_counts PIdle ct (orderly_conn tape)) as (k & _ & Hk & Hk' & Hp). simpl in *.
  rewrite drop_0 in Hp. by exists k.
Qed.

(** * From the broker to the scheduler *)

(** The messages a broker writes, and whether it read an acknowledgement for each. *)
Fixpoint parse (tr : list BEv) : list (WireMsg * bool) :=
  match tr with
  | [] => []
  | BWriteHello gs :: tr' => match tr' with
                             | BGotAck :: _ => (MsHello gs, true) :: parse tr'
                             | _ => (MsHello gs, false) :: parse tr'
                             end
  | BWriteEvent g e :: tr' => match tr' with
                              | BGotAck :: _ => (MsEvent g e, true) :: parse tr'
                              | _ => (MsEvent g e, false) :: parse tr'
                              end
  | _ :: tr' => parse tr'
  end.

Definition is_hello (m : WireMsg) : bool := match m with MsHello _ => true | MsEvent _ _ => false end.

(** The client on the other end of a connection: TCP hands it a first part of what was written
    and hands the broker a first part of the acknowledgements. *)
Definition served (c : list (WireMsg * bool)) (ct : list CEv) : Prop :=
  (∃ tape, ct = trace_of (conn_run tape)) ∧ reads ct `prefix_of` c.*1 ∧ (length (List.filter snd c) ≤ acks ct)%nat.

(** The clients of all connections; a connection begins with a hello. *)
Inductive wire : list (WireMsg * bool) → list (list CEv) → Prop :=
| wire_nil : wire [] []
| wire_conn gs a c ct xs cts :
    Forall (λ x, is_hello x.1 = false) c → served ((MsHello gs, a) :: c) ct → wire xs cts →
    wire (((MsHello gs, a) :: c) ++ xs) (ct :: cts).

Definition events_of (xs : list (WireMsg * bool)) : list ((Z * Event) * bool) :=
  omap (λ x : WireMsg * bool, match x.1 with MsEvent g e => Some ((g, e), x.2) | MsHello _ => None end) xs.

(** What is heard of events sent: those acknowledged, and of the others any. *)
Inductive link : list ((Z * Event) * bool) → list (Z * Event) → Prop :=
| link_nil : link [] []
| link_heard x a xs R : link xs R → link ((x, a) :: xs) (x :: R)
| link_lost x xs R : link xs R → link ((x, false) :: xs) R.

Lemma link_app xs R ys R' : link xs R → link ys R' → link (xs ++ ys) (R ++ R').
Proof. induction 1; simpl; [done|..]; intros; constructor; auto. Qed.

(** The broker waits for each acknowledgement and gives the connection up without it. *)
Fixpoint sync (xs : list (WireMsg * bool)) : Prop :=
  match xs with
  | [] => True
  | (_, a) :: xs => (a = true ∨ match xs with [] => True | (m, _) :: _ => is_hello m = true end) ∧ sync xs
  end.

Lemma sync_app xs ys : sync (xs ++ ys) → sync xs ∧ sync ys.
Proof.
  induction xs as [|[m a] xs IH]; simpl; [done|]. intros [Hm Hs]. destruct (IH Hs). split; [|done]. split; [|done].
  destruct Hm as [?|Hm]; [by left|right]. by destruct xs as [|[]].
Qed.

Lemma sync_connection gs a c :
  Forall (λ x, is_hello x.1 = false) c → sync ((MsHello gs, a) :: c) →
  ∃ l t, (MsHello gs, a) :: c = l ++ t ∧ Forall (λ x, x.2 = true) l ∧ (t = [] ∨ ∃ m, t = [(m, false)]).
Proof.
  generalize (MsHello gs). revert a. induction c as [|[m1 a1] c IH]; intros a m Hc [Ha Hs].
  - destruct a; [exists [(m, true)], [] | exists [], [(m, false)]]; split_and!; eauto.
  - apply Forall_cons in Hc as [Hm1 Hc]. simpl in Ha, Hm1. destruct Ha as [->|Ha]; [|congruence].
    destruct (IH a1 m1 Hc Hs) as (l & t & Heq & Hl & Ht). exists ((m, true) :: l), t. rewrite Heq. by split_and!; [|constructor|].
Qed.

Lemma all_acked (l : list (WireMsg * bool)) : Forall (λ x, x.2 = true) l → List.filter snd l = l.
Proof. induction 1 as [|[m a] l Ha _ IH]; simpl in *; [done|]. by rewrite Ha, IH. Qed.

Lemma link_acked (l : list (WireMsg * bool)) : link (events_of l) (events_of l).*1.
Proof. induction l as [|[[gs|g e] a] l IH]; simpl; [constructor|done|]. by constructor. Qed.

Lemma heard_commands (cmds : list SchedulerCommand) (ms : list WireMsg) :
  Some <$> cmds = command_of <$> ms →
  Some <$> omap (λ c, match c with DiscordEvent e => Some e | _ => None end) cmds =
  (λ ge, guild_event_of ge.1 ge.2) <$> omap (λ m, match m with MsEvent g e => Some (g, e) | MsHello _ => None end) ms.
Proof.
  revert ms. induction cmds as [|c cmds IH]; intros [|m ms]; try done. simpl. intros [= Hc Hms]. specialize (IH _ Hms).
  destruct m as [h|g e]; simpl in *; [by injection Hc as ->|]. destruct (guild_event_of g e) as [d|] eqn:Hd; [|done].
  injection Hc as ->. simpl. rewrite ?Hd; f_equal; exact IH.
Qed.

(** One connection. *)
Lemma served_link gs a c ct :
  Forall (λ x, is_hello x.1 = false) c → sync ((MsHello gs, a) :: c) → served ((MsHello gs, a) :: c) ct →
  ∃ R, link (events_of ((MsHello gs, a) :: c)) R ∧ Some <$> heard ct = (λ ge, guild_event_of ge.1 ge.2) <$> R.
Proof.
  intros Hc Hs ((tape & ->) & Hpre & Hacks). destruct (sync_connection gs a c Hc Hs) as (l & t & Heq & Hl & Ht). rewrite Heq in *.
  destruct (client_passes tape) as (k & Hk & Hp). set (ct := trace_of (conn_run tape)) in *.
  assert (take k (reads ct) = take k (l ++ t).*1) as Htake.
  { destruct Hpre as [z ->]. rewrite take_app_le by lia. done. }
  rewrite List.filter_app, (all_acked l Hl), length_app in Hacks.
  exists (omap (λ m, match m with MsEvent g e => Some (g, e) | MsHello _ => None end) (take k (l ++ t).*1)).
  split; [|apply heard_commands; by rewrite <- Htake].
  assert (∀ xs : list (WireMsg * bool), omap (λ m, match m with MsEvent g e => Some (g, e) | MsHello _ => None end) xs.*1 = (events_of xs).*1) as Hev.
  { induction xs as [|[[|] ?] xs IHx]; simpl; [done|exact IHx|f_equal; exact IHx]. }
  rewrite fmap_app. destruct (decide (k < length (l ++ t))%nat) as [Hlt|Hge].
  - rewrite length_app in Hlt. destruct Ht as [->|[m ->]]; simpl in *; [lia|]. assert (k = length l) as -> by lia.
    rewrite take_app_length' by (by rewrite length_fmap). rewrite Hev. unfold events_of. rewrite omap_app.
    rewrite <- (app_nil_r (omap _ l).*1). apply link_app; [apply link_acked|]. destruct m; simpl; repeat constructor.
  - rewrite take_ge by (rewrite <- fmap_app, length_fmap; lia). rewrite <- fmap_app, Hev. apply link_acked.
Qed.

Lemma wire_link xs cts :
  wire xs cts → sync xs → ∃ R, link (events_of xs) R ∧ Some <$> concat (heard <$> cts) = (λ ge, guild_event_of ge.1 ge.2) <$> R.
Proof.
  induction 1 as [|gs a c ct xs cts Hc Hserved _ IH]; intros Hs; [by exists []; split; [constructor|]|].
  apply sync_app in Hs as [Hs1 Hs2]. destruct (served_link gs a c ct Hc Hs1 Hserved) as (R1 & Hl1 & Hr1).
  destruct (IH Hs2) as (R2 & Hl2 & Hr2). exists (R1 ++ R2). unfold events_of in *. rewrite omap_app. split; [by apply link_app|].
  rewrite fmap_cons, concat_cons, !fmap_app. by rewrite Hr1, Hr2.
Qed.

(** * The broker's side *)

(** [fits S xs F S']: sending [xs] takes the stream [S] of events to [S'], and [F] are the events
    taken off, each with whether it was acknowledged. One that is not stays first until it is
    sent again or given up. *)
Inductive fits : list (Z * Event) → list ((Z * Event) * bool) → list ((Z * Event) * bool) → list (Z * Event) → Prop :=
| fits_nil S : fits S [] [] S
| fits_ack x S xs F S' : fits S xs F S' → fits (x :: S) ((x, true) :: xs) ((x, true) :: F) S'
| fits_unack x S xs F S' : fits (x :: S) xs F S' → fits (x :: S) ((x, false) :: xs) F S'
| fits_lost x S xs F S' : fits S xs F S' → fits (x :: S) xs ((x, false) :: F) S'.

Lemma fits_more S xs F S' T : fits S xs F S' → fits (S ++ T) xs F (S' ++ T).
Proof. induction 1; simpl; constructor; done. Qed.

Lemma fits_app S xs F S' ys F' S'' : fits S xs F S' → fits S' ys F' S'' → fits S (xs ++ ys) (F ++ F') S''.
Proof. induction 1; simpl; [done|..]; intros; constructor; auto. Qed.

Lemma fits_given_up q : fits q [] ((λ ge, (ge, false)) <$> q) [].
Proof. induction q; simpl; by constructor. Qed.

(** [hears F R]: [R] are the events of [F] in order, an acknowledged one at least once, another
    one any number of times. *)
Inductive hears : list ((Z * Event) * bool) → list (Z * Event) → Prop :=
| hears_nil : hears [] []
| hears_last x a F R : hears F R → hears ((x, a) :: F) (x :: R)
| hears_again x a F R : hears ((x, a) :: F) R → hears ((x, a) :: F) (x :: R)
| hears_never x F R : hears F R → hears ((x, false) :: F) R.

(** The event at the head of a queue may have been sent. *)
Definition maybe_sent (q : list (Z * Event)) : list ((Z * Event) * bool) := (λ ge, (ge, false)) <$> take 1 q.

Lemma fits_hears E xs F q R : fits E xs F q → link xs R → E = F.*1 ++ q ∧ hears (F ++ maybe_sent q) R.
Proof.
  intros Hf. revert R. induction Hf as [S|x S xs F S' _ IH|x S xs F S' _ IH|x S xs F S' _ IH]; intros R Hl.
  - inversion Hl. split; [done|]. destruct S; simpl; repeat constructor.
  - inversion Hl as [|? ? ? R' Hl'|]; subst. destruct (IH R' Hl') as [-> HD]. split; [done|]. by constructor.
  - assert (∃ R', link xs R' ∧ (R = x :: R' ∨ R = R')) as (R' & Hl' & HR) by (inversion Hl; subst; eauto).
    destruct (IH R' Hl') as [HE HD]. split; [done|]. destruct HR as [->| ->]; [|done].
    destruct F as [|[y a] F]; simpl in HE; [subst S'; by constructor|]. injection HE as <- ->. by constructor.
  - destruct (IH R Hl) as [-> HD]. split; [done|]. by constructor.
Qed.
End client.

Section delivery.
Context `{!GuildCache}.

(** The guild event an input brings. *)
Definition guild_of (evt : Event) : option Z :=
  match evt with
  | EvGuildDelete id _ _ | EvGuildCreate id _ => Some id
  | EvGuild _ g _ => Some g
  | EvMaybeGuild _ g _ => g
  | EvReady | EvOther _ => None
  end.
Definition brings (i : BrokerInput) : list (Z * Event) :=
  match i with
  | InEvent (Some evt) => match guild_of evt with Some g => [(g, evt)] | None => [] end
  | _ => []
  end.

(** The life of a broker: the guild events it got, what it wrote and read. *)
Inductive broker_run : list (Z * Event) → list BEv → Broker → Prop :=
| run_start now c : broker_run [] [] (broker_new now c)
| run_round E tr b i tape b' rest tr' :
    broker_run E tr b → broker_round i b tape = Done b' rest tr' → broker_run (E ++ brings i) (tr ++ tr') b'.

(** What was given up, and when. *)
Definition lost_of (tr : list BEv) : list (Z * Event) :=
  concat ((λ ev, match ev with BCleared _ lost => lost | _ => [] end) <$> tr).
Definition given_up_late (ev : BEv) : Prop := match ev with BCleared after _ => 60 * nanos_per_sec < after | _ => True end.
Definition unacked (F : list ((Z * Event) * bool)) : list (Z * Event) := (List.filter (λ x, negb x.2) F).*1.

Lemma lost_of_app tr tr' : lost_of (tr ++ tr') = lost_of tr ++ lost_of tr'.
Proof. unfold lost_of. by rewrite fmap_app, concat_app. Qed.
Lemma unacked_app F F' : unacked (F ++ F') = unacked F ++ unacked F'.
Proof. unfold unacked. by rewrite List.filter_app, fmap_app. Qed.
Lemma unacked_none q : unacked ((λ ge, (ge, true)) <$> q) = [].
Proof. induction q; [done|]. exact IHq. Qed.
Lemma unacked_all q : unacked ((λ ge, (ge, false)) <$> q) = q.
Proof. unfold unacked. induction q as [|x q IH]; [done|]. simpl. by f_equal. Qed.
Lemma lost_of_exchanges q : lost_of (exchanges q) = [].
Proof. unfold exchanges. induction q as [|x q IH]; [done|]. exact IH. Qed.
Lemma exchanges_late q : Forall given_up_late (exchanges q).
Proof. unfold exchanges. induction q as [|x q IH]; simpl; repeat (constructor; try done). Qed.

(** The last message, if any, was acknowledged. *)
Definition settled (xs : list (WireMsg * bool)) : Prop := ∀ x, last xs = Some x → x.2 = true.

(** What one round does: the stream of events moves on, on the connection that was open or on a
    new one, and the connection is given up when a message is not acknowledged. *)
Definition round_ok (b : Broker) (new : list (Z * Event)) (b' : Broker) (tr : list BEv) : Prop :=
  head tr ≠ Some BGotAck ∧ Forall given_up_late tr ∧
  (∃ F, fits (b_queue b ++ new) (events_of (parse tr)) F (b_queue b') ∧ unacked F = lost_of tr) ∧ sync (parse tr) ∧
  (connected b = true ∨ match parse tr with [] => True | (m, _) :: _ => is_hello m = true end) ∧
  (connected b' = true → b_queue b' = [] ∧ settled (parse tr) ∧ (connected b = true ∨ parse tr ≠ [])).

(** Events acknowledged one after the other. *)
Lemma parse_exchanges q tail :
  head tail ≠ Some BGotAck → parse (exchanges q ++ tail) = ((λ ge, (MsEvent ge.1 ge.2, true)) <$> q) ++ parse tail.
Proof. intros Ht. induction q as [|[g e] q IH]; [done|]. simpl. f_equal. exact IH. Qed.

Lemma events_of_acked q : events_of ((λ ge : Z * Event, (MsEvent ge.1 ge.2, true)) <$> q) = (λ ge, (ge, true)) <$> q.
Proof. induction q as [|[g e] q IH]; [done|]. simpl. f_equal. exact IH. Qed.

Lemma fits_acked q T : fits (q ++ T) ((λ ge, (ge, true)) <$> q) ((λ ge, (ge, true)) <$> q) T.
Proof. induction q; simpl; by constructor. Qed.

Lemma sync_acked q ys : sync ys → sync (((λ ge : Z * Event, (MsEvent ge.1 ge.2, true)) <$> q) ++ ys).
Proof. intros Hy. induction q as [|ge q IH]; simpl; [done|]. split; [by left | exact IH]. Qed.

Lemma settled_acked x q : settled ((x, true) :: ((λ ge : Z * Event, (MsEvent ge.1 ge.2, true)) <$> q)).
Proof.
  intros y Hy. apply last_Some_elem_of in Hy. apply elem_of_cons in Hy as [->|Hy]; [done|].
  by apply list_elem_of_fmap in Hy as (? & -> & _).
Qed.

Lemma send_event_outcome b e :
  connected b = true → wp True (Broker.send_event b e) (λ (ok : bool) tr, tr = if ok then [e; BGotAck] else [e]).
Proof.
  intros Hc. unfold Broker.send_event. rewrite Hc. apply wp_bind, wp_emit, wp_bind, wp_await. intros _ [] _; [|by apply wp_ret].
  apply wp_bind, wp_await. intros _ [] _; [|by apply wp_ret]. apply wp_bind, wp_emit. by apply wp_ret.
Qed.

Lemma resend_closed q b :
  connected b = false → wp True (afold resend q b) (λ b' tr, b' = set_queue b (b_queue b ++ q) ∧ tr = []).
Proof. intros Hc tape. by rewrite resend_disconnected. Qed.

(** The queue on a new connection: all of it, or up to the first failure. *)
Lemma resend_outcome q b :
  connected b = true → b_queue b = [] →
  wp True (afold resend q b) (λ b' tr,
    (connected b' = true ∧ b_queue b' = [] ∧ tr = exchanges q) ∨
    (connected b' = false ∧ ∃ pre ge post, q = pre ++ ge :: post ∧ tr = exchanges pre ++ [BWriteEvent ge.1 ge.2] ∧
       b_queue b' = ge :: post)).
Proof.
  revert b. induction q as [|ge q IH]; intros b Hc Hq; [by apply wp_ret; left|].
  cbn [afold]. apply wp_bind. unfold resend. rewrite Hc. apply wp_bind. eapply wp_mono; [by apply send_event_outcome|done|].
  intros [] tr ->.
  - apply wp_ret. eapply wp_mono; [by apply IH|done|]. intros b' tr [(H1 & H2 & ->)|(H1 & pre & x & post & -> & -> & H2)]; [by left|].
    right. split; [done|]. by exists (ge :: pre), x, post.
  - apply wp_bind, wp_await. intros _ now _. apply wp_ret. eapply wp_mono; [by apply resend_closed|done|]. intros b' tr [-> ->].
    right. split; [done|]. exists [], ge, q. simpl. by rewrite Hq.
Qed.

Lemma connect_ok b : wp True (scheduler_connected b) (round_ok b []).
Proof.
  unfold scheduler_connected, handle_new_scheduler_connected. apply wp_bind. eapply wp_mono; [by apply send_event_outcome|done|].
  intros ok tr ->. cbn [cache b_queue set_connected]. set (gs := cached_guilds (cache b)). destruct ok.
  - eapply wp_mono; [by apply resend_outcome|done|]. cbn [b_queue set_connected].
    intros b' tr [(Hc & Hq & ->)|(Hc & pre & x & post & Hpq & -> & Hq)]; (split; [done|]).
    + pose proof (parse_exchanges (b_queue b) [] ltac:(done)) as Hp. rewrite !app_nil_r in Hp. simpl. rewrite Hp. simpl.
      rewrite events_of_acked, Hq, app_nil_r.
      split_and!; [repeat constructor; apply exchanges_late| |by left|rewrite <- (app_nil_r (_ <$> _)); by apply sync_acked|by right|].
      * eexists. split; [rewrite <- (app_nil_r (b_queue b)) at 1; apply fits_acked|]. unfold lost_of. simpl.
        rewrite unacked_none. symmetry. apply lost_of_exchanges.
      * intros _. split_and!; [done|apply settled_acked|by right].
    + simpl. rewrite parse_exchanges by done. simpl. unfold events_of. simpl. rewrite omap_app. fold (events_of ((λ ge : Z * Event, (MsEvent ge.1 ge.2, true)) <$> pre)).
      rewrite events_of_acked, Hpq, Hq, app_nil_r. destruct x as [g e]. simpl.
      split_and!; [|eexists; split|by left|apply sync_acked; simpl; auto|by right|congruence].
      * repeat constructor. apply Forall_app. split; [apply exchanges_late|by repeat constructor].
      * eapply fits_app; [apply fits_acked|]. repeat constructor.
      * rewrite app_nil_r, unacked_none. unfold lost_of. simpl.
        change (concat _) with (lost_of (exchanges pre ++ [BWriteEvent g e])). by rewrite lost_of_app, lost_of_exchanges.
  - eapply wp_mono; [by apply resend_closed|done|]. intros b' tr [-> ->]. split; [done|]. simpl.
    rewrite app_nil_r. split_and!; [by repeat constructor|eexists; split; [constructor|done]|by right|done|by right|done].
Qed.

(** An event that is not acknowledged, or finds no connection, is queued or given up with the queue. *)
Lemma queue_ok b b0 g evt tr0 :
  (connected b = true → b_queue b = []) → connected b0 = false → b_queue b0 = b_queue b →
  (tr0 = [] ∨ tr0 = [BWriteEvent g evt] ∧ connected b = true) →
  wp True (queue_event g evt b0) (λ b' tr, round_ok b [(g, evt)] b' (tr0 ++ tr)).
Proof.
  intros Hb Hc0 Hq0 Htr. apply wp_bind, wp_await. intros _ now _. case_bool_decide as Hl.
  - apply wp_bind, wp_emit, wp_ret. split; [by destruct Htr as [->|[-> _]]|]. cbn [b_queue set_queue connected]. rewrite Hq0, Hc0.
    split; [destruct Htr as [->|[-> _]]; repeat constructor; exact Hl|].
    split; [|destruct Htr as [->|[-> Hc]]; simpl; split_and!; auto; done].
    exists ((λ ge, (ge, false)) <$> b_queue b ++ [(g, evt)]).
    rewrite unacked_all. destruct Htr as [->|[-> Hc]]; simpl; (split; [|unfold lost_of; simpl; by rewrite app_nil_r]).
    + apply fits_given_up.
    + rewrite (Hb Hc). repeat constructor.
  - apply wp_ret. split; [by destruct Htr as [->|[-> _]]|]. rewrite app_nil_r. cbn [b_queue set_queue connected]. rewrite Hq0, Hc0.
    split; [destruct Htr as [->|[-> _]]; by repeat constructor|].
    split; [|destruct Htr as [->|[-> Hc]]; simpl; split_and!; auto; done].
    exists []. destruct Htr as [->|[-> Hc]]; simpl; (split; [|done]); [constructor|]. rewrite (Hb Hc). repeat constructor.
Qed.

Lemma dispatch_ok b g evt :
  (connected b = true → b_queue b = []) →
  wp True (dispatch_or_queue_event g evt b) (round_ok b [(g, evt)]).
Proof.
  intros Hb. unfold dispatch_or_queue_event. destruct (connected b) eqn:Hc.
  - apply wp_bind. eapply wp_mono; [by apply send_event_outcome|done|]. intros [] tr ->.
    + apply wp_ret. split; [done|]. simpl. rewrite (Hb eq_refl). split_and!; [by repeat constructor| |by left|done|by left|].
      * exists [((g, evt), true)]. split; [repeat constructor|done].
      * intros _. split_and!; [done| |by left]. by intros x [= <-].
    + apply wp_bind, wp_await. intros _ now _. apply queue_ok; [by intros; apply Hb|done|done|]. by right.
  - eapply wp_mono; [by apply (queue_ok b b _ _ []); [congruence| | |left]|done|]. done.
Qed.

Lemma round_ok_idle b b' : connected b' = connected b → b_queue b' = b_queue b → (connected b = true → b_queue b = []) → round_ok b [] b' [].
Proof.
  intros Hc Hq Hb. split; [done|]. simpl. rewrite app_nil_r, Hc, Hq.
  split_and!; [constructor|exists []; by split; [constructor|]|done|by right|].
  intros Hcon. split_and!; [by apply Hb|done|by left].
Qed.

Lemma store_outcome e : wp True (store_call e) (λ _ tr, tr = [e]).
Proof. apply wp_bind, wp_emit, wp_bind, wp_await. intros. by apply wp_ret. Qed.

(** A call of the stores before the rest of the round. *)
Lemma round_ok_stored b b0 new b' tr e :
  connected b0 = connected b → b_queue b0 = b_queue b → (∃ g, e = BSetLeft g ∨ e = BAddGuild g) →
  round_ok b0 new b' tr → round_ok b new b' (e :: tr).
Proof.
  intros Hc Hq [g He] (_ & Hlate & Hr). assert (parse (e :: tr) = parse tr ∧ lost_of (e :: tr) = lost_of tr ∧ given_up_late e)
    as (Hp & Hlost & He') by by destruct He as [->| ->].
  split; [by destruct He as [->| ->]|]. rewrite Hp, Hlost, <- Hc, <- Hq. split; [by constructor|done].
Qed.

Lemma round_outcome i b : (connected b = true → b_queue b = []) → wp True (broker_round i b) (round_ok b (brings i)).
Proof.
  intros Hb. destruct i as [[evt|]|[[]|]]; [|by apply wp_panic|apply connect_ok|by apply wp_panic].
  set (b0 := update_cache evt b). assert (∀ g, wp True (dispatch_or_queue_event g evt b0) (round_ok b [(g, evt)])) as Hd.
  { intros g. exact (dispatch_ok b0 g evt Hb). }
  assert (∀ e g, (∃ g', e = BSetLeft g' ∨ e = BAddGuild g') →
    wp True (let! _ := store_call e in dispatch_or_queue_event g evt b0) (round_ok b [(g, evt)])) as Hs.
  { intros e g He. apply wp_bind. eapply wp_mono; [apply store_outcome|done|]. intros _ tr ->.
    eapply wp_mono; [apply Hd|done|]. intros b' tr Hr. by apply (round_ok_stored b b). }
  assert (∀ b', connected b' = connected b → b_queue b' = b_queue b → wp True (aret b' : bio Broker) (round_ok b [])) as Hi.
  { intros b' Hc Hq. apply wp_ret. by apply round_ok_idle. }
  unfold broker_round, handle_event. fold b0. destruct evt as [|id un p|id p|n g p|n [g|] p|p]; simpl; try (by apply Hi); try apply Hd.
  - destruct un; [|apply Hs; eauto]. apply wp_bind, wp_ret. apply Hd.
  - apply Hs; eauto.
Qed.

Lemma parse_app tr tr' : head tr' ≠ Some BGotAck → parse (tr ++ tr') = parse tr ++ parse tr'.
Proof.
  intros Hh. induction tr as [|ev tr IH]; [done|]. destruct ev; simpl; try exact IH;
    (destruct tr as [|ev' tr]; [destruct tr' as [|[] ?]; done|]; destruct ev'; simpl in *; by rewrite <- IH).
Qed.

Lemma sync_join xs ys :
  sync xs → sync ys → (settled xs ∨ match ys with [] => True | (m, _) :: _ => is_hello m = true end) → sync (xs ++ ys).
Proof.
  intros Hx Hy Hj. induction xs as [|[m a] xs IH]; [done|]. destruct Hx as [Ha Hx]. split.
  - destruct Ha as [Ha|Ha]; [by left|]. destruct xs as [|[m1 a1] xs]; [|by right]. simpl.
    destruct Hj as [Hj|Hj]; [left; exact (Hj _ eq_refl) | right; by destruct ys as [|[]]].
  - apply IH; [done|]. destruct Hj as [Hj|Hj]; [left|by right]. intros x Hl. apply Hj.
    destruct xs as [|y xs]; [done|]. exact Hl.
Qed.

(** In every life of a broker. *)
Lemma broker_run_inv E tr b :
  broker_run E tr b →
  Forall given_up_late tr ∧ (∃ F, fits E (events_of (parse tr)) F (b_queue b) ∧ unacked F = lost_of tr) ∧ sync (parse tr) ∧
  (connected b = true → b_queue b = [] ∧ settled (parse tr)).
Proof.
  induction 1 as [now c|E tr b i tape b' rest tr' _ IH Hstep].
  { split_and!; [constructor|exists []; by split; [constructor|]|done|done]. }
  destruct IH as (Hlate & (F & Hf & HF) & Hs & Hc). pose proof (round_outcome i b (λ H, proj1 (Hc H)) tape) as Hr.
  rewrite Hstep in Hr. destruct Hr as (Hh & Hlate' & (F' & Hf' & HF') & Hs' & Hj & Hc').
  rewrite parse_app by done. unfold events_of in *. rewrite omap_app. split_and!.
  - by apply Forall_app.
  - exists (F ++ F'). split; [eapply fits_app; [by apply fits_more | exact Hf']|]. by rewrite unacked_app, lost_of_app, HF, HF'.
  - apply sync_join; [done..|]. destruct Hj as [Hj|Hj]; [left; by apply Hc | by right].
  - intros Hcon. destruct (Hc' Hcon) as (Hq & Hset & Hne). split; [done|]. intros x Hx.
    destruct (decide (parse tr' = [])) as [He|He].
    + rewrite He, app_nil_r in Hx. destruct Hne as [Hne|Hne]; [|done]. by apply Hc.
    + apply Hset. rewrite last_app in Hx. destruct (last (parse tr')) eqn:Hl; [done|]. by apply last_None in Hl.
Qed.
End delivery.

(** C6: Every event reaches the scheduler, in order, or is given up with a queue that has become
    too old: take any life of the broker, with events, connections and failures of connections in
    any order, and on the other end of every connection a client as the scheduler runs it. Then
    the guild events the broker got are the ones [F] it is done with followed by those still
    queued. The ones of [F] it has no acknowledgement for are exactly those given up, each time by
    an event that came more than 60 seconds after the disconnection. The scheduler got the events
    in their order, each acknowledged one at least once and perhaps several times in a row; of
    the ones given up and of the first queued one it may have got some. *)
Theorem events_reach_scheduler `{!GuildCache, !EventCodec} E tr b cts :
  broker_run E tr b → wire (parse tr) cts →
  ∃ F R, E = F.*1 ++ b_queue b ∧ unacked F = lost_of tr ∧ Forall given_up_late tr ∧
    Some <$> concat (heard <$> cts) = (λ ge, guild_event_of ge.1 ge.2) <$> R ∧ hears (F ++ maybe_sent (b_queue b)) R.
Proof.
  intros Hrun Hw. destruct (broker_run_inv E tr b Hrun) as (Hlate & (F & Hf & HF) & Hs & _).
  destruct (wire_link (parse tr) cts Hw Hs) as (R & Hl & Hh). destruct (fits_hears E _ F _ R Hf Hl) as [HE HD].
  by exists F, R.
Qed.

(** * Examples *)

#[local] Existing Instance ex_cache.
#[local] Instance ex_codec : EventCodec :=
  {| event_type _ := "GUILD_CREATE"; decode_dispatch _ := Some (GuildCreate, Ret None) |}.

Definition ex_ev (n : nat) : Event := EvGuildCreate 7 n.

(** Two events come in while nothing is connected; the acknowledgement of the first one is lost, so
    it is sent again on the next connection. That one breaks with the third event, and the fourth
    one comes more than a minute later. *)
Definition ex_broker_trace : list BEv :=
  [BAddGuild 7; BAddGuild 7; BWriteHello [7; 7]; BGotAck; BWriteEvent 7 (ex_ev 1);
   BWriteHello [7; 7]; BGotAck; BWriteEvent 7 (ex_ev 1); BGotAck; BWriteEvent 7 (ex_ev 2); BGotAck;
   BAddGuild 7; BWriteEvent 7 (ex_ev 3); BAddGuild 7; BCleared 60000000001 [(7, ex_ev 3); (7, ex_ev 4)]].

Definition ex_inputs (l : list nat) : list (Z * Event) := (λ n, (7, ex_ev n)) <$> l.

Lemma ex_broker_run :
  broker_run (ex_inputs [1; 2; 3; 4]%nat) ex_broker_trace (mkBroker false [] 9 false ([7; 7; 7; 7] : list Z)).
Proof.
  refine (run_round (ex_inputs [1; 2; 3]%nat) (take 13 ex_broker_trace) (mkBroker false [(7, ex_ev 3)] 9 false ([7; 7; 7] : list Z))
    (InEvent (Some (ex_ev 4))) [BStored true; BNow 60000000010] _ [] _ _ eq_refl).
  refine (run_round (ex_inputs [1; 2]%nat) (take 11 ex_broker_trace) (mkBroker true [] 5 false ([7; 7] : list Z))
    (InEvent (Some (ex_ev 3))) [BStored true; BWritten false; BNow 9; BNow 10] _ [] _ _ eq_refl).
  refine (run_round (ex_inputs [1; 2]%nat) (take 5 ex_broker_trace) (mkBroker false [(7, ex_ev 1); (7, ex_ev 2)] 5 false ([7; 7] : list Z))
    (InCommand (Some tt)) [BWritten true; BAcked true; BWritten true; BAcked true; BWritten true; BAcked true] _ [] _ _ eq_refl).
  refine (run_round (ex_inputs [1; 2]%nat) (take 2 ex_broker_trace) (mkBroker false [(7, ex_ev 1); (7, ex_ev 2)] 0 false ([7; 7] : list Z))
    (InCommand (Some tt)) [BWritten true; BAcked true; BWritten true; BAcked false; BNow 5] _ [] _ _ eq_refl).
  refine (run_round (ex_inputs [1]%nat) (take 1 ex_broker_trace) (mkBroker false [(7, ex_ev 1)] 0 false ([7] : list Z))
    (InEvent (Some (ex_ev 2))) [BStored true; BNow 1] _ [] _ _ eq_refl).
  refine (run_round [] [] (broker_new 0 ([] : list Z)) (InEvent (Some (ex_ev 1))) [BStored true; BNow 1] _ [] _ _ eq_refl).
  constructor.
Qed.

(** The first client passes the event on but breaks before it has acknowledged it. *)
Definition ex_client1 : list CEv := trace_of (conn_run
  [CSent true; CRead (Some (MsHello [7; 7])); CSent true; CWritten true; CRead (Some (MsEvent 7 (ex_ev 1))); CSent true; CWritten false]).
Definition ex_client2 : list CEv := trace_of (conn_run
  [CSent true; CRead (Some (MsHello [7; 7])); CSent true; CWritten true; CRead (Some (MsEvent 7 (ex_ev 1))); CSent true; CWritten true;
   CRead (Some (MsEvent 7 (ex_ev 2))); CSent true; CWritten true; CRead None]).

Lemma events_reach_scheduler_witness :
  ∃ F R, ex_inputs [1; 2; 3; 4]%nat = F.*1 ++ [] ∧ unacked F = ex_inputs [3; 4]%nat ∧ Forall given_up_late ex_broker_trace ∧
    Some <$> concat (heard <$> [ex_client1; ex_client2]) = (λ ge, guild_event_of ge.1 ge.2) <$> R ∧ hears (F ++ []) R.
Proof.
  refine (events_reach_scheduler (ex_inputs [1; 2; 3; 4]%nat) ex_broker_trace (mkBroker false [] 9 false ([7; 7; 7; 7] : list Z))
    [ex_client1; ex_client2] ex_broker_run _).
  refine (wire_conn [7; 7] true [(MsEvent 7 (ex_ev 1), false)] ex_client1
    [(MsHello [7; 7], true); (MsEvent 7 (ex_ev 1), true); (MsEvent 7 (ex_ev 2), true); (MsEvent 7 (ex_ev 3), false)] [ex_client2] _ _ _).
  - by repeat constructor.
  - split; [by eexists|]. split; [by exists []|]. vm_compute. lia.
  - refine (wire_conn [7; 7] true [(MsEvent 7 (ex_ev 1), true); (MsEvent 7 (ex_ev 2), true); (MsEvent 7 (ex_ev 3), false)]
      ex_client2 [] [] _ _ wire_nil).
    + by repeat constructor.
    + split; [by eexists|]. split; [by exists [MsEvent 7 (ex_ev 3)]|]. vm_compute. lia.
Defined.

Example ex_heard_twice : length (heard ex_client1 ++ heard ex_client2) = 3%nat.
Proof. reflexivity. Qed.
