(* ===== verification/News.v ===== *)
(** The news of the web API ([cmd/webapi/src/news_poller.rs]): every five minutes the messages of
    the followed channels are fetched and shown, newest first; when a channel cannot be fetched the
    news stay as they were. *)
From Stdlib Require Import Ascii.
From stdpp Require Import base list strings pretty sorting.
From S2P Require Import Prelude ScriptStore Numbers Models ConfigStore.

(** [twilight_model::channel::{Message, Channel}], as far as the poller reads them. *)
Record NewsMessage := mkNewsMessage {
  nm_id : Z;
  nm_channel_id : Z;
  nm_content : string;
  nm_author_id : Z;
  nm_author_name : string;
  nm_avatar : option string;
  nm_timestamp_secs : Z;
}.
Record NewsChannel := mkNewsChannel { nc_id : Z; nc_name : option string }.

Record NewsAuthor := mkNewsAuthor { na_username : string; na_avatar_url : option string }.
Record NewsItem := mkNewsItem {
  ni_author : NewsAuthor;
  ni_message_id : Z;
  ni_channel_id : Z;
  ni_channel_name : string;
  ni_content : string;
  ni_posted_at : Z;
}.

Record NewsPoller := mkPoller {
  follow_channels : list Z;
  guild_channels : list NewsChannel;
  np_items : list NewsItem;
}.

(** [channel_messages(channel).limit(100)]: [None] is an error. *)
Inductive NResp := NMessages (r : option (list NewsMessage)).
Inductive NEv := NFetch (channel : Z) | NPublish (items : list NewsItem) | NSleep (nanos : Z).
Notation nio := (async NResp NEv).

Definition id_text (n : Z) : string := pretty (Z.to_N n).

Definition channel_name (channels : list NewsChannel) (channel_id : Z) : string :=
  match find_first (λ cv, nc_id cv =? channel_id) channels with
  | Some cv => default "" (nc_name cv)
  | None => id_text channel_id
  end.

Definition news_item (channels : list NewsChannel) (v : NewsMessage) : NewsItem :=
  mkNewsItem
    (mkNewsAuthor (nm_author_name v)
       ((λ hash, ("https://cdn.discordapp.com/avatars/" +:+ id_text (nm_author_id v) +:+ "/" +:+ hash +:+ ".png?size=256")%string) <$> nm_avatar v))
    (nm_id v) (nm_channel_id v) (channel_name channels (nm_channel_id v)) (nm_content v) (nm_timestamp_secs v * 1000).

(** [sort_by(|a, b| a.id.cmp(&b.id).reverse())] *)
Definition newer (a b : NewsMessage) : Prop := nm_id b ≤ nm_id a.
#[global] Instance newer_dec : RelDecision newer := λ a b, decide (nm_id b ≤ nm_id a).
#[global] Instance newer_total : Total newer.
Proof. intros a b. unfold newer. lia. Qed.
#[global] Instance newer_trans : Transitive newer.
Proof. intros a b c. unfold newer. lia. Qed.

Fixpoint fetch_channels (channels : list Z) (all_msgs : list NewsMessage) : nio (option (list NewsMessage)) :=
  match channels with
  | [] => aret (Some all_msgs)
  | channel :: channels =>
      emit (NFetch channel) ;;;
      let! r := await (λ r, match r with NMessages x => Some x end) in
      match r with
      | Some msgs => fetch_channels channels (all_msgs ++ msgs)
      | None => aret None
      end
  end.

Definition fetch (p : NewsPoller) : nio (option (list NewsItem)) :=
  let! r := fetch_channels (follow_channels p) [] in
  aret ((λ all_msgs, news_item (guild_channels p) <$> merge_sort newer all_msgs) <$> r).

(** One round of [run]; [get_items] reads [np_items]. *)
Definition poll_round (p : NewsPoller) : nio NewsPoller :=
  let! r := fetch p in
  match r with
  | Some items =>
      emit (NPublish items) ;;; emit (NSleep (from_secs 300)) ;;; aret (mkPoller (follow_channels p) (guild_channels p) items)
  | None => emit (NSleep (from_secs 300)) ;;; aret p
  end.

(** ** The poller set up by [main] *)

(** [str::split] at a character: a text without it is one piece, the empty text included. *)
Fixpoint split (sep : Ascii.ascii) (s : string) : list string :=
  match s with
  | EmptyString => [""]
  | String a s =>
      if bool_decide (a = sep) then "" :: split sep s
      else match split sep s with
           | [] => [String a ""]
           | piece :: pieces => String a piece :: pieces
           end
  end.

(** [Id::new(v.parse().unwrap())] of each piece of the configured text. *)
Definition parse_news_channels (news_channels : string) : outcome (list Z) :=
  map_outcome (λ v, do! n := unwrap (parse_u64 v) in id_new n) (split ","%char news_channels).

(** [NewsPoller::new], whose errors are unwrapped; [channels] is Discord's answer. *)
Definition poller_new (follow : list Z) (channels : option (list NewsChannel)) : outcome NewsPoller :=
  do! channels := unwrap channels in Ret (mkPoller follow channels []).

(** The news handle of [main]: a poller if a guild is configured, and no news otherwise. *)
Definition setup_news (news_guild : option Z) (news_channels : string) (channels : option (list NewsChannel)) : outcome (option NewsPoller) :=
  match news_guild with
  | None => Ret None
  | Some _ =>
      do! follow := parse_news_channels news_channels in
      do! p := poller_new follow channels in
      Ret (Some p)
  end.

(** * Properties *)

Lemma fetch_channels_outcome channels all :
  wp False (fetch_channels channels all) (λ r tr, ∀ l, r = Some l → ∃ ms, l = all ++ concat ms ∧ length ms = length channels).
Proof.
  revert all. induction channels as [|c channels IH]; intros all; simpl.
  { apply wp_ret. intros l [= <-]. exists []. by rewrite app_nil_r. }
  apply wp_bind, wp_emit, wp_bind, wp_await. intros _ [msgs|] _; [|by apply wp_ret].
  eapply wp_mono; [apply IH|done|]. intros r tr Hr l Hl. destruct (Hr l Hl) as (ms & -> & Hms).
  exists (msgs :: ms). simpl. by rewrite <- app_assoc, Hms.
Qed.

(** A round leaves the news as they were, or replaces them by one item for each message of all the
    followed channels, newest first. It does not panic. *)
Theorem news_newest_first p :
  wp False (poll_round p) (λ p' _, p' = p ∨
    StronglySorted (λ a b, ni_message_id b ≤ ni_message_id a) (np_items p') ∧
    ∃ ms, length ms = length (follow_channels p) ∧ np_items p' ≡ₚ news_item (guild_channels p) <$> concat ms).
Proof.
  unfold poll_round, fetch. apply wp_bind, wp_bind. eapply wp_mono; [apply fetch_channels_outcome|done|].
  intros [l|] tr Hl; apply wp_ret; simpl.
  - destruct (Hl l eq_refl) as (ms & -> & Hms). apply wp_bind, wp_emit, wp_bind, wp_emit, wp_ret. right. simpl. split.
    + eapply StronglySorted_fmap; [|apply (StronglySorted_merge_sort newer)]. done.
    + exists ms. split; [done|]. by rewrite merge_sort_Permutation.
  - apply wp_bind, wp_emit, wp_ret. by left.
Qed.

Example ex_news :
  poll_round (mkPoller [3; 4] [mkNewsChannel 4 (Some "updates")] [])
    [NMessages (Some [mkNewsMessage 10 3 "a" 1 "n" None 5]); NMessages (Some [mkNewsMessage 12 4 "b" 1 "n" (Some "h") 6])] =
  let items := [mkNewsItem (mkNewsAuthor "n" (Some "https://cdn.discordapp.com/avatars/1/h.png?size=256")) 12 4 "updates" "b" 6000;
                mkNewsItem (mkNewsAuthor "n" None) 10 3 "3" "a" 5000] in
  Done (mkPoller [3; 4] [mkNewsChannel 4 (Some "updates")] items) [] [NFetch 3; NFetch 4; NPublish items; NSleep 300000000000].
Proof. vm_compute. reflexivity. Qed.

(** ** The configured channels *)

Definition join_comma (l : list string) : string :=
  match l with
  | [] => ""
  | x :: l => x +:+ foldr (λ y acc, String ","%char (y +:+ acc)) "" l
  end.

Fixpoint without (c : Ascii.ascii) (s : string) : bool :=
  match s with
  | EmptyString => true
  | String a s => negb (bool_decide (a = c)) && without c s
  end.

Lemma split_piece sep x rest :
  without sep x = true → split sep (x +:+ String sep rest) = x :: split sep rest.
Proof.
  induction x as [|a x IH]; intros Hx.
  - change (EmptyString +:+ String sep rest)%string with (String sep rest). cbn [split]. by rewrite bool_decide_true.
  - change (String a x +:+ String sep rest)%string with (String a (x +:+ String sep rest)). cbn [split without] in *.
    apply andb_true_iff in Hx as [Ha Hx]. case_bool_decide; [done|]. by rewrite IH.
Qed.

Lemma split_last sep x : without sep x = true → split sep x = [x].
Proof.
  induction x as [|a x IH]; intros Hx; [done|]. cbn [split without] in *. apply andb_true_iff in Hx as [Ha Hx].
  case_bool_decide; [done|]. by rewrite IH.
Qed.

Lemma split_join l : l ≠ [] → Forall (λ x, without ","%char x = true) l → split ","%char (join_comma l) = l.
Proof.
  destruct l as [|x l]; [done|]. intros _ Hl. revert x Hl. induction l as [|y l IH]; intros x Hl; apply Forall_cons in Hl as [Hx Hl].
  - cbn [join_comma foldr]. rewrite append_nil_r. by apply split_last.
  - cbn [join_comma foldr]. rewrite split_piece by done. f_equal. by apply IH.
Qed.

Lemma digits_without_comma s : ∀ acc n, parse_digits acc s = Some n → without ","%char s = true.
Proof.
  induction s as [|c s IH]; intros acc n; [done|]. cbn [parse_digits without]. destruct (digit_value c) as [d|] eqn:Hd; simpl; [|done].
  destruct (_ <=? u64_max); [|done]. intros Hp. rewrite (IH _ _ Hp), andb_true_r. case_bool_decide; [subst; discriminate Hd|done].
Qed.

Lemma u64_without_comma s n : parse_u64 s = Some n → without ","%char s = true.
Proof.
  destruct s as [|c s]; [done|]. unfold parse_u64. case_bool_decide as Hc; [|apply digits_without_comma].
  case_bool_decide; [done|]. intros Hp. subst c. cbn [without]. by rewrite (digits_without_comma _ _ _ Hp).
Qed.

(** A configured list of channels is followed as it is written, once it has a channel. *)
Theorem configured_channels_followed guild l channels :
  l ≠ [] → Forall is_id l →
  setup_news (Some guild) (join_comma (u64_text <$> l)) (Some channels) = Ret (Some (mkPoller l channels [])).
Proof.
  intros Hne Hl. unfold setup_news, parse_news_channels. rewrite split_join.
  - assert (map_outcome (λ v, do! n := unwrap (parse_u64 v) in id_new n) (u64_text <$> l) = Ret l) as ->; [|done].
    clear Hne. induction Hl as [|n l [Hn Hm] _ IH]; [done|]. rewrite fmap_cons. cbn [map_outcome].
    assert (id_new n = Ret n) as Hid by (unfold id_new; destruct (Z.eqb_spec n 0); [lia|done]).
    rewrite parse_u64_text by lia. cbn [unwrap outcome_bind]. rewrite Hid. cbn [outcome_bind]. by rewrite IH.
  - by destruct l.
  - apply Forall_fmap. eapply Forall_impl; [done|]. intros n [Hn Hm]. apply (u64_without_comma _ n), parse_u64_text. lia.
Qed.

Lemma configured_channels_followed_witness :
  setup_news (Some 1) (join_comma (u64_text <$> [30; 4])) (Some []) = Ret (Some (mkPoller [30; 4] [] [])).
Proof.
  apply (configured_channels_followed 1 [30; 4] []); [discriminate|].
  apply Forall_cons; split; [|apply Forall_cons; split; [|apply Forall_nil; exact I]]; unfold is_id, u64_max; lia.
Defined.

(** The default of the channel list is the empty text, which is one piece and not a number: with a
    news guild and no channels the web server does not start. *)
Example news_guild_without_channels : setup_news (Some 1) "" (Some []) = Panic.
Proof. reflexivity. Qed.
