(* ===== verification/BlCmd.v ===== *)
(** The command line client ([cmd/blcmd]): a stored configuration with the user's API token, the
    commands that set it, test it and remove it, and the client of the web API they use.

    The network is an interface: what a GET of a URL with a token gives. The commands that are
    not written yet panic. *)
From Stdlib Require Import Ascii.
From stdpp Require Import base list strings.
From S2P Require Import Prelude ScriptStore.

(** * [str::trim]

    The characters with the property White_Space, as their bytes in UTF-8. *)

Fixpoint bytes (l : list nat) : string := match l with [] => "" | b :: l => String (ascii_of_nat b) (bytes l) end.

Definition white_space : list string :=
  bytes <$> ([[9]; [10]; [11]; [12]; [13]; [32]; [194; 133]; [194; 160]; [225; 154; 128]] ++
             ((λ b, [226; 128; b]) <$> [128; 129; 130; 131; 132; 133; 134; 135; 136; 137; 138; 168; 169; 175]) ++
             [[226; 129; 159]; [227; 128; 128]])%nat.

Fixpoint first_some {A B} (f : A → option B) (l : list A) : option B :=
  match l with
  | [] => None
  | a :: l => match f a with Some b => Some b | None => first_some f l end
  end.

Fixpoint strip_all (strip : string → string → option string) (fuel : nat) (s : string) : string :=
  match fuel with
  | O => s
  | S fuel => match first_some (λ w, strip w s) white_space with Some s => strip_all strip fuel s | None => s end
  end.

(** Each round removes a byte at least, so that the length is enough. *)
Definition trim (s : string) : string :=
  let s := strip_all strip_prefix (String.length s) s in
  strip_all strip_suffix (String.length s) s.

(** ** Trimming removes the white space around a text and nothing else *)

Inductive all_white : string → Prop :=
| white_nil : all_white ""
| white_app w s : w ∈ white_space → all_white s → all_white (w +:+ s).

Lemma first_some_Some {A B} (f : A → option B) l b : first_some f l = Some b → ∃ a, a ∈ l ∧ f a = Some b.
Proof.
  induction l as [|a l IH]; simpl; [done|]. destruct (f a) as [b'|] eqn:Hf; [intros [= ->]|]; [by exists a; split; [left|]|].
  intros Hl. destruct (IH Hl) as (a' & ? & ?). exists a'. split; [by right|done].
Qed.

Lemma first_some_None {A B} (f : A → option B) l : first_some f l = None ↔ ∀ a, a ∈ l → f a = None.
Proof.
  induction l as [|a l IH]; simpl; [split; [by intros _ a ?%elem_of_nil|done]|]. destruct (f a) as [b|] eqn:Hf.
  - split; [done|]. intros Ha. specialize (Ha a). rewrite Hf in Ha. discriminate Ha. by left.
  - rewrite IH. split; intros Hl a'; [intros [->|?]%elem_of_cons; eauto|intros ?; apply Hl; by right].
Qed.

Lemma white_space_not_empty w : w ∈ white_space → w ≠ "".
Proof. revert w. apply Forall_forall. vm_compute. repeat constructor; discriminate. Qed.

Lemma all_white_app a b : all_white a → all_white b → all_white (a +:+ b).
Proof. induction 1 as [|w a Hw _ IH]; intros Hb; [done|]. rewrite append_assoc. constructor; auto. Qed.

Lemma all_white_one w : w ∈ white_space → all_white w.
Proof. intros Hw. rewrite <- (append_nil_r w). constructor; [done|constructor]. Qed.

(** Stripping on one side, where [join] puts back what was removed. *)
Lemma strip_all_spec (strip : string → string → option string) (join : string → string → string) :
  (∀ w s r, strip w s = Some r → s = join w r) →
  (∀ w r, String.length (join w r) = (String.length w + String.length r)%nat) → (∀ r, join "" r = r) →
  (∀ w a r, w ∈ white_space → all_white a → ∃ a', all_white a' ∧ join w (join a r) = join a' r) →
  ∀ fuel s, (String.length s ≤ fuel)%nat →
  ∃ a, all_white a ∧ s = join a (strip_all strip fuel s) ∧ ∀ w, w ∈ white_space → strip w (strip_all strip fuel s) = None.
Proof.
  intros Hjoin Hlen Hnil Happ fuel. assert (∀ w s r, w ∈ white_space → strip w s = Some r → (String.length r < String.length s)%nat) as Hlt.
  { intros w s r Hw Hs. rewrite (Hjoin _ _ _ Hs), Hlen. apply white_space_not_empty in Hw. destruct w; [done|]. simpl. lia. }
  induction fuel as [|fuel IH]; intros s Hfuel; cbn [strip_all].
  { exists "". split_and!; [constructor|done|]. intros w Hw. destruct (strip w s) as [r|] eqn:Hs; [|done].
    pose proof (Hlt w s r Hw Hs). lia. }
  destruct (first_some (λ w, strip w s) white_space) as [r|] eqn:Hr.
  - apply first_some_Some in Hr as (w & Hw & Hs). destruct (IH r) as (a & Ha & Heq & Hnone); [pose proof (Hlt w s r Hw Hs); lia|].
    destruct (Happ w a (strip_all strip fuel r) Hw Ha) as (a' & Ha' & Hj). exists a'. split; [done|]. split; [|exact Hnone].
    rewrite <- Hj, <- Heq. by apply Hjoin.
  - exists "". split_and!; [constructor|done|]. by apply first_some_None.
Qed.

(** [trim]: the text without the white space around it, of which none is left at its ends. *)
Theorem trim_spec s :
  ∃ a b, all_white a ∧ all_white b ∧ s = (a +:+ trim s +:+ b)%string ∧
         ∀ w, w ∈ white_space → strip_prefix w (trim s) = None ∧ strip_suffix w (trim s) = None.
Proof.
  unfold trim. destruct (strip_all_spec strip_prefix (λ w r, w +:+ r)%string) with (fuel := String.length s) (s := s)
    as (a & Ha & Hs & Hpre); [by intros w s' r ?%strip_prefix_Some|apply append_length|done| |done|].
  { intros w a r Hw Ha. exists (w +:+ a)%string. split; [by constructor|]. by rewrite append_assoc. }
  set (s1 := strip_all strip_prefix (String.length s) s) in *.
  destruct (strip_all_spec strip_suffix (λ w r, r +:+ w)%string) with (fuel := String.length s1) (s := s1)
    as (b & Hb & Hs1 & Hsuf); [apply strip_suffix_Some|intros; rewrite append_length; lia|apply append_nil_r| |done|].
  { intros w b r Hw Hb. exists (b +:+ w)%string. split; [apply all_white_app; [done|by apply all_white_one]|]. by rewrite append_assoc. }
  set (t := strip_all strip_suffix (String.length s1) s1) in *. exists a, b. split_and!; [done..|congruence|].
  intros w Hw. split; [|by apply Hsuf]. destruct (strip_prefix w t) as [r|] eqn:Ht; [|done]. apply strip_prefix_Some in Ht.
  specialize (Hpre w Hw). rewrite Hs1, Ht, append_assoc in Hpre.
  by rewrite (proj2 (strip_prefix_Some w _ (r +:+ b)%string) eq_refl) in Hpre.
Qed.

(** * api_client.rs *)

Record ApiClient := mkApiClient { ac_token : string; ac_base_url : string }.
Definition api_client_new (token base_url : string) : ApiClient := mkApiClient token base_url.

(** [CurrentUser], of which the commands use two texts. *)
Record ApiUser := mkApiUser { au_name : string; au_discriminator : string }.

(** A response: its status, its text, if it can be read, and its JSON, if it decodes. *)
Record ApiResponse := mkApiResponse { ar_status : Z; ar_text : option string; ar_json : option ApiUser }.

Inductive CmdError :=
| SendFailed
| ApiFailed (status : Z) (body : string)
| TextFailed
| JsonFailed
| StdinFailed
| LoadFailed
| StoreFailed.

(** A GET of a URL with its Authorization header. *)
Class Network := send_get : string → string → option ApiResponse.

Definition is_success (status : Z) : bool := (200 <=? status) && (status <? 300).

Section client.
Context `{!Network}.

Definition api_get (c : ApiClient) (path : string) : result CmdError ApiUser :=
  match send_get (ac_base_url c +:+ "/" +:+ path) (ac_token c) with
  | None => Err SendFailed
  | Some resp =>
      if is_success (ar_status resp) then
        match ar_json resp with Some u => Ok u | None => Err JsonFailed end
      else
        match ar_text resp with Some body => Err (ApiFailed (ar_status resp) body) | None => Err TextFailed end
  end.

Definition get_self_user (c : ApiClient) : result CmdError ApiUser := api_get c "api/current_user".
End client.

(** * main.rs *)

Record CmdConfig := mkCmdConfig { api_host : string; api_token : string; api_use_https : bool }.
#[global] Instance CmdConfig_eq_dec : EqDecision CmdConfig.
Proof. solve_decision. Defined.

Definition config_default : CmdConfig := mkCmdConfig "api.botloader.io" "" true.

Definition config_api_client (c : CmdConfig) : ApiClient :=
  let proto := if api_use_https c then "https://" else "http" in
  api_client_new (api_token c) (proto +:+ api_host c).

(** What a command prints. *)
Inductive CmdOutput := AskToken | LoggedInAs (name discriminator : string) | NotLoggedIn | LoginRemoved.

Inductive CmdCommand :=
| CmdLogin | CmdLogout | CmdStatus | CmdSync
| CmdPushAllChanges | CmdUpdateScript | CmdDelScript | CmdCreateScript
| CmdPublishVersion | CmdStartDevSession | CmdStopDevSession.

(** [confy::load] and [confy::store], which keep the configuration in a file of the user's home. *)
Class Confy (Home : Type) := {
  confy_load : Home → Home * result CmdError CmdConfig;
  confy_store : CmdConfig → Home → Home * result CmdError unit;
}.

(** What is stored is loaded, and a load that succeeds can be repeated. *)
Class ConfyLaws (Home : Type) (C : Confy Home) : Prop := {
  confy_load_again : ∀ h h' c, confy_load h = (h', Ok c) → confy_load h' = (h', Ok c);
  confy_load_stored : ∀ c h h', confy_store c h = (h', Ok tt) → confy_load h' = (h', Ok c);
}.

Section commands.
Context `{!Network, !Confy Home}.

(** What a command gives: the home, and what it printed. *)
Definition cmd_result : Type := Home * list CmdOutput * result CmdError unit.

(** [stdin] is the line read, if it can be. *)
Definition login (config : CmdConfig) (stdin : option string) (h : Home) : cmd_result :=
  match stdin with
  | None => (h, [AskToken], Err StdinFailed)
  | Some s =>
      let new_config := mkCmdConfig (api_host config) (trim s) (api_use_https config) in
      match get_self_user (config_api_client new_config) with
      | Err e => (h, [AskToken], Err e)
      | Ok u =>
          let (h, r) := confy_store new_config h in
          (h, [AskToken; LoggedInAs (au_name u) (au_discriminator u)], r)
      end
  end.

Definition check_login (config : CmdConfig) (h : Home) : cmd_result :=
  if bool_decide (api_token config = "") then (h, [NotLoggedIn], Ok tt)
  else
    match get_self_user (config_api_client config) with
    | Err e => (h, [], Err e)
    | Ok u => (h, [LoggedInAs (au_name u) (au_discriminator u)], Ok tt)
    end.

Definition logout (config : CmdConfig) (h : Home) : cmd_result :=
  if bool_decide (api_token config = "") then (h, [NotLoggedIn], Ok tt)
  else
    match confy_store (mkCmdConfig (api_host config) "" (api_use_https config)) h with
    | (h, Ok _) => (h, [LoginRemoved], Ok tt)
    | (h, Err e) => (h, [], Err e)
    end.

Definition cmd_main (cmd : CmdCommand) (stdin : option string) (h : Home) : outcome cmd_result :=
  match confy_load h with
  | (h, Err e) => Ret (h, [], Err e)
  | (h, Ok config) =>
      match cmd with
      | CmdLogin => Ret (login config stdin h)
      | CmdLogout => Ret (logout config h)
      | CmdStatus => Ret (check_login config h)
      | _ => Panic
      end
  end.

(** * Facts *)

(** A login keeps a token only when the API knows it. When the API answers the trimmed line with a
    user and the configuration can be stored, the next status shows that user, and after a logout
    nobody; in every other case the login fails and the configuration is the one there was. *)
Theorem login_keeps_accepted_token `{!ConfyLaws Home _} h h0 c line :
  confy_load h = (h0, Ok c) → trim line ≠ "" →
  let c' := mkCmdConfig (api_host c) (trim line) (api_use_https c) in
  match get_self_user (config_api_client c'), confy_store c' h0 with
  | Ok u, (h1, Ok _) =>
      let shown := LoggedInAs (au_name u) (au_discriminator u) in
      cmd_main CmdLogin (Some line) h = Ret (h1, [AskToken; shown], Ok tt) ∧
      cmd_main CmdStatus None h1 = Ret (h1, [shown], Ok tt) ∧
      (∀ h2, confy_store (mkCmdConfig (api_host c) "" (api_use_https c)) h1 = (h2, Ok tt) →
         cmd_main CmdLogout None h1 = Ret (h2, [LoginRemoved], Ok tt) ∧ cmd_main CmdStatus None h2 = Ret (h2, [NotLoggedIn], Ok tt))
  | Ok u, (h1, Err e) => cmd_main CmdLogin (Some line) h = Ret (h1, [AskToken; LoggedInAs (au_name u) (au_discriminator u)], Err e)
  | Err e, _ => cmd_main CmdLogin (Some line) h = Ret (h0, [AskToken], Err e) ∧ confy_load h0 = (h0, Ok c)
  end.
Proof.
  intros Hl Ht. unfold cmd_main. rewrite Hl. unfold login. cbv zeta. simpl.
  destruct (get_self_user _) as [u|e] eqn:Hu; [|by eauto using confy_load_again].
  destruct (confy_store _ h0) as [h1 [[]|e]] eqn:Hs; [|done]. split; [done|].
  rewrite (confy_load_stored _ _ _ Hs). unfold check_login, logout. simpl. rewrite bool_decide_false, Hu by done. split; [done|].
  intros h2 Hs2. rewrite Hs2. split; [done|]. by rewrite (confy_load_stored _ _ _ Hs2).
Qed.
End commands.

(** * Examples *)

(** A home with a file, or none, that can be written; an absent file is written with the default. *)
#[local] Instance ex_confy : Confy (option CmdConfig) := {|
  confy_load h := (Some (default config_default h), Ok (default config_default h));
  confy_store c _ := (Some c, Ok tt);
|}.

#[local] Instance ex_confy_laws : ConfyLaws (option CmdConfig) ex_confy.
Proof. split; [by intros h h' c [= <- <-]|by intros c h h' [= <-]]. Qed.

(** An API that knows one token. *)
#[local] Instance ex_network : Network := λ url token,
  if bool_decide (url = "https://api.botloader.io/api/current_user") then
    Some (if bool_decide (token = "t0k") then mkApiResponse 200 (Some "{}") (Some (mkApiUser "ann" "0001")) else mkApiResponse 401 (Some "no") None)
  else None.

Lemma login_keeps_accepted_token_witness :
  cmd_main CmdLogin (Some (" t0k" +:+ bytes [13; 10]%nat)) (None : option CmdConfig) =
    Ret (Some (mkCmdConfig "api.botloader.io" "t0k" true), [AskToken; LoggedInAs "ann" "0001"], Ok tt) ∧
  cmd_main CmdStatus None (Some (mkCmdConfig "api.botloader.io" "t0k" true)) =
    Ret (Some (mkCmdConfig "api.botloader.io" "t0k" true), [LoggedInAs "ann" "0001"], Ok tt).
Proof.
  assert (trim (" t0k" +:+ bytes [13; 10]%nat) ≠ "") as Ht by (vm_compute; discriminate).
  pose proof (login_keeps_accepted_token (Home := option CmdConfig) None (Some config_default) config_default _ eq_refl Ht) as Hw.
  split; [exact (proj1 Hw) | exact (proj1 (proj2 Hw))].
Defined.

(** Without TLS the URL has no separator after its scheme, and no request can be sent. *)
Example plain_http_url : ac_base_url (config_api_client (mkCmdConfig "localhost:7447" "t" false)) = "httplocalhost:7447".
Proof. reflexivity. Qed.
